(** * Feature selection (GPU picking) of the map renderer

  A shallow embedding of [src/selection.js]: the static, per-worker
  selection map (colour keys, tile registry, selection groups) and the
  main-thread [FeatureSelection] instance (request queue, debounced
  read-back, worker round trips, per-state cache), together with the
  properties of the specification that concern them. *)

From Stdlib Require Import ZArith QArith Qround Qabs Qpower Lia Ascii String.
From stdpp Require Import gmap strings list pretty.

#[local] Set Warnings "-register-all".
Local Open Scope Z_scope.

(** ** JavaScript numbers, values and built-ins used by the class *)

Module JS.

(** Numbers are integers here ([Z]); the 32-bit conversions that the
    bitwise operators apply to their operands are written out. *)
Definition to_int32 (x : Z) : Z := (x + 2 ^ 31) mod 2 ^ 32 - 2 ^ 31.
Definition to_uint32 (x : Z) : Z := x mod 2 ^ 32.

(** [a & b], [a << n], [a >> n] and [a >>> n]. *)
Definition band (a b : Z) : Z := Z.land (to_int32 a) (to_int32 b).
Definition shl (a n : Z) : Z := to_int32 (Z.shiftl (to_int32 a) (to_uint32 n mod 32)).
Definition sar (a n : Z) : Z := Z.shiftr (to_int32 a) (to_uint32 n mod 32).
Definition ushr (a n : Z) : Z := Z.shiftr (to_uint32 a) (to_uint32 n mod 32).

(** A store into a [Uint8Array] element. *)
Definition to_uint8 (x : Z) : Z := x mod 256.

(** *** Doubles

    The numbers that are not integers here are finite doubles, written
    as exact fractions.  An arithmetic operation on doubles returns
    the double nearest to the exact result, the one with the even
    significand when two are equally near; [round_double] is that
    rounding to 53 significant bits, for results in the exponent range
    of the normal doubles. *)

(** [floor (log2 q)], for [0 < q]. *)
Definition binade (q : Q) : Z :=
  let k := Z.log2 (Qnum q) - Z.log2 (Zpos (Qden q)) in
  if Qle_bool (2 ^ k) q then k else k - 1.

(** The integer nearest to [q], the even one of two equally near. *)
Definition round_half_even (q : Q) : Z :=
  let f := Qfloor q in
  match (q - inject_Z f ?= 1 # 2)%Q with
  | Lt => f
  | Gt => f + 1
  | Eq => if Z.even f then f else f + 1
  end.

Definition round_double (q : Q) : Q :=
  if Qeq_bool q 0 then 0%Q
  else
    let e := binade (Qabs q) - 52 in
    (inject_Z (round_half_even (q * 2 ^ (- e))) * 2 ^ e)%Q.

(** Plain data as it crosses the worker boundary or sits in feature
    properties.  Numbers are the integer-valued ones; an object is the
    list of its own properties in enumeration order. *)
Inductive value : Type :=
| Undefined
| Null
| Bool (b : bool)
| Num (n : Z)
| Str (s : string)
| Arr (items : list value)
| Obj (props : list (string * value)).

(** ToBoolean: what [if (v)], [!v] and [v || w] test. *)
Definition truthy (v : value) : bool :=
  match v with
  | Undefined | Null => false
  | Bool b => b
  | Num n => negb (n =? 0)
  | Str s => negb (String.eqb s EmptyString)
  | Arr _ | Obj _ => true
  end.

(** [sep.join(parts)]. *)
Fixpoint join (sep : string) (parts : list string) : string :=
  match parts with
  | [] => EmptyString
  | [p] => p
  | p :: rest => p +:+ sep +:+ join sep rest
  end.

(** ToString, as applied by ['' + v]: an array is its elements joined
    by commas, with [null] and [undefined] elements left empty. *)
Fixpoint to_string (v : value) : string :=
  match v with
  | Undefined => "undefined"
  | Null => "null"
  | Bool b => if b then "true" else "false"
  | Num n => pretty n
  | Str s => s
  | Arr items =>
      join "," ((fix each (l : list value) : list string :=
                   match l with
                   | [] => []
                   | Undefined :: l' | Null :: l' => EmptyString :: each l'
                   | x :: l' => to_string x :: each l'
                   end) items)
  | Obj _ => "[object Object]"
  end.

(** [o[name]] on a plain object; a missing property reads [undefined]. *)
Fixpoint get (props : list (string * value)) (name : string) : value :=
  match props with
  | [] => Undefined
  | (k, v) :: rest => if String.eqb k name then v else get rest name
  end.

(** *** JSON.stringify *)

Definition hex_digit (n : N) : ascii :=
  match n with
  | 0%N => "0" | 1%N => "1" | 2%N => "2" | 3%N => "3" | 4%N => "4"
  | 5%N => "5" | 6%N => "6" | 7%N => "7" | 8%N => "8" | 9%N => "9"
  | 10%N => "a" | 11%N => "b" | 12%N => "c" | 13%N => "d" | 14%N => "e"
  | _ => "f"
  end%char.

(** The escape of one character inside a JSON string literal. *)
Definition escape_char (c : ascii) : string :=
  let n := N_of_ascii c in
  if (n =? 34)%N then String "\" (String c EmptyString)
  else if (n =? 92)%N then "\\"
  else if (n =? 8)%N then "\b"
  else if (n =? 9)%N then "\t"
  else if (n =? 10)%N then "\n"
  else if (n =? 12)%N then "\f"
  else if (n =? 13)%N then "\r"
  else if (n <? 32)%N then
    "\u00" +:+ String (hex_digit (n / 16)) (String (hex_digit (n mod 16)) EmptyString)
  else String c EmptyString.

Fixpoint escape (s : string) : string :=
  match s with
  | EmptyString => EmptyString
  | String c rest => escape_char c +:+ escape rest
  end.

Definition quote (s : string) : string :=
  String (ascii_of_N 34) (escape s +:+ String (ascii_of_N 34) EmptyString).

(** [JSON.stringify(v)]; [None] is the result [undefined].  An
    [undefined] array element is written [null], a property whose
    value is [undefined] is left out. *)
Fixpoint stringify (v : value) : option string :=
  match v with
  | Undefined => None
  | Null => Some "null"
  | Bool b => Some (if b then "true" else "false")
  | Num n => Some (pretty n)
  | Str s => Some (quote s)
  | Arr items =>
      Some ("[" +:+
            join "," ((fix each (l : list value) : list string :=
                         match l with
                         | [] => []
                         | x :: l' => default "null" (stringify x) :: each l'
                         end) items) +:+ "]")
  | Obj props =>
      Some ("{" +:+
            join "," ((fix each (l : list (string * value)) : list string :=
                         match l with
                         | [] => []
                         | (k, x) :: l' =>
                             match stringify x with
                             | Some t => (quote k +:+ ":" +:+ t) :: each l'
                             | None => each l'
                             end
                         end) props) +:+ "}")
  end.

(** No value inside [v] is [undefined]. *)
Fixpoint defined (v : value) : bool :=
  match v with
  | Undefined => false
  | Arr items => forallb defined items
  | Obj props => forallb (fun kv => defined kv.2) props
  | _ => true
  end.

(** Induction over values, through arrays and objects. *)
Section value_induction.
Variable P : value -> Prop.
Hypothesis HUndefined : P Undefined.
Hypothesis HNull : P Null.
Hypothesis HBool : forall b, P (Bool b).
Hypothesis HNum : forall n, P (Num n).
Hypothesis HStr : forall s, P (Str s).
Hypothesis HArr : forall items, Forall P items -> P (Arr items).
Hypothesis HObj : forall props, Forall (fun kv => P kv.2) props -> P (Obj props).

Fixpoint value_induction (v : value) : P v :=
  match v with
  | Undefined => HUndefined
  | Null => HNull
  | Bool b => HBool b
  | Num n => HNum n
  | Str s => HStr s
  | Arr items =>
      HArr items
        ((fix go (l : list value) : Forall P l :=
            match l with
            | [] => @List.Forall_nil _ P
            | x :: l' => @List.Forall_cons _ P x l' (value_induction x) (go l')
            end) items)
  | Obj props =>
      HObj props
        ((fix go (l : list (string * value)) : Forall (fun kv => P kv.2) l :=
            match l with
            | [] => @List.Forall_nil _ _
            | kv :: l' => @List.Forall_cons _ (fun kv => P kv.2) kv l' (value_induction kv.2) (go l')
            end) props)
  end.
End value_induction.

End JS.

(** ** The static selection map of one worker

  [FeatureSelection.map], [tiles], [groups] and the counters are static
  properties, so there is one copy per module instance, that is, per
  worker. *)

Module Static.
Import JS.

(** The subset of a tile that [createSelector] reads and copies. *)
Record Tile : Type := {
  tile_key : string;
  tile_coords : Z * Z * Z;
  tile_style_zoom : Z;
  tile_source : string;
  tile_generation : Z
}.

(** [this.tiles[key]]: [{ entries: [...], tile: {...} }]. *)
Record TileEntry : Type := {
  entries : list Z;
  tile : Tile
}.

(** [selector.feature]. *)
Record SelectorFeature : Type := {
  properties : list (string * value);
  source_name : string;
  source_layer : string;
  layers : list string;
  feature_tile : Tile;
  feature_hover_color : value;
  feature_click_color : value
}.

(** [selector.group]: [{ index, key, value }]. *)
Record Group : Type := {
  index : list Z;
  key : string;
  value : JS.value
}.

(** An entry of [this.map]; [color] holds [ir / 255] and so on, as
    exact fractions. *)
Record Selector : Type := {
  color : list Q;
  feature : option SelectorFeature;
  group : option Group
}.

Record Statics : Type := {
  map : gmap Z Selector;
  tiles : gmap string TileEntry;
  groups : gmap string (list Z);
  group_index : Z;
  map_size : Z;
  map_index : Z;
  map_prefix : Z
}.

(** The values assigned after the class body. *)
Definition initial : Statics :=
  {| map := ∅; tiles := ∅; groups := ∅; group_index := 0;
     map_size := 0; map_index := 0; map_prefix := 0 |}.

Definition reset (st : Statics) : Statics :=
  {| map := ∅; tiles := ∅; groups := ∅; group_index := group_index st;
     map_size := 0; map_index := 0; map_prefix := map_prefix st |}.

(** The body of [clearTile] is commented out. *)
Definition clearTile (st : Statics) (k : string) : Statics := st.

Definition getMapSize (st : Statics) : Z := map_size st.

Definition setPrefix (st : Statics) (prefix : Z) : Statics :=
  {| map := map st; tiles := tiles st; groups := groups st;
     group_index := group_index st; map_size := map_size st;
     map_index := map_index st; map_prefix := prefix |}.

(** The three colour bytes cut out of a counter. *)
Definition byte0 (n : Z) : Z := band n 255.
Definition byte1 (n : Z) : Z := band (sar n 8) 255.
Definition byte2 (n : Z) : Z := band (sar n 16) 255.

(** [(ir + (ig << 8) + (ib << 16) + (ia << 24)) >>> 0]. *)
Definition color_key (ir ig ib ia : Z) : Z :=
  ushr (ir + shl ig 8 + shl ib 16 + shl ia 24) 0.

(** [createSelector(tile)].  The object returned is [this.map[key]];
    the model returns its key next to the new statics. *)
Definition createSelector (st : Statics) (t : Tile) : Statics * Z :=
  let map_index' := map_index st + 1 in
  let ir := byte0 map_index' in
  let ig := byte1 map_index' in
  let ib := byte2 map_index' in
  let ia := map_prefix st in
  let r := (ir # 255)%Q in
  let g := (ig # 255)%Q in
  let b := (ib # 255)%Q in
  let a := (ia # 255)%Q in
  let k := color_key ir ig ib ia in
  let map' := <[k := {| color := [r; g; b; a]; feature := None; group := None |}]> (map st) in
  let tiles' :=
    match tiles st !! tile_key t with
    | Some _ => tiles st
    | None =>
        <[tile_key t :=
            {| entries := [];
               tile := {| tile_key := tile_key t;
                          tile_coords := tile_coords t;
                          tile_style_zoom := tile_style_zoom t;
                          tile_source := tile_source t;
                          tile_generation := tile_generation t |} |}]> (tiles st)
    end in
  let tiles'' :=
    alter (fun e => {| entries := entries e ++ [k]; tile := tile e |}) (tile_key t) tiles' in
  ({| map := map'; tiles := tiles''; groups := groups st;
      group_index := group_index st; map_size := map_size st + 1;
      map_index := map_index'; map_prefix := map_prefix st |}, k).

(** The arguments of [getSelector] other than the tile. *)
Record Feature : Type := { feature_properties : list (string * JS.value) }.

Record Context : Type := {
  context_source : string;
  context_layer : string;
  context_layers : list string
}.

(** [draw.selection_prop] is a function of the context or the name of
    a feature property. *)
Inductive SelectionProp : Type :=
| PropFunction (f : Context -> JS.value)
| PropName (name : string).

Record Draw : Type := {
  selection_prop : SelectionProp;
  selection_group : string;
  hover_color : JS.value;
  click_color : JS.value
}.

Definition no_group : list Z := [255; 255; 255; 255].

Definition group_value_of (f : Feature) (draw : Draw) (context : Context) : JS.value :=
  match selection_prop draw with
  | PropFunction fn => fn context
  | PropName name => get (feature_properties f) name
  end.

Definition group_key_of (draw : Draw) (group_value : JS.value) : string :=
  selection_group draw +:+ ":" +:+ to_string group_value.

Definition set_selector (st : Statics) (k : Z) (upd : Selector -> Selector) : Statics :=
  {| map := alter upd k (map st); tiles := tiles st; groups := groups st;
     group_index := group_index st; map_size := map_size st;
     map_index := map_index st; map_prefix := map_prefix st |}.

(** The lookup in [this.groups], allocating the next index colour when
    the key is new. *)
Definition lookup_group (st : Statics) (group_key : string) : Statics * list Z :=
  match groups st !! group_key with
  | Some g => (st, g)
  | None =>
      let group_index' := group_index st + 1 in
      let r := band group_index' 255 in
      let g := band (sar group_index' 8) 255 in
      let b := band (sar group_index' 16) 255 in
      ({| map := map st; tiles := tiles st;
          groups := <[group_key := [r; g; b; 255]]> (groups st);
          group_index := group_index'; map_size := map_size st;
          map_index := map_index st; map_prefix := map_prefix st |},
       [r; g; b; 255])
  end.

(** [getSelector(feature, draw, tile, context)]; returns the key of
    the selector, as [createSelector] does.  [this.tiles[tile.key]]
    exists when it is read, [createSelector] having made sure of it. *)
Definition getSelector (st : Statics) (f : Feature) (draw : Draw) (t : Tile)
    (context : Context) : Statics * Z :=
  let group_value := group_value_of f draw context in
  let group_key := group_key_of draw group_value in
  let '(st1, k) := createSelector st t in
  let tile_info := match tiles st1 !! tile_key t with
                   | Some e => tile e
                   | None => t
                   end in
  let st2 := set_selector st1 k (fun sel =>
    {| color := color sel;
       feature := Some {| properties := feature_properties f;
                          source_name := context_source context;
                          source_layer := context_layer context;
                          layers := context_layers context;
                          feature_tile := tile_info;
                          feature_hover_color := hover_color draw;
                          feature_click_color := click_color draw |};
       group := group sel |}) in
  let '(st3, grp) :=
    if truthy group_value then
      let '(st', g) := lookup_group st2 group_key in (st', Some g)
    else (st2, None) in
  let st4 := set_selector st3 k (fun sel =>
    {| color := color sel;
       feature := feature sel;
       group := Some {| index := default no_group grp;
                        key := group_key;
                        value := group_value |} |}) in
  (st4, k).

(** The index colour that [getSelector] cuts out of a group counter. *)
Definition group_color (n : Z) : list Z :=
  [band n 255; band (sar n 8) 255; band (sar n 16) 255; 255].

(** A run of [createSelector] calls, one per tile, with the keys of
    the selectors it returned. *)
Fixpoint createSelectors (st : Statics) (ts : list Tile) : Statics * list Z :=
  match ts with
  | [] => (st, [])
  | t :: ts' =>
      let '(st1, k) := createSelector st t in
      let '(st2, ks) := createSelectors st1 ts' in
      (st2, k :: ks)
  end.

(** One [getSelector] call. *)
Record Call : Type := {
  call_feature : Feature;
  call_draw : Draw;
  call_tile : Tile;
  call_context : Context
}.

Definition selector_group (st : Statics) (k : Z) : option Group :=
  sel ← map st !! k; group sel.


End Static.

(** ** The shape of JSON texts *)

Module Json.
Import JS.

(** Characters that neither end a value nor open a string, an array or
    an object. *)
Definition plain (c : ascii) : Prop :=
  c <> ","%char /\ c <> "]"%char /\ c <> "}"%char /\
  c <> ascii_of_N 34 /\ c <> "["%char /\ c <> "{"%char.

Fixpoint all_plain (t : string) : Prop :=
  match t with
  | EmptyString => True
  | String c t' => plain c /\ all_plain t'
  end.

(** What can follow a value inside a text: nothing, or one of the
    characters that end it. *)
Definition ended (r : string) : Prop :=
  r = EmptyString \/
  exists c r', r = String c r' /\ (c = ","%char \/ c = "]"%char \/ c = "}"%char).

(** The characters of numbers: plain, and not the first letter of
    [null], [true] or [false]. *)
Definition numeric (c : ascii) : Prop :=
  plain c /\ c <> "n"%char /\ c <> "t"%char /\ c <> "f"%char.

Fixpoint all_numeric (t : string) : Prop :=
  match t with
  | EmptyString => True
  | String c t' => numeric c /\ all_numeric t'
  end.

(** The texts of the elements of an array and of the members of an
    object, as [stringify] joins them. *)
Definition texts (items : list value) : list string :=
  (fun x => default "null"%string (stringify x)) <$> items.

Definition members (props : list (string * value)) : list string :=
  omap (fun kv => (fun t => quote kv.1 +:+ ":" +:+ t) <$> stringify kv.2) props.

(** A joined sequence followed by its closing bracket, read from the
    left: the first text, then a comma and a text for each other one,
    then [close]. *)
Fixpoint tail_text (ts : list string) (close : string) : string :=
  match ts with
  | [] => close
  | t :: ts' => "," +:+ t +:+ tail_text ts' close
  end.

Definition seq_text (ts : list string) (close : string) : string :=
  match ts with
  | [] => close
  | t :: ts' => t +:+ tail_text ts' close
  end.

(** The text of [v] is not the beginning of the text of another
    value: where two texts of values, each followed by the rest of a
    text, are the same, the values and the rests are the same. *)
Definition splits (v : value) : Prop :=
  forall v' t t' r r', defined v' = true ->
    stringify v = Some t -> stringify v' = Some t' -> ended r -> ended r' ->
    t +:+ r = t' +:+ r' -> v = v' /\ r = r'.

(** The value that [JSON.stringify] writes in place of [v]: a
    property whose value is [undefined] is left out, an [undefined]
    element of an array is [null]. *)
Fixpoint as_written (v : value) : value :=
  match v with
  | Arr items =>
      Arr ((fix each (l : list value) : list value :=
              match l with
              | [] => []
              | Undefined :: l' => Null :: each l'
              | x :: l' => as_written x :: each l'
              end) items)
  | Obj props =>
      Obj ((fix each (l : list (string * value)) : list (string * value) :=
              match l with
              | [] => []
              | (k, Undefined) :: l' => each l'
              | (k, x) :: l' => (k, as_written x) :: each l'
              end) props)
  | _ => v
  end.

(** The elements and the properties that are written. *)
Definition written_items (items : list value) : list value :=
  (fun x => match x with Undefined => Null | _ => as_written x end) <$> items.

Definition written_props (props : list (string * value)) : list (string * value) :=
  omap (fun kv => match kv.2 with
                  | Undefined => None
                  | x => Some (kv.1, as_written x)
                  end) props.

End Json.

(** ** The main-thread instance

  One [FeatureSelection] object, with the part of its surroundings
  that its methods act on: the selection objects it hands out, the
  time-outs it sets, the messages it posts to workers, the promises
  it settles, its log lines and its calls into GL. *)

Module Main.
Import JS.

(** A worker handle of the pool, a selection object, a time-out. *)
Abbreviation Worker := nat (only parsing).
Abbreviation Loc := nat (only parsing).
Abbreviation Timer := nat (only parsing).

(** A feature as a worker sends it: a plain object. *)
Definition Feature : Type := list (string * value).

Definition Group : Type := Static.Group.

(** [{ x, y }], normalised viewport coordinates: finite doubles, as
    exact fractions. *)
Record Point : Type := { point_x : Q; point_y : Q }.

(** An entry of [this.requests].  [state] is the optional state name
    given to [getFeatureAt]; [sent] is [false] until it is set.  The
    [resolve] and [reject] functions of the entry act on the promise
    of the request, which [settled] below records under [id]. *)
Record Request : Type := {
  id : Z;
  point : Point;
  state : option string;
  sent : bool
}.

(** What a worker answers to 'self.getFeatureSelection', and the
    argument of [finishRead].  [None] is a field that is [null],
    [undefined] or missing: the class tests features with [!= null]
    and by truth value only. *)
Record Message : Type := {
  msg_id : Z;
  msg_feature : option Feature;
  msg_group : option Group
}.

(** The object a request is resolved with,
    [{ feature, changed, request, selection_colors, group }]; it is
    also what [this.states] holds, where [updateState] adds
    [update_pending].  [sel_request] names the request by its id. *)
Record Selection : Type := {
  sel_feature : option Feature;
  changed : bool;
  sel_request : Z;
  selection_colors : list value;
  sel_group : option Group;
  update_pending : bool
}.

Inductive Settlement : Type :=
| Resolved (request : Z) (selection : Loc)
| Rejected (request : Request).

Definition settlement_id (x : Settlement) : Z :=
  match x with
  | Resolved r _ => r
  | Rejected r => id r
  end.

(** [WorkerBroker.postMessage(target, method, payload).then(...)]:
    the target is one worker or the whole pool, and the function given
    to [then] is one of three closures. *)
Inductive Target : Type :=
| ToWorker (w : Worker)
| ToAll (ws : list (option Worker)).

Inductive Payload : Type :=
| SelectionQuery (request key : Z)
| GroupKey (k : string).

Inductive Continuation : Type :=
| ThenFinishRead
| ThenResolve (request : Request) (feature : Feature) (changed : bool) (group : Group)
| ThenStoreColors (state_key : string) (state : Loc).

Record Post : Type := {
  target : Target;
  method : string;
  payload : Payload;
  continuation : Continuation
}.

Inductive LogEntry : Type :=
| LogError (text : string) (message : Message)
| LogDebug (text : string) (state_key : string) (colors : list value).

Inductive GLCall : Type :=
| BindFramebuffer (fbo : bool)
| ReadPixels (x y : Z).

(** [this.pixel], a [Uint8Array] of length 4. *)
Record Pixel : Type := { p0 : Z; p1 : Z; p2 : Z; p3 : Z }.

(** The colour attachment at the time of a read: the four bytes at
    each position, or nothing outside the buffer. *)
Definition Framebuffer : Type := Z -> Z -> option Pixel.

(** The fields of the instance, followed by its surroundings:
    [heap] holds the selection objects handed out, [timers] the
    time-outs set and neither run nor cleared, [posted] every message
    posted so far and [awaiting] those not yet answered. *)
Record State : Type := {
  workers : list (option Worker);
  lock_fn : bool;
  requests : list Request;
  states : gmap string (option Loc);
  feature : option Feature;
  read_delay : Z;
  read_delay_timer : option Timer;
  pixel : Pixel;
  selection_request_id : option Z;
  heap : list Selection;
  timers : list Timer;
  next_timer : Timer;
  posted : list Post;
  awaiting : list Post;
  settled : list Settlement;
  logged : list LogEntry;
  gl_calls : list GLCall
}.

Definition set_workers (v : list (option Worker)) (s : State) : State :=
  {| workers := v; lock_fn := lock_fn s; requests := requests s; states :=
     states s; feature := feature s; read_delay := read_delay s;
     read_delay_timer := read_delay_timer s; pixel := pixel s;
     selection_request_id := selection_request_id s; heap := heap s;
     timers := timers s; next_timer := next_timer s; posted := posted s;
     awaiting := awaiting s; settled := settled s; logged := logged s;
     gl_calls := gl_calls s |}.
Definition set_lock_fn (v : bool) (s : State) : State :=
  {| workers := workers s; lock_fn := v; requests := requests s; states :=
     states s; feature := feature s; read_delay := read_delay s;
     read_delay_timer := read_delay_timer s; pixel := pixel s;
     selection_request_id := selection_request_id s; heap := heap s;
     timers := timers s; next_timer := next_timer s; posted := posted s;
     awaiting := awaiting s; settled := settled s; logged := logged s;
     gl_calls := gl_calls s |}.
Definition set_requests (v : list Request) (s : State) : State :=
  {| workers := workers s; lock_fn := lock_fn s; requests := v; states :=
     states s; feature := feature s; read_delay := read_delay s;
     read_delay_timer := read_delay_timer s; pixel := pixel s;
     selection_request_id := selection_request_id s; heap := heap s;
     timers := timers s; next_timer := next_timer s; posted := posted s;
     awaiting := awaiting s; settled := settled s; logged := logged s;
     gl_calls := gl_calls s |}.
Definition set_states (v : gmap string (option Loc)) (s : State) : State :=
  {| workers := workers s; lock_fn := lock_fn s; requests := requests s;
     states := v; feature := feature s; read_delay := read_delay s;
     read_delay_timer := read_delay_timer s; pixel := pixel s;
     selection_request_id := selection_request_id s; heap := heap s;
     timers := timers s; next_timer := next_timer s; posted := posted s;
     awaiting := awaiting s; settled := settled s; logged := logged s;
     gl_calls := gl_calls s |}.
Definition set_feature (v : option Feature) (s : State) : State :=
  {| workers := workers s; lock_fn := lock_fn s; requests := requests s;
     states := states s; feature := v; read_delay := read_delay s;
     read_delay_timer := read_delay_timer s; pixel := pixel s;
     selection_request_id := selection_request_id s; heap := heap s;
     timers := timers s; next_timer := next_timer s; posted := posted s;
     awaiting := awaiting s; settled := settled s; logged := logged s;
     gl_calls := gl_calls s |}.
Definition set_read_delay (v : Z) (s : State) : State :=
  {| workers := workers s; lock_fn := lock_fn s; requests := requests s;
     states := states s; feature := feature s; read_delay := v;
     read_delay_timer := read_delay_timer s; pixel := pixel s;
     selection_request_id := selection_request_id s; heap := heap s;
     timers := timers s; next_timer := next_timer s; posted := posted s;
     awaiting := awaiting s; settled := settled s; logged := logged s;
     gl_calls := gl_calls s |}.
Definition set_read_delay_timer (v : option Timer) (s : State) : State :=
  {| workers := workers s; lock_fn := lock_fn s; requests := requests s;
     states := states s; feature := feature s; read_delay := read_delay s;
     read_delay_timer := v; pixel := pixel s; selection_request_id :=
     selection_request_id s; heap := heap s; timers := timers s;
     next_timer := next_timer s; posted := posted s; awaiting := awaiting
     s; settled := settled s; logged := logged s; gl_calls := gl_calls s
     |}.
Definition set_pixel (v : Pixel) (s : State) : State :=
  {| workers := workers s; lock_fn := lock_fn s; requests := requests s;
     states := states s; feature := feature s; read_delay := read_delay s;
     read_delay_timer := read_delay_timer s; pixel := v;
     selection_request_id := selection_request_id s; heap := heap s;
     timers := timers s; next_timer := next_timer s; posted := posted s;
     awaiting := awaiting s; settled := settled s; logged := logged s;
     gl_calls := gl_calls s |}.
Definition set_selection_request_id (v : option Z) (s : State) : State :=
  {| workers := workers s; lock_fn := lock_fn s; requests := requests s;
     states := states s; feature := feature s; read_delay := read_delay s;
     read_delay_timer := read_delay_timer s; pixel := pixel s;
     selection_request_id := v; heap := heap s; timers := timers s;
     next_timer := next_timer s; posted := posted s; awaiting := awaiting
     s; settled := settled s; logged := logged s; gl_calls := gl_calls s
     |}.
Definition set_heap (v : list Selection) (s : State) : State :=
  {| workers := workers s; lock_fn := lock_fn s; requests := requests s;
     states := states s; feature := feature s; read_delay := read_delay s;
     read_delay_timer := read_delay_timer s; pixel := pixel s;
     selection_request_id := selection_request_id s; heap := v; timers :=
     timers s; next_timer := next_timer s; posted := posted s; awaiting :=
     awaiting s; settled := settled s; logged := logged s; gl_calls :=
     gl_calls s |}.
Definition set_timers (v : list Timer) (s : State) : State :=
  {| workers := workers s; lock_fn := lock_fn s; requests := requests s;
     states := states s; feature := feature s; read_delay := read_delay s;
     read_delay_timer := read_delay_timer s; pixel := pixel s;
     selection_request_id := selection_request_id s; heap := heap s;
     timers := v; next_timer := next_timer s; posted := posted s; awaiting
     := awaiting s; settled := settled s; logged := logged s; gl_calls :=
     gl_calls s |}.
Definition set_next_timer (v : Timer) (s : State) : State :=
  {| workers := workers s; lock_fn := lock_fn s; requests := requests s;
     states := states s; feature := feature s; read_delay := read_delay s;
     read_delay_timer := read_delay_timer s; pixel := pixel s;
     selection_request_id := selection_request_id s; heap := heap s;
     timers := timers s; next_timer := v; posted := posted s; awaiting :=
     awaiting s; settled := settled s; logged := logged s; gl_calls :=
     gl_calls s |}.
Definition set_posted (v : list Post) (s : State) : State :=
  {| workers := workers s; lock_fn := lock_fn s; requests := requests s;
     states := states s; feature := feature s; read_delay := read_delay s;
     read_delay_timer := read_delay_timer s; pixel := pixel s;
     selection_request_id := selection_request_id s; heap := heap s;
     timers := timers s; next_timer := next_timer s; posted := v; awaiting
     := awaiting s; settled := settled s; logged := logged s; gl_calls :=
     gl_calls s |}.
Definition set_awaiting (v : list Post) (s : State) : State :=
  {| workers := workers s; lock_fn := lock_fn s; requests := requests s;
     states := states s; feature := feature s; read_delay := read_delay s;
     read_delay_timer := read_delay_timer s; pixel := pixel s;
     selection_request_id := selection_request_id s; heap := heap s;
     timers := timers s; next_timer := next_timer s; posted := posted s;
     awaiting := v; settled := settled s; logged := logged s; gl_calls :=
     gl_calls s |}.
Definition set_settled (v : list Settlement) (s : State) : State :=
  {| workers := workers s; lock_fn := lock_fn s; requests := requests s;
     states := states s; feature := feature s; read_delay := read_delay s;
     read_delay_timer := read_delay_timer s; pixel := pixel s;
     selection_request_id := selection_request_id s; heap := heap s;
     timers := timers s; next_timer := next_timer s; posted := posted s;
     awaiting := awaiting s; settled := v; logged := logged s; gl_calls :=
     gl_calls s |}.
Definition set_logged (v : list LogEntry) (s : State) : State :=
  {| workers := workers s; lock_fn := lock_fn s; requests := requests s;
     states := states s; feature := feature s; read_delay := read_delay s;
     read_delay_timer := read_delay_timer s; pixel := pixel s;
     selection_request_id := selection_request_id s; heap := heap s;
     timers := timers s; next_timer := next_timer s; posted := posted s;
     awaiting := awaiting s; settled := settled s; logged := v; gl_calls
     := gl_calls s |}.
Definition set_gl_calls (v : list GLCall) (s : State) : State :=
  {| workers := workers s; lock_fn := lock_fn s; requests := requests s;
     states := states s; feature := feature s; read_delay := read_delay s;
     read_delay_timer := read_delay_timer s; pixel := pixel s;
     selection_request_id := selection_request_id s; heap := heap s;
     timers := timers s; next_timer := next_timer s; posted := posted s;
     awaiting := awaiting s; settled := settled s; logged := logged s;
     gl_calls := v |}.

Definition fbo_size_width : Z := 256.
Definition fbo_size_height : Z := 256.

(** The selection state set up by [init], called by the constructor
    with the worker pool and the lock function (if it is one). *)
Definition init (ws : list (option Worker)) (has_lock_fn : bool) : State :=
  {| workers := ws; lock_fn := has_lock_fn; requests := []; states := ∅;
     feature := None; read_delay := 0; read_delay_timer := None;
     pixel := {| p0 := 0; p1 := 0; p2 := 0; p3 := 0 |};
     selection_request_id := None; heap := []; timers := []; next_timer := 0%nat;
     posted := []; awaiting := []; settled := []; logged := []; gl_calls := [] |}.

(** [get locked()]; [lock_result] is what the lock function returns
    when it is called. *)
Definition locked (s : State) (lock_result : bool) : bool :=
  (lock_fn s && lock_result) || false.

(** *** The request queue *)

(** [requests[r]], [requests[r] = request] and [delete requests[r]]
    on the queue, whose keys are the request ids in the order in
    which [for ... in] visits them. *)
Definition lookup_request (q : list Request) (r : Z) : option Request :=
  List.find (fun request => id request =? r) q.

Fixpoint store_request (request : Request) (q : list Request) : list Request :=
  match q with
  | [] => [request]
  | x :: q' => if id x =? id request then request :: q'
               else x :: store_request request q'
  end.

Definition delete_request (r : Z) (q : list Request) : list Request :=
  List.filter (fun request => negb (id request =? r)) q.

(** [requests[r].sent = true]. *)
Definition mark_sent (r : Z) (q : list Request) : list Request :=
  (fun request =>
     if id request =? r
     then {| id := id request; point := point request; state := state request; sent := true |}
     else request) <$> q.

(** A promise is settled once; settling it again does nothing. *)
Definition is_settled (s : State) (r : Z) : bool :=
  existsb (fun x => settlement_id x =? r) (settled s).

(** A state name counts when it is a non-empty string. *)
Definition given (state : option string) : option string :=
  match state with
  | Some k => if String.eqb k EmptyString then None else Some k
  | None => None
  end.

(** [request.resolve(selection)], with the [then] of [getFeatureAt]
    that stores the selection under the state name of the request. *)
Definition resolve (request : Request) (selection : Selection) (s : State) : State :=
  if is_settled s (id request) then s
  else
    let l := length (heap s) in
    let s1 := set_settled (settled s ++ [Resolved (id request) l])
                (set_heap (heap s ++ [selection]) s) in
    match given (state request) with
    | Some k => set_states (<[k := Some l]> (states s1)) s1
    | None => s1
    end.

(** [request.reject({ request })]. *)
Definition reject (request : Request) (s : State) : State :=
  if is_settled s (id request) then s
  else set_settled (settled s ++ [Rejected request]) s.

(** [getFeatureAt(point, state)]; returns the id under which the
    request and its promise are known. *)
Definition getFeatureAt (pt : Point) (st : option string) (s : State) : State * Z :=
  let r := match selection_request_id s with
           | Some n => if n + 1 =? 0 then 0 else n + 1
           | None => 0
           end in
  let s1 := set_selection_request_id (Some r) s in
  (set_requests
     (store_request {| id := r; point := pt; state := st; sent := false |} (requests s1)) s1,
   r).

(** [pendingRequests()]: the queue, or the number 0 when it is empty. *)
Definition pendingRequests (s : State) : Z + list Request :=
  if (length (requests s) =? 0)%nat then inl 0 else inr (requests s).

(** One turn of the loop of [clearPendingRequests]. *)
Definition clear_request (s : State) (r : Z) : State :=
  match lookup_request (requests s) r with
  | None => s
  | Some request =>
      if sent request then s
      else
        let s1 := reject request s in
        set_requests (delete_request r (requests s1)) s1
  end.

Definition clearPendingRequests (s : State) : State :=
  fold_left clear_request (id <$> requests s) s.

(** *** Messages to workers *)

Definition postMessage (p : Post) (s : State) : State :=
  set_awaiting (awaiting s ++ [p]) (set_posted (posted s ++ [p]) s).

Inductive Completion : Type :=
| Returned
| ThrewTypeError.

(** The comparison that sets [changed] in [finishRead]. *)
Definition feature_changed (new old : option Feature) : bool :=
  match new, old with
  | Some _, None => true
  | None, Some _ => true
  | Some f, Some g =>
      negb (bool_decide (stringify (Obj f) = stringify (Obj g)))
  | None, None => false
  end.

(** [finishRead(message)].  Reading [group.key] of a missing group
    throws. *)
Definition finishRead (message : Message) (s : State) : State * Completion :=
  match lookup_request (requests s) (msg_id message) with
  | None =>
      (set_logged
         (logged s ++ [LogError "FeatureSelection.finishRead(): could not find message" message]) s,
       Returned)
  | Some request =>
      let ft := msg_feature message in
      let chg := feature_changed ft (feature s) in
      let s1 := set_feature ft s in
      match ft with
      | Some f =>
          match msg_group message with
          | None => (s1, ThrewTypeError)
          | Some grp =>
              (postMessage
                 {| target := ToAll (workers s1);
                    method := "self.getFeatureSelectionGroupColor";
                    payload := GroupKey (Static.key grp);
                    continuation := ThenResolve request f chg grp |} s1,
               Returned)
          end
      | None =>
          let s2 := resolve request
                      {| sel_feature := ft; changed := chg; sel_request := id request;
                         selection_colors := []; sel_group := None;
                         update_pending := false |} s1 in
          (set_requests (delete_request (msg_id message) (requests s2)) s2, Returned)
      end
  end.

(** *** The delayed read *)

(** [clearTimeout] and [setTimeout].  The delay [read_delay] says when
    the time-out is to run; here it runs when a [Timeout] event says
    so. *)
Definition clearTimeout (t : Timer) (s : State) : State :=
  set_timers (List.filter (fun t' => negb (t' =? t)%nat) (timers s)) s.

Definition setTimeout (s : State) : State * Timer :=
  let t := next_timer s in
  (set_next_timer (S t) (set_timers (timers s ++ [t]) s), t).

(** [read()]: clears the outstanding time-out, if any, and sets a new
    one for the read-back below. *)
Definition read (s : State) : State :=
  let s1 := match read_delay_timer s with
            | Some t => clearTimeout t s
            | None => s
            end in
  let '(s2, t) := setTimeout s1 in
  set_read_delay_timer (Some t) s2.

(** [gl.readPixels(x, y, 1, 1, gl.RGBA, gl.UNSIGNED_BYTE, this.pixel)]. *)
Definition readPixels (fb : Framebuffer) (x y : Z) (s : State) : State :=
  let s1 := set_gl_calls (gl_calls s ++ [ReadPixels x y]) s in
  match fb x y with
  | Some px =>
      set_pixel {| p0 := to_uint8 (p0 px); p1 := to_uint8 (p1 px);
                   p2 := to_uint8 (p2 px); p3 := to_uint8 (p3 px) |} s1
  | None => s1
  end.

Definition feature_key_of (px : Pixel) : Z :=
  ushr (p0 px + shl (p1 px) 8 + shl (p2 px) 16 + shl (p3 px) 24) 0.

(** [Math.floor(request.point.x * this.fbo_size.width)] and
    [Math.floor((1 - request.point.y) * this.fbo_size.height)].  The
    difference [1 - y] is rounded to a double; a product of a double
    by 256 is a double, so that no rounding takes place there as long
    as the product is finite. *)
Definition sample_x (request : Request) : Z :=
  Qfloor (point_x (point request) * inject_Z fbo_size_width).
Definition sample_y (request : Request) : Z :=
  Qfloor (round_double (1 - point_y (point request)) * inject_Z fbo_size_height).

(** One turn of the loop of the read-back, for the key [r]. *)
Definition read_request (fb : Framebuffer) (s : State) (r : Z) : State :=
  match lookup_request (requests s) r with
  | None => s
  | Some request =>
      if sent request then s
      else
        let s1 := readPixels fb (sample_x request) (sample_y request) s in
        let feature_key := feature_key_of (pixel s1) in
        let worker_id := p3 (pixel s1) in
        let s2 :=
          if negb (worker_id =? 255) then
            match workers s1 !! Z.to_nat worker_id with
            | Some (Some w) =>
                postMessage
                  {| target := ToWorker w;
                     method := "self.getFeatureSelection";
                     payload := SelectionQuery (id request) feature_key;
                     continuation := ThenFinishRead |} s1
            | _ => s1
            end
          else
            (finishRead {| msg_id := id request; msg_feature := None; msg_group := None |} s1).1 in
        set_requests (mark_sent r (requests s2)) s2
  end.

(** The function given to [setTimeout] by [read()]. *)
Definition read_back (lock_result : bool) (fb : Framebuffer) (s : State) : State :=
  if locked s lock_result then s
  else
    let s1 := set_gl_calls (gl_calls s ++ [BindFramebuffer true]) s in
    let s2 := fold_left (read_request fb) (id <$> requests s1) s1 in
    set_gl_calls (gl_calls s2 ++ [BindFramebuffer false]) s2.

(** A time-out runs its function if it has not been cleared. *)
Definition timeout (t : Timer) (lock_result : bool) (fb : Framebuffer) (s : State) : State :=
  if bool_decide (t ∈ timers s)
  then read_back lock_result fb (clearTimeout t s)
  else s.

(** *** The state cache *)

Definition state_at (s : State) (state_key : string) : option Loc :=
  mjoin (states s !! state_key).

Inductive UpdateResult : Type :=
| ResolvedAlready
| AfterWorkers.

Definition set_update_pending (b : bool) (sel : Selection) : Selection :=
  {| sel_feature := sel_feature sel; changed := changed sel;
     sel_request := sel_request sel; selection_colors := selection_colors sel;
     sel_group := sel_group sel; update_pending := b |}.

Definition set_selection_colors (cs : list value) (sel : Selection) : Selection :=
  {| sel_feature := sel_feature sel; changed := changed sel;
     sel_request := sel_request sel; selection_colors := cs;
     sel_group := sel_group sel; update_pending := update_pending sel |}.

(** [updateState(state_key)].  A location cached in [this.states]
    always holds an object. *)
Definition updateState (state_key : string) (s : State) : State * UpdateResult :=
  match state_at s state_key with
  | None => (s, ResolvedAlready)
  | Some l =>
      match heap s !! l with
      | None => (s, ResolvedAlready)
      | Some st =>
          match sel_group st with
          | None => (s, ResolvedAlready)
          | Some grp =>
              if update_pending st
                 || (length (List.filter truthy (selection_colors st)) =? length (workers s))%nat
              then (s, ResolvedAlready)
              else
                let s1 := set_heap (alter (set_update_pending true) l (heap s)) s in
                (postMessage
                   {| target := ToAll (workers s1);
                      method := "self.getFeatureSelectionGroupColor";
                      payload := GroupKey (Static.key grp);
                      continuation := ThenStoreColors state_key l |} s1,
                 AfterWorkers)
          end
      end
  end.

Definition clearState (state_key : string) (s : State) : State :=
  set_states (<[state_key := None]> (states s)) s.

(** *** Answers from workers *)

Inductive Reply : Type :=
| ReplyMessage (message : Message)
| ReplyColors (colors : list value).

(** The function given to [then] runs on the answer. *)
Definition deliver (p : Post) (reply : Reply) (s : State) : State :=
  match continuation p, reply with
  | ThenFinishRead, ReplyMessage message => (finishRead message s).1
  | ThenResolve request f chg grp, ReplyColors colors =>
      let s1 := resolve request
                  {| sel_feature := Some f; changed := chg; sel_request := id request;
                     selection_colors := colors; sel_group := Some grp;
                     update_pending := false |} s in
      set_requests (delete_request (id request) (requests s1)) s1
  | ThenStoreColors state_key l, ReplyColors colors =>
      let s1 := set_logged
                  (logged s ++ [LogDebug "Updated selection colors from workers" state_key colors]) s in
      set_heap (alter (fun st => set_update_pending false (set_selection_colors colors st)) l
                      (heap s1)) s1
  | _, _ => s
  end.

(** *** Everything that can happen to an instance *)

Inductive Event : Type :=
| GetFeatureAt (pt : Point) (st : option string)
| ClearPendingRequests
| Read
| Timeout (t : Timer) (lock_result : bool) (fb : Framebuffer)
| Answer (i : nat) (reply : Reply)
| UpdateState (state_key : string)
| ClearState (state_key : string).

Definition step (s : State) (e : Event) : State :=
  match e with
  | GetFeatureAt pt st => (getFeatureAt pt st s).1
  | ClearPendingRequests => clearPendingRequests s
  | Read => read s
  | Timeout t lock_result fb => timeout t lock_result fb s
  | Answer i reply =>
      match awaiting s !! i with
      | Some p => deliver p reply (set_awaiting (delete i (awaiting s)) s)
      | None => s
      end
  | UpdateState state_key => (updateState state_key s).1
  | ClearState state_key => clearState state_key s
  end.

Definition run (s : State) (es : list Event) : State := fold_left step es s.

End Main.

(** ** Well-formed instances *)

Module Invariants.
Import JS Main.

(** [this.requests] is an object: it has one entry per key; and the
    promise of a request that is still queued is still pending. *)
Definition queue_ok (s : State) : Prop :=
  NoDup (id <$> requests s) /\
  Forall (fun request => is_settled s (id request) = false) (requests s).

Definition unsent (request : Request) : bool := negb (sent request).

(** The object a request is resolved with when nothing was found. *)
Definition no_feature (r : Z) (was : option Feature) : Selection :=
  {| sel_feature := None; changed := feature_changed None was; sel_request := r;
     selection_colors := []; sel_group := None; update_pending := false |}.


(** *** Time-outs *)

(** At most one time-out is outstanding, it is the one remembered in
    [read_delay_timer], and the ids not yet given out are greater. *)
Definition timer_ok (s : State) : Prop :=
  (timers s = [] \/ exists t, timers s = [t] /\ read_delay_timer s = Some t) /\
  Forall (fun t => (t < next_timer s)%nat) (timers s).

Definition is_read (e : Event) : bool :=
  match e with
  | Read => true
  | _ => false
  end.

(** *** Passes over the buffer *)

Definition is_readPixels (c : GLCall) : bool :=
  match c with
  | ReadPixels _ _ => true
  | BindFramebuffer _ => false
  end.

(** The calls into GL of one pass over the buffer that samples [n]
    pixels: the frame buffer is bound, [readPixels] is called [n]
    times, and the frame buffer is unbound. *)
Definition pass_over (n : nat) (calls : list GLCall) : Prop :=
  exists reads,
    calls = BindFramebuffer true :: reads ++ [BindFramebuffer false] /\
    length reads = n /\ forallb is_readPixels reads = true.


(** The fields that only [read()] and time-outs change, and those
    that never change. *)
Definition same_timers (s s' : State) : Prop :=
  timers s' = timers s /\ read_delay_timer s' = read_delay_timer s /\
  next_timer s' = next_timer s /\ lock_fn s' = lock_fn s /\
  workers s' = workers s.

(** *** Group colour updates *)

(** The state name and the state object of a group colour request
    made by [updateState]. *)
Definition update_of (p : Post) : option (string * Loc) :=
  match continuation p with
  | ThenStoreColors state_key l => Some (state_key, l)
  | _ => None
  end.

(** The requests of [updateState] not answered yet, and how many of
    them were made for a given state name. *)
Definition update_posts (s : State) : list (string * Loc) :=
  omap update_of (awaiting s).

Definition outstanding (s : State) (state_key : string) : nat :=
  length (List.filter (fun kl => String.eqb kl.1 state_key) (update_posts s)).

(** The events of the state cache: calls of [updateState] and
    [clearState], and answers to the requests of [updateState]. *)
Definition cache_event (s : State) (e : Event) : bool :=
  match e with
  | UpdateState _ | ClearState _ => true
  | Answer i _ =>
      match awaiting s !! i with
      | Some p => bool_decide (is_Some (update_of p))
      | None => true
      end
  | _ => false
  end.

Fixpoint cache_events (s : State) (es : list Event) : bool :=
  match es with
  | [] => true
  | e :: es' => cache_event s e && cache_events (step s e) es'
  end.

(** Outstanding update requests have distinct state names and
    distinct state objects; the object of each is marked
    [update_pending], and it is the object cached under the name
    unless the name has been cleared. *)
Definition updates_ok (s : State) : Prop :=
  NoDup (update_posts s).*1 /\
  NoDup (update_posts s).*2 /\
  Forall (fun kl =>
            (exists st, heap s !! kl.2 = Some st /\ update_pending st = true) /\
            (state_at s kl.1 = None \/ state_at s kl.1 = Some kl.2))
         (update_posts s).


(** The requests of [updateState] not answered yet that were made for
    a given state object. *)
Definition outstanding_for (s : State) (l : Loc) : nat :=
  length (List.filter (fun kl => (kl.2 =? l)%nat) (update_posts s)).

(** Outstanding update requests have distinct state objects, each
    marked [update_pending]. *)
Definition objects_ok (s : State) : Prop :=
  NoDup (update_posts s).*2 /\
  Forall (fun kl => exists st, heap s !! kl.2 = Some st /\ update_pending st = true)
         (update_posts s).

(** New selection objects and new posts other than update requests. *)
Definition objects_grow (s s' : State) : Prop :=
  (exists h, heap s' = heap s ++ h) /\
  (exists ps, awaiting s' = awaiting s ++ ps /\ omap update_of ps = []).

(** *** Requests that nothing has been posted for *)

(** Whether the answer to a post can reach the request [r]: the post
    is the query for [r], or its continuation resolves [r]. *)
Definition concerns (r : Z) (p : Post) : bool :=
  match continuation p with
  | ThenFinishRead =>
      match payload p with
      | SelectionQuery r' _ => r' =? r
      | GroupKey _ => true
      end
  | ThenResolve request _ _ _ => id request =? r
  | ThenStoreColors _ _ => false
  end.

(** A worker answers a query with the id of the query. *)
Definition faithful_reply (p : Post) (reply : Reply) : bool :=
  match payload p, reply with
  | SelectionQuery r _, ReplyMessage message => msg_id message =? r
  | _, _ => true
  end.

Definition faithful (s : State) (e : Event) : bool :=
  match e with
  | Answer i reply =>
      match awaiting s !! i with
      | Some p => faithful_reply p reply
      | None => true
      end
  | _ => true
  end.

Fixpoint faithful_events (s : State) (es : list Event) : bool :=
  match es with
  | [] => true
  | e :: es' => faithful s e && faithful_events (step s e) es'
  end.

(** The promise of [r] is pending, no message that concerns [r] has
    been posted, and [r] is an id that has been given out. *)
Definition untouched (r : Z) (s : State) : Prop :=
  is_settled s r = false /\
  Forall (fun p => concerns r p = false) (posted s) /\
  Forall (fun p => concerns r p = false) (awaiting s) /\
  exists n, selection_request_id s = Some n /\ r <= n.

Definition queued (r : Z) (request : Request) (s : State) : Prop :=
  lookup_request (requests s) r = Some request /\ untouched r s.

Definition sent_request (request : Request) : Request :=
  {| id := id request; point := point request; state := state request; sent := true |}.


(** [this.workers[worker_id]] is [null] or [undefined]. *)
Definition no_worker (s : State) (worker_id : Z) : Prop :=
  workers s !! Z.to_nat worker_id = None \/
  workers s !! Z.to_nat worker_id = Some None.


(** *** What holds of every instance *)

(** The states an instance can be in: those that events lead to from
    [init]; and those reached while every worker echoes the id it was
    asked about. *)
Definition reachable (s : State) : Prop :=
  exists ws lk es, s = run (init ws lk) es.

Definition reachable_faithfully (s : State) : Prop :=
  exists ws lk es, faithful_events (init ws lk) es = true /\ s = run (init ws lk) es.

(** The id that [getFeatureAt] gives out next. *)
Definition next_id (s : State) : Z :=
  match selection_request_id s with
  | Some n => if n + 1 =? 0 then 0 else n + 1
  | None => 0
  end.

(** [r] is an id that [getFeatureAt] has given out. *)
Definition id_given (s : State) (r : Z) : Prop :=
  exists n, selection_request_id s = Some n /\ 0 <= r <= n.

Definition counter_ok (s : State) : Prop :=
  forall n, selection_request_id s = Some n -> 0 <= n.

(** A post is the query for a request, is followed by the resolution
    of a request, or is a group colour update. *)
Definition post_about (r : Z) (p : Post) : Prop :=
  match continuation p with
  | ThenFinishRead => exists k, payload p = SelectionQuery r k
  | ThenResolve request _ _ _ => id request = r
  | ThenStoreColors _ _ => True
  end.

Definition post_ok (s : State) (p : Post) : Prop :=
  match continuation p with
  | ThenStoreColors _ _ => True
  | _ => exists r, post_about r p /\ id_given s r
  end.

Definition consistent (s : State) : Prop :=
  counter_ok s /\
  NoDup (id <$> requests s) /\
  Forall (fun request => id_given s (id request) /\ is_settled s (id request) = false)
         (requests s) /\
  Forall (fun x => id_given s (settlement_id x)) (settled s) /\
  Forall (post_ok s) (posted s) /\
  Forall (post_ok s) (awaiting s) /\
  timer_ok s.

(** No post concerns a request that is not marked as sent. *)
Definition unsent_untouched (s : State) : Prop :=
  Forall (fun request =>
            sent request = false ->
            Forall (fun p => concerns (id request) p = false) (posted s) /\
            Forall (fun p => concerns (id request) p = false) (awaiting s))
         (requests s).

(** What a method does when it deals with the request [r]: it may
    settle the promise of [r] and then removes [r] from the queue, or
    post messages about [r], or mark [r] as sent. *)
Definition turn (r : Z) (xs : list Settlement) (ps : list Post) (s s' : State) : Prop :=
  selection_request_id s' = selection_request_id s /\
  same_timers s s' /\
  settled s' = settled s ++ xs /\
  Forall (fun x => settlement_id x = r) xs /\
  posted s' = posted s ++ ps /\
  awaiting s' = awaiting s ++ ps /\
  Forall (post_about r) ps /\
  (requests s' = requests s /\ xs = [] \/
   requests s' = delete_request r (requests s) /\ ps = [] \/
   requests s' = mark_sent r (requests s) /\ xs = []).

(** Every request with the id [r] is marked as sent. *)
Definition sent_in (s : State) (r : Z) : Prop :=
  forall request, lookup_request (requests s) r = Some request -> sent request = true.

(** The fields that the invariants speak about are the same. *)
Definition same_core (s s' : State) : Prop :=
  selection_request_id s' = selection_request_id s /\
  same_timers s s' /\
  settled s' = settled s /\
  posted s' = posted s /\
  awaiting s' = awaiting s /\
  requests s' = requests s.

End Invariants.

(** ** Sample inputs *)

Module Samples.
Import JS Static.

Definition tile_a : Tile :=
  {| tile_key := "a/1/0/0"; tile_coords := (0, 0, 1); tile_style_zoom := 1;
     tile_source := "osm"; tile_generation := 0 |}.
Definition tile_b : Tile :=
  {| tile_key := "a/1/1/0"; tile_coords := (1, 0, 1); tile_style_zoom := 1;
     tile_source := "osm"; tile_generation := 0 |}.


(** Two features of one tile whose "id" property is the string "0" for
    the first and the number 0 for the second. *)
Definition draw_by_id : Draw :=
  {| selection_prop := PropName "id"; selection_group := "roads";
     hover_color := Undefined; click_color := Undefined |}.
Definition context_roads : Context :=
  {| context_source := "osm"; context_layer := "roads"; context_layers := ["roads"] |}.
Definition call_with (props : list (string * JS.value)) : Call :=
  {| call_feature := {| feature_properties := props |};
     call_draw := draw_by_id; call_tile := tile_a; call_context := context_roads |}.
Definition call_string_id : Call := call_with [("id", Str "0")].
Definition call_named : Call := call_with [("id", Str "A1")].


(** *** A main-thread instance with one worker *)

Import Main.

Definition centre : Point := {| point_x := 1 # 2; point_y := 1 # 2 |}.

(** A frame buffer painted all over with the colour of the first
    feature of worker 0, and an empty one. *)
Definition painted : Framebuffer :=
  fun _ _ => Some {| p0 := 1; p1 := 0; p2 := 0; p3 := 0 |}.
Definition blank : Framebuffer :=
  fun _ _ => Some {| p0 := 255; p1 := 255; p2 := 255; p3 := 255 |}.

Definition road_group : Group :=
  {| Static.index := [1; 0; 0; 255]; Static.key := "roads:A1"; Static.value := Str "A1" |}.

(** Two features that differ in that the first has a [name] property
    whose value is [undefined]. *)
Definition feature_undefined_name : Feature :=
  [("properties", Obj [("name", Undefined)])].
Definition feature_no_name : Feature :=
  [("properties", Obj [])].

(** A request is made, read back, answered with [feature_no_name] and
    resolved; a second request is made and sent to the worker. *)
Definition second_request_sent : State :=
  run (init [Some 0%nat] false)
    [GetFeatureAt centre None; Read; Timeout 0%nat false painted;
     Answer 0%nat (ReplyMessage {| msg_id := 0; msg_feature := Some feature_no_name;
                               msg_group := Some road_group |});
     Answer 0%nat (ReplyColors [Arr [Num 1; Num 0; Num 0; Num 255]]);
     GetFeatureAt centre None; Read; Timeout 1%nat false painted].

(** Two features with the same two properties, in different orders. *)
Definition feature_name_first : Feature := [("name", Str "A1"); ("id", Num 7)].
Definition feature_id_first : Feature := [("id", Num 7); ("name", Str "A1")].

(** As [second_request_sent], the first request having been answered
    with [feature_id_first]. *)
Definition second_request_sent_again : State :=
  run (init [Some 0%nat] false)
    [GetFeatureAt centre None; Read; Timeout 0%nat false painted;
     Answer 0%nat (ReplyMessage {| msg_id := 0; msg_feature := Some feature_id_first;
                               msg_group := Some road_group |});
     Answer 0%nat (ReplyColors [Arr [Num 1; Num 0; Num 0; Num 255]]);
     GetFeatureAt centre None; Read; Timeout 1%nat false painted].


(** One request for the centre of the view, cached under "hover",
    with its read scheduled. *)
Definition hover_requested : State :=
  run (init [Some 0%nat] false) [GetFeatureAt centre (Some "hover"); Read].

(** A first request sent to the worker, a second one just queued. *)
Definition sent_and_unsent : State :=
  run (init [Some 0%nat] false)
    [GetFeatureAt centre None; Read; Timeout 0%nat false painted;
     GetFeatureAt centre (Some "hover")].

(** A frame buffer painted with a colour of worker 3, which the pool
    does not have. *)
Definition painted_by_stranger : Framebuffer :=
  fun _ _ => Some {| p0 := 1; p1 := 0; p2 := 0; p3 := 3 |}.

(** Worker 1 after its first allocation, a pool of two workers with
    one request pending, and a frame buffer painted with the colour
    of the second allocation of worker 1. *)
Definition worker_1 : Statics :=
  (createSelector (reset (setPrefix initial 1)) tile_a).1.
Definition two_workers_requested : State :=
  run (init [Some 10%nat; Some 11%nat] false) [GetFeatureAt centre None; Read].
Definition painted_by_worker_1 : Framebuffer :=
  fun _ _ => Some {| p0 := 2; p1 := 0; p2 := 0; p3 := 1 |}.

(** With two workers: a request cached under "hover" was answered
    with a feature, and only the first worker had a group colour. *)
Definition hover_selected : State :=
  run (init [Some 10%nat; Some 11%nat] false)
    [GetFeatureAt centre (Some "hover"); Read; Timeout 0%nat false painted;
     Answer 0%nat (ReplyMessage {| msg_id := 0; msg_feature := Some feature_no_name;
                                   msg_group := Some road_group |});
     Answer 0%nat (ReplyColors [Arr [Num 1; Num 0; Num 0; Num 255]; Undefined])].

Definition hover_updates : list Event :=
  [UpdateState "hover"; UpdateState "hover";
   Answer 0%nat (ReplyColors [Arr [Num 1; Num 0; Num 0; Num 255]; Undefined]);
   UpdateState "hover"; ClearState "hover"; UpdateState "hover"].


(** With the update of "hover" outstanding, a second request cached
    under "hover" is answered with a feature, and [updateState] is
    called again. *)
Definition hover_replaced : list Event :=
  [UpdateState "hover";
   GetFeatureAt centre (Some "hover"); Read; Timeout 1%nat false painted;
   Answer 1%nat (ReplyMessage {| msg_id := 1; msg_feature := Some feature_undefined_name;
                                 msg_group := Some road_group |});
   Answer 1%nat (ReplyColors [Arr [Num 1; Num 0; Num 0; Num 255]; Undefined]);
   UpdateState "hover"].

End Samples.
(** ** The calls of one worker *)

Module WorkerRun.
Import JS Static.

(** What a worker does with the class during its lifetime. *)
Inductive Op : Type :=
| CreateSelector (t : Tile)
| GetSelector (c : Call)
| Reset
| ClearTile (k : string)
| SetPrefix (prefix : Z).

Definition apply (st : Statics) (op : Op) : Statics :=
  match op with
  | CreateSelector t => (createSelector st t).1
  | GetSelector c =>
      (getSelector st (call_feature c) (call_draw c) (call_tile c) (call_context c)).1
  | Reset => reset st
  | ClearTile k => clearTile st k
  | SetPrefix prefix => setPrefix st prefix
  end.

Definition run (st : Statics) (ops : list Op) : Statics := fold_left apply ops st.

(** The statics a worker can have: those that calls lead to from the
    values assigned after the class body. *)
Definition reachable (st : Statics) : Prop := exists ops, st = run initial ops.

(** *** Names that a plain object inherits

    [this.tiles[name]] and [feature.properties[name]] read the
    property of [Object.prototype] when [name] is one of the names
    below and the object has no property of its own under it; the maps
    and property lists here hold own properties only. *)
Definition inherited_names : list string :=
  ["constructor"; "hasOwnProperty"; "isPrototypeOf"; "propertyIsEnumerable";
   "toLocaleString"; "toString"; "valueOf"; "__proto__";
   "__defineGetter__"; "__defineSetter__"; "__lookupGetter__"; "__lookupSetter__"].

Definition own_name (name : string) : bool :=
  negb (existsb (String.eqb name) inherited_names).

(** The tile that a call registers its selector under. *)
Definition op_tile (op : Op) : option Tile :=
  match op with
  | CreateSelector t => Some t
  | GetSelector c => Some (call_tile c)
  | _ => None
  end.

(** No call is made for a tile whose key is an inherited name. *)
Definition own_tiles (ops : list Op) : bool :=
  forallb (fun op => from_option (fun t => own_name (tile_key t)) true (op_tile op)) ops.



Definition is_reset (op : Op) : bool :=
  match op with
  | Reset => true
  | _ => false
  end.


(** The key [k] is among the entries of the tile registered under
    [tk], and of some tile. *)
Definition listed_under (st : Statics) (tk : string) (k : Z) : Prop :=
  exists e, tiles st !! tk = Some e /\ k ∈ entries e.

Definition listed (st : Statics) (k : Z) : Prop := exists tk, listed_under st tk k.

(** Every key of the map is listed under the tile it was made for,
    and the record of a tile carries the tile's key. *)
Definition registry_ok (st : Statics) : Prop :=
  (forall k, is_Some (map st !! k) <-> listed st k) /\
  (forall tk e, tiles st !! tk = Some e -> tile_key (tile e) = tk /\ entries e <> []).

Definition counters_ok (st : Statics) : Prop :=
  0 <= map_index st /\ map_size st = map_index st /\
  Z.of_nat (size (map st)) <= map_size st.

(** What holds in addition while the counter has not wrapped: the low
    24 bits of the keys are the counter values gone through, and no
    key is listed twice. *)
Definition keys_fresh (st : Statics) : Prop :=
  (forall k, is_Some (map st !! k) -> 0 < k mod 16777216 <= map_index st) /\
  Z.of_nat (size (map st)) = map_index st /\
  (forall tk e, tiles st !! tk = Some e -> NoDup (entries e)) /\
  (forall tk1 tk2 k, listed_under st tk1 k -> listed_under st tk2 k -> tk1 = tk2).

Definition statics_ok (st : Statics) : Prop :=
  registry_ok st /\ counters_ok st /\ (map_index st < 16777216 -> keys_fresh st).

(** *** Selection groups *)

(** The index colours in use were cut out of counter values above
    [b] that the group counter has gone through. *)
Definition groups_above (b : Z) (st : Statics) : Prop :=
  b <= group_index st /\
  forall gk c, groups st !! gk = Some c ->
    exists n, b < n <= group_index st /\ c = group_color n.

(** The group written into a selector is the one registered under its
    composite key, or the sentinel when the group value is falsy. *)
Definition selectors_grouped (st : Statics) : Prop :=
  forall k g, selector_group st k = Some g ->
    if truthy (value g) then groups st !! key g = Some (index g)
    else index g = no_group.

Definition groups_distinct (st : Statics) : Prop :=
  forall gk1 gk2 c, groups st !! gk1 = Some c -> groups st !! gk2 = Some c -> gk1 = gk2.

Definition groups_ok (b : Z) (st : Statics) : Prop :=
  0 <= b /\ groups_above b st /\ selectors_grouped st /\
  (group_index st < 16777216 -> groups_distinct st).

End WorkerRun.

(** ** Histories of an instance *)

Module History.
Import JS Main Invariants.

(** The ids that the calls of [getFeatureAt] among the events return,
    in the order of the calls. *)
Fixpoint ids_given (s : State) (es : list Event) : list Z :=
  match es with
  | [] => []
  | e :: es' =>
      match e with
      | GetFeatureAt pt st => [(getFeatureAt pt st s).2]
      | _ => []
      end ++ ids_given (step s e) es'
  end.

Definition is_getFeatureAt (e : Event) : bool :=
  match e with
  | GetFeatureAt _ _ => true
  | _ => false
  end.

(** The lock function says "locked" whenever a time-out asks. *)
Definition finds_locked (e : Event) : bool :=
  match e with
  | Timeout _ lock_result _ => lock_result
  | _ => true
  end.

Definition is_rejection (x : Settlement) : bool :=
  match x with
  | Rejected _ => true
  | Resolved _ _ => false
  end.

(** Nothing has been read back, posted or handed out. *)
Definition idle (s : State) : Prop :=
  lock_fn s = true /\ posted s = [] /\ awaiting s = [] /\ gl_calls s = [] /\
  heap s = [] /\ (forall k, state_at s k = None) /\
  Forall (fun x => sent x = false) (requests s) /\
  Forall (fun x => is_rejection x = true) (settled s).

(** The [readPixels] call made for a request. *)
Definition sample_of (request : Request) : GLCall :=
  ReadPixels (sample_x request) (sample_y request).

(** The selections handed out, one after the other, to requests that
    found nothing; [was] is the feature selected before the first. *)
Fixpoint no_features (was : option Feature) (xs : list Request) : list Selection :=
  match xs with
  | [] => []
  | x :: xs' => no_feature (id x) was :: no_features None xs'
  end.

(** The settlements of requests resolved one after the other with
    the selection objects made from [l] on. *)
Fixpoint resolutions (l : Loc) (xs : list Request) : list Settlement :=
  match xs with
  | [] => []
  | x :: xs' => Resolved (id x) l :: resolutions (S l) xs'
  end.

(** The largest finite double. *)
Definition max_double : Q := inject_Z ((2 ^ 53 - 1) * 2 ^ 971).

(** The two products in the sample position of the request are
    finite.  A product beyond [max_double] is [Infinity] in the code;
    [sample_x] and [sample_y] say nothing about that case. *)
Definition finite_sample (request : Request) : Prop :=
  (Qabs (point_x (point request) * inject_Z fbo_size_width) <= max_double)%Q /\
  (Qabs (round_double (1 - point_y (point request)) * inject_Z fbo_size_height)
   <= max_double)%Q.

(** The pixel that the read-back samples for the request lies in the
    buffer and is empty: its alpha byte is 255. *)
Definition samples_empty (fb : Framebuffer) (request : Request) : Prop :=
  finite_sample request /\
  exists px, fb (sample_x request) (sample_y request) = Some px /\ to_uint8 (p3 px) = 255.

End History.

(** ** What becomes of requests *)

Module Fate.
Import JS Main Invariants.

(** Every id given out belongs to a request that is queued or to one
    whose promise is settled. *)
Definition accounted (s : State) : Prop :=
  forall r, id_given s r -> r ∈ id <$> requests s \/ is_settled s r = true.

(** From [s] to [s'] no new id is given out, no settlement is undone,
    and a request leaves the queue only with its promise settled. *)
Definition advance (s s' : State) : Prop :=
  selection_request_id s' = selection_request_id s /\
  (forall r, is_settled s r = true -> is_settled s' r = true) /\
  (forall r, r ∈ id <$> requests s -> r ∈ id <$> requests s' \/ is_settled s' r = true).

End Fate.

(** ** Answers and the requests they are for *)

Module Routing.
Import JS Main Invariants.

(** The request that the answer to a post is for: the request of a
    query, or the one that the continuation resolves. *)
Definition about (p : Post) : option Z :=
  match continuation p with
  | ThenFinishRead =>
      match payload p with
      | SelectionQuery r _ => Some r
      | GroupKey _ => None
      end
  | ThenResolve request _ _ _ => Some (id request)
  | ThenStoreColors _ _ => None
  end.

(** At most one answer is awaited for a request, and only for a
    request that is queued and marked as sent. *)
Definition awaits (q : list Request) (aw : list Post) : Prop :=
  NoDup (omap about aw) /\
  Forall (fun r => exists request, lookup_request q r = Some request /\ sent request = true)
         (omap about aw).

Definition expected (s : State) : Prop := awaits (requests s) (awaiting s).

Definition is_error (e : LogEntry) : bool :=
  match e with
  | LogError _ _ => true
  | LogDebug _ _ _ => false
  end.

Definition quiet (s : State) : Prop := Forall (fun e => is_error e = false) (logged s).

End Routing.

(** ** Requests that nothing is awaited for *)

Module Parked.
Import JS Main Invariants Routing.

(** The request [r] is queued and marked as sent, its promise is
    pending, and no answer is awaited for it. *)
Definition parked (r : Z) (s : State) : Prop :=
  (exists request, lookup_request (requests s) r = Some request /\ sent request = true) /\
  is_settled s r = false /\
  r ∉ omap about (awaiting s).

(** From [s] to [s'] the entry of [r] in the queue and the promise of
    [r] are left alone, and no message about [r] is posted. *)
Definition keeps (r : Z) (s s' : State) : Prop :=
  lookup_request (requests s') r = lookup_request (requests s) r /\
  is_settled s' r = is_settled s r /\
  (r ∉ omap about (awaiting s) -> r ∉ omap about (awaiting s')).

End Parked.

(** ** Where messages go *)

Module Addressing.
Import JS Main Invariants.

(** The four elements of [this.pixel] are bytes. *)
Definition pixel_ok (px : Pixel) : Prop :=
  0 <= p0 px < 256 /\ 0 <= p1 px < 256 /\ 0 <= p2 px < 256 /\ 0 <= p3 px < 256.

(** A query goes to the one worker that the top byte of its key
    names, which is not 255; a group colour request goes to the whole
    pool. *)
Definition well_addressed (ws : list (option Worker)) (p : Post) : Prop :=
  match payload p with
  | SelectionQuery r key =>
      0 <= key < 2 ^ 32 /\ key / 2 ^ 24 <> 255 /\
      exists w, target p = ToWorker w /\ ws !! Z.to_nat (key / 2 ^ 24) = Some (Some w)
  | GroupKey k => target p = ToAll ws
  end.

(** From [s] to [s'] the pool is the same, the pixel still holds
    bytes and the messages posted are well addressed. *)
Definition posts_well (s s' : State) : Prop :=
  workers s' = workers s /\
  (pixel_ok (pixel s) -> pixel_ok (pixel s')) /\
  exists ps, posted s' = posted s ++ ps /\
             (pixel_ok (pixel s) -> Forall (well_addressed (workers s)) ps).

End Addressing.

(** ** The selection objects *)

Module Objects.
Import JS Main Invariants.

(** A selection has a group exactly when it has a feature; one
    without a feature has no colours and no update pending. *)
Definition shaped (sel : Selection) : Prop :=
  (is_Some (sel_feature sel) <-> is_Some (sel_group sel)) /\
  (sel_feature sel = None -> selection_colors sel = [] /\ update_pending sel = false).

(** Promises are resolved with, and state names are bound to,
    selection objects that exist; a cached object is one that a
    promise was resolved with; updates are awaited for objects with a
    group. *)
Definition held (s : State) : Prop :=
  (forall r l, Resolved r l ∈ settled s ->
     exists sel, heap s !! l = Some sel /\ sel_request sel = r) /\
  (forall k l, state_at s k = Some l ->
     exists sel, heap s !! l = Some sel /\ Resolved (sel_request sel) l ∈ settled s) /\
  Forall (fun kl => exists sel, heap s !! kl.2 = Some sel /\ is_Some (sel_group sel))
         (update_posts s) /\
  Forall shaped (heap s).

(** The fields that [held] speaks about are the same. *)
Definition same_objects (s s' : State) : Prop :=
  heap s' = heap s /\ settled s' = settled s /\ states s' = states s /\
  update_posts s' = update_posts s.

End Objects.

(** ** The selection frame buffer

  The part of an instance that [init], [bind] and [destroy] act on:
  the frame buffer object, its size, and the calls made into GL and
  into the texture class. *)

Module Buffer.

(** A WebGL object (frame buffer, texture, render buffer). *)
Abbreviation Handle := nat (only parsing).

Inductive Call : Type :=
| CreateFramebuffer
| BindFramebuffer (fbo : option Handle)
| TextureCreate (name filtering : string)
| TextureSetData (width height : Z) (filtering : string)
| FramebufferTexture2D (texture : Handle)
| CreateRenderbuffer
| BindRenderbuffer (rb : option Handle)
| RenderbufferStorage (width height : Z)
| FramebufferRenderbuffer (rb : option Handle)
| DeleteFramebuffer (fbo : Handle)
| Viewport (x y width height : Z).

(** What GL and the texture class return to [init]; the [create]
    functions of GL return [null] when the context is lost. *)
Record Created : Type := {
  new_framebuffer : option Handle;
  new_texture : Handle;
  new_renderbuffer : option Handle
}.

Record Instance : Type := {
  fbo : option Handle;
  fbo_size_width : Z;
  fbo_size_height : Z;
  fbo_size_aspect : Q;
  calls : list Call
}.

(** The frame buffer part of [init()] (the selection state it sets
    up is [Main.init]); the texture is given no data ([null]). *)
Definition init (made : Created) : Instance :=
  let width := 256 in
  let height := 256 in
  {| fbo := new_framebuffer made;
     fbo_size_width := width;
     fbo_size_height := height;
     fbo_size_aspect := (inject_Z width / inject_Z height)%Q;
     calls :=
       [CreateFramebuffer;
        BindFramebuffer (new_framebuffer made);
        TextureCreate "selection_fbo" "nearest";
        TextureSetData width height "nearest";
        FramebufferTexture2D (new_texture made);
        CreateRenderbuffer;
        BindRenderbuffer (new_renderbuffer made);
        RenderbufferStorage width height;
        FramebufferRenderbuffer (new_renderbuffer made);
        BindFramebuffer None] |}.

Definition call (c : list Call) (b : Instance) : Instance :=
  {| fbo := fbo b; fbo_size_width := fbo_size_width b;
     fbo_size_height := fbo_size_height b; fbo_size_aspect := fbo_size_aspect b;
     calls := calls b ++ c |}.

(** [destroy()]; [this.gl] is an object, [init] having used it. *)
Definition destroy (b : Instance) : Instance :=
  match fbo b with
  | Some h =>
      {| fbo := None; fbo_size_width := fbo_size_width b;
         fbo_size_height := fbo_size_height b; fbo_size_aspect := fbo_size_aspect b;
         calls := calls b ++ [DeleteFramebuffer h; BindFramebuffer None] |}
  | None => b
  end.

(** [bind()]. *)
Definition bind (b : Instance) : Instance :=
  call [BindFramebuffer (fbo b); Viewport 0 0 (fbo_size_width b) (fbo_size_height b)] b.

Inductive Use : Type :=
| Bind
| Destroy.

Definition use (b : Instance) (u : Use) : Instance :=
  match u with
  | Bind => bind b
  | Destroy => destroy b
  end.

Definition uses (b : Instance) (us : list Use) : Instance := fold_left use us b.

Definition deletes (c : Call) : bool :=
  match c with
  | DeleteFramebuffer _ => true
  | _ => false
  end.

(** A call that neither deletes nor binds a frame buffer object. *)
Definition spares (c : Call) : bool :=
  match c with
  | DeleteFramebuffer _ | BindFramebuffer (Some _) => false
  | _ => true
  end.

(** No frame buffer is deleted twice or bound after it was deleted:
    what follows a [deleteFramebuffer] neither deletes nor binds a
    frame buffer object. *)
Fixpoint deleted_once (cs : list Call) : bool :=
  match cs with
  | [] => true
  | DeleteFramebuffer _ :: cs' => forallb spares cs'
  | _ :: cs' => deleted_once cs'
  end.

End Buffer.

(** ** More sample inputs *)

Module Cases.
Import JS Samples.

(** *** On a worker *)

Import Static WorkerRun.

(** Worker 1 makes a grouped selector, a bare one for another tile
    and a second grouped one. *)
Definition busy_worker : Statics :=
  run initial [SetPrefix 1; GetSelector call_named; CreateSelector tile_b;
               GetSelector call_string_id].

(** The tile of [tile_a] as a later generation has it. *)
Definition tile_a_again : Tile :=
  {| tile_key := "a/1/0/0"; tile_coords := (0, 0, 1); tile_style_zoom := 2;
     tile_source := "osm"; tile_generation := 7 |}.


(** *** On the main thread *)

Import Main Invariants.

(** A request whose pixel was painted by worker 0: the query has
    been posted and its answer is awaited. *)
Definition query_awaited : State :=
  run (init [Some 0%nat] false) [GetFeatureAt centre None; Read; Timeout 0%nat false painted].

Definition first_query : Post :=
  {| target := ToWorker 0%nat; method := "self.getFeatureSelection";
     payload := SelectionQuery 0 1; continuation := ThenFinishRead |}.

(** A request cached under "hover" that found an empty pixel. *)
Definition nothing_hovered : State :=
  run (init [Some 0%nat] false)
    [GetFeatureAt centre (Some "hover"); Read; Timeout 0%nat false blank].

(** An empty buffer of 256 x 256 pixels. *)
Definition empty_256 : Framebuffer :=
  fun x y =>
    if (0 <=? x) && (x <? 256) && (0 <=? y) && (y <? 256)
    then Some {| p0 := 255; p1 := 255; p2 := 255; p3 := 255 |}
    else None.

(** A sample position that lies outside the buffer. *)
Definition outside : Framebuffer := fun _ _ => None.

Definition first_colors : list JS.value := [Arr [Num 1; Num 0; Num 0; Num 255]; Undefined].

Definition hover_selection : Selection :=
  {| sel_feature := Some feature_no_name; changed := true; sel_request := 0;
     selection_colors := first_colors; sel_group := Some road_group;
     update_pending := false |}.

End Cases.


(** ** JSON texts tell values apart *)

Module JsonFacts.
Import JS Json.

Lemma append_nil_l (r : string) : EmptyString +:+ r = r.
Proof. reflexivity. Qed.

Lemma append_cons (c : ascii) (d r : string) : String c d +:+ r = String c (d +:+ r).
Proof. reflexivity. Qed.

Lemma append_assoc (a b c : string) : (a +:+ b) +:+ c = a +:+ (b +:+ c).
Proof. induction a as [|x a IH]; [done|]. by rewrite !append_cons, IH. Qed.

Ltac norm := rewrite ?append_assoc, ?append_cons, ?append_nil_l in *.

Lemma token_split (d : string) : forall d' r r',
  all_plain d -> all_plain d' -> ended r -> ended r' ->
  d +:+ r = d' +:+ r' -> d = d' /\ r = r'.
Proof.
  induction d as [|c d IH]; intros [|c' d'] r r' Hd Hd' Hr Hr' Heq; cbn in *; norm.
  - done.
  - exfalso. subst r. destruct Hr as [?|(c & r0 & [= <- <-] & Hc)]; [done|].
    destruct Hd' as [(H1 & H2 & H3 & _) _]. intuition congruence.
  - exfalso. subst r'. destruct Hr' as [?|(c0 & r0 & [= <- <-] & Hc)]; [done|].
    destruct Hd as [(H1 & H2 & H3 & _) _]. intuition congruence.
  - injection Heq as <- Heq. destruct Hd as [_ Hd], Hd' as [_ Hd'].
    destruct (IH d' r r' Hd Hd' Hr Hr' Heq) as [-> ->]. done.
Qed.

Lemma all_numeric_plain (t : string) : all_numeric t -> all_plain t.
Proof. induction t as [|c t IH]; cbn; [done|]. intros [[Hp _] Ht]. auto. Qed.

Lemma pretty_N_char_numeric (x : N) : numeric (pretty_N_char x).
Proof.
  unfold pretty_N_char, numeric, plain.
  repeat case_match; repeat split; discriminate.
Qed.

Lemma pretty_N_go_numeric (x : N) : forall s,
  all_numeric s -> all_numeric (pretty_N_go x s).
Proof.
  induction (N.lt_wf_0 x) as [x _ IH]. intros s Hs.
  destruct (decide (x = 0)%N) as [->|Hx]; [by rewrite pretty_N_go_0|].
  rewrite pretty_N_go_step by lia. apply IH.
  - apply N.div_lt; lia.
  - cbn. split; [apply pretty_N_char_numeric | done].
Qed.

Lemma pretty_N_go_nonempty (x : N) : forall s,
  s <> EmptyString -> pretty_N_go x s <> EmptyString.
Proof.
  induction (N.lt_wf_0 x) as [x _ IH]. intros s Hs.
  destruct (decide (x = 0)%N) as [->|Hx]; [by rewrite pretty_N_go_0|].
  rewrite pretty_N_go_step by lia. apply IH; [apply N.div_lt; lia | done].
Qed.

Lemma pretty_N_numeric (x : N) : all_numeric (pretty x) /\ pretty x <> EmptyString.
Proof.
  unfold pretty, pretty_N. destruct (decide (x = 0)%N) as [->|Hx].
  - split; [|done]. cbn. split; [|done]. repeat split; discriminate.
  - split; [by apply pretty_N_go_numeric|].
    rewrite pretty_N_go_step by lia. by apply pretty_N_go_nonempty.
Qed.

Lemma pretty_Z_plain (n : Z) :
  exists c t, pretty n = String c t /\ numeric c /\ all_plain (String c t).
Proof.
  assert (H : all_numeric (pretty n) /\ pretty n <> EmptyString).
  { unfold pretty, pretty_Z. destruct n as [|p|p].
    - split; [|done]. cbn. split; [|done]. repeat split; discriminate.
    - apply (pretty_N_numeric (Npos p)).
    - destruct (pretty_N_numeric (Npos p)) as [H1 H2]. split; [|done].
      change ("-" +:+ ?t) with (String "-" t). cbn. split; [|exact H1].
      repeat split; discriminate. }
  destruct H as [H1 H2]. destruct (pretty n) as [|c t] eqn:E; [done|].
  exists c, t. split; [done|]. split; [apply H1 | by apply all_numeric_plain].
Qed.

Lemma N_of_ascii_inj (c c' : ascii) : N_of_ascii c = N_of_ascii c' -> c = c'.
Proof. intros H. by rewrite <- (ascii_N_embedding c), <- (ascii_N_embedding c'), H. Qed.

Lemma hex_digit_inj (x y : N) :
  (x < 16)%N -> (y < 16)%N -> hex_digit x = hex_digit y -> x = y.
Proof. compute; intros. by repeat (discriminate || case_match). Qed.

Lemma escape_char_split (c c' : ascii) (x y : string) :
  escape_char c +:+ x = escape_char c' +:+ y -> c = c' /\ x = y.
Proof.
  unfold escape_char.
  destruct (N.eqb_spec (N_of_ascii c) 34) as [E1|N1];
  [|destruct (N.eqb_spec (N_of_ascii c) 92) as [E2|N2];
  [|destruct (N.eqb_spec (N_of_ascii c) 8) as [E3|N3];
  [|destruct (N.eqb_spec (N_of_ascii c) 9) as [E4|N4];
  [|destruct (N.eqb_spec (N_of_ascii c) 10) as [E5|N5];
  [|destruct (N.eqb_spec (N_of_ascii c) 12) as [E6|N6];
  [|destruct (N.eqb_spec (N_of_ascii c) 13) as [E7|N7];
  [|destruct (N.ltb_spec (N_of_ascii c) 32) as [E8|N8]]]]]]]];
  (destruct (N.eqb_spec (N_of_ascii c') 34) as [E1'|N1'];
  [|destruct (N.eqb_spec (N_of_ascii c') 92) as [E2'|N2'];
  [|destruct (N.eqb_spec (N_of_ascii c') 8) as [E3'|N3'];
  [|destruct (N.eqb_spec (N_of_ascii c') 9) as [E4'|N4'];
  [|destruct (N.eqb_spec (N_of_ascii c') 10) as [E5'|N5'];
  [|destruct (N.eqb_spec (N_of_ascii c') 12) as [E6'|N6'];
  [|destruct (N.eqb_spec (N_of_ascii c') 13) as [E7'|N7'];
  [|destruct (N.ltb_spec (N_of_ascii c') 32) as [E8'|N8']]]]]]]]);
  norm; intros Heq;
  try discriminate;
  try (simplify_eq; cbn in *;
       first [ done | lia | congruence
             | split; [apply N_of_ascii_inj; congruence | done] ]).
  injection Heq as H1 H2 H3.
  apply hex_digit_inj in H1; [| apply N.Div0.div_lt_upper_bound; lia ..].
  apply hex_digit_inj in H2; [| apply N.mod_lt; lia ..].
  split; [|done]. apply N_of_ascii_inj.
  rewrite (N.div_mod (N_of_ascii c) 16), (N.div_mod (N_of_ascii c') 16) by lia. lia.
Qed.

Lemma escape_char_head (c : ascii) :
  exists h t, escape_char c = String h t /\ h <> ascii_of_N 34.
Proof.
  unfold escape_char. repeat case_match; eexists _, _; (split; [reflexivity|]);
    try discriminate.
  intros ->. cbn in *. discriminate.
Qed.

Lemma quote_split (s : string) : forall s' r r',
  escape s +:+ String (ascii_of_N 34) r = escape s' +:+ String (ascii_of_N 34) r' ->
  s = s' /\ r = r'.
Proof.
  induction s as [|c s IH]; intros [|c' s'] r r' Heq; cbn [escape] in Heq; norm.
  - by injection Heq as ->.
  - exfalso. destruct (escape_char_head c') as (h & t & Hh & Hne).
    rewrite Hh in Heq. norm. congruence.
  - exfalso. destruct (escape_char_head c) as (h & t & Hh & Hne).
    rewrite Hh in Heq. norm. congruence.
  - apply escape_char_split in Heq as [-> Heq].
    by destruct (IH _ _ _ Heq) as [-> ->].
Qed.

Lemma stringify_Arr (items : list value) :
  stringify (Arr items) = Some ("[" +:+ join "," (texts items) +:+ "]").
Proof.
  cbn [stringify].
  assert (forall l,
    (fix each (l : list value) : list string :=
       match l with
       | [] => []
       | x :: l' => default "null"%string (stringify x) :: each l'
       end) l = texts l) as ->; [|done].
  unfold texts. induction l as [|x l IH]; [done|]. cbn [fmap list_fmap]. by rewrite <- IH.
Qed.

Lemma stringify_Obj (props : list (string * value)) :
  stringify (Obj props) = Some ("{" +:+ join "," (members props) +:+ "}").
Proof.
  cbn [stringify].
  assert (forall l,
    (fix each (l : list (string * value)) : list string :=
       match l with
       | [] => []
       | (k, x) :: l' =>
           match stringify x with
           | Some t => (quote k +:+ ":" +:+ t) :: each l'
           | None => each l'
           end
       end) l = members l) as ->; [|done].
  unfold members. induction l as [|[k x] l IH]; [done|]. cbn [omap list_omap fst snd].
  rewrite <- IH. by destruct (stringify x).
Qed.

Lemma join_close (ts : list string) (close : string) :
  join "," ts +:+ close = seq_text ts close.
Proof.
  destruct ts as [|t ts]; [done|]. cbn [seq_text].
  revert t. induction ts as [|t' ts IH]; intros t; [done|].
  change (join "," (t :: t' :: ts)) with (t +:+ "," +:+ join "," (t' :: ts)).
  cbn [tail_text]. rewrite !append_assoc. by rewrite IH.
Qed.

Lemma tail_text_ended (ts : list string) (c : ascii) (r : string) :
  c = "]"%char \/ c = "}"%char -> ended (tail_text ts (String c r)).
Proof.
  intros Hc. right. destruct ts as [|t ts]; cbn [tail_text]; norm; eexists _, _;
    (split; [reflexivity|]); tauto.
Qed.

Lemma stringify_defined (v : value) :
  defined v = true ->
  exists c t, stringify v = Some (String c t) /\
              c <> ","%char /\ c <> "]"%char /\ c <> "}"%char.
Proof.
  destruct v as [| |[]|n|s|items|props]; intros Hd; try discriminate.
  - eexists _, _. split; [reflexivity|]. repeat split; discriminate.
  - eexists _, _. split; [reflexivity|]. repeat split; discriminate.
  - eexists _, _. split; [reflexivity|]. repeat split; discriminate.
  - destruct (pretty_Z_plain n) as (c & t & E & _ & [(H1 & H2 & H3 & _) _]).
    exists c, t. cbn. rewrite E. auto.
  - eexists _, _. split; [reflexivity|]. repeat split; discriminate.
  - rewrite stringify_Arr. eexists _, _. split; [reflexivity|]. repeat split; discriminate.
  - rewrite stringify_Obj. eexists _, _. split; [reflexivity|]. repeat split; discriminate.
Qed.

Lemma texts_cons (x : value) (items : list value) (t : string) :
  stringify x = Some t -> texts (x :: items) = t :: texts items.
Proof. intros H. unfold texts. cbn. by rewrite H. Qed.

Lemma members_cons (k : string) (x : value) (props : list (string * value)) (t : string) :
  stringify x = Some t -> members ((k, x) :: props) = (quote k +:+ ":" +:+ t) :: members props.
Proof. intros H. unfold members. cbn. by rewrite H. Qed.

Lemma arr_tail_split (items : list value) :
  Forall splits items -> forallb defined items = true ->
  forall items' r r', forallb defined items' = true ->
    tail_text (texts items) (String "]" r) = tail_text (texts items') (String "]" r') ->
    items = items' /\ r = r'.
Proof.
  induction items as [|x items IH]; intros Hsp Hd [|x' items'] r r' Hd' Heq.
  - by injection Heq as ->.
  - exfalso. cbn in Hd'. apply andb_true_iff in Hd' as [Hx' _].
    destruct (stringify_defined x' Hx') as (c & t & E & _).
    rewrite (texts_cons _ _ _ E) in Heq. cbn [tail_text texts fmap list_fmap] in Heq.
    norm. discriminate.
  - exfalso. cbn in Hd. apply andb_true_iff in Hd as [Hx _].
    destruct (stringify_defined x Hx) as (c & t & E & _).
    rewrite (texts_cons _ _ _ E) in Heq. cbn [tail_text texts fmap list_fmap] in Heq.
    norm. discriminate.
  - cbn in Hd, Hd'. apply andb_true_iff in Hd as [Hx Hd], Hd' as [Hx' Hd'].
    apply Forall_cons in Hsp as [Hspx Hsp].
    destruct (stringify_defined x Hx) as (c & t0 & E & _).
    destruct (stringify_defined x' Hx') as (c' & t0' & E' & _).
    set (t := String c t0) in *. set (t' := String c' t0') in *. clearbody t t'.
    rewrite (texts_cons _ _ _ E), (texts_cons _ _ _ E') in Heq.
    cbn [tail_text] in Heq. rewrite !append_cons, !append_nil_l in Heq.
    injection Heq as Heq.
    destruct (Hspx x' _ _ _ _ Hx' E E' (tail_text_ended _ "]" r (or_introl eq_refl))
                (tail_text_ended _ "]" r' (or_introl eq_refl)) Heq) as [-> Heq'].
    by destruct (IH Hsp Hd items' r r' Hd' Heq') as [-> ->].
Qed.

Lemma quote_append (k x : string) :
  quote k +:+ x = String (ascii_of_N 34) (escape k +:+ String (ascii_of_N 34) x).
Proof. unfold quote. by rewrite append_cons, append_assoc, append_cons, append_nil_l. Qed.

Lemma obj_tail_split (props : list (string * value)) :
  Forall (fun kv => splits kv.2) props ->
  forallb (fun kv => defined kv.2) props = true ->
  forall props' r r', forallb (fun kv => defined kv.2) props' = true ->
    tail_text (members props) (String "}" r) = tail_text (members props') (String "}" r') ->
    props = props' /\ r = r'.
Proof.
  induction props as [|[k x] props IH]; intros Hsp Hd [|[k' x'] props'] r r' Hd' Heq.
  - by injection Heq as ->.
  - exfalso. cbn in Hd'. apply andb_true_iff in Hd' as [Hx' _].
    destruct (stringify_defined x' Hx') as (c & t & E & _).
    rewrite (members_cons _ _ _ _ E) in Heq. cbn [tail_text] in Heq.
    rewrite !append_cons in Heq. discriminate.
  - exfalso. cbn in Hd. apply andb_true_iff in Hd as [Hx _].
    destruct (stringify_defined x Hx) as (c & t & E & _).
    rewrite (members_cons _ _ _ _ E) in Heq. cbn [tail_text] in Heq.
    rewrite !append_cons in Heq. discriminate.
  - cbn in Hd, Hd'. apply andb_true_iff in Hd as [Hx Hd], Hd' as [Hx' Hd'].
    apply Forall_cons in Hsp as [Hspx Hsp]. cbn [snd] in Hspx.
    destruct (stringify_defined x Hx) as (c & t0 & E & _).
    destruct (stringify_defined x' Hx') as (c' & t0' & E' & _).
    set (t := String c t0) in *. set (t' := String c' t0') in *. clearbody t t'.
    rewrite (members_cons _ _ _ _ E), (members_cons _ _ _ _ E') in Heq.
    cbn [tail_text] in Heq. unfold quote in Heq.
    repeat rewrite ?append_assoc, ?append_cons, ?append_nil_l in Heq.
    injection Heq as Heq. apply quote_split in Heq as [-> Heq].
    injection Heq as Heq.
    destruct (Hspx x' _ _ _ _ Hx' E E' (tail_text_ended _ "}" r (or_intror eq_refl))
                (tail_text_ended _ "}" r' (or_intror eq_refl)) Heq) as [-> Heq'].
    by destruct (IH Hsp Hd props' r r' Hd' Heq') as [-> ->].
Qed.

Lemma ended_head (r : string) (t : string) (c : ascii) (t0 : string) :
  ended r -> r = String c t0 +:+ t ->
  c = ","%char \/ c = "]"%char \/ c = "}"%char.
Proof.
  intros [->|(c0 & r0 & -> & Hc)]; rewrite append_cons; [discriminate|].
  by intros [= <- _].
Qed.

(** The texts of values without [undefined] form a prefix code. *)
Theorem stringify_splits (v : value) : defined v = true -> splits v.
Proof.
  induction v as [| |b|n|s|items IH|props IH] using value_induction;
    intros Hd v' t t' r r' Hd' Ht Ht' Hr Hr' Heq; try discriminate.
  - (* null *)
    injection Ht as <-.
    destruct v' as [| |[]|n'|s'|items'|props']; try discriminate;
      rewrite ?stringify_Arr, ?stringify_Obj in Ht'; injection Ht' as <-;
      try (unfold quote in Heq; rewrite ?append_cons in Heq; discriminate).
    + rewrite !append_cons, !append_nil_l in Heq. by injection Heq as ->.
    + destruct (pretty_Z_plain n') as (c & t0 & E & (_ & Hn & _) & _).
      rewrite E, !append_cons in Heq. congruence.
  - (* booleans *)
    injection Ht as <-.
    destruct v' as [| |b'|n'|s'|items'|props']; try discriminate;
      rewrite ?stringify_Arr, ?stringify_Obj in Ht'; injection Ht' as <-;
      try (destruct b; unfold quote in Heq; rewrite ?append_cons in Heq; discriminate).
    + destruct b, b'; rewrite !append_cons, !append_nil_l in Heq; try discriminate;
        by injection Heq as ->.
    + destruct (pretty_Z_plain n') as (c & t0 & E & (_ & _ & Ht1 & Hf1) & _).
      rewrite E in Heq. destruct b; rewrite !append_cons in Heq; congruence.
  - (* numbers *)
    injection Ht as <-.
    destruct (pretty_Z_plain n) as (c & t0 & E & (Hp & Hn & Ht1 & Hf1) & Hall).
    destruct Hp as (_ & _ & _ & Hq & Hb & Hc).
    destruct v' as [| |b'|n'|s'|items'|props']; try discriminate;
      rewrite ?stringify_Arr, ?stringify_Obj in Ht'; injection Ht' as <-;
      try (rewrite E in Heq; unfold quote in Heq; rewrite ?append_cons in Heq; congruence).
    + rewrite E in Heq. destruct b'; rewrite !append_cons in Heq; congruence.
    + destruct (pretty_Z_plain n') as (c' & t0' & E' & _ & Hall').
      rewrite <- E in Hall. rewrite <- E' in Hall'.
      destruct (token_split _ _ _ _ Hall Hall' Hr Hr' Heq) as [Hpp ->].
      split; [|done]. f_equal. by apply (inj pretty).
  -     injection Ht as <-.
    destruct v' as [| |b'|n'|s'|items'|props']; try discriminate;
      rewrite ?stringify_Arr, ?stringify_Obj in Ht'; injection Ht' as <-;
      try (unfold quote in Heq; rewrite ?append_cons in Heq; discriminate).
    + destruct b'; unfold quote in Heq; rewrite ?append_cons in Heq; discriminate.
    + destruct (pretty_Z_plain n') as (c & t0 & E & ((_ & _ & _ & Hq & _) & _) & _).
      rewrite E in Heq. unfold quote in Heq. rewrite !append_cons in Heq. congruence.
    + rewrite !quote_append in Heq. injection Heq as Heq.
      by apply quote_split in Heq as [-> ->].
  - (* arrays *)
    rewrite stringify_Arr in Ht. injection Ht as <-.
    destruct v' as [| |b'|n'|s'|items'|props']; try discriminate;
      rewrite ?stringify_Arr, ?stringify_Obj in Ht'; injection Ht' as <-;
      try (unfold quote in Heq; rewrite ?append_cons in Heq; discriminate).
    + destruct b'; rewrite ?append_cons in Heq; discriminate.
    + destruct (pretty_Z_plain n') as (c & t0 & E & ((_ & _ & _ & _ & Hb & _) & _) & _).
      rewrite E in Heq. rewrite !append_cons in Heq. congruence.
    + repeat rewrite ?append_assoc, ?append_cons, ?append_nil_l in Heq.
      rewrite !join_close in Heq.
      injection Heq as Heq. cbn [defined] in Hd, Hd'.
      assert (Hsp : Forall splits items).
      { rewrite Forall_forall in IH. apply Forall_forall. intros x Hx. apply IH; [done|].
        rewrite forallb_forall in Hd. apply Hd. by apply list_elem_of_In. }
      assert (items = items' /\ r = r') as [-> ->]; [|done].
      destruct items as [|x items], items' as [|x' items'].
      * by injection Heq as ->.
      * exfalso. cbn in Hd'. apply andb_true_iff in Hd' as [Hx' _].
        destruct (stringify_defined x' Hx') as (c & t & E & _ & Hc & _).
        rewrite (texts_cons _ _ _ E) in Heq. cbn [seq_text texts fmap list_fmap] in Heq.
        rewrite append_cons in Heq. congruence.
      * exfalso. cbn in Hd. apply andb_true_iff in Hd as [Hx _].
        destruct (stringify_defined x Hx) as (c & t & E & _ & Hc & _).
        rewrite (texts_cons _ _ _ E) in Heq. cbn [seq_text texts fmap list_fmap] in Heq.
        rewrite append_cons in Heq. congruence.
      * cbn in Hd, Hd'. apply andb_true_iff in Hd as [Hx Hd], Hd' as [Hx' Hd'].
        apply Forall_cons in Hsp as [Hspx Hsp].
        destruct (stringify_defined x Hx) as (c & t0 & E & _).
        destruct (stringify_defined x' Hx') as (c' & t0' & E' & _).
        set (t := String c t0) in *. set (t' := String c' t0') in *. clearbody t t'.
        rewrite (texts_cons _ _ _ E), (texts_cons _ _ _ E') in Heq. cbn [seq_text] in Heq.
        destruct (Hspx x' _ _ _ _ Hx' E E' (tail_text_ended _ "]" r (or_introl eq_refl))
                    (tail_text_ended _ "]" r' (or_introl eq_refl)) Heq) as [-> Heq'].
        by destruct (arr_tail_split items Hsp Hd items' r r' Hd' Heq') as [-> ->].
  - (* objects *)
    rewrite stringify_Obj in Ht. injection Ht as <-.
    destruct v' as [| |b'|n'|s'|items'|props']; try discriminate;
      rewrite ?stringify_Arr, ?stringify_Obj in Ht'; injection Ht' as <-;
      try (unfold quote in Heq; rewrite ?append_cons in Heq; discriminate).
    + destruct b'; rewrite ?append_cons in Heq; discriminate.
    + destruct (pretty_Z_plain n') as (c & t0 & E & ((_ & _ & _ & _ & _ & Hc) & _) & _).
      rewrite E in Heq. rewrite !append_cons in Heq. congruence.
    + repeat rewrite ?append_assoc, ?append_cons, ?append_nil_l in Heq.
      rewrite !join_close in Heq.
      injection Heq as Heq. cbn [defined] in Hd, Hd'.
      assert (Hsp : Forall (fun kv => splits kv.2) props).
      { rewrite Forall_forall in IH. apply Forall_forall. intros x Hx. apply IH; [done|].
        rewrite forallb_forall in Hd. apply Hd. by apply list_elem_of_In. }
      assert (props = props' /\ r = r') as [-> ->]; [|done].
      destruct props as [|[k x] props], props' as [|[k' x'] props'].
      * by injection Heq as ->.
      * exfalso. cbn in Hd'. apply andb_true_iff in Hd' as [Hx' _].
        destruct (stringify_defined x' Hx') as (c & t & E & _).
        rewrite (members_cons _ _ _ _ E) in Heq.
        cbn [seq_text members omap list_omap] in Heq. unfold quote in Heq.
        repeat rewrite ?append_assoc, ?append_cons, ?append_nil_l in Heq. discriminate.
      * exfalso. cbn in Hd. apply andb_true_iff in Hd as [Hx _].
        destruct (stringify_defined x Hx) as (c & t & E & _).
        rewrite (members_cons _ _ _ _ E) in Heq.
        cbn [seq_text members omap list_omap] in Heq. unfold quote in Heq.
        repeat rewrite ?append_assoc, ?append_cons, ?append_nil_l in Heq. discriminate.
      * cbn in Hd, Hd'. apply andb_true_iff in Hd as [Hx Hd], Hd' as [Hx' Hd'].
        apply Forall_cons in Hsp as [Hspx Hsp]. cbn [snd] in Hspx.
        destruct (stringify_defined x Hx) as (c & t0 & E & _).
        destruct (stringify_defined x' Hx') as (c' & t0' & E' & _).
        set (t := String c t0) in *. set (t' := String c' t0') in *. clearbody t t'.
        rewrite (members_cons _ _ _ _ E), (members_cons _ _ _ _ E') in Heq.
        cbn [seq_text] in Heq. unfold quote in Heq.
        repeat rewrite ?append_assoc, ?append_cons, ?append_nil_l in Heq.
        injection Heq as Heq. apply quote_split in Heq as [-> Heq].
        injection Heq as Heq.
        destruct (Hspx x' _ _ _ _ Hx' E E' (tail_text_ended _ "}" r (or_intror eq_refl))
                    (tail_text_ended _ "}" r' (or_intror eq_refl)) Heq) as [-> Heq'].
        by destruct (obj_tail_split props Hsp Hd props' r r' Hd' Heq') as [-> ->].
Qed.

(** [JSON.stringify] tells apart any two values that hold no
    [undefined]. *)
Theorem stringify_inj (v v' : value) :
  defined v = true -> defined v' = true -> stringify v = stringify v' -> v = v'.
Proof.
  intros Hd Hd' Heq.
  destruct (stringify_defined v Hd) as (c & t & E & _).
  assert (E' : stringify v' = Some (String c t)) by congruence.
  by destruct (stringify_splits v Hd v' _ _ EmptyString EmptyString Hd' E E'
                 (or_introl eq_refl) (or_introl eq_refl) eq_refl).
Qed.

(** *** Values as they are written *)

Lemma as_written_Arr (items : list value) :
  as_written (Arr items) = Arr (written_items items).
Proof.
  cbn [as_written]. f_equal. unfold written_items.
  induction items as [|x l IH]; [done|]. cbn [fmap list_fmap]. rewrite <- IH.
  by destruct x.
Qed.

Lemma as_written_Obj (props : list (string * value)) :
  as_written (Obj props) = Obj (written_props props).
Proof.
  cbn [as_written]. f_equal. unfold written_props.
  induction props as [|[k x] l IH]; [done|]. cbn [omap list_omap fst snd]. rewrite <- IH.
  by destruct x.
Qed.

(** The text of a value is the text of the value as written. *)
Lemma stringify_as_written (v : value) : stringify (as_written v) = stringify v.
Proof.
  induction v as [| | | | |items IH|props IH] using value_induction; try reflexivity.
  - rewrite as_written_Arr, !stringify_Arr.
    assert (texts (written_items items) = texts items) as ->; [|reflexivity].
    unfold texts, written_items. induction IH as [|x l Hx _ IHl]; [done|].
    cbn [fmap list_fmap]. rewrite IHl. f_equal.
    destruct x; try reflexivity; by rewrite Hx.
  - rewrite as_written_Obj, !stringify_Obj.
    assert (members (written_props props) = members props) as ->; [|reflexivity].
    unfold members, written_props. induction IH as [|[k x] l Hx _ IHl]; [done|].
    cbn [omap list_omap fst snd] in *.
    destruct x; cbn [omap list_omap fst snd]; rewrite ?IHl; try reflexivity;
      by rewrite Hx.
Qed.

(** Nothing in a value as written is [undefined]. *)
Lemma as_written_defined (v : value) : v <> Undefined -> defined (as_written v) = true.
Proof.
  induction v as [| | | | |items IH|props IH] using value_induction; intros Hv;
    try reflexivity; try done.
  - rewrite as_written_Arr. cbn [defined]. unfold written_items.
    induction IH as [|x l Hx _ IHl]; [done|].
    cbn [fmap list_fmap forallb]. rewrite IHl by done. rewrite andb_true_r.
    destruct x; try reflexivity; by apply Hx.
  - rewrite as_written_Obj. cbn [defined]. unfold written_props.
    induction IH as [|[k x] l Hx _ IHl]; [done|].
    cbn [omap list_omap fst snd] in *. specialize (IHl ltac:(done)).
    destruct x; cbn [forallb snd]; rewrite ?IHl, ?andb_true_r; try reflexivity;
      by apply Hx.
Qed.

(** A value that holds no [undefined] is written as it is. *)
Lemma as_written_same (v : value) : defined v = true -> as_written v = v.
Proof.
  induction v as [| | | | |items IH|props IH] using value_induction; intros Hv;
    try reflexivity.
  - rewrite as_written_Arr. f_equal. cbn [defined] in Hv. unfold written_items.
    induction IH as [|x l Hx _ IHl]; [done|].
    cbn [forallb] in Hv. apply andb_prop in Hv as [Hd Hl].
    cbn [fmap list_fmap]. rewrite IHl by done. f_equal.
    destruct x; try reflexivity; try discriminate; by apply Hx.
  - rewrite as_written_Obj. f_equal. cbn [defined] in Hv. unfold written_props.
    induction IH as [|[k x] l Hx _ IHl]; [done|].
    cbn [forallb snd] in Hv. apply andb_prop in Hv as [Hd Hl].
    cbn [omap list_omap fst snd] in *. specialize (IHl Hl).
    destruct x; try discriminate; cbn [omap list_omap]; rewrite IHl; f_equal; f_equal;
      by apply Hx.
Qed.

(** Two objects have the same text exactly when they are the same
    as written. *)
Lemma stringify_eq_written (f g : list (string * value)) :
  stringify (Obj f) = stringify (Obj g) <-> as_written (Obj f) = as_written (Obj g).
Proof.
  split.
  - intros Heq. apply stringify_inj; try (by apply as_written_defined).
    by rewrite !stringify_as_written.
  - intros Heq. rewrite <- (stringify_as_written (Obj f)), Heq.
    apply stringify_as_written.
Qed.

End JsonFacts.

Module StaticFacts.
Import JS Static Samples.

Lemma band_255 (x : Z) : band x 255 = x mod 256.
Proof.
  unfold band. change (to_int32 255) with (Z.ones 8).
  rewrite Z.land_ones by lia. unfold to_int32.
  change (2 ^ 8) with 256. change (2 ^ 31) with 2147483648.
  change (2 ^ 32) with 4294967296.
  Z.div_mod_to_equations. lia.
Qed.

Lemma byte0_spec (n : Z) : byte0 n = n mod 256.
Proof. apply band_255. Qed.

Lemma byte1_spec (n : Z) : byte1 n = (n / 256) mod 256.
Proof.
  unfold byte1. rewrite band_255. unfold sar.
  change (to_uint32 8 mod 32) with 8. rewrite Z.shiftr_div_pow2 by lia.
  unfold to_int32. change (2 ^ 8) with 256. change (2 ^ 31) with 2147483648.
  change (2 ^ 32) with 4294967296.
  Z.div_mod_to_equations. lia.
Qed.

Lemma byte2_spec (n : Z) : byte2 n = (n / 65536) mod 256.
Proof.
  unfold byte2. rewrite band_255. unfold sar.
  change (to_uint32 16 mod 32) with 16. rewrite Z.shiftr_div_pow2 by lia.
  unfold to_int32. change (2 ^ 16) with 65536. change (2 ^ 31) with 2147483648.
  change (2 ^ 32) with 4294967296.
  Z.div_mod_to_equations. lia.
Qed.

Lemma color_key_spec (ir ig ib ia : Z) :
  0 <= ir < 256 -> 0 <= ig < 256 -> 0 <= ib < 256 ->
  color_key ir ig ib ia = ir + ig * 256 + ib * 65536 + (ia mod 256) * 16777216.
Proof.
  intros Hr Hg Hb. unfold color_key, ushr, shl, to_uint32, to_int32.
  change (8 mod 2 ^ 32 mod 32) with 8. change (16 mod 2 ^ 32 mod 32) with 16.
  change (24 mod 2 ^ 32 mod 32) with 24. change (0 mod 2 ^ 32 mod 32) with 0.
  rewrite !Z.shiftl_mul_pow2 by lia. rewrite Z.shiftr_0_r.
  change (2 ^ 8) with 256. change (2 ^ 16) with 65536.
  change (2 ^ 24) with 16777216. change (2 ^ 31) with 2147483648.
  change (2 ^ 32) with 4294967296.
  Z.div_mod_to_equations. lia.
Qed.

(** The low 24 bits of a key are the low 24 bits of the counter it
    was made from, whatever the prefix. *)
Lemma color_key_low24 (n ia : Z) :
  color_key (byte0 n) (byte1 n) (byte2 n) ia mod 16777216 = n mod 16777216.
Proof.
  rewrite color_key_spec;
    rewrite ?byte0_spec, ?byte1_spec, ?byte2_spec;
    try (apply Z.mod_pos_bound; lia).
  Z.div_mod_to_equations. lia.
Qed.

Lemma color_key_range (n ia : Z) :
  0 <= color_key (byte0 n) (byte1 n) (byte2 n) ia < 4294967296.
Proof.
  rewrite color_key_spec;
    rewrite ?byte0_spec, ?byte1_spec, ?byte2_spec;
    try (apply Z.mod_pos_bound; lia).
  Z.div_mod_to_equations. lia.
Qed.

Lemma createSelector_key (st : Statics) (t : Tile) :
  (createSelector st t).2 =
  color_key (byte0 (map_index st + 1)) (byte1 (map_index st + 1))
            (byte2 (map_index st + 1)) (map_prefix st).
Proof. reflexivity. Qed.

Lemma createSelector_map_index (st : Statics) (t : Tile) :
  map_index (createSelector st t).1 = map_index st + 1.
Proof. reflexivity. Qed.

Lemma createSelector_map_prefix (st : Statics) (t : Tile) :
  map_prefix (createSelector st t).1 = map_prefix st.
Proof. reflexivity. Qed.

Lemma createSelectors_cons (st : Statics) (t : Tile) (ts : list Tile) :
  createSelectors st (t :: ts) =
  ((createSelectors (createSelector st t).1 ts).1,
   (createSelector st t).2 :: (createSelectors (createSelector st t).1 ts).2).
Proof.
  cbn [createSelectors]. destruct (createSelector st t) as [st1 k].
  cbn [fst snd]. destruct (createSelectors st1 ts) as [st2 ks]. reflexivity.
Qed.

(** Every key of a run carries, in its low 24 bits, a counter value
    that the run went through. *)
Lemma createSelectors_low24 (ts : list Tile) : forall st : Statics,
  0 <= map_index st ->
  map_index st + Z.of_nat (length ts) < 16777216 ->
  Forall (fun k => map_index st < k mod 16777216 <= map_index st + Z.of_nat (length ts))
         (createSelectors st ts).2.
Proof.
  induction ts as [|t ts IH]; intros st Hlo Hhi.
  - constructor.
  - rewrite createSelectors_cons. cbn [snd length] in *.
    constructor.
    + rewrite createSelector_key, color_key_low24, Z.mod_small by lia. lia.
    + specialize (IH (createSelector st t).1).
      rewrite createSelector_map_index in IH.
      eapply Forall_impl; [apply IH; lia|].
      intros k Hk. cbn beta in Hk. lia.
Qed.

(** C1. Between two resets and as long as the allocation counter stays
    below 2^24, the colour keys returned by any sequence of
    [createSelector] calls on one worker are pairwise distinct (and
    each is an unsigned 32-bit number). *)
Theorem createSelector_keys_distinct (st : Statics) (ts : list Tile) :
  0 <= map_index st ->
  map_index st + Z.of_nat (length ts) < 2 ^ 24 ->
  NoDup (createSelectors st ts).2 /\
  Forall (fun k => 0 <= k < 2 ^ 32) (createSelectors st ts).2.
Proof.
  change (2 ^ 24) with 16777216. change (2 ^ 32) with 4294967296.
  revert st. induction ts as [|t ts IH]; intros st Hlo Hhi.
  - split; constructor.
  - rewrite createSelectors_cons. cbn [snd length] in *.
    destruct (IH (createSelector st t).1) as [Hnd Hrg];
      rewrite ?createSelector_map_index; try lia.
    split; constructor; trivial.
    + intros Hin.
      pose proof (createSelectors_low24 ts (createSelector st t).1) as Hlow.
      rewrite createSelector_map_index in Hlow.
      rewrite Forall_forall in Hlow.
      specialize (Hlow ltac:(lia) ltac:(lia) _ Hin).
      rewrite createSelector_key, color_key_low24, Z.mod_small in Hlow by lia.
      lia.
    + rewrite createSelector_key. apply color_key_range.
Qed.

Lemma createSelector_keys_distinct_witness :
  NoDup (createSelectors (reset (setPrefix initial 1)) [tile_a; tile_b; tile_a]).2 /\
  Forall (fun k => 0 <= k < 2 ^ 32)
         (createSelectors (reset (setPrefix initial 1)) [tile_a; tile_b; tile_a]).2.
Proof.
  apply (createSelector_keys_distinct (reset (setPrefix initial 1)) [tile_a; tile_b; tile_a]).
  - simpl. lia.
  - simpl. lia.
Defined.


(** *** Selection groups *)

(** What one [getSelector] call leaves in [this.groups] and writes
    into the selector it returns. *)
Lemma getSelector_group (st : Statics) (f : Feature) (draw : Draw) (t : Tile)
    (context : Context) :
  let gv := group_value_of f draw context in
  let gk := group_key_of draw gv in
  let res := getSelector st f draw t context in
  selector_group res.1 res.2 =
    Some {| index := if truthy gv
                     then default (group_color (group_index st + 1)) (groups st !! gk)
                     else no_group;
            key := gk; value := gv |} /\
  groups res.1 =
    (if truthy gv
     then match groups st !! gk with
          | Some _ => groups st
          | None => <[gk := group_color (group_index st + 1)]> (groups st)
          end
     else groups st).
Proof.
  intros gv gk res. subst res. unfold getSelector. fold gv. fold gk.
  destruct (createSelector st t) as [st1 k] eqn:Hc.
  assert (Hg1 : groups st1 = groups st) by (injection Hc as <- _; reflexivity).
  assert (Hi1 : group_index st1 = group_index st) by (injection Hc as <- _; reflexivity).
  assert (Hk : is_Some (map st1 !! k)).
  { injection Hc as <- <-. cbn [map]. rewrite lookup_insert_eq. eauto. }
  destruct Hk as [sel Hsel].
  destruct (truthy gv) eqn:Htr.
  - unfold lookup_group. cbn [set_selector groups group_index].
    rewrite Hg1, Hi1.
    destruct (groups st !! gk) as [g|] eqn:Hlk; cbn [fst snd default];
      unfold selector_group; cbn [map set_selector groups];
      rewrite !lookup_alter_eq, Hsel; cbn; auto.
  - cbn [fst snd]. unfold selector_group. cbn [map set_selector groups].
    rewrite !lookup_alter_eq, Hsel. cbn. auto.
Qed.






End StaticFacts.

(** ** Facts about the main-thread instance *)

Module MainFacts.
Import JS Json Main Invariants Samples JsonFacts.

(** Projections of updated states. *)
Ltac fields :=
  cbn [workers lock_fn requests states feature read_delay read_delay_timer pixel selection_request_id heap timers next_timer posted awaiting settled logged gl_calls
       set_workers set_lock_fn set_requests set_states set_feature set_read_delay set_read_delay_timer set_pixel set_selection_request_id set_heap set_timers set_next_timer set_posted set_awaiting set_settled set_logged set_gl_calls].
Tactic Notation "fields" "in" hyp(H) :=
  cbn [workers lock_fn requests states feature read_delay read_delay_timer pixel selection_request_id heap timers next_timer posted awaiting settled logged gl_calls
       set_workers set_lock_fn set_requests set_states set_feature set_read_delay set_read_delay_timer set_pixel set_selection_request_id set_heap set_timers set_next_timer set_posted set_awaiting set_settled set_logged set_gl_calls] in H.

(** *** The queue as a map from ids *)

Lemma lookup_request_id (q : list Request) (r : Z) (request : Request) :
  lookup_request q r = Some request -> id request = r.
Proof.
  unfold lookup_request. intros H. apply find_some in H as [_ H]. lia.
Qed.

Lemma lookup_request_elem (q : list Request) (r : Z) (request : Request) :
  lookup_request q r = Some request -> request ∈ q.
Proof.
  unfold lookup_request. intros H. apply find_some in H as [H _].
  by apply list_elem_of_In.
Qed.

Lemma lookup_request_None (q : list Request) (r : Z) :
  lookup_request q r = None <-> r ∉ id <$> q.
Proof.
  unfold lookup_request. induction q as [|x q IH]; cbn.
  - split; [intros _; apply not_elem_of_nil | done].
  - destruct (Z.eqb_spec (id x) r) as [->|Hne].
    + split; [done | intros H; exfalso; apply H; left].
    + rewrite IH, not_elem_of_cons. split; [by intros ? | by intros [_ ?]].
Qed.

Lemma lookup_request_app (q1 q2 : list Request) (r : Z) :
  r ∉ id <$> q1 -> lookup_request (q1 ++ q2) r = lookup_request q2 r.
Proof.
  unfold lookup_request. induction q1 as [|x q1 IH]; cbn; [done|].
  rewrite not_elem_of_cons. intros [Hne Hnin].
  destruct (Z.eqb_spec (id x) r); [congruence | auto].
Qed.

Lemma lookup_request_head (x : Request) (q : list Request) :
  lookup_request (x :: q) (id x) = Some x.
Proof. unfold lookup_request. cbn. by rewrite Z.eqb_refl. Qed.

Lemma delete_request_notin (q : list Request) (r : Z) :
  r ∉ id <$> q -> delete_request r q = q.
Proof.
  unfold delete_request. induction q as [|x q IH]; cbn; [done|].
  rewrite not_elem_of_cons. intros [Hne Hnin].
  destruct (Z.eqb_spec (id x) r); [congruence|]. cbn. by rewrite IH.
Qed.

Lemma delete_request_app (q1 q2 : list Request) (r : Z) :
  delete_request r (q1 ++ q2) = delete_request r q1 ++ delete_request r q2.
Proof. unfold delete_request. apply List.filter_app. Qed.

Lemma delete_request_head (x : Request) (q : list Request) :
  id x ∉ id <$> q -> delete_request (id x) (x :: q) = q.
Proof.
  intros H. unfold delete_request. cbn. rewrite Z.eqb_refl. cbn.
  by apply delete_request_notin.
Qed.

Lemma lookup_delete_request (q : list Request) (r r' : Z) :
  lookup_request (delete_request r q) r' =
  if r' =? r then None else lookup_request q r'.
Proof.
  unfold lookup_request, delete_request. induction q as [|x q IH]; cbn.
  - by destruct (r' =? r).
  - destruct (Z.eqb_spec (id x) r) as [E|Hne]; cbn.
    + rewrite IH. destruct (Z.eqb_spec r' r) as [E'|Hne']; [done|].
      destruct (Z.eqb_spec (id x) r'); [congruence | done].
    + destruct (Z.eqb_spec (id x) r') as [E'|Hne'].
      * destruct (Z.eqb_spec r' r); [congruence | done].
      * exact IH.
Qed.

Lemma mark_sent_ids (q : list Request) (r : Z) :
  id <$> mark_sent r q = id <$> q.
Proof.
  unfold mark_sent. rewrite <- list_fmap_compose. apply list_fmap_ext.
  intros _ x _. cbn. by destruct (id x =? r).
Qed.

(** *** C9: an answer that finds no request *)

(** C9. When the id of the message matches no request of the queue,
    [finishRead] writes a log line and returns normally; the queue,
    the selected feature, the state cache and the selection objects
    are as before, no promise is settled and nothing is posted to a
    worker. *)
Theorem finishRead_unknown_request (message : Message) (s : State) :
  lookup_request (requests s) (msg_id message) = None ->
  (finishRead message s).2 = Returned /\
  requests (finishRead message s).1 = requests s /\
  feature (finishRead message s).1 = feature s /\
  states (finishRead message s).1 = states s /\
  heap (finishRead message s).1 = heap s /\
  settled (finishRead message s).1 = settled s /\
  posted (finishRead message s).1 = posted s /\
  awaiting (finishRead message s).1 = awaiting s /\
  logged (finishRead message s).1 =
    logged s ++ [LogError "FeatureSelection.finishRead(): could not find message" message].
Proof.
  intros Hnone. unfold finishRead. rewrite Hnone. cbn. repeat split.
Qed.

Lemma finishRead_unknown_request_witness :
  let message := {| msg_id := 7; msg_feature := None; msg_group := None |} in
  lookup_request (requests sent_and_unsent) 7 = None /\
  (finishRead message sent_and_unsent).2 = Returned /\
  requests (finishRead message sent_and_unsent).1 = requests sent_and_unsent.
Proof.
  cbv zeta.
  assert (H : lookup_request (requests sent_and_unsent) 7 = None) by (vm_compute; reflexivity).
  split; [exact H|].
  destruct (finishRead_unknown_request
              {| msg_id := 7; msg_feature := None; msg_group := None |} sent_and_unsent H)
    as (H1 & H2 & _).
  split; [exact H1 | exact H2].
Defined.


(** *** C5: cancelling the queue *)

Lemma is_settled_set_settled (s : State) (xs : list Settlement) (r : Z) :
  is_settled (set_settled (settled s ++ xs) s) r =
  is_settled s r || existsb (fun x => settlement_id x =? r) xs.
Proof. unfold is_settled. cbn. apply existsb_app. Qed.

Lemma state_eta (s : State) :
  set_requests (requests s) (set_settled (settled s) s) = s.
Proof. by destruct s. Qed.

Lemma clear_requests_loop (rest : list Request) : forall (pre : list Request) (s : State),
  requests s = pre ++ rest ->
  NoDup (id <$> pre ++ rest) ->
  Forall (fun request => is_settled s (id request) = false) rest ->
  fold_left clear_request (id <$> rest) s =
  set_requests (pre ++ List.filter sent rest)
    (set_settled (settled s ++ (Rejected <$> List.filter unsent rest)) s).
Proof.
  induction rest as [|x rest IH]; intros pre s Hq Hnd Hun.
  - cbn. rewrite !app_nil_r in *. rewrite <- Hq. symmetry. apply state_eta.
  - cbn [fmap list_fmap fold_left].
    assert (Hpre : id x ∉ id <$> pre).
    { rewrite fmap_app in Hnd. apply NoDup_app in Hnd as (_ & Hd & _).
      intros Hin. apply (Hd _ Hin). left. }
    assert (Hrest : id x ∉ id <$> rest).
    { rewrite fmap_app in Hnd. apply NoDup_app in Hnd as (_ & _ & Hd).
      by apply NoDup_cons in Hd as [? _]. }
    assert (Hlk : lookup_request (requests s) (id x) = Some x).
    { rewrite Hq, lookup_request_app by done. apply lookup_request_head. }
    apply Forall_cons in Hun as [Hx Hun].
    unfold clear_request at 2. rewrite Hlk.
    destruct (sent x) eqn:Hsent.
    + rewrite (IH (pre ++ [x]) s).
      * cbn [List.filter].
        assert (unsent x = false) as -> by (unfold unsent; by rewrite Hsent).
        rewrite Hsent. by rewrite <- app_assoc.
      * by rewrite <- app_assoc.
      * by rewrite <- app_assoc.
      * done.
    + unfold reject. rewrite Hx.
      rewrite (IH pre).
      * cbn [List.filter].
        assert (unsent x = true) as -> by (unfold unsent; by rewrite Hsent).
        rewrite Hsent. unfold set_requests, set_settled. cbn.
        by rewrite <- app_assoc.
      * change (delete_request (id x) (requests s) = pre ++ rest).
        rewrite Hq, delete_request_app, delete_request_notin by done.
        by rewrite delete_request_head.
      * rewrite fmap_app in *. apply NoDup_app in Hnd as (H1 & H2 & H3).
        apply NoDup_app. split; [done|]. split.
        -- intros r Hr Hr'. apply (H2 r Hr). by right.
        -- by apply NoDup_cons in H3 as [_ ?].
      * rewrite Forall_forall in *. intros y Hy.
        change (set_requests ?q ?t) with (set_requests q t).
        unfold is_settled in *. cbn. rewrite existsb_app, (Hun y Hy). cbn.
        destruct (Z.eqb_spec (id x) (id y)) as [E|]; [|done].
        exfalso. apply Hrest. rewrite E. by apply list_elem_of_fmap_2.
Qed.

(** C5. [clearPendingRequests] rejects every queued request that has
    not been sent, with a payload that holds that request, and removes
    it from the queue; the requests that have been sent stay queued,
    unchanged and in their order.  Nothing else changes.  ([queue_ok]
    holds of every reachable instance.) *)
Theorem clearPendingRequests_rejects_unsent (s : State) :
  queue_ok s ->
  clearPendingRequests s =
  set_requests (List.filter sent (requests s))
    (set_settled (settled s ++ (Rejected <$> List.filter unsent (requests s))) s).
Proof.
  intros [Hnd Hun]. unfold clearPendingRequests.
  by rewrite (clear_requests_loop (requests s) [] s).
Qed.

Lemma sent_and_unsent_queue_ok : queue_ok sent_and_unsent.
Proof.
  split.
  - apply (bool_decide_unpack _). vm_compute. exact I.
  - vm_compute. repeat constructor.
Defined.

Lemma clearPendingRequests_rejects_unsent_witness :
  requests (clearPendingRequests sent_and_unsent) =
    [{| id := 0; point := centre; state := None; sent := true |}] /\
  settled (clearPendingRequests sent_and_unsent) =
    [Rejected {| id := 1; point := centre; state := Some "hover"; sent := false |}].
Proof.
  rewrite (clearPendingRequests_rejects_unsent sent_and_unsent sent_and_unsent_queue_ok).
  split; vm_compute; reflexivity.
Defined.


(** *** C3: an empty pixel *)

Lemma readPixels_fields (fb : Framebuffer) (x y : Z) (s : State) :
  requests (readPixels fb x y s) = requests s /\
  settled (readPixels fb x y s) = settled s /\
  heap (readPixels fb x y s) = heap s /\
  feature (readPixels fb x y s) = feature s /\
  posted (readPixels fb x y s) = posted s /\
  awaiting (readPixels fb x y s) = awaiting s /\
  states (readPixels fb x y s) = states s /\
  workers (readPixels fb x y s) = workers s.
Proof. unfold readPixels. by destruct (fb x y). Qed.

(** C3. In the read-back, a pending request whose sampled pixel has
    255 in its alpha byte (the worker id) is resolved with no feature:
    the selection has a null feature, empty [selection_colors] and no
    group.  Its turn of the loop posts no message to any worker, and
    it leaves the queue.  ([queue_ok] holds of every reachable
    instance, and all through a read-back.) *)
Theorem read_request_no_feature (fb : Framebuffer) (s : State) (r : Z) (request : Request) :
  queue_ok s ->
  lookup_request (requests s) r = Some request ->
  sent request = false ->
  p3 (pixel (readPixels fb (sample_x request) (sample_y request) s)) = 255 ->
  settled (read_request fb s r) = settled s ++ [Resolved r (length (heap s))] /\
  heap (read_request fb s r) = heap s ++ [no_feature r (feature s)] /\
  posted (read_request fb s r) = posted s /\
  awaiting (read_request fb s r) = awaiting s /\
  lookup_request (requests (read_request fb s r)) r = None.
Proof.
  intros [_ Hun] Hlk Hsent Hpx.
  pose proof (lookup_request_id _ _ _ Hlk) as Hid.
  assert (Hset : is_settled s r = false).
  { rewrite Forall_forall in Hun. rewrite <- Hid. apply Hun.
    eapply lookup_request_elem, Hlk. }
  destruct (readPixels_fields fb (sample_x request) (sample_y request) s)
    as (Hq & Hst & Hh & Hf & Hp & Ha & _ & _).
  unfold read_request. rewrite Hlk, Hsent. cbv zeta. rewrite Hpx. cbn [Z.eqb negb Pos.eqb].
  set (s1 := readPixels fb (sample_x request) (sample_y request) s) in *.
  unfold finishRead. cbn [msg_id msg_feature]. rewrite Hq, Hid, Hlk.
  unfold resolve. fields.
  assert (is_settled (set_feature None s1) (id request) = false) as ->.
  { unfold is_settled in *. fields. rewrite Hst, Hid. exact Hset. }
  assert (Hgone : forall q, lookup_request (mark_sent r (delete_request r q)) r = None).
  { intros q. apply lookup_request_None. rewrite mark_sent_ids.
    apply lookup_request_None. rewrite lookup_delete_request. by rewrite Z.eqb_refl. }
  destruct (given (state request)); cbn [fst]; fields;
    rewrite ?Hst, ?Hh, ?Hp, ?Ha, ?Hf, ?Hid; repeat split; apply Hgone.
Qed.

Lemma hover_requested_queue_ok : queue_ok hover_requested.
Proof.
  split.
  - apply (bool_decide_unpack _). vm_compute. exact I.
  - vm_compute. repeat constructor.
Defined.

Lemma read_request_no_feature_witness :
  settled (read_request blank hover_requested 0) = [Resolved 0 0%nat] /\
  heap (read_request blank hover_requested 0) = [no_feature 0 None] /\
  posted (read_request blank hover_requested 0) = [] /\
  awaiting (read_request blank hover_requested 0) = [] /\
  lookup_request (requests (read_request blank hover_requested 0)) 0 = None.
Proof.
  apply (read_request_no_feature blank hover_requested 0
           {| id := 0; point := centre; state := Some "hover"; sent := false |}).
  - exact hover_requested_queue_ok.
  - vm_compute. reflexivity.
  - reflexivity.
  - vm_compute. reflexivity.
Defined.


(** *** C4: the [changed] flag *)

Lemma feature_changed_same (ft : option Feature) : feature_changed ft ft = false.
Proof.
  destruct ft as [f|]; cbn; [|done].
  by rewrite bool_decide_eq_true_2.
Qed.

(** C4 (as amended). In [finishRead] the [changed] flag, which goes
    into the selection that resolves the request, is true exactly
    when one of the new and the previously stored feature is null and
    the other is not, or both are non-null and their JSON texts
    differ.  The texts differ exactly when the features differ as
    they are written: in the name, the value or the position of a
    property, where a property whose value is [undefined] counts as
    absent.  So features that hold no [undefined] value are reported
    as changed exactly when they differ, be it only in the order of
    their properties; and features that are equal are never reported
    as changed. *)
Theorem finishRead_changed (message : Message) (s : State) (request : Request) :
  lookup_request (requests s) (msg_id message) = Some request ->
  is_settled s (id request) = false ->
  let chg := feature_changed (msg_feature message) (feature s) in
  (msg_feature message = None ->
     heap (finishRead message s).1 =
     heap s ++ [{| sel_feature := None; changed := chg; sel_request := id request;
                   selection_colors := []; sel_group := None;
                   update_pending := false |}]) /\
  (forall f grp, msg_feature message = Some f -> msg_group message = Some grp ->
     posted (finishRead message s).1 =
     posted s ++ [{| target := ToAll (workers s);
                     method := "self.getFeatureSelectionGroupColor";
                     payload := GroupKey (Static.key grp);
                     continuation := ThenResolve request f chg grp |}]) /\
  (chg = true <->
     (is_Some (msg_feature message) /\ feature s = None) \/
     (msg_feature message = None /\ is_Some (feature s)) \/
     (exists f g, msg_feature message = Some f /\ feature s = Some g /\
                  stringify (Obj f) <> stringify (Obj g))) /\
  (forall f g, msg_feature message = Some f -> feature s = Some g ->
               (chg = true <-> as_written (Obj f) <> as_written (Obj g))) /\
  (forall f g, msg_feature message = Some f -> feature s = Some g ->
               defined (Obj f) = true -> defined (Obj g) = true ->
               (chg = true <-> f <> g)) /\
  (msg_feature message = feature s -> chg = false).
Proof.
  intros Hlk Hset chg. subst chg.
  assert (Htext : forall f g, msg_feature message = Some f -> feature s = Some g ->
            (feature_changed (msg_feature message) (feature s) = true <->
             stringify (Obj f) <> stringify (Obj g))).
  { intros f g -> ->. unfold feature_changed.
    rewrite negb_true_iff, bool_decide_eq_false. reflexivity. }
  split; [|split; [|split; [split|split; [|split]]]].
  - intros Hnone. unfold finishRead. rewrite Hlk, Hnone. unfold resolve.
    assert (is_settled (set_feature None s) (id request) = false) as -> by exact Hset.
    by destruct (given (state request)).
  - intros f grp Hf Hg. unfold finishRead. by rewrite Hlk, Hf, Hg.
  - destruct (msg_feature message) as [f|] eqn:Hf, (feature s) as [g|] eqn:Hg; cbn;
      intros H; try discriminate; eauto.
    right. right. exists f, g. repeat split.
    apply negb_true_iff, bool_decide_eq_false in H. exact H.
  - intros [[H1 H2]|[[H1 H2]|(f & g & H1 & H2 & H3)]].
    + rewrite H2. by destruct H1 as [f ->].
    + rewrite H1. by destruct H2 as [g ->].
    + by apply (Htext f g).
  - intros f g Hf Hg. rewrite (Htext f g Hf Hg), stringify_eq_written. reflexivity.
  - intros f g Hf Hg Hdf Hdg. rewrite (Htext f g Hf Hg), stringify_eq_written.
    rewrite (as_written_same (Obj f) Hdf), (as_written_same (Obj g) Hdg).
    split; [intros Hne ->; by apply Hne | intros Hne Heq; apply Hne; by injection Heq].
  - intros ->. apply feature_changed_same.
Qed.

Lemma finishRead_changed_witness :
  let message := {| msg_id := 1; msg_feature := Some feature_no_name;
                    msg_group := Some road_group |} in
  feature_changed (msg_feature message) (feature second_request_sent) = false.
Proof.
  cbv zeta.
  refine (proj2 (proj2 (proj2 (proj2 (proj2
    (finishRead_changed
       {| msg_id := 1; msg_feature := Some feature_no_name; msg_group := Some road_group |}
       second_request_sent
       {| id := 1; point := centre; state := None; sent := true |} _ _))))) _).
  - vm_compute. reflexivity.
  - vm_compute. reflexivity.
  - vm_compute. reflexivity.
Defined.


(** C4 as stated fails in both directions.  The new feature has a
    property whose value is [undefined] and the stored one lacks that
    property: the two differ, their JSON texts are the same, and
    [changed] is [false].  And the new feature has the properties of
    the stored one, with the same values, in another order: their
    JSON texts differ, and [changed] is [true]. *)
Lemma finishRead_changed_counterexample :
  let differs := {| msg_id := 1; msg_feature := Some feature_undefined_name;
                    msg_group := Some road_group |} in
  let reordered := {| msg_id := 1; msg_feature := Some feature_name_first;
                      msg_group := Some road_group |} in
  (feature second_request_sent = Some feature_no_name /\
   msg_feature differs <> feature second_request_sent /\
   posted (finishRead differs second_request_sent).1 =
     posted second_request_sent ++
     [{| target := ToAll [Some 0%nat];
         method := "self.getFeatureSelectionGroupColor";
         payload := GroupKey "roads:A1";
         continuation :=
           ThenResolve {| id := 1; point := centre; state := None; sent := true |}
                       feature_undefined_name false road_group |}]) /\
  (feature second_request_sent_again = Some feature_id_first /\
   (forall name, get feature_name_first name = get feature_id_first name) /\
   length feature_name_first = length feature_id_first /\
   posted (finishRead reordered second_request_sent_again).1 =
     posted second_request_sent_again ++
     [{| target := ToAll [Some 0%nat];
         method := "self.getFeatureSelectionGroupColor";
         payload := GroupKey "roads:A1";
         continuation :=
           ThenResolve {| id := 1; point := centre; state := None; sent := true |}
                       feature_name_first true road_group |}]).
Proof.
  cbv zeta. split; [split; [|split]|split; [|split; [|split]]].
  - vm_compute. reflexivity.
  - vm_compute. discriminate.
  - vm_compute. reflexivity.
  - vm_compute. reflexivity.
  - intros name. unfold feature_name_first, feature_id_first. cbn [get].
    destruct (String.eqb_spec "name" name) as [<-|]; [reflexivity|].
    by destruct (String.eqb_spec "id" name).
  - reflexivity.
  - vm_compute. reflexivity.
Qed.


(** *** What each method leaves alone *)

Lemma same_timers_refl (s : State) : same_timers s s.
Proof. by repeat split. Qed.

Lemma same_timers_trans (s1 s2 s3 : State) :
  same_timers s1 s2 -> same_timers s2 s3 -> same_timers s1 s3.
Proof.
  unfold same_timers. intros (-> & -> & -> & -> & ->) (-> & -> & -> & -> & ->). done.
Qed.

Lemma same_timers_fold (f : State -> Z -> State) (rs : list Z) :
  (forall s r, same_timers s (f s r)) ->
  forall s, same_timers s (fold_left f rs s).
Proof.
  intros Hf. induction rs as [|r rs IH]; intros s; cbn.
  - apply same_timers_refl.
  - eapply same_timers_trans; [apply Hf | apply IH].
Qed.

Ltac frame := repeat case_match; by repeat split.

Lemma resolve_timers (request : Request) (sel : Selection) (s : State) :
  same_timers s (resolve request sel s).
Proof. unfold resolve. frame. Qed.

Lemma reject_timers (request : Request) (s : State) : same_timers s (reject request s).
Proof. unfold reject. frame. Qed.

Lemma finishRead_timers (message : Message) (s : State) :
  same_timers s (finishRead message s).1.
Proof. unfold finishRead, resolve. frame. Qed.

Lemma clear_request_timers (s : State) (r : Z) : same_timers s (clear_request s r).
Proof. unfold clear_request, reject. frame. Qed.

Lemma read_request_timers (fb : Framebuffer) (s : State) (r : Z) :
  same_timers s (read_request fb s r).
Proof.
  unfold read_request. destruct (lookup_request _ _) as [request|]; [|frame].
  destruct (sent request); [frame|]. cbv zeta.
  set (s1 := readPixels _ _ _ _).
  assert (H1 : same_timers s s1) by (unfold s1, readPixels; frame).
  eapply same_timers_trans; [exact H1|].
  destruct (negb _).
  - unfold postMessage. frame.
  - eapply same_timers_trans; [apply finishRead_timers|]. frame.
Qed.

Lemma deliver_timers (p : Post) (reply : Reply) (s : State) :
  same_timers s (deliver p reply s).
Proof.
  unfold deliver. destruct (continuation p), reply; try apply same_timers_refl.
  - apply finishRead_timers.
  - eapply same_timers_trans; [apply resolve_timers|]. frame.
  - frame.
Qed.

Lemma updateState_timers (k : string) (s : State) : same_timers s (updateState k s).1.
Proof. unfold updateState. frame. Qed.

Lemma step_timers (s : State) (e : Event) :
  (forall t lk fb, e <> Timeout t lk fb) -> is_read e = false ->
  same_timers s (step s e).
Proof.
  intros Hto Hrd. destruct e; cbn [step]; try discriminate.
  - frame.
  - apply same_timers_fold, clear_request_timers.
  - by edestruct Hto.
  - destruct (awaiting s !! i); [|apply same_timers_refl].
    eapply same_timers_trans; [|apply deliver_timers]. frame.
  - apply updateState_timers.
  - frame.
Qed.

Lemma read_back_timers (lk : bool) (fb : Framebuffer) (s : State) :
  same_timers s (read_back lk fb s).
Proof.
  unfold read_back. destruct (locked s lk); [apply same_timers_refl|]. cbv zeta.
  set (s1 := set_gl_calls _ s).
  apply (same_timers_trans s s1); [by repeat split|].
  apply (same_timers_trans s1 (fold_left (read_request fb) (id <$> requests s1) s1)).
  - apply same_timers_fold, read_request_timers.
  - by repeat split.
Qed.


(** *** The outstanding time-out *)

Lemma read_sets_one_timer (s : State) :
  timer_ok s ->
  timers (read s) = [next_timer s] /\
  read_delay_timer (read s) = Some (next_timer s) /\
  next_timer (read s) = S (next_timer s) /\
  lock_fn (read s) = lock_fn s.
Proof.
  intros [[Hnil|(t & Ht & Hrd)] _]; unfold read, setTimeout, clearTimeout.
  - destruct (read_delay_timer s); fields; rewrite Hnil; by repeat split.
  - rewrite Hrd. fields. rewrite Ht. cbn. rewrite Nat.eqb_refl. by repeat split.
Qed.

Lemma read_timer_ok (s : State) : timer_ok s -> timer_ok (read s).
Proof.
  intros Hok. destruct (read_sets_one_timer s Hok) as (Ht & Hrd & Hn & _).
  split.
  - right. eauto.
  - rewrite Ht, Hn. repeat constructor.
Qed.

Lemma run_app (s : State) (es1 es2 : list Event) :
  run s (es1 ++ es2) = run (run s es1) es2.
Proof. apply fold_left_app. Qed.

Lemma reads_set_one_timer (n : nat) : forall s : State,
  timer_ok s ->
  timer_ok (run s (repeat Read (S n))) /\
  timers (run s (repeat Read (S n))) = [(next_timer s + n)%nat] /\
  read_delay_timer (run s (repeat Read (S n))) = Some (next_timer s + n)%nat /\
  lock_fn (run s (repeat Read (S n))) = lock_fn s.
Proof.
  induction n as [|n IH]; intros s Hok.
  - cbn. destruct (read_sets_one_timer s Hok) as (Ht & Hrd & _ & Hl).
    rewrite Nat.add_0_r. split; [by apply read_timer_ok | done].
  - change (repeat Read (S (S n))) with (Read :: repeat Read (S n)).
    change (run s (Read :: ?es)) with (run (read s) es).
    destruct (IH (read s) (read_timer_ok s Hok)) as (H1 & H2 & H3 & H4).
    destruct (read_sets_one_timer s Hok) as (_ & _ & Hn & Hl).
    rewrite Hn in H2, H3. rewrite Hl in H4.
    replace (next_timer s + S n)%nat with (S (next_timer s) + n)%nat by lia.
    done.
Qed.

Lemma timeout_other (s : State) (t : Timer) (lk : bool) (fb : Framebuffer) :
  t ∉ timers s -> timeout t lk fb s = s.
Proof. intros H. unfold timeout. by rewrite bool_decide_eq_false_2. Qed.

Lemma timeout_last (s : State) (t : Timer) (lk : bool) (fb : Framebuffer) :
  timers s = [t] ->
  timers (timeout t lk fb s) = [] /\ lock_fn (timeout t lk fb s) = lock_fn s.
Proof.
  intros Ht. unfold timeout. rewrite bool_decide_eq_true_2 by (rewrite Ht; left).
  destruct (read_back_timers lk fb (clearTimeout t s)) as (-> & _ & _ & -> & _).
  unfold clearTimeout. fields. rewrite Ht. cbn. by rewrite Nat.eqb_refl.
Qed.

End MainFacts.

(** ** Facts about the state cache *)

Module CacheFacts.
Import JS Main Invariants MainFacts Samples.

Lemma outstanding_le_1 (l : list (string * Loc)) (k : string) :
  NoDup l.*1 ->
  (length (List.filter (fun kl => String.eqb kl.1 k) l) <= 1)%nat.
Proof.
  induction l as [|[k' l'] l IH]; cbn; [lia|].
  intros Hnd. apply NoDup_cons in Hnd as [Hnotin Hnd].
  destruct (String.eqb_spec k' k) as [->|Hne]; [|by apply IH].
  cbn. assert (List.filter (fun kl => String.eqb kl.1 k) l = []) as ->; [|cbn; lia].
  clear IH Hnd. induction l as [|[k2 l2] l IH]; cbn; [done|].
  cbn in Hnotin. apply not_elem_of_cons in Hnotin as [Hne Hnotin].
  destruct (String.eqb_spec k2 k); [congruence | by apply IH].
Qed.

Lemma state_at_clearState (s : State) (k k' : string) :
  state_at (clearState k s) k' = if decide (k = k') then None else state_at s k'.
Proof.
  unfold state_at, clearState. fields. rewrite lookup_insert.
  by destruct (decide (k = k')).
Qed.

Lemma updates_ok_updateState (s : State) (k : string) :
  updates_ok s -> updates_ok (updateState k s).1.
Proof.
  intros (Hk & Hl & Hall). unfold updateState.
  destruct (state_at s k) as [l|] eqn:Hat; [|done].
  destruct (heap s !! l) as [st|] eqn:Hst; [|done].
  destruct (sel_group st) as [grp|]; [|done].
  destruct (update_pending st) eqn:Hpend; [done|].
  destruct (_ =? _)%nat; [done|]. cbn [orb fst].
  assert (Hposts : update_posts
            (postMessage
               {| target := ToAll (workers s);
                  method := "self.getFeatureSelectionGroupColor";
                  payload := GroupKey (Static.key grp);
                  continuation := ThenStoreColors k l |}
               (set_heap (alter (set_update_pending true) l (heap s)) s)) =
            update_posts s ++ [(k, l)]).
  { unfold update_posts, postMessage. fields. by rewrite omap_app. }
  rewrite Forall_forall in Hall.
  assert (Hfresh_l : l ∉ (update_posts s).*2).
  { intros Hin. apply list_elem_of_fmap in Hin as ([k' l'] & Heq & Hin).
    cbn in Heq. subst l'. destruct (Hall _ Hin) as [(st' & Hst' & Hp') _].
    cbn in Hst'. congruence. }
  assert (Hfresh_k : k ∉ (update_posts s).*1).
  { intros Hin. apply list_elem_of_fmap in Hin as ([k' l'] & Heq & Hin).
    cbn in Heq. subst k'. destruct (Hall _ Hin) as [_ [Hno|Hsome]]; cbn in *.
    - congruence.
    - apply Hfresh_l. apply list_elem_of_fmap. exists (k, l'). split; [|done].
      cbn. congruence. }
  unfold updates_ok. fields. rewrite Hposts, !fmap_app. cbn [fmap list_fmap fst snd].
  split; [|split].
  - apply NoDup_app. split; [done|]. split; [|apply NoDup_singleton].
    intros x Hx Hx'. apply list_elem_of_singleton in Hx'. by subst.
  - apply NoDup_app. split; [done|]. split; [|apply NoDup_singleton].
    intros x Hx Hx'. apply list_elem_of_singleton in Hx'. by subst.
  - apply Forall_app. split.
    + apply Forall_forall. intros [k' l'] Hin.
      destruct (Hall _ Hin) as [(st' & Hst' & Hp') Hat']. cbn in *.
      split; [|exact Hat'].
      exists st'. split; [|done].
      unfold postMessage. fields. rewrite list_lookup_alter_ne; [done|].
      intros <-. apply Hfresh_l. apply list_elem_of_fmap. by exists (k', l).
    + apply Forall_singleton. cbn. split.
      * exists (set_update_pending true st). split; [|done].
        unfold postMessage. fields. by rewrite list_lookup_alter_eq, Hst.
      * right. exact Hat.
Qed.

Lemma updates_ok_clearState (s : State) (k : string) :
  updates_ok s -> updates_ok (clearState k s).
Proof.
  intros (Hk & Hl & Hall). split; [done|]. split; [done|].
  change (update_posts (clearState k s)) with (update_posts s).
  eapply Forall_impl; [exact Hall|].
  intros [k' l'] [Hst Hat]. cbn in *. split; [exact Hst|].
  rewrite state_at_clearState. destruct (decide (k = k')); [by left | done].
Qed.

Lemma updates_ok_answer (s : State) (i : nat) (p : Post) (reply : Reply) :
  awaiting s !! i = Some p -> is_Some (update_of p) ->
  updates_ok s ->
  updates_ok (deliver p reply (set_awaiting (delete i (awaiting s)) s)).
Proof.
  intros Hi [[k l] Hup] (Hk & Hl & Hall).
  assert (Hsplit : update_posts s =
            omap update_of (take i (awaiting s)) ++ (k, l) :: omap update_of (drop (S i) (awaiting s))).
  { unfold update_posts. rewrite <- (take_drop_middle _ _ _ Hi) at 1.
    rewrite omap_app. cbn. by rewrite Hup. }
  set (u1 := omap update_of (take i (awaiting s))) in *.
  set (u2 := omap update_of (drop (S i) (awaiting s))) in *.
  assert (Hrest : forall s', awaiting s' = delete i (awaiting s) -> update_posts s' = u1 ++ u2).
  { intros s' Hs'. unfold update_posts. by rewrite Hs', delete_take_drop, omap_app. }
  rewrite Hsplit in Hk, Hl, Hall.
  rewrite !fmap_app, !fmap_cons in Hk. rewrite !fmap_app, !fmap_cons in Hl.
  cbn [fst snd] in Hk, Hl.
  assert (Hk' : NoDup (u1 ++ u2).*1).
  { rewrite fmap_app. apply NoDup_app in Hk as (H1 & H2 & H3).
    apply NoDup_cons in H3 as [_ H3]. apply NoDup_app. repeat split; trivial.
    intros x Hx Hx'. apply (H2 x Hx). by right. }
  assert (Hl' : NoDup (u1 ++ u2).*2).
  { rewrite fmap_app. apply NoDup_app in Hl as (H1 & H2 & H3).
    apply NoDup_cons in H3 as [_ H3]. apply NoDup_app. repeat split; trivial.
    intros x Hx Hx'. apply (H2 x Hx). by right. }
  assert (Hnotl : l ∉ (u1 ++ u2).*2).
  { rewrite fmap_app. apply NoDup_app in Hl as (H1 & H2 & H3).
    apply NoDup_cons in H3 as [H3 _]. apply not_elem_of_app. split; [|done].
    intros Hin. apply (H2 l Hin). left. }
  assert (Hall' : Forall (fun kl =>
            (exists st, heap s !! kl.2 = Some st /\ update_pending st = true) /\
            (state_at s kl.1 = None \/ state_at s kl.1 = Some kl.2)) (u1 ++ u2)).
  { apply Forall_app in Hall as [H1 H2]. apply Forall_cons in H2 as [_ H2].
    by apply Forall_app. }
  unfold deliver. unfold update_of in Hup.
  destruct (continuation p) as [| |k0 l0] eqn:Hcont; try discriminate.
  injection Hup as -> ->.
  destruct reply as [message|colors]; unfold updates_ok; rewrite !Hrest by reflexivity.
  - done.
  - split; [done|]. split; [done|]. fields.
    apply Forall_forall. intros [k' l'] Hin.
    rewrite Forall_forall in Hall'. destruct (Hall' _ Hin) as [(st & Hst & Hp) Hat].
    cbn in *. split; [|exact Hat].
    exists st. split; [|done]. rewrite list_lookup_alter_ne; [done|].
    intros <-. apply Hnotl. apply list_elem_of_fmap. by exists (k', l).
Qed.

Lemma updates_ok_run (es : list Event) : forall s : State,
  updates_ok s -> cache_events s es = true -> updates_ok (run s es).
Proof.
  induction es as [|e es IH]; intros s Hok Hes; [done|].
  cbn [cache_events] in Hes. apply andb_true_iff in Hes as [He Hes].
  apply (IH (step s e)); [|done].
  destruct e; try discriminate; cbn [step].
  - cbn [cache_event] in He. destruct (awaiting s !! i) as [p|] eqn:Hi; [|done].
    apply bool_decide_eq_true in He. by apply updates_ok_answer.
  - by apply updates_ok_updateState.
  - by apply updates_ok_clearState.
Qed.

(** *** One request per state object, whatever happens *)

Lemma outstanding_for_le_1 (l : list (string * Loc)) (loc : Loc) :
  NoDup l.*2 ->
  (length (List.filter (fun kl => (kl.2 =? loc)%nat) l) <= 1)%nat.
Proof.
  induction l as [|[k' l'] l IH]; cbn; [lia|].
  intros Hnd. apply NoDup_cons in Hnd as [Hnotin Hnd].
  destruct (Nat.eqb_spec l' loc) as [->|Hne]; [|by apply IH].
  cbn. assert (List.filter (fun kl => (kl.2 =? loc)%nat) l = []) as ->; [|cbn; lia].
  clear IH Hnd. induction l as [|[k2 l2] l IH]; cbn; [done|].
  cbn in Hnotin. apply not_elem_of_cons in Hnotin as [Hne Hnotin].
  destruct (Nat.eqb_spec l2 loc); [congruence | by apply IH].
Qed.

Lemma objects_grow_refl (s : State) : objects_grow s s.
Proof. split; exists []; by rewrite ?app_nil_r. Qed.

Lemma objects_grow_trans (s1 s2 s3 : State) :
  objects_grow s1 s2 -> objects_grow s2 s3 -> objects_grow s1 s3.
Proof.
  intros [[h1 Hh1] (p1 & Hp1 & Hu1)] [[h2 Hh2] (p2 & Hp2 & Hu2)]. split.
  - exists (h1 ++ h2). by rewrite Hh2, Hh1, app_assoc.
  - exists (p1 ++ p2). rewrite Hp2, Hp1, app_assoc, omap_app, Hu1, Hu2. done.
Qed.

Lemma objects_grow_fold (f : State -> Z -> State) (rs : list Z) :
  (forall s r, objects_grow s (f s r)) ->
  forall s, objects_grow s (fold_left f rs s).
Proof.
  intros Hf. induction rs as [|r rs IH]; intros s; cbn.
  - apply objects_grow_refl.
  - eapply objects_grow_trans; [apply Hf | apply IH].
Qed.

Lemma objects_grow_ok (s s' : State) :
  objects_grow s s' ->
  update_posts s' = update_posts s /\ (objects_ok s -> objects_ok s').
Proof.
  intros [[h Hh] (ps & Hps & Hu)].
  assert (Heq : update_posts s' = update_posts s).
  { unfold update_posts. by rewrite Hps, omap_app, Hu, app_nil_r. }
  split; [exact Heq|]. intros [Hnd Hall]. unfold objects_ok. rewrite Heq.
  split; [exact Hnd|]. eapply Forall_impl; [exact Hall|].
  intros kl (st & Hst & Hp). exists st. split; [|done].
  rewrite Hh. by apply lookup_app_l_Some.
Qed.

Lemma objects_grow_keeps (s s' : State) :
  objects_grow s s' -> objects_ok s -> objects_ok s'.
Proof. intros Hg. apply (objects_grow_ok s s' Hg). Qed.

Ltac grows :=
  split;
  [ eexists; fields; first [reflexivity | symmetry; apply app_nil_r]
  | eexists; split;
    [ fields; first [reflexivity | symmetry; apply app_nil_r] | reflexivity ] ].

Lemma finishRead_grow (message : Message) (s : State) :
  objects_grow s (finishRead message s).1.
Proof. unfold finishRead, resolve, postMessage. repeat case_match; cbn [fst]; grows. Qed.

Lemma clear_request_grow (s : State) (r : Z) : objects_grow s (clear_request s r).
Proof. unfold clear_request, reject. repeat case_match; grows. Qed.

Lemma read_request_grow (fb : Framebuffer) (s : State) (r : Z) :
  objects_grow s (read_request fb s r).
Proof.
  unfold read_request, finishRead, resolve, readPixels, postMessage.
  cbn [msg_id msg_feature msg_group].
  repeat case_match; cbn [fst]; grows.
Qed.

Lemma read_back_grow (lk : bool) (fb : Framebuffer) (s : State) :
  objects_grow s (read_back lk fb s).
Proof.
  unfold read_back. destruct (locked s lk); [apply objects_grow_refl|]. cbv zeta.
  set (s1 := set_gl_calls _ s).
  apply (objects_grow_trans s s1); [grows|].
  apply (objects_grow_trans s1 (fold_left (read_request fb) (id <$> requests s1) s1)).
  - apply objects_grow_fold, read_request_grow.
  - grows.
Qed.

Lemma objects_ok_updateState (s : State) (k : string) :
  objects_ok s -> objects_ok (updateState k s).1.
Proof.
  intros [Hl Hall]. unfold updateState.
  destruct (state_at s k) as [l|] eqn:Hat; [|done].
  destruct (heap s !! l) as [st|] eqn:Hst; [|done].
  destruct (sel_group st) as [grp|]; [|done].
  destruct (update_pending st) eqn:Hpend; [done|].
  destruct (_ =? _)%nat; [done|]. cbn [orb fst].
  rewrite Forall_forall in Hall.
  assert (Hfresh_l : l ∉ (update_posts s).*2).
  { intros Hin. apply list_elem_of_fmap in Hin as ([k' l'] & Heq & Hin).
    cbn in Heq. subst l'. destruct (Hall _ Hin) as (st' & Hst' & Hp').
    cbn in Hst'. congruence. }
  unfold objects_ok, update_posts, postMessage. fields.
  rewrite omap_app. cbn [omap update_of continuation].
  fold (update_posts s). rewrite fmap_app. cbn [fmap list_fmap snd].
  split.
  - apply NoDup_app. split; [done|]. split; [|apply NoDup_singleton].
    intros x Hx Hx'. apply list_elem_of_singleton in Hx'. by subst.
  - apply Forall_app. split.
    + apply Forall_forall. intros [k' l'] Hin.
      destruct (Hall _ Hin) as (st' & Hst' & Hp'). cbn in *.
      exists st'. split; [|done]. rewrite list_lookup_alter_ne; [done|].
      intros <-. apply Hfresh_l. apply list_elem_of_fmap. by exists (k', l).
    + apply Forall_singleton. cbn.
      exists (set_update_pending true st). split; [|done].
      by rewrite list_lookup_alter_eq, Hst.
Qed.

Lemma objects_ok_answer (s : State) (i : nat) (p : Post) (reply : Reply) :
  awaiting s !! i = Some p -> objects_ok s ->
  objects_ok (deliver p reply (set_awaiting (delete i (awaiting s)) s)).
Proof.
  intros Hi [Hl Hall].
  set (s0 := set_awaiting (delete i (awaiting s)) s).
  set (u1 := omap update_of (take i (awaiting s))).
  set (u2 := omap update_of (drop (S i) (awaiting s))).
  assert (Hsplit : update_posts s = u1 ++ from_option (fun kl => [kl]) [] (update_of p) ++ u2).
  { unfold update_posts. rewrite <- (take_drop_middle _ _ _ Hi) at 1.
    rewrite omap_app. cbn. by destruct (update_of p). }
  assert (Hrest : update_posts s0 = u1 ++ u2).
  { unfold update_posts, s0. fields. by rewrite delete_take_drop, omap_app. }
  rewrite Hsplit in Hl, Hall.
  assert (Hok0 : objects_ok s0).
  { unfold objects_ok. rewrite Hrest. change (heap s0) with (heap s). split.
    - rewrite !fmap_app in *. apply NoDup_app in Hl as (H1 & H2 & H3).
      apply NoDup_app in H3 as (_ & _ & H3). apply NoDup_app. repeat split; trivial.
      intros x Hx Hx'. apply (H2 x Hx). apply elem_of_app. by right.
    - apply Forall_app in Hall as [H1 H2]. apply Forall_app in H2 as [_ H2].
      by apply Forall_app. }
  unfold deliver.
  destruct (continuation p) as [|request f chg grp|k l] eqn:Hc, reply as [message|colors];
    try exact Hok0.
  - apply (objects_grow_keeps s0); [apply finishRead_grow | exact Hok0].
  - apply (objects_grow_keeps s0); [|exact Hok0]. unfold resolve. repeat case_match; grows.
  - assert (Hup : update_of p = Some (k, l)) by (unfold update_of; by rewrite Hc).
    rewrite Hup in Hl. cbn [from_option] in Hl.
    assert (Hnotl : l ∉ (u1 ++ u2).*2).
    { rewrite !fmap_app in *. cbn [fmap list_fmap snd app] in Hl.
      apply NoDup_app in Hl as (H1 & H2 & H3).
      apply NoDup_cons in H3 as [H3 _]. apply not_elem_of_app. split; [|done].
      intros Hin. apply (H2 l Hin). left. }
    destruct Hok0 as [Hl0 Hall0]. unfold objects_ok, update_posts in *. fields.
    change (awaiting s0) with (delete i (awaiting s)) in *.
    fold (update_posts s0) in *. rewrite Hrest in *.
    split; [done|]. apply Forall_forall. intros [k' l'] Hin.
    rewrite Forall_forall in Hall0. destruct (Hall0 _ Hin) as (st & Hst & Hp).
    cbn in *. exists st. split; [|done]. rewrite list_lookup_alter_ne; [done|].
    intros <-. apply Hnotl. apply list_elem_of_fmap. by exists (k', l).
Qed.

Lemma objects_ok_step (s : State) (e : Event) : objects_ok s -> objects_ok (step s e).
Proof.
  intros Hok. destruct e; cbn [step].
  - exact Hok.
  - apply (objects_grow_keeps s); [|exact Hok]. apply objects_grow_fold, clear_request_grow.
  - unfold read, setTimeout, clearTimeout. by destruct (read_delay_timer s).
  - unfold timeout. destruct (bool_decide _); [|done].
    apply (objects_grow_keeps (clearTimeout t s)); [apply read_back_grow | exact Hok].
  - destruct (awaiting s !! i) as [p|] eqn:Hi; [|done]. by apply objects_ok_answer.
  - by apply objects_ok_updateState.
  - exact Hok.
Qed.

Lemma objects_ok_run (es : list Event) : forall s : State,
  objects_ok s -> objects_ok (run s es).
Proof.
  induction es as [|e es IH]; intros s Hok; [done|].
  apply (IH (step s e)). by apply objects_ok_step.
Qed.

(** C6 (as amended). Take a moment at which no request of
    [updateState] is outstanding.  Whatever happens next, at most one
    group colour request is outstanding for each state object (the
    selection cached under a state name).  For each state name at most
    one is outstanding as long as only [updateState] and [clearState]
    are called and workers answer update requests, in any order.  And
    [updateState] returns a resolved promise, without posting anything
    and without changing anything, when the state is absent, has no
    group, has an update pending, or holds as many selection colours
    as there are workers. *)
Theorem updateState_one_at_a_time (s : State) (es : list Event) :
  update_posts s = [] ->
  (forall l, (outstanding_for (run s es) l <= 1)%nat) /\
  (cache_events s es = true ->
   forall state_key, (outstanding (run s es) state_key <= 1)%nat) /\
  (forall (s' : State) (k : string),
      state_at s' k = None \/
      (exists l st,
          state_at s' k = Some l /\ heap s' !! l = Some st /\
          (sel_group st = None \/ update_pending st = true \/
           length (List.filter truthy (selection_colors st)) = length (workers s'))) ->
      updateState k s' = (s', ResolvedAlready)).
Proof.
  intros Hnone. split; [|split].
  - intros l. assert (Hok : objects_ok s).
    { unfold objects_ok. rewrite Hnone. split; constructor. }
    destruct (objects_ok_run es s Hok) as [Hl _]. by apply outstanding_for_le_1.
  - intros Hes k. assert (Hok : updates_ok s).
    { unfold updates_ok. rewrite Hnone. repeat split; constructor. }
    destruct (updates_ok_run es s Hok Hes) as (Hk & _ & _).
    by apply outstanding_le_1.
  - intros s' k [Habs|(l & st & Hat & Hst & Hcase)]; unfold updateState.
    + by rewrite Habs.
    + rewrite Hat, Hst. destruct (sel_group st) as [grp|]; [|done].
      destruct Hcase as [Hg|[Hp|Hc]]; [done| |].
      * by rewrite Hp.
      * rewrite Hc, Nat.eqb_refl. by rewrite orb_true_r.
Qed.

Lemma updateState_one_at_a_time_witness :
  (outstanding_for (run hover_selected hover_replaced) 0%nat <= 1)%nat /\
  (outstanding (run hover_selected hover_updates) "hover" <= 1)%nat /\
  updateState "click" hover_selected = (hover_selected, ResolvedAlready).
Proof.
  assert (Hnone : update_posts hover_selected = []) by (vm_compute; reflexivity).
  split; [|split].
  - exact (proj1 (updateState_one_at_a_time hover_selected hover_replaced Hnone) 0%nat).
  - apply (proj1 (proj2 (updateState_one_at_a_time hover_selected hover_updates Hnone))).
    vm_compute. reflexivity.
  - apply (proj2 (proj2 (updateState_one_at_a_time hover_selected [] Hnone))).
    left. vm_compute. reflexivity.
Defined.

(** C6 as stated fails: while the update of "hover" is outstanding a
    new selection is cached under "hover"; the next [updateState]
    finds a state object without [update_pending] and posts a second
    request for the same state name. *)
Lemma updateState_two_outstanding_counterexample :
  update_posts hover_selected = [] /\
  outstanding (run hover_selected hover_replaced) "hover" = 2%nat.
Proof. split; vm_compute; reflexivity. Qed.

End CacheFacts.

(** ** Requests whose pixel names a worker that is not there *)

Module StuckFacts.
Import JS Main Invariants MainFacts Samples.

Lemma lookup_mark_sent_ne (q : list Request) (r r' : Z) :
  r' <> r -> lookup_request (mark_sent r' q) r = lookup_request q r.
Proof.
  intros Hne. unfold lookup_request, mark_sent.
  induction q as [|x q IH]; cbn; [done|].
  destruct (Z.eqb_spec (id x) r') as [E|Hx]; cbn.
  - destruct (Z.eqb_spec (id x) r); [congruence | exact IH].
  - destruct (id x =? r); [done | exact IH].
Qed.

Lemma lookup_mark_sent_eq (q : list Request) (r : Z) (request : Request) :
  lookup_request q r = Some request ->
  lookup_request (mark_sent r q) r = Some (sent_request request).
Proof.
  unfold lookup_request, mark_sent.
  induction q as [|x q IH]; cbn; [done|].
  destruct (Z.eqb_spec (id x) r) as [E|Hx]; cbn.
  - destruct (Z.eqb_spec (id x) r); [|done]. by intros [= <-].
  - destruct (Z.eqb_spec (id x) r); [done | exact IH].
Qed.

Lemma lookup_store_request (q : list Request) (x : Request) (r : Z) :
  id x <> r -> lookup_request (store_request x q) r = lookup_request q r.
Proof.
  intros Hne. unfold lookup_request.
  induction q as [|y q IH]; cbn.
  - by destruct (Z.eqb_spec (id x) r).
  - destruct (Z.eqb_spec (id y) (id x)) as [E|Hy]; cbn.
    + destruct (Z.eqb_spec (id x) r); [done|].
      destruct (Z.eqb_spec (id y) r); [congruence | done].
    + destruct (id y =? r); [done | exact IH].
Qed.

Lemma is_settled_snoc (s s' : State) (x : Settlement) (r : Z) :
  settled s' = settled s ++ [x] -> settlement_id x <> r ->
  is_settled s r = false -> is_settled s' r = false.
Proof.
  unfold is_settled. intros -> Hne Hs. rewrite existsb_app, Hs. cbn.
  destruct (Z.eqb_spec (settlement_id x) r); [done | done].
Qed.

(** *** Steps that leave another request alone *)

Lemma resolve_other (r : Z) (request' : Request) (sel : Selection) (s : State) :
  id request' <> r -> untouched r s ->
  untouched r (resolve request' sel s) /\
  requests (resolve request' sel s) = requests s.
Proof.
  intros Hne (Hs & Hp & Ha & Hn). unfold resolve.
  destruct (is_settled s (id request')); [done|].
  assert (is_settled (set_settled (settled s ++ [Resolved (id request') (length (heap s))])
                        (set_heap (heap s ++ [sel]) s)) r = false) as Hs'.
  { eapply is_settled_snoc; [reflexivity | exact Hne | exact Hs]. }
  by destruct (given (state request')).
Qed.

Lemma reject_other (r : Z) (request' : Request) (s : State) :
  id request' <> r -> untouched r s ->
  untouched r (reject request' s) /\ requests (reject request' s) = requests s.
Proof.
  intros Hne (Hs & Hp & Ha & Hn). unfold reject.
  destruct (is_settled s (id request')); [done|].
  split; [|done]. split; [|done].
  eapply is_settled_snoc; [reflexivity | exact Hne | exact Hs].
Qed.

Lemma postMessage_other (r : Z) (request : Request) (p : Post) (s : State) :
  concerns r p = false -> queued r request s -> queued r request (postMessage p s).
Proof.
  intros Hc (Hlk & Hs & Hp & Ha & Hn). split; [done|].
  split; [done|]. unfold postMessage. fields.
  split; [|split; [|done]]; apply Forall_app; split; trivial; by apply Forall_singleton.
Qed.

Lemma delete_other (r r' : Z) (request : Request) (s : State) :
  r' <> r -> queued r request s ->
  queued r request (set_requests (delete_request r' (requests s)) s).
Proof.
  intros Hne (Hlk & Hu). split; [|done]. fields.
  rewrite lookup_delete_request. destruct (Z.eqb_spec r r'); [congruence | done].
Qed.

Lemma finishRead_other (r : Z) (request : Request) (message : Message) (s : State) :
  msg_id message <> r -> queued r request s ->
  queued r request (finishRead message s).1.
Proof.
  intros Hne Hq. unfold finishRead.
  destruct (lookup_request (requests s) (msg_id message)) as [request'|] eqn:Hlk';
    [|exact Hq].
  pose proof (lookup_request_id _ _ _ Hlk') as Hid'.
  assert (Hq1 : queued r request (set_feature (msg_feature message) s)) by exact Hq.
  destruct (msg_feature message) as [f|].
  - destruct (msg_group message) as [grp|]; [|exact Hq1].
    apply postMessage_other; [|exact Hq1]. cbn.
    destruct (Z.eqb_spec (id request') r); [congruence | done].
  - cbn [fst]. apply delete_other; [done|].
    destruct Hq1 as [Hlk1 Hu1].
    match goal with
    | |- queued _ _ (resolve ?a ?b ?c) =>
        destruct (resolve_other r a b c ltac:(congruence) Hu1) as [Hu2 Hr2]
    end.
    split; [|exact Hu2]. by rewrite Hr2.
Qed.

Lemma mark_sent_other (r r' : Z) (request : Request) (s : State) :
  r' <> r -> queued r request s ->
  queued r request (set_requests (mark_sent r' (requests s)) s).
Proof.
  intros Hne (Hlk & Hu). split; [|done]. fields. by rewrite lookup_mark_sent_ne.
Qed.

Lemma readPixels_queued (r : Z) (request : Request) (fb : Framebuffer) (x y : Z) (s : State) :
  queued r request s -> queued r request (readPixels fb x y s).
Proof. intros Hq. unfold readPixels. by destruct (fb x y). Qed.

Lemma read_request_other (r r' : Z) (request : Request) (fb : Framebuffer) (s : State) :
  r' <> r -> queued r request s -> queued r request (read_request fb s r').
Proof.
  intros Hne Hq. unfold read_request.
  destruct (lookup_request (requests s) r') as [request'|] eqn:Hlk'; [|exact Hq].
  pose proof (lookup_request_id _ _ _ Hlk') as Hid'.
  destruct (sent request'); [exact Hq|]. cbv zeta.
  apply mark_sent_other; [done|].
  pose proof (readPixels_queued r request fb (sample_x request') (sample_y request') s Hq) as Hq1.
  destruct (negb _).
  - destruct (workers _ !! _) as [[w|]|]; try exact Hq1.
    apply postMessage_other; [|exact Hq1]. cbn.
    destruct (Z.eqb_spec (id request') r); [congruence | done].
  - apply finishRead_other; [|exact Hq1]. cbn. congruence.
Qed.

Lemma read_request_sent (r : Z) (request : Request) (fb : Framebuffer) (s : State) :
  lookup_request (requests s) r = Some request -> sent request = true ->
  read_request fb s r = s.
Proof. intros Hlk Hsent. unfold read_request. by rewrite Hlk, Hsent. Qed.

Lemma clear_request_other (r r' : Z) (request : Request) (s : State) :
  r' <> r -> queued r request s -> queued r request (clear_request s r').
Proof.
  intros Hne Hq. unfold clear_request.
  destruct (lookup_request (requests s) r') as [request'|] eqn:Hlk'; [|exact Hq].
  pose proof (lookup_request_id _ _ _ Hlk') as Hid'.
  destruct (sent request'); [exact Hq|]. cbv zeta.
  apply delete_other; [done|]. destruct Hq as [Hlk Hu].
  destruct (reject_other r request' s ltac:(congruence) Hu) as [Hu' Hr'].
  split; [|exact Hu']. by rewrite Hr'.
Qed.

Lemma clear_request_sent (r : Z) (request : Request) (s : State) :
  lookup_request (requests s) r = Some request -> sent request = true ->
  clear_request s r = s.
Proof. intros Hlk Hsent. unfold clear_request. by rewrite Hlk, Hsent. Qed.


Lemma deliver_other (r : Z) (request : Request) (p : Post) (reply : Reply) (s : State) :
  concerns r p = false -> faithful_reply p reply = true ->
  queued r request s -> queued r request (deliver p reply s).
Proof.
  intros Hc Hf Hq. unfold deliver. unfold concerns in Hc. unfold faithful_reply in Hf.
  destruct (continuation p) as [|request' f chg grp|k l], reply as [message|colors];
    try exact Hq.
  - destruct (payload p) as [r' key|]; [|discriminate].
    apply finishRead_other; [|exact Hq]. lia.
  - apply delete_other; [lia|]. destruct Hq as [Hlk Hu].
    match goal with
    | |- queued _ _ (resolve ?a ?b ?c) =>
        destruct (resolve_other r a b c ltac:(lia) Hu) as [Hu2 Hr2]
    end.
    split; [|exact Hu2]. by rewrite Hr2.
Qed.

(** *** A request that is marked sent and that no post concerns *)

Lemma getFeatureAt_queued (r : Z) (request : Request) (pt : Point) (st : option string)
    (s : State) :
  queued r request s -> queued r request (getFeatureAt pt st s).1.
Proof.
  intros (Hlk & Hs & Hp & Ha & n & Hn & Hle). unfold getFeatureAt. rewrite Hn.
  cbn [fst]. fields.
  set (r' := if n + 1 =? 0 then 0 else n + 1).
  assert (Hr' : r < r') by (unfold r'; destruct (Z.eqb_spec (n + 1) 0); lia).
  split.
  - fields. rewrite lookup_store_request; [done|]. cbn. lia.
  - split; [done|]. split; [done|]. split; [done|]. exists r'. fields. split; [done | lia].
Qed.

Lemma clear_requests_queued (r : Z) (request : Request) (rs : list Z) : forall s : State,
  queued r request s -> sent request = true ->
  queued r request (fold_left clear_request rs s).
Proof.
  induction rs as [|r' rs IH]; intros s Hq Hsent; [done|]. cbn [fold_left].
  apply IH; [|done]. destruct (decide (r' = r)) as [->|Hne].
  - by rewrite (clear_request_sent r request s (proj1 Hq) Hsent).
  - by apply clear_request_other.
Qed.

Lemma read_requests_queued (r : Z) (request : Request) (fb : Framebuffer) (rs : list Z) :
  forall s : State,
  queued r request s -> sent request = true ->
  queued r request (fold_left (read_request fb) rs s).
Proof.
  induction rs as [|r' rs IH]; intros s Hq Hsent; [done|]. cbn [fold_left].
  apply IH; [|done]. destruct (decide (r' = r)) as [->|Hne].
  - by rewrite (read_request_sent r request fb s (proj1 Hq) Hsent).
  - by apply read_request_other.
Qed.

Lemma read_back_queued (r : Z) (request : Request) (lk : bool) (fb : Framebuffer) (s : State) :
  queued r request s -> sent request = true ->
  queued r request (read_back lk fb s).
Proof.
  intros Hq Hsent. unfold read_back. destruct (locked s lk); [exact Hq|]. cbv zeta.
  set (s1 := set_gl_calls _ s).
  assert (Hq1 : queued r request s1) by exact Hq.
  pose proof (read_requests_queued r request fb (id <$> requests s1) s1 Hq1 Hsent) as Hq2.
  exact Hq2.
Qed.

Lemma step_queued (r : Z) (request : Request) (s : State) (e : Event) :
  queued r request s -> sent request = true -> faithful s e = true ->
  queued r request (step s e).
Proof.
  intros Hq Hsent Hf. destruct e; cbn [step].
  - by apply getFeatureAt_queued.
  - by apply clear_requests_queued.
  - unfold read, setTimeout, clearTimeout. by destruct (read_delay_timer s).
  - unfold timeout. destruct (bool_decide _); [|exact Hq].
    apply read_back_queued; [exact Hq | exact Hsent].
  - cbn [faithful] in Hf. destruct (awaiting s !! i) as [p|] eqn:Hi; [|exact Hq].
    destruct Hq as (Hlk & Hs & Hp & Ha & Hn).
    apply deliver_other; [| exact Hf |].
    + exact (Forall_lookup_1 _ _ _ _ Ha Hi).
    + split; [exact Hlk|]. split; [exact Hs|]. split; [exact Hp|]. split; [|exact Hn].
      fields. by apply Forall_delete.
  - unfold updateState. repeat case_match; try exact Hq. cbn [fst].
    apply postMessage_other; [done|exact Hq].
  - exact Hq.
Qed.

Lemma run_queued (r : Z) (request : Request) (es : list Event) : forall s : State,
  queued r request s -> sent request = true -> faithful_events s es = true ->
  queued r request (run s es).
Proof.
  induction es as [|e es IH]; intros s Hq Hsent Hf; [done|].
  cbn [faithful_events] in Hf. apply andb_true_iff in Hf as [He Hes].
  apply (IH (step s e)); [|done|done]. by apply step_queued.
Qed.

(** *** The pass in which the request is marked *)

Lemma read_request_no_worker (r : Z) (request : Request) (fb : Framebuffer) (px : Pixel)
    (s : State) :
  lookup_request (requests s) r = Some request -> sent request = false ->
  fb (sample_x request) (sample_y request) = Some px ->
  to_uint8 (p3 px) <> 255 -> no_worker s (to_uint8 (p3 px)) ->
  read_request fb s r =
  set_requests (mark_sent r (requests s))
    (readPixels fb (sample_x request) (sample_y request) s).
Proof.
  intros Hlk Hsent Hfb Hne Hw. unfold read_request. rewrite Hlk, Hsent. cbv zeta.
  destruct (readPixels_fields fb (sample_x request) (sample_y request) s)
    as (Hq & _ & _ & _ & _ & _ & _ & Hws).
  assert (Hpx : p3 (pixel (readPixels fb (sample_x request) (sample_y request) s)) =
                to_uint8 (p3 px)).
  { unfold readPixels. by rewrite Hfb. }
  rewrite Hpx. destruct (Z.eqb_spec (to_uint8 (p3 px)) 255); [done|]. cbn [negb].
  rewrite Hws. destruct Hw as [-> | ->]; by rewrite Hq.
Qed.

Lemma read_requests_mark (r : Z) (request : Request) (fb : Framebuffer) (px : Pixel)
    (rs : list Z) : forall s : State,
  queued r request s -> sent request = false ->
  fb (sample_x request) (sample_y request) = Some px ->
  to_uint8 (p3 px) <> 255 -> no_worker s (to_uint8 (p3 px)) ->
  r ∈ rs ->
  queued r (sent_request request) (fold_left (read_request fb) rs s).
Proof.
  induction rs as [|r' rs IH]; intros s Hq Hsent Hfb Hne Hw Hin.
  - by apply elem_of_nil in Hin.
  - cbn [fold_left]. destruct (decide (r' = r)) as [->|Hne'].
    + apply read_requests_queued; [|done].
      rewrite (read_request_no_worker r request fb px s (proj1 Hq)) by done.
      destruct Hq as [Hlk Hu].
      pose proof (readPixels_queued r request fb (sample_x request) (sample_y request) s
                    (conj Hlk Hu)) as [Hlk1 Hu1].
      split; [|exact Hu1]. fields. by apply lookup_mark_sent_eq.
    + apply IH; trivial.
      * by apply read_request_other.
      * unfold no_worker in *.
        by rewrite (proj2 (proj2 (proj2 (proj2 (read_request_timers fb s r'))))).
      * apply elem_of_cons in Hin as [Heq|Hin]; [congruence | done].
Qed.

(** C10. Let a pending request be read back when its pixel names a
    worker id other than 255 under which the pool has no worker.
    That pass marks the request as sent, although no message about
    it is posted and its promise is neither resolved nor rejected.
    From then on no read-back touches it and [clearPendingRequests]
    does not reject it: whatever happens, it stays in the queue,
    marked as sent and with its promise pending.  (Workers answer a
    query with the id of the query; [queued] then holds of every
    request that a reachable instance holds and has not marked as
    sent.) *)
Theorem dead_worker_request_stays (s : State) (t : Timer) (lk : bool) (fb : Framebuffer)
    (r : Z) (request : Request) (px : Pixel) :
  queued r request s -> sent request = false ->
  t ∈ timers s -> locked s lk = false ->
  fb (sample_x request) (sample_y request) = Some px ->
  to_uint8 (p3 px) <> 255 -> no_worker s (to_uint8 (p3 px)) ->
  queued r (sent_request request) (step s (Timeout t lk fb)) /\
  forall es,
    faithful_events (step s (Timeout t lk fb)) es = true ->
    queued r (sent_request request) (run (step s (Timeout t lk fb)) es).
Proof.
  intros Hq Hsent Ht Hlk Hfb Hne Hw.
  assert (Hpass : queued r (sent_request request) (step s (Timeout t lk fb))).
  { cbn [step]. unfold timeout. rewrite bool_decide_eq_true_2 by done.
    unfold read_back.
    assert (locked (clearTimeout t s) lk = false) as -> by exact Hlk.
    cbv zeta. set (s1 := set_gl_calls _ (clearTimeout t s)).
    assert (Hq1 : queued r request s1) by exact Hq.
    pose proof (read_requests_mark r request fb px (id <$> requests s1) s1 Hq1 Hsent Hfb Hne Hw)
      as Hmark.
    apply Hmark. destruct Hq as [Hlkr _].
    apply (list_elem_of_fmap_2' id _ request); [|symmetry; by eapply lookup_request_id].
    by eapply lookup_request_elem. }
  split; [exact Hpass|].
  intros es Hes. by apply run_queued.
Qed.

Lemma dead_worker_request_stays_witness :
  queued 0 {| id := 0; point := centre; state := Some "hover"; sent := true |}
    (run (step hover_requested (Timeout 0%nat false painted_by_stranger))
       [Read; Timeout 1%nat false blank; ClearPendingRequests]).
Proof.
  refine (proj2 (dead_worker_request_stays hover_requested 0%nat false painted_by_stranger 0
                   {| id := 0; point := centre; state := Some "hover"; sent := false |}
                   {| p0 := 1; p1 := 0; p2 := 0; p3 := 3 |} _ _ _ _ _ _ _)
            [Read; Timeout 1%nat false blank; ClearPendingRequests] _).
  - split; [vm_compute; reflexivity|].
    split; [vm_compute; reflexivity|].
    split; [vm_compute; constructor|].
    split; [vm_compute; constructor|].
    exists 0. split; [vm_compute; reflexivity | lia].
  - reflexivity.
  - vm_compute. left.
  - reflexivity.
  - reflexivity.
  - vm_compute. discriminate.
  - left. vm_compute. reflexivity.
  - vm_compute. reflexivity.
Defined.

End StuckFacts.

(** ** What holds of every reachable instance *)

Module Reachable.
Import JS Main Invariants MainFacts StuckFacts.

Lemma id_given_same (s s' : State) (r : Z) :
  selection_request_id s' = selection_request_id s -> id_given s r -> id_given s' r.
Proof. unfold id_given. by intros ->. Qed.

Lemma post_ok_same (s s' : State) (p : Post) :
  selection_request_id s' = selection_request_id s -> post_ok s p -> post_ok s' p.
Proof.
  unfold post_ok. intros Hc. destruct (continuation p); [| |done];
    intros (r & Ha & Hg); exists r; (split; [done|]); by apply (id_given_same s).
Qed.

Lemma is_settled_same (s s' : State) (r : Z) :
  settled s' = settled s -> is_settled s' r = is_settled s r.
Proof. unfold is_settled. by intros ->. Qed.

Lemma timer_ok_same (s s' : State) : same_timers s s' -> timer_ok s -> timer_ok s'.
Proof. unfold timer_ok. by intros (-> & -> & -> & _). Qed.

Lemma mark_sent_delete (q : list Request) (r : Z) :
  mark_sent r (delete_request r q) = delete_request r q.
Proof.
  unfold mark_sent, delete_request. induction q as [|x q IH]; cbn; [done|].
  destruct (Z.eqb_spec (id x) r) as [E|Hne]; cbn; [exact IH|].
  destruct (Z.eqb_spec (id x) r); [done|]. by rewrite IH.
Qed.

Lemma elem_of_delete_request (q : list Request) (r : Z) (x : Request) :
  x ∈ delete_request r q <-> x ∈ q /\ id x <> r.
Proof.
  unfold delete_request. rewrite list_elem_of_In, List.filter_In, <- list_elem_of_In.
  destruct (Z.eqb_spec (id x) r); cbn; intuition congruence.
Qed.

Lemma NoDup_delete_request (q : list Request) (r : Z) :
  NoDup (id <$> q) -> NoDup (id <$> delete_request r q).
Proof.
  unfold delete_request. induction q as [|x q IH]; cbn; [done|].
  intros Hnd. apply NoDup_cons in Hnd as [Hx Hnd].
  destruct (negb _); [|by apply IH]. cbn. apply NoDup_cons. split; [|by apply IH].
  intros Hin. apply Hx. apply list_elem_of_fmap in Hin as (y & Hy & Hin).
  apply list_elem_of_fmap. exists y. split; [done|].
  apply (elem_of_delete_request q r y) in Hin. tauto.
Qed.

Lemma lookup_request_in (q : list Request) (x : Request) :
  NoDup (id <$> q) -> x ∈ q -> lookup_request q (id x) = Some x.
Proof.
  induction q as [|y q IH]; cbn; intros Hnd Hin; [by apply elem_of_nil in Hin|].
  apply NoDup_cons in Hnd as [Hy Hnd]. unfold lookup_request. cbn.
  apply elem_of_cons in Hin as [->|Hin].
  - by rewrite Z.eqb_refl.
  - destruct (Z.eqb_spec (id y) (id x)) as [E|_]; [|by apply IH].
    exfalso. apply Hy. rewrite E. by apply list_elem_of_fmap_2.
Qed.

Lemma concerns_about (r r' : Z) (p : Post) :
  post_about r p -> r <> r' -> concerns r' p = false.
Proof.
  unfold post_about, concerns. destruct (continuation p); [| |done].
  - intros [k ->] Hne. by apply Z.eqb_neq.
  - intros <- Hne. by apply Z.eqb_neq.
Qed.

Lemma consistent_frame (s s' : State) : same_core s s' -> consistent s -> consistent s'.
Proof.
  intros (Hc & Ht & Hs & Hp & Ha & Hq) (H1 & H2 & H3 & H4 & H5 & H6 & H7).
  unfold consistent, counter_ok. rewrite Hc, Hs, Hp, Ha, Hq.
  split; [done|]. split; [done|]. split.
  { eapply Forall_impl; [exact H3|]. intros x [Hg Hst]. split.
    - by apply (id_given_same s).
    - by rewrite (is_settled_same s s'). }
  split; [eapply Forall_impl; [exact H4|]; intros x; by apply id_given_same|].
  split; [eapply Forall_impl; [exact H5|]; intros x; by apply post_ok_same|].
  split; [eapply Forall_impl; [exact H6|]; intros x; by apply post_ok_same|].
  by apply (timer_ok_same s).
Qed.

Lemma unsent_untouched_frame (s s' : State) :
  same_core s s' -> unsent_untouched s -> unsent_untouched s'.
Proof.
  intros (Hc & Ht & Hs & Hp & Ha & Hq). unfold unsent_untouched. by rewrite Hp, Ha, Hq.
Qed.

(** *** A turn keeps the invariants *)

Lemma turn_consistent (r : Z) (xs : list Settlement) (ps : list Post) (s s' : State) :
  consistent s -> (xs = [] /\ ps = []) \/ id_given s r ->
  turn r xs ps s s' -> consistent s'.
Proof.
  intros (H1 & H2 & H3 & H4 & H5 & H6 & H7) Hgiven
         (Hc & Ht & Hs & Hxs & Hp & Ha & Hps & Hq).
  assert (Hxs' : Forall (fun x => id_given s' (settlement_id x)) xs).
  { destruct Hgiven as [[-> _]|Hg]; [constructor|].
    eapply Forall_impl; [exact Hxs|]. intros x ->. by apply (id_given_same s). }
  assert (Hps' : Forall (post_ok s') ps).
  { destruct Hgiven as [[_ ->]|Hg]; [constructor|].
    eapply Forall_impl; [exact Hps|]. intros p Hab. unfold post_ok, post_about in *.
    destruct (continuation p); [| |done]; exists r; (split; [done|]);
      by apply (id_given_same s). }
  unfold consistent, counter_ok. rewrite Hc, Hs, Hp, Ha.
  split; [done|].
  split.
  { destruct Hq as [[-> _]|[[-> _]|[-> _]]]; [done | by apply NoDup_delete_request |].
    by rewrite mark_sent_ids. }
  split.
  { rewrite Forall_forall in H3. apply Forall_forall. intros x Hx.
    assert (Hold : exists x0, x0 ∈ requests s /\ id x0 = id x /\ (xs = [] \/ id x <> r)).
    { destruct Hq as [[Hq ->]|[[Hq _]|[Hq ->]]]; rewrite Hq in Hx.
      - exists x. auto.
      - apply elem_of_delete_request in Hx as [Hx Hne]. exists x. auto.
      - unfold mark_sent in Hx. apply list_elem_of_fmap in Hx as (x0 & -> & Hx0).
        exists x0. split; [done|]. split; [|by left]. by destruct (id x0 =? r). }
    destruct Hold as (x0 & Hx0 & Hid & Hcase). destruct (H3 _ Hx0) as [Hg Hst].
    rewrite <- Hid. split; [by apply (id_given_same s)|].
    unfold is_settled in *. rewrite Hs, existsb_app, Hst. cbn.
    destruct Hcase as [->|Hne]; [done|].
    apply not_true_is_false. intros Hex. apply existsb_exists in Hex as (x1 & Hin & Heq).
    apply list_elem_of_In in Hin. rewrite Forall_forall in Hxs.
    rewrite (Hxs _ Hin) in Heq. lia. }
  split.
  { apply Forall_app. split; [|done].
    eapply Forall_impl; [exact H4|]. intros x. by apply id_given_same. }
  split.
  { apply Forall_app. split; [|done].
    eapply Forall_impl; [exact H5|]. intros x. by apply post_ok_same. }
  split.
  { apply Forall_app. split; [|done].
    eapply Forall_impl; [exact H6|]. intros x. by apply post_ok_same. }
  by apply (timer_ok_same s).
Qed.

Lemma turn_untouched (r : Z) (xs : list Settlement) (ps : list Post) (s s' : State) :
  consistent s' -> unsent_untouched s ->
  turn r xs ps s s' -> ps = [] \/ sent_in s' r ->
  unsent_untouched s'.
Proof.
  intros (_ & Hnd & _) Hun (Hc & Ht & Hs & Hxs & Hp & Ha & Hps & Hq) Hsent.
  unfold unsent_untouched in *. rewrite Forall_forall in Hun.
  apply Forall_forall. intros x Hx Hux.
  assert (Hold : exists x0, x0 ∈ requests s /\ id x0 = id x /\ sent x0 = false).
  { destruct Hq as [[Hq _]|[[Hq _]|[Hq _]]]; rewrite Hq in Hx.
    - exists x. auto.
    - apply elem_of_delete_request in Hx as [Hx Hne]. exists x. auto.
    - unfold mark_sent in Hx. apply list_elem_of_fmap in Hx as (x0 & -> & Hx0).
      exists x0. split; [done|]. destruct (id x0 =? r); [discriminate | done]. }
  destruct Hold as (x0 & Hx0 & Hid & Hs0). destruct (Hun _ Hx0 Hs0) as [Hpo Haw].
  rewrite Hid in Hpo, Haw. rewrite Hp, Ha.
  assert (Hnew : Forall (fun p => concerns (id x) p = false) ps).
  { destruct Hsent as [->|Hsent]; [constructor|].
    assert (Hne : r <> id x).
    { intros ->. specialize (Hsent x (lookup_request_in _ _ Hnd Hx)). congruence. }
    eapply Forall_impl; [exact Hps|]. intros p Hab. by apply (concerns_about r). }
  split; by apply Forall_app.
Qed.


(** *** The methods take turns *)

Ltac turn_with xs ps :=
  exists xs, ps; unfold turn, same_timers; fields; rewrite ?app_nil_r.

Lemma turn_refl (r : Z) (s : State) : turn r [] [] s s.
Proof. unfold turn, same_timers. rewrite !app_nil_r. repeat split; auto. Qed.

Lemma queued_id_given (s : State) (r : Z) (request : Request) :
  consistent s -> lookup_request (requests s) r = Some request -> id_given s r.
Proof.
  intros (_ & _ & H3 & _) Hlk. rewrite Forall_forall in H3.
  rewrite <- (lookup_request_id _ _ _ Hlk). apply H3. by eapply lookup_request_elem.
Qed.

Lemma clear_request_turn (s : State) (r : Z) :
  consistent s ->
  exists xs ps, turn r xs ps s (clear_request s r) /\
                ((xs = [] /\ ps = []) \/ id_given s r) /\ ps = [].
Proof.
  intros Hok. unfold clear_request.
  destruct (lookup_request (requests s) r) as [request|] eqn:Hlk.
  2: { exists [], []. split; [apply turn_refl | auto]. }
  destruct (sent request).
  { exists [], []. split; [apply turn_refl | auto]. }
  pose proof (queued_id_given s r request Hok Hlk) as Hg.
  pose proof (lookup_request_id _ _ _ Hlk) as Hid.
  unfold reject. destruct (is_settled s (id request)).
  - turn_with (@nil Settlement) (@nil Post). repeat split; auto.
  - turn_with [Rejected request] (@nil Post). repeat split; auto.
Qed.

Lemma finishRead_turn (message : Message) (s : State) :
  consistent s ->
  exists xs ps, turn (msg_id message) xs ps s (finishRead message s).1 /\
                ((xs = [] /\ ps = []) \/ id_given s (msg_id message)) /\
                (ps = [] \/ requests (finishRead message s).1 = requests s).
Proof.
  intros Hok. unfold finishRead.
  destruct (lookup_request (requests s) (msg_id message)) as [request|] eqn:Hlk.
  2: { turn_with (@nil Settlement) (@nil Post). repeat split; auto. }
  pose proof (queued_id_given s _ request Hok Hlk) as Hg.
  pose proof (lookup_request_id _ _ _ Hlk) as Hid.
  destruct (msg_feature message) as [f|].
  - destruct (msg_group message) as [grp|].
    + eexists [], [_]. unfold turn, same_timers, postMessage. cbn [fst]. fields.
      rewrite ?app_nil_r. repeat split; auto.
    + turn_with (@nil Settlement) (@nil Post). repeat split; auto.
  - cbn [fst]. unfold resolve. fields.
    destruct (is_settled _ (id request)).
    + turn_with (@nil Settlement) (@nil Post). repeat split; auto.
    + destruct (given (state request));
        (turn_with [Resolved (id request) (length (heap s))] (@nil Post);
         repeat split; auto).
Qed.

Lemma read_request_turn (fb : Framebuffer) (s : State) (r : Z) :
  consistent s ->
  exists xs ps, turn r xs ps s (read_request fb s r) /\
                ((xs = [] /\ ps = []) \/ id_given s r) /\
                (ps = [] \/ sent_in (read_request fb s r) r).
Proof.
  intros Hok. unfold read_request.
  destruct (lookup_request (requests s) r) as [request|] eqn:Hlk.
  2: { exists [], []. split; [apply turn_refl | auto]. }
  destruct (sent request).
  { exists [], []. split; [apply turn_refl | auto]. }
  pose proof (queued_id_given s r request Hok Hlk) as Hg.
  pose proof (lookup_request_id _ _ _ Hlk) as Hid.
  cbv zeta.
  set (s1 := readPixels fb (sample_x request) (sample_y request) s).
  assert (Hcore : same_core s s1).
  { unfold s1, readPixels, same_core, same_timers. by destruct (fb _ _). }
  destruct Hcore as (Hc & Ht & Hs & Hp & Ha & Hq).
  destruct (negb _).
  - destruct (workers s1 !! _) as [[w|]|].
    + eexists [], [_]. unfold postMessage. split; [|split; [auto|]].
      * unfold turn. fields. rewrite Hc, Hs, Hp, Ha, Hq, ?app_nil_r.
        repeat split; auto; try apply Ht.
        apply Forall_singleton. cbn. rewrite Hid. eauto.
      * right. intros x Hx. fields in Hx. rewrite Hq in Hx.
        rewrite (lookup_mark_sent_eq _ _ _ Hlk) in Hx. by injection Hx as <-.
    + exists [], []. split; [|auto]. unfold turn. fields.
      rewrite Hc, Hs, Hp, Ha, Hq, ?app_nil_r. repeat split; auto; apply Ht.
    + exists [], []. split; [|auto]. unfold turn. fields.
      rewrite Hc, Hs, Hp, Ha, Hq, ?app_nil_r. repeat split; auto; apply Ht.
  - unfold finishRead. cbn [msg_id msg_feature]. rewrite Hq, Hid, Hlk.
    cbn [fst]. unfold resolve. fields.
    destruct (is_settled _ (id request)).
    + exists [], []. split; [|auto]. unfold turn. fields.
      rewrite Hc, Hs, Hp, Ha, Hq, ?app_nil_r, mark_sent_delete.
      repeat split; auto; apply Ht.
    + destruct (given (state request));
        (exists [Resolved (id request) (length (heap s1))], []; split; [|auto];
         unfold turn; fields;
         rewrite Hc, Hs, Hp, Ha, Hq, ?app_nil_r, mark_sent_delete;
         repeat split; auto; try apply Ht).
Qed.


Lemma clear_request_consistent (s : State) (r : Z) :
  consistent s -> consistent (clear_request s r).
Proof.
  intros Hok. destruct (clear_request_turn s r Hok) as (xs & ps & Ht & Hg & _).
  by eapply turn_consistent.
Qed.

Lemma clear_request_untouched (s : State) (r : Z) :
  consistent s -> unsent_untouched s -> unsent_untouched (clear_request s r).
Proof.
  intros Hok Hun. destruct (clear_request_turn s r Hok) as (xs & ps & Ht & Hg & Hps).
  eapply turn_untouched; [| exact Hun | exact Ht | by left].
  by eapply turn_consistent.
Qed.

Lemma read_request_consistent (fb : Framebuffer) (s : State) (r : Z) :
  consistent s -> consistent (read_request fb s r).
Proof.
  intros Hok. destruct (read_request_turn fb s r Hok) as (xs & ps & Ht & Hg & _).
  by eapply turn_consistent.
Qed.

Lemma read_request_untouched (fb : Framebuffer) (s : State) (r : Z) :
  consistent s -> unsent_untouched s -> unsent_untouched (read_request fb s r).
Proof.
  intros Hok Hun. destruct (read_request_turn fb s r Hok) as (xs & ps & Ht & Hg & Hps).
  eapply turn_untouched; [| exact Hun | exact Ht | exact Hps].
  by eapply turn_consistent.
Qed.

Lemma finishRead_consistent (message : Message) (s : State) :
  consistent s -> consistent (finishRead message s).1.
Proof.
  intros Hok. destruct (finishRead_turn message s Hok) as (xs & ps & Ht & Hg & _).
  by eapply turn_consistent.
Qed.

Lemma finishRead_untouched (message : Message) (s : State) :
  consistent s -> unsent_untouched s -> sent_in s (msg_id message) ->
  unsent_untouched (finishRead message s).1.
Proof.
  intros Hok Hun Hsent.
  destruct (finishRead_turn message s Hok) as (xs & ps & Ht & Hg & Hps).
  eapply turn_untouched; [| exact Hun | exact Ht |].
  - by eapply turn_consistent.
  - destruct Hps as [->|Hq]; [by left|]. right. unfold sent_in. by rewrite Hq.
Qed.

Lemma fold_good (f : State -> Z -> State) (rs : list Z) :
  (forall s r, consistent s -> consistent (f s r)) ->
  (forall s r, consistent s -> unsent_untouched s -> unsent_untouched (f s r)) ->
  forall s, consistent s ->
            consistent (fold_left f rs s) /\
            (unsent_untouched s -> unsent_untouched (fold_left f rs s)).
Proof.
  intros H1 H2. induction rs as [|r rs IH]; intros s Hok; [done|]. cbn [fold_left].
  destruct (IH (f s r) (H1 s r Hok)) as [Hc Hu]. split; [done|].
  intros Hun. apply Hu. by apply H2.
Qed.


(** *** Events keep the invariants *)

Lemma store_request_fresh (x : Request) (q : list Request) :
  id x ∉ id <$> q -> store_request x q = q ++ [x].
Proof.
  induction q as [|y q IH]; cbn; [done|].
  rewrite not_elem_of_cons. intros [Hne Hnin].
  destruct (Z.eqb_spec (id y) (id x)); [congruence|]. by rewrite IH.
Qed.

Lemma post_ok_concerns (s : State) (p : Post) (r : Z) :
  post_ok s p -> ~ id_given s r -> concerns r p = false.
Proof.
  unfold post_ok. intros Hp Hng.
  destruct (continuation p) eqn:Hc; [| |by unfold concerns; rewrite Hc];
    destruct Hp as (r' & Hab & Hg); apply (concerns_about r'); trivial;
    intros ->; contradiction.
Qed.

Lemma next_id_fresh (s : State) : counter_ok s -> ~ id_given s (next_id s) /\ 0 <= next_id s.
Proof.
  unfold counter_ok, id_given, next_id. intros Hc.
  destruct (selection_request_id s) as [n|].
  - specialize (Hc n eq_refl). destruct (Z.eqb_spec (n + 1) 0); [lia|].
    split; [|lia]. intros (m & [= <-] & Hm). lia.
  - split; [|lia]. by intros (m & [=] & _).
Qed.

Lemma id_given_next (s s' : State) (r : Z) :
  counter_ok s -> selection_request_id s' = Some (next_id s) ->
  id_given s r -> id_given s' r.
Proof.
  unfold counter_ok, id_given, next_id. intros Hc -> (n & Hn & Hr). rewrite Hn in *.
  specialize (Hc n eq_refl). destruct (Z.eqb_spec (n + 1) 0); [lia|].
  exists (n + 1). split; [done | lia].
Qed.

Lemma post_ok_next (s s' : State) (p : Post) :
  counter_ok s -> selection_request_id s' = Some (next_id s) ->
  post_ok s p -> post_ok s' p.
Proof.
  unfold post_ok. intros Hc Hn. destruct (continuation p); [| |done];
    intros (r & Ha & Hg); exists r; (split; [done|]); by apply (id_given_next s).
Qed.

Lemma getFeatureAt_fields (pt : Point) (st : option string) (s : State) :
  consistent s ->
  let s' := (getFeatureAt pt st s).1 in
  selection_request_id s' = Some (next_id s) /\
  requests s' = requests s ++ [{| id := next_id s; point := pt; state := st; sent := false |}] /\
  settled s' = settled s /\ posted s' = posted s /\ awaiting s' = awaiting s /\
  same_timers s s'.
Proof.
  intros (Hc & _ & H3 & _). destruct (next_id_fresh s Hc) as [Hfresh _].
  unfold getFeatureAt. fold (next_id s). cbn [fst]. fields.
  split; [done|]. split; [|by repeat split].
  apply store_request_fresh. cbn [id]. intros Hin.
  apply list_elem_of_fmap in Hin as (x & Hx & Hin). rewrite Forall_forall in H3.
  apply Hfresh. rewrite Hx. by apply H3.
Qed.

Lemma getFeatureAt_consistent (pt : Point) (st : option string) (s : State) :
  consistent s -> consistent (getFeatureAt pt st s).1.
Proof.
  intros Hok. destruct (getFeatureAt_fields pt st s Hok) as (Hn & Hq & Hs & Hp & Ha & Ht).
  destruct Hok as (H1 & H2 & H3 & H4 & H5 & H6 & H7).
  destruct (next_id_fresh s H1) as [Hfresh Hpos].
  set (s' := (getFeatureAt pt st s).1) in *.
  assert (Hunsettled : is_settled s (next_id s) = false).
  { apply not_true_is_false. unfold is_settled. intros Hex.
    apply existsb_exists in Hex as (x & Hin & Heq). apply list_elem_of_In in Hin.
    rewrite Forall_forall in H4. apply Hfresh.
    replace (next_id s) with (settlement_id x) by lia. by apply H4. }
  unfold consistent, counter_ok. rewrite Hn, Hq, Hs, Hp, Ha.
  split; [by intros n [= <-]|].
  split.
  { rewrite fmap_app. apply NoDup_app. split; [done|]. split; [|apply NoDup_singleton].
    intros r Hr Hr'. apply list_elem_of_singleton in Hr'. cbn in Hr'. subst r.
    apply list_elem_of_fmap in Hr as (x & Hx & Hin). rewrite Forall_forall in H3.
    apply Hfresh. rewrite Hx. by apply H3. }
  split.
  { apply Forall_app. split.
    - eapply Forall_impl; [exact H3|]. intros x [Hg Hst]. split.
      + by apply (id_given_next s).
      + by rewrite (is_settled_same s s').
    - apply Forall_singleton. cbn [id]. split.
      + exists (next_id s). split; [done | lia].
      + by rewrite (is_settled_same s s'). }
  split; [eapply Forall_impl; [exact H4|]; intros x; by apply id_given_next|].
  split; [eapply Forall_impl; [exact H5|]; intros x; by apply post_ok_next|].
  split; [eapply Forall_impl; [exact H6|]; intros x; by apply post_ok_next|].
  by apply (timer_ok_same s).
Qed.

Lemma getFeatureAt_untouched (pt : Point) (st : option string) (s : State) :
  consistent s -> unsent_untouched s -> unsent_untouched (getFeatureAt pt st s).1.
Proof.
  intros Hok Hun. destruct (getFeatureAt_fields pt st s Hok) as (Hn & Hq & Hs & Hp & Ha & Ht).
  destruct Hok as (H1 & H2 & H3 & H4 & H5 & H6 & H7).
  destruct (next_id_fresh s H1) as [Hfresh Hpos].
  unfold unsent_untouched. rewrite Hq, Hp, Ha. apply Forall_app. split; [exact Hun|].
  apply Forall_singleton. intros _. cbn [id].
  split; (eapply Forall_impl; [eassumption|]); intros p Hp'; by apply (post_ok_concerns s).
Qed.


Lemma consistent_timers (s s' : State) :
  selection_request_id s' = selection_request_id s -> settled s' = settled s ->
  posted s' = posted s -> awaiting s' = awaiting s -> requests s' = requests s ->
  timer_ok s' -> consistent s -> consistent s'.
Proof.
  intros Hc Hs Hp Ha Hq Ht (H1 & H2 & H3 & H4 & H5 & H6 & H7).
  unfold consistent, counter_ok. rewrite Hc, Hs, Hp, Ha, Hq.
  split; [done|]. split; [done|]. split.
  { eapply Forall_impl; [exact H3|]. intros x [Hg Hst]. split.
    - by apply (id_given_same s).
    - by rewrite (is_settled_same s s'). }
  split; [eapply Forall_impl; [exact H4|]; intros x; by apply id_given_same|].
  split; [eapply Forall_impl; [exact H5|]; intros x; by apply post_ok_same|].
  split; [eapply Forall_impl; [exact H6|]; intros x; by apply post_ok_same|].
  done.
Qed.

Lemma clearTimeout_timer_ok (t : Timer) (s : State) :
  timer_ok s -> timer_ok (clearTimeout t s).
Proof.
  intros [Hone Hlt]. unfold timer_ok, clearTimeout. fields. split.
  - destruct Hone as [->|(t0 & -> & Hrd)]; [by left|]. cbn.
    destruct (negb _); [right; eauto | by left].
  - rewrite Forall_forall in *. intros t' Hin. apply Hlt.
    apply list_elem_of_In in Hin. apply List.filter_In in Hin as [Hin _].
    by apply list_elem_of_In.
Qed.

Lemma read_back_good (lk : bool) (fb : Framebuffer) (s : State) :
  consistent s ->
  consistent (read_back lk fb s) /\
  (unsent_untouched s -> unsent_untouched (read_back lk fb s)).
Proof.
  intros Hok. unfold read_back. destruct (locked s lk); [done|]. cbv zeta.
  set (s1 := set_gl_calls _ s).
  assert (Hcore1 : same_core s s1) by (by repeat split).
  pose proof (consistent_frame s s1 Hcore1 Hok) as Hok1.
  destruct (fold_good (read_request fb) (id <$> requests s1)
              (read_request_consistent fb) (read_request_untouched fb) s1 Hok1)
    as [Hok2 Hun2].
  set (s2 := fold_left _ _ s1) in *.
  assert (Hcore2 : same_core s2 (set_gl_calls (gl_calls s2 ++ [BindFramebuffer false]) s2))
    by (by repeat split).
  split.
  - by apply (consistent_frame s2).
  - intros Hun. apply (unsent_untouched_frame s2); [done|]. apply Hun2.
    by apply (unsent_untouched_frame s).
Qed.

Lemma remove_awaiting_consistent (i : nat) (s : State) :
  consistent s -> consistent (set_awaiting (delete i (awaiting s)) s).
Proof.
  intros (H1 & H2 & H3 & H4 & H5 & H6 & H7). repeat split; trivial; try apply H7.
  change (Forall (post_ok s) (delete i (awaiting s))). by apply Forall_delete.
Qed.

Lemma remove_awaiting_untouched (i : nat) (s : State) :
  unsent_untouched s -> unsent_untouched (set_awaiting (delete i (awaiting s)) s).
Proof.
  unfold unsent_untouched. fields. intros Hun.
  eapply Forall_impl; [exact Hun|]. intros x Hx Hs. destruct (Hx Hs) as [Hp Ha].
  split; [done|]. by apply Forall_delete.
Qed.

Lemma settle_turn (request : Request) (sel : Selection) (s : State) :
  exists xs, turn (id request) xs []
               s (set_requests (delete_request (id request) (requests (resolve request sel s)))
                    (resolve request sel s)).
Proof.
  unfold resolve. destruct (is_settled s (id request)).
  - exists []. unfold turn, same_timers. fields. rewrite ?app_nil_r. repeat split; auto.
  - destruct (given (state request));
      (exists [Resolved (id request) (length (heap s))];
       unfold turn, same_timers; fields; rewrite ?app_nil_r; repeat split; auto).
Qed.

Lemma deliver_good (p : Post) (reply : Reply) (s : State) :
  consistent s -> post_ok s p ->
  consistent (deliver p reply s) /\
  (unsent_untouched s -> faithful_reply p reply = true ->
   Forall (fun x => sent x = false -> concerns (id x) p = false) (requests s) ->
   unsent_untouched (deliver p reply s)).
Proof.
  intros Hok Hp. unfold deliver, post_ok, faithful_reply in *.
  destruct (continuation p) as [|request f chg grp|k l] eqn:Hc, reply as [message|colors];
    try (split; [exact Hok | by intros]).
  - split; [by apply finishRead_consistent|].
    intros Hun Hf Hsent. apply finishRead_untouched; trivial.
    destruct Hp as (r & Hab & Hg). unfold post_about in Hab. rewrite Hc in Hab.
    destruct Hab as [key Hpay]. rewrite Hpay in Hf.
    intros x Hx. pose proof (lookup_request_id _ _ _ Hx) as Hid.
    apply not_false_iff_true. intros Hux.
    rewrite Forall_forall in Hsent.
    specialize (Hsent x (lookup_request_elem _ _ _ Hx) Hux).
    unfold concerns in Hsent. rewrite Hc, Hpay in Hsent. lia.
  - destruct Hp as (r & Hab & Hg). unfold post_about in Hab. rewrite Hc in Hab. subst r.
    match goal with
    | |- context [resolve request ?sel s] =>
        destruct (settle_turn request sel s) as [xs Ht]
    end.
    assert (Hok' : consistent
              (set_requests (delete_request (id request) (requests (resolve request
                 {| sel_feature := Some f; changed := chg; sel_request := id request;
                    selection_colors := colors; sel_group := Some grp;
                    update_pending := false |} s)))
                 (resolve request
                 {| sel_feature := Some f; changed := chg; sel_request := id request;
                    selection_colors := colors; sel_group := Some grp;
                    update_pending := false |} s))).
    { eapply turn_consistent; [exact Hok | by right | exact Ht]. }
    split; [exact Hok'|]. intros Hun _ _.
    eapply turn_untouched; [exact Hok' | exact Hun | exact Ht | by left].
Qed.

Lemma updateState_good (k : string) (s : State) :
  consistent s ->
  consistent (updateState k s).1 /\
  (unsent_untouched s -> unsent_untouched (updateState k s).1).
Proof.
  intros Hok. unfold updateState.
  repeat case_match; try (split; [exact Hok | done]). cbn [fst].
  destruct Hok as (G1 & G2 & G3 & G4 & G5 & G6 & G7). unfold postMessage.
  split.
  - repeat split; trivial; try apply G7; fields.
    + apply Forall_app. split; [exact G5|]. by apply Forall_singleton.
    + apply Forall_app. split; [exact G6|]. by apply Forall_singleton.
  - unfold unsent_untouched. fields. intros Hun.
    eapply Forall_impl; [exact Hun|]. intros x Hx Hs. destruct (Hx Hs) as [Hp Ha].
    split; apply Forall_app; (split; [done|]); by apply Forall_singleton.
Qed.

Lemma step_good (s : State) (e : Event) :
  consistent s ->
  consistent (step s e) /\
  (unsent_untouched s -> faithful s e = true -> unsent_untouched (step s e)).
Proof.
  intros Hok. destruct e; cbn [step faithful].
  - split; [by apply getFeatureAt_consistent|]. intros Hun _.
    by apply getFeatureAt_untouched.
  - destruct (fold_good clear_request (id <$> requests s)
                clear_request_consistent clear_request_untouched s Hok) as [H1 H2].
    split; [exact H1 | intros Hun _; by apply H2].
  - assert (Htimer : timer_ok (read s)) by (apply read_timer_ok, Hok).
    split.
    + apply (consistent_timers s); trivial;
        unfold read, setTimeout, clearTimeout; by destruct (read_delay_timer s).
    + intros Hun _. unfold read, setTimeout, clearTimeout.
      by destruct (read_delay_timer s).
  - unfold timeout. destruct (bool_decide _); [|by split].
    assert (Hok1 : consistent (clearTimeout t s)).
    { apply (consistent_timers s); trivial. apply clearTimeout_timer_ok, Hok. }
    destruct (read_back_good lock_result fb (clearTimeout t s) Hok1) as [H1 H2].
    split; [exact H1|]. intros Hun _. by apply H2.
  - destruct (awaiting s !! i) as [p|] eqn:Hi; [|by split].
    assert (Hp : post_ok s p).
    { destruct Hok as (_ & _ & _ & _ & _ & H6 & _). exact (Forall_lookup_1 _ _ _ _ H6 Hi). }
    destruct (deliver_good p reply (set_awaiting (delete i (awaiting s)) s)
                (remove_awaiting_consistent i s Hok) Hp) as [H1 H2].
    split; [exact H1|]. intros Hun Hf. apply H2; trivial.
    + by apply remove_awaiting_untouched.
    + fields. eapply Forall_impl; [exact Hun|]. intros x Hx Hs. destruct (Hx Hs) as [_ Ha].
      exact (Forall_lookup_1 _ _ _ _ Ha Hi).
  - destruct (updateState_good state_key s Hok) as [H1 H2].
    split; [exact H1 | intros Hun _; by apply H2].
  - split.
    + eapply consistent_frame; [|exact Hok]. by repeat split.
    + intros Hun _. eapply unsent_untouched_frame; [|exact Hun]. by repeat split.
Qed.

Lemma init_consistent (ws : list (option Worker)) (lk : bool) :
  consistent (init ws lk) /\ unsent_untouched (init ws lk).
Proof.
  split; [|constructor].
  unfold consistent, counter_ok. cbn. repeat split; try constructor; try done.
Qed.

Lemma run_good (es : list Event) : forall s : State,
  consistent s ->
  consistent (run s es) /\
  (unsent_untouched s -> faithful_events s es = true -> unsent_untouched (run s es)).
Proof.
  induction es as [|e es IH]; intros s Hok; [by split|].
  destruct (step_good s e Hok) as [H1 H2].
  destruct (IH (step s e) H1) as [H3 H4].
  split; [exact H3|]. intros Hun Hf. cbn [faithful_events] in Hf.
  apply andb_true_iff in Hf as [He Hes]. apply H4; [by apply H2 | done].
Qed.

(** Every reachable instance is consistent: the queue has one entry
    per id, the promises of queued requests are pending, and at most
    one time-out is outstanding. *)
Theorem reachable_consistent (s : State) : reachable s -> consistent s.
Proof.
  intros (ws & lk & es & ->). apply run_good, init_consistent.
Qed.

Corollary reachable_queue_ok (s : State) : reachable s -> queue_ok s.
Proof.
  intros Hr. destruct (reachable_consistent s Hr) as (_ & H2 & H3 & _).
  split; [exact H2|]. eapply Forall_impl; [exact H3|]. by intros x [_ ?].
Qed.

Corollary reachable_timer_ok (s : State) : reachable s -> timer_ok s.
Proof. intros Hr. apply (reachable_consistent s Hr). Qed.

(** The queue stays well formed from one turn of the read-back to the
    next. *)
Corollary read_request_queue_ok (fb : Framebuffer) (s : State) (r : Z) :
  consistent s -> queue_ok s /\ queue_ok (read_request fb s r).
Proof.
  intros Hok. pose proof (read_request_consistent fb s r Hok) as Hok'.
  destruct Hok as (_ & H2 & H3 & _), Hok' as (_ & H2' & H3' & _).
  split; (split; [done|]); (eapply Forall_impl; [eassumption|]); by intros x [_ ?].
Qed.

(** While workers echo the ids they are asked about, a queued request
    that is not marked as sent has a pending promise and no post
    concerns it. *)
Theorem reachable_unsent_queued (s : State) (r : Z) (request : Request) :
  reachable_faithfully s ->
  lookup_request (requests s) r = Some request -> sent request = false ->
  queued r request s.
Proof.
  intros (ws & lk & es & Hf & ->) Hlk Hsent.
  destruct (init_consistent ws lk) as [Hok0 Hun0].
  destruct (run_good es (init ws lk) Hok0) as [Hok Hun].
  specialize (Hun Hun0 Hf).
  pose proof (lookup_request_id _ _ _ Hlk) as Hid.
  pose proof (lookup_request_elem _ _ _ Hlk) as Hin.
  destruct Hok as (_ & _ & H3 & _).
  rewrite Forall_forall in H3. destruct (H3 _ Hin) as [(n & Hn & Hle) Hst].
  unfold unsent_untouched in Hun. rewrite Forall_forall in Hun.
  destruct (Hun _ Hin Hsent) as [Hp Ha]. rewrite Hid in *.
  split; [exact Hlk|]. split; [exact Hst|]. split; [exact Hp|]. split; [exact Ha|].
  exists n. split; [done | lia].
Qed.

End Reachable.

(** ** From a worker's colour to the worker's query *)

Module RoundTrip.
Import JS Static Main StaticFacts MainFacts Samples.

Lemma to_uint8_byte (b : Z) : 0 <= b < 256 -> to_uint8 b = b.
Proof. intros H. unfold to_uint8. apply Z.mod_small. lia. Qed.

(** C2. Let [createSelector] allocate with a counter value [n] below
    2^24 on a worker whose prefix is below 255, and let the pixel
    sampled for a pending request hold the four bytes [ir, ig, ib, ia]
    of that allocation.  Then the key under which the entry was
    stored is [n + prefix * 2^24]; the key computed by the read-back
    is that key and the worker id taken from the alpha byte is the
    prefix; and the worker registered under that id is posted exactly
    one message, 'self.getFeatureSelection' with the id of the
    request and that key. *)
Theorem read_request_decodes_created_key (st : Statics) (t : Tile)
    (fb : Framebuffer) (s : State) (r : Z) (request : Request) (w : Worker) :
  let n := map_index st + 1 in
  let k := (createSelector st t).2 in
  0 <= map_index st -> n < 2 ^ 24 ->
  0 <= map_prefix st < 255 ->
  fb (sample_x request) (sample_y request) =
    Some {| p0 := byte0 n; p1 := byte1 n; p2 := byte2 n; p3 := map_prefix st |} ->
  lookup_request (requests s) r = Some request ->
  sent request = false ->
  workers s !! Z.to_nat (map_prefix st) = Some (Some w) ->
  k = n + map_prefix st * 2 ^ 24 /\
  is_Some (map (createSelector st t).1 !! k) /\
  feature_key_of (pixel (read_request fb s r)) = k /\
  p3 (pixel (read_request fb s r)) = map_prefix st /\
  posted (read_request fb s r) =
    posted s ++ [{| target := ToWorker w;
                    method := "self.getFeatureSelection";
                    payload := SelectionQuery r k;
                    continuation := ThenFinishRead |}].
Proof.
  intros n k Hn0 Hn Hp Hfb Hlk Hsent Hw.
  change (2 ^ 24) with 16777216 in *.
  pose proof (lookup_request_id _ _ _ Hlk) as Hid.
  assert (Hb0 : 0 <= byte0 n < 256) by (rewrite byte0_spec; apply Z.mod_pos_bound; lia).
  assert (Hb1 : 0 <= byte1 n < 256) by (rewrite byte1_spec; apply Z.mod_pos_bound; lia).
  assert (Hb2 : 0 <= byte2 n < 256) by (rewrite byte2_spec; apply Z.mod_pos_bound; lia).
  assert (Hpx : pixel (readPixels fb (sample_x request) (sample_y request) s) =
                {| p0 := byte0 n; p1 := byte1 n; p2 := byte2 n; p3 := map_prefix st |}).
  { unfold readPixels. rewrite Hfb. fields. cbn [p0 p1 p2 p3].
    rewrite !to_uint8_byte by lia. reflexivity. }
  assert (Hk : k = color_key (byte0 n) (byte1 n) (byte2 n) (map_prefix st)) by reflexivity.
  assert (Hread : read_request fb s r =
            set_requests
              (mark_sent r (requests s))
              (postMessage {| target := ToWorker w;
                              method := "self.getFeatureSelection";
                              payload := SelectionQuery r k;
                              continuation := ThenFinishRead |}
                 (readPixels fb (sample_x request) (sample_y request) s))).
  { unfold read_request. rewrite Hlk, Hsent. cbv zeta. rewrite Hpx. cbn [p3].
    destruct (Z.eqb_spec (map_prefix st) 255) as [E|_]; [lia|]. cbn [negb].
    destruct (readPixels_fields fb (sample_x request) (sample_y request) s)
      as (Hq & _ & _ & _ & _ & _ & _ & Hws).
    rewrite Hws, Hw, Hid. unfold postMessage at 1. fields. rewrite Hq. reflexivity. }
  split; [|split; [|split; [|split]]].
  - rewrite Hk, color_key_spec by lia.
    rewrite byte0_spec, byte1_spec, byte2_spec, (Z.mod_small (map_prefix st)) by lia.
    Z.div_mod_to_equations. lia.
  - unfold k, createSelector. cbn [fst snd map]. rewrite lookup_insert_eq. eauto.
  - rewrite Hread. unfold postMessage. fields. rewrite Hpx. exact (eq_sym Hk).
  - rewrite Hread. unfold postMessage. fields. by rewrite Hpx.
  - rewrite Hread. unfold postMessage. fields.
    by destruct (readPixels_fields fb (sample_x request) (sample_y request) s)
      as (_ & _ & _ & _ & -> & _).
Qed.

Lemma read_request_decodes_created_key_witness :
  (createSelector worker_1 tile_b).2 = 2 + 1 * 2 ^ 24 /\
  posted (read_request painted_by_worker_1 two_workers_requested 0) =
    [{| target := ToWorker 11%nat;
        method := "self.getFeatureSelection";
        payload := SelectionQuery 0 (2 + 1 * 2 ^ 24);
        continuation := ThenFinishRead |}].
Proof.
  destruct (read_request_decodes_created_key worker_1 tile_b painted_by_worker_1
              two_workers_requested 0
              {| id := 0; point := centre; state := None; sent := false |} 11%nat)
    as (H1 & _ & _ & _ & H5).
  - vm_compute. discriminate.
  - vm_compute. reflexivity.
  - vm_compute. split; [discriminate | reflexivity].
  - vm_compute. reflexivity.
  - vm_compute. reflexivity.
  - reflexivity.
  - vm_compute. reflexivity.
  - split; [exact H1|]. rewrite H5, H1. reflexivity.
Defined.

End RoundTrip.
(** ** Facts about the selection map of a worker *)

Module WorkerFacts.
Import JS Static StaticFacts WorkerRun Samples Cases.

Lemma key_layout (n ia : Z) :
  color_key (byte0 n) (byte1 n) (byte2 n) ia =
  n mod 16777216 + (ia mod 256) * 16777216.
Proof.
  rewrite color_key_spec;
    rewrite ?byte0_spec, ?byte1_spec, ?byte2_spec;
    try (apply Z.mod_pos_bound; lia).
  Z.div_mod_to_equations. lia.
Qed.

(** X1. The key that [createSelector] returns has the incremented
    counter, modulo 2^24, in its low 24 bits and the prefix of the
    worker, modulo 256, in its top byte, whatever the counter and the
    prefix are; it is an unsigned 32-bit number.  So a call in a
    state whose counter is the same modulo 2^24 and whose prefix is
    the same modulo 256 returns the same key. *)
Theorem createSelector_key_layout (st : Statics) (t : Tile) :
  let k := (createSelector st t).2 in
  k mod 2 ^ 24 = (map_index st + 1) mod 2 ^ 24 /\
  k / 2 ^ 24 = map_prefix st mod 256 /\
  0 <= k < 2 ^ 32 /\
  forall st' t',
    map_index st' mod 2 ^ 24 = map_index st mod 2 ^ 24 ->
    map_prefix st' mod 256 = map_prefix st mod 256 ->
    (createSelector st' t').2 = k.
Proof.
  cbv zeta. rewrite createSelector_key, key_layout.
  change (2 ^ 24) with 16777216. change (2 ^ 32) with 4294967296.
  split; [|split; [|split]]; try (Z.div_mod_to_equations; lia).
  intros st' t' Hi Hp. rewrite createSelector_key, key_layout, Hp. f_equal.
  rewrite <- (Zplus_mod_idemp_l (map_index st')), Hi, Zplus_mod_idemp_l. reflexivity.
Qed.

(** *** What one call does to the registry *)

Lemma tile_eta (t : Tile) :
  {| tile_key := tile_key t; tile_coords := tile_coords t;
     tile_style_zoom := tile_style_zoom t; tile_source := tile_source t;
     tile_generation := tile_generation t |} = t.
Proof. destruct t; reflexivity. Qed.

Lemma createSelector_map (st : Statics) (t : Tile) :
  exists sel, map (createSelector st t).1 = <[(createSelector st t).2 := sel]> (map st) /\
              feature sel = None /\ group sel = None.
Proof. eexists. split; [reflexivity|]. split; reflexivity. Qed.

Lemma createSelector_tiles_eq (st : Statics) (t : Tile) :
  tiles (createSelector st t).1 !! tile_key t =
  Some {| entries := from_option entries [] (tiles st !! tile_key t) ++ [(createSelector st t).2];
          tile := from_option tile t (tiles st !! tile_key t) |}.
Proof.
  unfold createSelector. cbn [fst snd tiles].
  destruct (tiles st !! tile_key t) as [e|] eqn:He.
  - rewrite lookup_alter_eq, He. reflexivity.
  - rewrite lookup_alter_eq, lookup_insert_eq, tile_eta. reflexivity.
Qed.

Lemma createSelector_tiles_ne (st : Statics) (t : Tile) (tk : string) :
  tk <> tile_key t -> tiles (createSelector st t).1 !! tk = tiles st !! tk.
Proof.
  intros Hne. unfold createSelector. cbn [fst snd tiles].
  rewrite lookup_alter_ne by congruence.
  destruct (tiles st !! tile_key t); [reflexivity|].
  rewrite lookup_insert_ne by congruence. reflexivity.
Qed.

Lemma createSelector_listed_under (st : Statics) (t : Tile) (tk : string) (k : Z) :
  listed_under (createSelector st t).1 tk k <->
  listed_under st tk k \/ (tk = tile_key t /\ k = (createSelector st t).2).
Proof.
  unfold listed_under. destruct (decide (tk = tile_key t)) as [->|Hne].
  - rewrite createSelector_tiles_eq. split.
    + intros (e & [= <-] & Hin). cbn [entries] in Hin.
      apply elem_of_app in Hin as [Hin|Hin].
      * left. destruct (tiles st !! tile_key t) as [e|]; cbn in Hin.
        -- eauto.
        -- by apply elem_of_nil in Hin.
      * apply list_elem_of_singleton in Hin. auto.
    + intros [(e & He & Hin)|[_ ->]]; eexists; (split; [reflexivity|]); cbn [entries].
      * rewrite He. cbn. apply elem_of_app. auto.
      * apply elem_of_app. right. by apply list_elem_of_singleton.
  - rewrite createSelector_tiles_ne by trivial. split; [auto|].
    intros [H|[? _]]; [trivial|congruence].
Qed.

(** [getSelector] changes the registry and the counters as the
    [createSelector] inside it does, and returns its key. *)
Lemma getSelector_frame (st : Statics) (f : Feature) (draw : Draw) (t : Tile)
    (context : Context) :
  let res := getSelector st f draw t context in
  let made := createSelector st t in
  res.2 = made.2 /\ tiles res.1 = tiles made.1 /\
  map_index res.1 = map_index made.1 /\ map_size res.1 = map_size made.1 /\
  map_prefix res.1 = map_prefix made.1 /\ dom (map res.1) = dom (map made.1).
Proof.
  cbv zeta. unfold getSelector.
  destruct (createSelector st t) as [st1 k]. cbn [fst snd].
  destruct (truthy _).
  - unfold lookup_group. cbn [set_selector groups].
    destruct (groups st1 !! _); cbn [fst snd set_selector map tiles map_index map_size map_prefix];
      rewrite !dom_alter_L; auto 10.
  - cbn [fst snd set_selector map tiles map_index map_size map_prefix].
    rewrite !dom_alter_L. auto 10.
Qed.

Lemma is_Some_dom (m m' : gmap Z Selector) :
  dom m = dom m' -> forall k, is_Some (m !! k) <-> is_Some (m' !! k).
Proof. intros Hd k. rewrite <- !elem_of_dom, Hd. reflexivity. Qed.

Lemma size_dom_eq (m m' : gmap Z Selector) : dom m = dom m' -> size m = size m'.
Proof. intros Hd. rewrite <- !size_dom, Hd. reflexivity. Qed.

(** The invariants only see the registry, the counters and the keys
    of the map. *)
Lemma statics_ok_frame (st st' : Statics) :
  tiles st' = tiles st -> map_index st' = map_index st -> map_size st' = map_size st ->
  dom (map st') = dom (map st) ->
  statics_ok st -> statics_ok st'.
Proof.
  intros Ht Hi Hs Hd ([Hr1 Hr2] & (Hc1 & Hc2 & Hc3) & Hf).
  pose proof (is_Some_dom _ _ Hd) as Hsome.
  split; [|split].
  - split.
    + intros k. rewrite Hsome, Hr1. unfold listed, listed_under. rewrite Ht. reflexivity.
    + rewrite Ht. exact Hr2.
  - split; [|split]; [congruence..|]. rewrite (size_dom_eq _ _ Hd). lia.
  - rewrite Hi. intros Hlt. destruct (Hf Hlt) as (Hf1 & Hf2 & Hf3 & Hf4).
    split; [|split; [|split]].
    + intros k. rewrite Hsome, Hi. apply Hf1.
    + rewrite (size_dom_eq _ _ Hd), Hi. exact Hf2.
    + rewrite Ht. exact Hf3.
    + unfold listed_under. rewrite Ht. exact Hf4.
Qed.

Lemma statics_ok_createSelector (st : Statics) (t : Tile) :
  statics_ok st -> statics_ok (createSelector st t).1.
Proof.
  intros ([Hr1 Hr2] & (Hc1 & Hc2 & Hc3) & Hf).
  destruct (createSelector_map st t) as (sel & Hmap & _).
  pose proof (createSelector_key st t) as Hkey.
  set (k := (createSelector st t).2) in *.
  split; [|split].
  - split.
    + intros k'. rewrite Hmap. unfold listed.
      setoid_rewrite createSelector_listed_under. fold k.
      destruct (decide (k' = k)) as [->|Hne].
      * rewrite lookup_insert_eq. split; [|eauto]. intros _.
        exists (tile_key t). auto.
      * rewrite lookup_insert_ne by congruence. rewrite Hr1. unfold listed.
        split; [intros [tk H]; eauto|]. intros [tk [H|[_ ?]]]; [eauto|congruence].
    + intros tk e. destruct (decide (tk = tile_key t)) as [->|Hne].
      * rewrite createSelector_tiles_eq. intros [= <-]. cbn [tile entries]. split.
        -- destruct (tiles st !! tile_key t) as [e|] eqn:He; cbn; [|reflexivity].
           apply (Hr2 _ _ He).
        -- intros Hnil. by apply app_eq_nil in Hnil as [_ ?].
      * rewrite createSelector_tiles_ne by trivial. apply Hr2.
  - unfold counters_ok. rewrite createSelector_map_index.
    change (map_size (createSelector st t).1) with (map_size st + 1).
    split; [lia|]. split; [lia|].
    rewrite Hmap, map_size_insert. destruct (map st !! k); cbn [id]; lia.
  - unfold keys_fresh. rewrite !createSelector_map_index. intros Hlt.
    destruct (Hf ltac:(lia)) as (Hf1 & Hf2 & Hf3 & Hf4).
    assert (Hlow : k mod 16777216 = map_index st + 1).
    { rewrite Hkey, color_key_low24. apply Z.mod_small. lia. }
    assert (Hnew : map st !! k = None).
    { destruct (map st !! k) eqn:Hk; [|reflexivity].
      specialize (Hf1 k ltac:(eauto)). lia. }
    assert (Hun : forall tk, ~ listed_under st tk k).
    { intros tk Hl. assert (Hs : is_Some (map st !! k)) by (apply Hr1; exists tk; exact Hl).
      rewrite Hnew in Hs. by destruct Hs. }
    split; [|split; [|split]].
    + intros k'. rewrite Hmap.
      destruct (decide (k' = k)) as [->|Hne].
      * intros _. lia.
      * rewrite lookup_insert_ne by congruence. intros Hs. specialize (Hf1 _ Hs). lia.
    + rewrite Hmap, map_size_insert_None by exact Hnew. lia.
    + intros tk e. destruct (decide (tk = tile_key t)) as [->|Hne].
      * rewrite createSelector_tiles_eq. intros [= <-]. cbn [entries]. fold k.
        apply NoDup_app. split; [|split].
        -- destruct (tiles st !! tile_key t) as [e|] eqn:He; cbn; [|constructor].
           apply (Hf3 _ _ He).
        -- intros k' Hin Hin'. apply list_elem_of_singleton in Hin' as ->.
           destruct (tiles st !! tile_key t) as [e|] eqn:He; cbn in Hin.
           ++ apply (Hun (tile_key t)). exists e. auto.
           ++ by apply elem_of_nil in Hin.
        -- apply NoDup_singleton.
      * rewrite createSelector_tiles_ne by trivial. apply Hf3.
    + intros tk1 tk2 k'. rewrite !createSelector_listed_under. fold k.
      intros [H1|[-> ->]] [H2|[-> E2]].
      * eapply Hf4; eauto.
      * subst k'. by destruct (Hun tk1).
      * by destruct (Hun tk2).
      * reflexivity.
Qed.

Lemma statics_ok_initial : statics_ok initial.
Proof.
  split; [|split].
  - split.
    + intros k. cbn. rewrite lookup_empty. split; [by intros []|].
      intros (tk & e & He & _). cbn in He. by rewrite lookup_empty in He.
    + intros tk e He. cbn in He. by rewrite lookup_empty in He.
  - split; [|split]; cbn -[size]; rewrite ?map_size_empty; lia.
  - intros _. split; [|split; [|split]].
    + intros k. cbn. rewrite lookup_empty. by intros [].
    + reflexivity.
    + intros tk e He. cbn in He. by rewrite lookup_empty in He.
    + intros tk1 tk2 k (e & He & _). cbn in He. by rewrite lookup_empty in He.
Qed.

Lemma statics_ok_reset (st : Statics) : statics_ok (reset st).
Proof.
  split; [|split].
  - split.
    + intros k. cbn. rewrite lookup_empty. split; [by intros []|].
      intros (tk & e & He & _). cbn in He. by rewrite lookup_empty in He.
    + intros tk e He. cbn in He. by rewrite lookup_empty in He.
  - split; [|split]; cbn -[size]; rewrite ?map_size_empty; lia.
  - intros _. split; [|split; [|split]].
    + intros k. cbn. rewrite lookup_empty. by intros [].
    + reflexivity.
    + intros tk e He. cbn in He. by rewrite lookup_empty in He.
    + intros tk1 tk2 k (e & He & _). cbn in He. by rewrite lookup_empty in He.
Qed.

Lemma statics_ok_apply (st : Statics) (op : Op) : statics_ok st -> statics_ok (apply st op).
Proof.
  intros Hok. destruct op as [t|c| |k|prefix]; cbn [apply].
  - by apply statics_ok_createSelector.
  - destruct (getSelector_frame st (call_feature c) (call_draw c) (call_tile c)
                (call_context c)) as (_ & Ht & Hi & Hs & _ & Hd).
    eapply statics_ok_frame; [exact Ht|exact Hi|exact Hs|exact Hd|].
    by apply statics_ok_createSelector.
  - apply statics_ok_reset.
  - exact Hok.
  - eapply statics_ok_frame; [..|exact Hok]; reflexivity.
Qed.

Lemma statics_ok_run (ops : list Op) : forall st : Statics,
  statics_ok st -> statics_ok (run st ops).
Proof.
  induction ops as [|op ops IH]; intros st Hok; [exact Hok|].
  apply IH, statics_ok_apply, Hok.
Qed.

Lemma reachable_statics_ok (st : Statics) : reachable st -> statics_ok st.
Proof. intros [ops ->]. apply statics_ok_run, statics_ok_initial. Qed.

(** *** Groups *)

Lemma group_color_bytes (n : Z) :
  group_color n = [n mod 256; (n / 256) mod 256; (n / 65536) mod 256; 255].
Proof.
  unfold group_color. change (band n 255) with (byte0 n).
  change (band (sar n 8) 255) with (byte1 n). change (band (sar n 16) 255) with (byte2 n).
  rewrite byte0_spec, byte1_spec, byte2_spec. reflexivity.
Qed.

Lemma group_color_inj (n m : Z) :
  0 <= n < 16777216 -> 0 <= m < 16777216 -> group_color n = group_color m -> n = m.
Proof.
  intros Hn Hm. rewrite !group_color_bytes. intros [= H0 H1 H2].
  Z.div_mod_to_equations. lia.
Qed.

Lemma group_color_sentinel (n : Z) :
  0 <= n < 16777215 -> group_color n <> no_group.
Proof.
  intros Hn. rewrite group_color_bytes. unfold no_group. intros [= H0 H1 H2].
  Z.div_mod_to_equations. lia.
Qed.

Lemma createSelector_groups (st : Statics) (t : Tile) :
  groups (createSelector st t).1 = groups st /\
  group_index (createSelector st t).1 = group_index st.
Proof. split; reflexivity. Qed.

Lemma createSelector_selector_group (st : Statics) (t : Tile) (k : Z) :
  selector_group (createSelector st t).1 k =
  if decide (k = (createSelector st t).2) then None else selector_group st k.
Proof.
  destruct (createSelector_map st t) as (sel & Hmap & _ & Hg).
  unfold selector_group. rewrite Hmap.
  destruct (decide (k = _)) as [->|Hne].
  - rewrite lookup_insert_eq. cbn. exact Hg.
  - rewrite lookup_insert_ne by congruence. reflexivity.
Qed.

(** [getSelector] leaves the selectors made before as
    [createSelector] leaves them. *)
Lemma getSelector_map_ne (st : Statics) (f : Feature) (draw : Draw) (t : Tile)
    (context : Context) (k : Z) :
  k <> (createSelector st t).2 ->
  map (getSelector st f draw t context).1 !! k = map (createSelector st t).1 !! k.
Proof.
  intros Hne. unfold getSelector.
  destruct (createSelector st t) as [st1 k1]. cbn [fst snd] in *.
  destruct (truthy _).
  - unfold lookup_group. cbn [set_selector groups].
    destruct (groups st1 !! _); cbn [fst snd set_selector map];
      rewrite !lookup_alter_ne by congruence; reflexivity.
  - cbn [fst snd set_selector map]. rewrite !lookup_alter_ne by congruence. reflexivity.
Qed.

Lemma getSelector_group_index_le (st : Statics) (f : Feature) (draw : Draw) (t : Tile)
    (context : Context) :
  let res := getSelector st f draw t context in
  group_index st <= group_index res.1 <= group_index st + 1 /\
  (groups res.1 = groups st \/
   group_index res.1 = group_index st + 1 /\
   exists gk, groups st !! gk = None /\
              groups res.1 = <[gk := group_color (group_index st + 1)]> (groups st)).
Proof.
  cbv zeta. unfold getSelector.
  destruct (createSelector st t) as [st1 k] eqn:Hc.
  assert (Hg1 : groups st1 = groups st) by (injection Hc as <- _; reflexivity).
  assert (Hi1 : group_index st1 = group_index st) by (injection Hc as <- _; reflexivity).
  destruct (truthy _).
  - unfold lookup_group. cbn [set_selector groups group_index]. rewrite Hg1, Hi1.
    destruct (groups st !! _) eqn:Hlk; cbn [fst snd set_selector groups group_index].
    + rewrite Hi1. split; [lia|]. left. exact Hg1.
    + split; [lia|]. right. split; [reflexivity|]. eauto.
  - cbn [fst snd set_selector groups group_index]. rewrite Hi1. split; [lia|]. left. exact Hg1.
Qed.

Lemma groups_ok_createSelector (b : Z) (st : Statics) (t : Tile) :
  groups_ok b st -> groups_ok b (createSelector st t).1.
Proof.
  intros (Hb & Ha & Hs & Hd). destruct (createSelector_groups st t) as [Hg Hi].
  split; [exact Hb|]. split; [|split].
  - unfold groups_above. rewrite Hg, Hi. exact Ha.
  - intros k g. rewrite createSelector_selector_group, Hg.
    destruct (decide _); [discriminate|]. apply Hs.
  - unfold groups_distinct. rewrite Hg, Hi. exact Hd.
Qed.

Lemma groups_ok_getSelector (b : Z) (st : Statics) (f : Feature) (draw : Draw) (t : Tile)
    (context : Context) :
  groups_ok b st -> groups_ok b (getSelector st f draw t context).1.
Proof.
  intros Hok. pose proof (groups_ok_createSelector b st t Hok) as (Hb & Ha & Hs & Hd).
  destruct Hok as (_ & [Hle Hrange] & _ & _).
  destruct (getSelector_group st f draw t context) as [Hsel Hgroups].
  destruct (getSelector_group_index_le st f draw t context) as [Hgi Hcases].
  destruct (getSelector_frame st f draw t context) as (Hkey & _).
  cbv zeta in *.
  set (res := getSelector st f draw t context) in *.
  set (gv := group_value_of f draw context) in *.
  set (gk := group_key_of draw gv) in *.
  assert (Hkeep : forall gk' c, groups st !! gk' = Some c -> groups res.1 !! gk' = Some c).
  { intros gk' c Hlk. destruct Hcases as [->|(_ & gk0 & Hnone & ->)]; [exact Hlk|].
    rewrite lookup_insert_ne; [exact Hlk|]. congruence. }
  split; [exact Hb|]. split; [|split].
  - split; [lia|]. intros gk' c Hlk.
    destruct Hcases as [Heq|(Hi & gk0 & Hnone & Heq)]; rewrite Heq in Hlk.
    + destruct (Hrange _ _ Hlk) as (n & Hn & ->). exists n. split; [lia|reflexivity].
    + destruct (decide (gk' = gk0)) as [->|Hne].
      * rewrite lookup_insert_eq in Hlk. injection Hlk as <-.
        exists (group_index st + 1). split; [lia|reflexivity].
      * rewrite lookup_insert_ne in Hlk by congruence.
        destruct (Hrange _ _ Hlk) as (n & Hn & ->). exists n. split; [lia|reflexivity].
  - intros k g Hg. destruct (decide (k = res.2)) as [->|Hne].
    + rewrite Hsel in Hg. injection Hg as <-. cbn [value key index].
      destruct (truthy gv) eqn:Htr; [|reflexivity].
      rewrite Hgroups. destruct (groups st !! gk) as [c|] eqn:Hlk; cbn [default].
      * exact Hlk.
      * apply lookup_insert_eq.
    + unfold selector_group in Hg. subst res.
      rewrite getSelector_map_ne in Hg by congruence.
      specialize (Hs k g Hg). cbn [groups] in Hs.
      destruct (truthy (value g)); [|exact Hs]. apply Hkeep. exact Hs.
  - intros Hlt gk1 gk2 c H1 H2.
    destruct Hcases as [Heq|(Hi & gk0 & Hnone & Heq)]; rewrite Heq in H1, H2.
    + apply (Hd ltac:(cbn; lia) gk1 gk2 c); assumption.
    + assert (Hfresh : forall gk', groups st !! gk' <> Some (group_color (group_index st + 1))).
      { intros gk' Hlk. destruct (Hrange _ _ Hlk) as (n & Hn & Hc).
        apply group_color_inj in Hc; lia. }
      destruct (decide (gk1 = gk0)) as [->|Hne1], (decide (gk2 = gk0)) as [->|Hne2];
        trivial.
      * rewrite lookup_insert_eq in H1. rewrite lookup_insert_ne in H2 by congruence.
        injection H1 as <-. by destruct (Hfresh gk2).
      * rewrite lookup_insert_eq in H2. rewrite lookup_insert_ne in H1 by congruence.
        injection H2 as <-. by destruct (Hfresh gk1).
      * rewrite lookup_insert_ne in H1, H2 by congruence.
        apply (Hd ltac:(cbn; lia) gk1 gk2 c); assumption.
Qed.

Lemma groups_ok_cleared (st : Statics) :
  0 <= group_index st -> groups st = ∅ -> map st = ∅ -> groups_ok (group_index st) st.
Proof.
  intros Hi Hg Hm. split; [exact Hi|]. split; [|split].
  - split; [lia|]. intros gk c. rewrite Hg, lookup_empty. discriminate.
  - intros k g. unfold selector_group. rewrite Hm, lookup_empty. discriminate.
  - intros _ gk1 gk2 c. rewrite Hg, lookup_empty. discriminate.
Qed.

Lemma groups_ok_low (b b' : Z) (st : Statics) :
  0 <= b' <= b -> groups_ok b st -> groups_ok b' st.
Proof.
  intros Hb (_ & [Hle Hrange] & Hs & Hd). split; [lia|]. split; [|split; trivial].
  split; [lia|]. intros gk c Hlk. destruct (Hrange _ _ Hlk) as (n & Hn & ->).
  exists n. split; [lia|reflexivity].
Qed.

(** A [reset] in the run raises the bound to the group counter at the
    time; the result holds for the bound the run started with. *)
Lemma groups_ok_apply (b : Z) (st : Statics) (op : Op) :
  groups_ok b st ->
  groups_ok (if is_reset op then group_index st else b) (apply st op).
Proof.
  intros Hok. destruct op as [t|c| |k|prefix]; cbn [apply is_reset].
  - by apply groups_ok_createSelector.
  - by apply groups_ok_getSelector.
  - destruct Hok as (Hb & [Hle _] & _). apply (groups_ok_cleared (reset st)); cbn; trivial. lia.
  - exact Hok.
  - exact Hok.
Qed.

Lemma group_index_apply (st : Statics) (op : Op) :
  group_index st <= group_index (apply st op).
Proof.
  destruct op as [t|c| |k|prefix]; cbn [apply].
  - change (group_index (createSelector st t).1) with (group_index st). lia.
  - destruct (getSelector_group_index_le st (call_feature c) (call_draw c) (call_tile c)
                (call_context c)) as [H _]. cbv zeta in H. lia.
  - cbn [reset group_index]. lia.
  - unfold clearTile. lia.
  - cbn [setPrefix group_index]. lia.
Qed.

Lemma groups_ok_run (ops : list Op) : forall (b : Z) (st : Statics),
  groups_ok b st -> groups_ok b (run st ops) /\ group_index st <= group_index (run st ops).
Proof.
  induction ops as [|op ops IH]; intros b st Hok; [split; [exact Hok|cbn; lia]|].
  cbn [run fold_left]. fold (run (apply st op) ops).
  pose proof (groups_ok_apply b st op Hok) as Hop.
  pose proof (group_index_apply st op) as Hmono.
  assert (Hop' : groups_ok b (apply st op)).
  { destruct (is_reset op); [|exact Hop].
    eapply groups_ok_low; [|exact Hop]. destruct Hok as (Hb & [Hle _] & _). lia. }
  destruct (IH b _ Hop') as [H1 H2]. split; [exact H1|lia].
Qed.

Lemma groups_ok_initial : groups_ok 0 initial.
Proof. apply (groups_ok_cleared initial); cbn; trivial. lia. Qed.

(** *** Later calls and earlier selectors *)






Lemma tiles_apply (st : Statics) (op : Op) (tk : string) (e : TileEntry) :
  is_reset op = false -> tiles st !! tk = Some e ->
  exists more, tiles (apply st op) !! tk =
               Some {| entries := entries e ++ more; tile := tile e |}.
Proof.
  intros Hr He.
  assert (Hsame : tiles st !! tk = Some {| entries := entries e ++ []; tile := tile e |}).
  { rewrite app_nil_r, He. by destruct e. }
  assert (Hcreate : forall t, exists more, tiles (createSelector st t).1 !! tk =
                      Some {| entries := entries e ++ more; tile := tile e |}).
  { intros t. destruct (decide (tk = tile_key t)) as [->|Hne].
    - rewrite createSelector_tiles_eq, He. cbn. eauto.
    - rewrite createSelector_tiles_ne by trivial. eauto. }
  destruct op as [t|c| |k|prefix]; cbn [apply is_reset] in *; try discriminate; eauto.
  destruct (getSelector_frame st (call_feature c) (call_draw c) (call_tile c)
              (call_context c)) as (_ & Ht & _). cbv zeta in Ht. rewrite Ht. apply Hcreate.
Qed.

(** *** Properties of the worker-side class *)


(** X3. On a worker the map never has more entries than
    [getMapSize] says, and it has exactly that many as long as fewer
    than 2^24 selectors were made since the last [reset]. *)
Theorem getMapSize_entries (st : Statics) :
  reachable st ->
  Z.of_nat (size (map st)) <= getMapSize st /\
  (getMapSize st < 2 ^ 24 -> Z.of_nat (size (map st)) = getMapSize st).
Proof.
  intros Hre. destruct (reachable_statics_ok st Hre) as (_ & (Hc1 & Hc2 & Hc3) & Hf).
  unfold getMapSize. split; [exact Hc3|].
  change (2 ^ 24) with 16777216. intros Hlt.
  destruct (Hf ltac:(lia)) as (_ & Hsize & _). lia.
Qed.

Lemma getMapSize_entries_witness :
  Z.of_nat (size (map busy_worker)) <= getMapSize busy_worker /\
  Z.of_nat (size (map busy_worker)) = getMapSize busy_worker.
Proof.
  assert (Hre : reachable busy_worker) by (eexists; reflexivity).
  split.
  - exact (proj1 (getMapSize_entries busy_worker Hre)).
  - apply (proj2 (getMapSize_entries busy_worker Hre)). vm_compute. reflexivity.
Defined.

(** X4. On a worker that makes no call for a tile whose key is a
    name inherited from [Object.prototype], the keys of the map are
    exactly the keys listed in the entries of the tiles; the record
    kept for a tile carries the key it is registered under and has at
    least one entry; and as long as fewer than 2^24 selectors were
    made since the last [reset], no tile lists a key twice and no key
    is listed under two tiles. *)
Theorem tiles_list_the_keys (ops : list Op) :
  own_tiles ops = true ->
  let st := run initial ops in
  (forall k, is_Some (map st !! k) <-> listed st k) /\
  (forall tk e, tiles st !! tk = Some e -> tile_key (tile e) = tk /\ entries e <> []) /\
  (getMapSize st < 2 ^ 24 ->
   (forall tk e, tiles st !! tk = Some e -> NoDup (entries e)) /\
   (forall tk1 tk2 k, listed_under st tk1 k -> listed_under st tk2 k -> tk1 = tk2)).
Proof.
  intros _ st.
  assert (Hre : reachable st) by (by exists ops).
  destruct (reachable_statics_ok st Hre) as ([Hr1 Hr2] & (Hc1 & Hc2 & Hc3) & Hf).
  split; [exact Hr1|]. split; [exact Hr2|].
  unfold getMapSize. change (2 ^ 24) with 16777216. intros Hlt.
  destruct (Hf ltac:(lia)) as (_ & _ & H3 & H4). split; assumption.
Qed.

Lemma tiles_list_the_keys_witness :
  (is_Some (map busy_worker !! 16777218) <-> listed busy_worker 16777218) /\
  (forall tk1 tk2 k, listed_under busy_worker tk1 k -> listed_under busy_worker tk2 k ->
                     tk1 = tk2).
Proof.
  destruct (tiles_list_the_keys
              [SetPrefix 1; GetSelector call_named; CreateSelector tile_b;
               GetSelector call_string_id] eq_refl) as (H1 & _ & H3).
  split; [apply H1|]. apply H3. vm_compute. reflexivity.
Defined.

(** X5. Once a tile is registered, calls other than [reset] keep
    the tile record made at its first selector (a later tile object
    with the same key does not replace it) and only append to its
    entries. *)
Theorem tile_record_kept (st : Statics) (ops : list Op) (tk : string) (e : TileEntry) :
  tiles st !! tk = Some e ->
  forallb (fun op => negb (is_reset op)) ops = true ->
  exists more, tiles (run st ops) !! tk =
               Some {| entries := entries e ++ more; tile := tile e |}.
Proof.
  revert st e. induction ops as [|op ops IH]; intros st e He Hr.
  - exists []. rewrite app_nil_r. cbn. rewrite He. by destruct e.
  - cbn [forallb] in Hr. apply andb_prop in Hr as [Hop Hr]. apply negb_true_iff in Hop.
    cbn [run fold_left]. fold (run (apply st op) ops).
    destruct (tiles_apply st op tk e Hop He) as [more1 H1].
    destruct (IH _ _ H1 Hr) as [more2 H2]. cbn [entries tile] in H2.
    exists (more1 ++ more2). rewrite H2, app_assoc. reflexivity.
Qed.

Lemma tile_record_kept_witness :
  exists more,
    tiles (run (createSelector initial tile_a).1 [CreateSelector tile_a_again]) !! "a/1/0/0" =
    Some {| entries := [1] ++ more; tile := tile_a |}.
Proof.
  apply (tile_record_kept (createSelector initial tile_a).1 [CreateSelector tile_a_again]
           "a/1/0/0" {| entries := [1]; tile := tile_a |}).
  - vm_compute. reflexivity.
  - reflexivity.
Defined.



(** X7. On a worker whose group counter is below 2^24 - 1, two
    selectors with truthy group values have the same group index
    colour exactly when they have the same composite group key, and
    such an index colour is never the sentinel [255,255,255,255]. *)
Theorem group_colours_distinct (st : Statics) (k1 k2 : Z) (g1 g2 : Group) :
  reachable st ->
  group_index st < 2 ^ 24 - 1 ->
  selector_group st k1 = Some g1 -> selector_group st k2 = Some g2 ->
  truthy (value g1) = true -> truthy (value g2) = true ->
  (index g1 = index g2 <-> key g1 = key g2) /\ index g1 <> [255; 255; 255; 255].
Proof.
  intros [ops ->]. change (2 ^ 24 - 1) with 16777215. intros Hlt H1 H2 Ht1 Ht2.
  destruct (groups_ok_run ops 0 initial groups_ok_initial) as [(_ & [_ Hrange] & Hs & Hd) _].
  pose proof (Hs _ _ H1) as Hg1. pose proof (Hs _ _ H2) as Hg2.
  rewrite Ht1 in Hg1. rewrite Ht2 in Hg2.
  split; [split|].
  - intros Heq. rewrite Heq in Hg1. apply (Hd ltac:(lia) _ _ _ Hg1 Hg2).
  - intros Heq. rewrite Heq in Hg1. congruence.
  - destruct (Hrange _ _ Hg1) as (n & Hn & ->). apply group_color_sentinel. lia.
Qed.

Lemma group_colours_distinct_witness :
  ([1; 0; 0; 255] = [2; 0; 0; 255] <-> "roads:A1" = "roads:0") /\
  [1; 0; 0; 255] <> [255; 255; 255; 255].
Proof.
  apply (group_colours_distinct busy_worker 16777217 16777219
           {| index := [1; 0; 0; 255]; key := "roads:A1"; value := Str "A1" |}
           {| index := [2; 0; 0; 255]; key := "roads:0"; value := Str "0" |}).
  - eexists. reflexivity.
  - vm_compute. reflexivity.
  - vm_compute. reflexivity.
  - vm_compute. reflexivity.
  - reflexivity.
  - reflexivity.
Defined.

(** X8. [reset] forgets the groups but not the group counter: a
    group index colour given to a selector after a [reset] differs
    from every one given before it, as long as the group counter
    stays below 2^24. *)
Theorem group_colours_fresh_after_reset (st : Statics) (ops : list Op) (k k' : Z)
    (g g' : Group) :
  reachable st ->
  selector_group st k = Some g -> truthy (value g) = true ->
  let st' := run (reset st) ops in
  group_index st' < 2 ^ 24 ->
  selector_group st' k' = Some g' -> truthy (value g') = true ->
  index g' <> index g.
Proof.
  intros [ops0 ->] Hg Ht st'. change (2 ^ 24) with 16777216. intros Hlt Hg' Ht'.
  destruct (groups_ok_run ops0 0 initial groups_ok_initial) as [Hok0 Hge0].
  pose proof Hok0 as (_ & [Hle Hrange] & Hs & _).
  pose proof (groups_ok_apply 0 _ Reset Hok0) as Hre. cbn [is_reset apply] in Hre.
  destruct (groups_ok_run ops _ _ Hre) as [(_ & [Hle' Hrange'] & Hs' & _) Hge].
  fold st' in Hrange', Hs', Hge, Hle'.
  pose proof (Hs _ _ Hg) as Hlk. rewrite Ht in Hlk.
  pose proof (Hs' _ _ Hg') as Hlk'. rewrite Ht' in Hlk'.
  destruct (Hrange _ _ Hlk) as (n & Hn & Hc).
  destruct (Hrange' _ _ Hlk') as (n' & Hn' & Hc').
  cbn [reset group_index] in Hn', Hge, Hle'.
  rewrite Hc, Hc'. intros Heq. apply group_color_inj in Heq; lia.
Qed.

Lemma group_colours_fresh_after_reset_witness :
  [3; 0; 0; 255] <> [1; 0; 0; 255].
Proof.
  apply (group_colours_fresh_after_reset busy_worker [GetSelector call_named]
           16777217 16777217
           {| index := [1; 0; 0; 255]; key := "roads:A1"; value := Str "A1" |}
           {| index := [3; 0; 0; 255]; key := "roads:A1"; value := Str "A1" |}).
  - eexists. reflexivity.
  - vm_compute. reflexivity.
  - reflexivity.
  - vm_compute. reflexivity.
  - vm_compute. reflexivity.
  - reflexivity.
Defined.

End WorkerFacts.

(** ** Facts about sequences of calls on the main thread *)

Module HistoryFacts.
Import JS Main Invariants MainFacts StuckFacts Reachable History Samples Cases.

(** *** Request ids *)

Lemma fold_counter (f : State -> Z -> State) (rs : list Z) :
  (forall s r, selection_request_id (f s r) = selection_request_id s) ->
  forall s, selection_request_id (fold_left f rs s) = selection_request_id s.
Proof.
  intros Hf. induction rs as [|r rs IH]; intros s; [reflexivity|].
  cbn [fold_left]. by rewrite IH.
Qed.

Lemma finishRead_counter (message : Message) (s : State) :
  selection_request_id (finishRead message s).1 = selection_request_id s.
Proof. unfold finishRead, resolve, postMessage. by repeat case_match. Qed.

Lemma clear_request_counter (s : State) (r : Z) :
  selection_request_id (clear_request s r) = selection_request_id s.
Proof. unfold clear_request, reject. by repeat case_match. Qed.

Lemma read_request_counter (fb : Framebuffer) (s : State) (r : Z) :
  selection_request_id (read_request fb s r) = selection_request_id s.
Proof.
  unfold read_request. destruct (lookup_request _ _) as [request|]; [|reflexivity].
  destruct (sent request); [reflexivity|]. cbv zeta. fields.
  set (s1 := readPixels _ _ _ _).
  assert (H1 : selection_request_id s1 = selection_request_id s)
    by (unfold s1, readPixels; by destruct (fb _ _)).
  destruct (negb _).
  - unfold postMessage. by repeat case_match.
  - by rewrite finishRead_counter.
Qed.

Lemma step_counter (s : State) (e : Event) :
  selection_request_id (step s e) =
  if is_getFeatureAt e then Some (next_id s) else selection_request_id s.
Proof.
  destruct e; cbn [step is_getFeatureAt].
  - reflexivity.
  - apply fold_counter, clear_request_counter.
  - unfold read, setTimeout, clearTimeout. by destruct (read_delay_timer s).
  - unfold timeout. destruct (bool_decide _); [|reflexivity].
    unfold read_back. destruct (locked _ _); [reflexivity|]. cbv zeta. fields.
    by rewrite (fold_counter _ _ (read_request_counter fb)).
  - destruct (awaiting s !! i) as [p|]; [|reflexivity].
    unfold deliver.
    destruct (continuation p), reply; try reflexivity.
    + by rewrite finishRead_counter.
    + unfold resolve. by repeat case_match.
  - unfold updateState, postMessage. by repeat case_match.
  - reflexivity.
Qed.

Lemma ids_given_from (es : list Event) : forall s : State,
  counter_ok s ->
  ids_given s es =
  (fun i => next_id s + Z.of_nat i) <$> seq 0 (length (List.filter is_getFeatureAt es)).
Proof.
  induction es as [|e es IH]; intros s Hc; [reflexivity|].
  cbn [ids_given List.filter].
  pose proof (step_counter s e) as Hstep.
  destruct (next_id_fresh s Hc) as [_ Hpos].
  assert (Hc' : counter_ok (step s e)).
  { unfold counter_ok. rewrite Hstep. destruct (is_getFeatureAt e); [|exact Hc].
    by intros n [= <-]. }
  rewrite (IH _ Hc').
  assert (Hnext : next_id (step s e) =
                  if is_getFeatureAt e then next_id s + 1 else next_id s).
  { unfold next_id at 1. rewrite Hstep. destruct (is_getFeatureAt e); [|reflexivity].
    destruct (Z.eqb_spec (next_id s + 1) 0); [lia | reflexivity]. }
  rewrite Hnext.
  destruct e; cbn [is_getFeatureAt app]; try reflexivity.
  cbn [length seq fmap list_fmap]. f_equal.
  - unfold getFeatureAt, next_id. cbn [snd]. lia.
  - rewrite <- seq_shift, <- list_fmap_compose. apply list_fmap_ext.
    intros _ i _. cbn. lia.
Qed.

(** X9. The ids that [getFeatureAt] returns on an instance are 0, 1,
    2, ... in the order of the calls, whatever else happens in
    between. *)
Theorem getFeatureAt_ids (ws : list (option Worker)) (lk : bool) (es : list Event) :
  ids_given (init ws lk) es = Z.of_nat <$> seq 0 (length (List.filter is_getFeatureAt es)).
Proof.
  rewrite ids_given_from by (by intros n [=]). apply list_fmap_ext.
  intros _ i _. reflexivity.
Qed.

(** *** A buffer that stays locked *)

Lemma idle_clear_request (s : State) (r : Z) : idle s -> idle (clear_request s r).
Proof.
  intros (H1 & H2 & H3 & H4 & H5 & H6 & H7 & H8). unfold clear_request.
  destruct (lookup_request _ _) as [request|]; [|by repeat split].
  destruct (sent request); [by repeat split|]. cbv zeta.
  unfold reject. destruct (is_settled s (id request)); fields.
  - repeat split; trivial. fields. unfold delete_request.
    rewrite Forall_forall in H7. apply Forall_forall. intros x Hx. apply H7.
    apply list_elem_of_In in Hx. apply List.filter_In in Hx as [Hx _].
    by apply list_elem_of_In.
  - repeat split; trivial; fields.
    + unfold delete_request.
      rewrite Forall_forall in H7. apply Forall_forall. intros x Hx. apply H7.
      apply list_elem_of_In in Hx. apply List.filter_In in Hx as [Hx _].
      by apply list_elem_of_In.
    + apply Forall_app. split; [exact H8|]. by apply Forall_singleton.
Qed.

Lemma idle_step (s : State) (e : Event) :
  finds_locked e = true -> idle s -> idle (step s e).
Proof.
  intros He Hidle. destruct e; cbn [step finds_locked] in *.
  - destruct Hidle as (H1 & H2 & H3 & H4 & H5 & H6 & H7 & H8).
    unfold getFeatureAt. cbn [fst]. repeat split; trivial. fields.
    set (x := {| id := _; point := pt; state := st; sent := false |}).
    assert (Hx : sent x = false) by reflexivity.
    generalize dependent x. intros x Hx. clear -H7 Hx.
    induction (requests s) as [|y q IH]; cbn.
    + by apply Forall_singleton.
    + apply Forall_cons in H7 as [Hy Hq].
      destruct (id y =? id x); apply Forall_cons; auto.
  - unfold clearPendingRequests. generalize (id <$> requests s). intros rs.
    revert s Hidle. induction rs as [|r rs IH]; intros s Hidle; [exact Hidle|].
    cbn [fold_left]. apply IH. by apply idle_clear_request.
  - destruct Hidle as (H1 & H2 & H3 & H4 & H5 & H6 & H7 & H8).
    unfold read, setTimeout, clearTimeout. destruct (read_delay_timer s); by repeat split.
  - subst lock_result. unfold timeout. destruct (bool_decide _); [|exact Hidle].
    unfold read_back, locked, clearTimeout. fields.
    destruct Hidle as (H1 & H2 & H3 & H4 & H5 & H6 & H7 & H8).
    rewrite H1. cbn. by repeat split.
  - destruct Hidle as (H1 & H2 & H3 & H4 & H5 & H6 & H7 & H8).
    rewrite H3. cbn. by repeat split.
  - destruct Hidle as (H1 & H2 & H3 & H4 & H5 & H6 & H7 & H8).
    unfold updateState. rewrite H6. cbn [fst]. by repeat split.
  - destruct Hidle as (H1 & H2 & H3 & H4 & H5 & H6 & H7 & H8).
    unfold clearState. repeat split; trivial. intros k. unfold state_at. fields.
    destruct (decide (k = state_key)) as [->|Hne].
    + by rewrite lookup_insert_eq.
    + rewrite lookup_insert_ne by congruence. apply H6.
Qed.

(** X10. On an instance built with a lock function that says
    "locked" at every time-out, nothing is ever read from the buffer,
    nothing is posted to a worker and no selection is handed out: the
    queued requests stay unsent, and the only settlements are the
    rejections of [clearPendingRequests]. *)
Theorem locked_buffer_starves (ws : list (option Worker)) (es : list Event) :
  forallb finds_locked es = true ->
  let s := run (init ws true) es in
  gl_calls s = [] /\ posted s = [] /\ heap s = [] /\
  forallb is_rejection (settled s) = true /\
  forallb unsent (requests s) = true.
Proof.
  intros Hes s.
  assert (Hidle : idle s).
  { subst s. assert (H0 : idle (init ws true)).
    { repeat split; constructor. }
    revert H0 Hes. generalize (init ws true). induction es as [|e es IH]; intros s0 H0 Hes.
    - exact H0.
    - cbn [forallb] in Hes. apply andb_prop in Hes as [He Hes].
      cbn [run fold_left]. apply IH; [|exact Hes]. by apply idle_step. }
  destruct Hidle as (H1 & H2 & H3 & H4 & H5 & H6 & H7 & H8).
  split; [exact H4|]. split; [exact H2|]. split; [exact H5|]. split.
  - apply forallb_forall. intros x Hx. rewrite Forall_forall in H8.
    apply H8. by apply list_elem_of_In.
  - apply forallb_forall. intros x Hx. rewrite Forall_forall in H7.
    unfold unsent. rewrite H7; [reflexivity|]. by apply list_elem_of_In.
Qed.

Lemma locked_buffer_starves_witness :
  let s := run (init [Some 0%nat] true)
             [GetFeatureAt centre None; Read; Timeout 0%nat true painted;
              GetFeatureAt centre None; ClearPendingRequests] in
  gl_calls s = [] /\ posted s = [] /\ heap s = [] /\
  forallb is_rejection (settled s) = true /\
  forallb unsent (requests s) = true.
Proof.
  apply (locked_buffer_starves [Some 0%nat]
           [GetFeatureAt centre None; Read; Timeout 0%nat true painted;
            GetFeatureAt centre None; ClearPendingRequests]).
  reflexivity.
Defined.

(** *** Cancelling, and asking what is pending *)

Lemma filter_sent_unsent (q : list Request) : List.filter unsent (List.filter sent q) = [].
Proof.
  induction q as [|x q IH]; [reflexivity|]. cbn.
  destruct (sent x) eqn:Hx; [|exact IH]. cbn. unfold unsent at 1. rewrite Hx. exact IH.
Qed.

Lemma filter_sent_sent (q : list Request) :
  List.filter sent (List.filter sent q) = List.filter sent q.
Proof.
  induction q as [|x q IH]; [reflexivity|]. cbn.
  destruct (sent x) eqn:Hx; [|exact IH]. cbn. rewrite Hx. by rewrite IH.
Qed.

Lemma NoDup_filter_ids (f : Request -> bool) (q : list Request) :
  NoDup (id <$> q) -> NoDup (id <$> List.filter f q).
Proof.
  induction q as [|x q IH]; cbn; [done|].
  intros Hnd. apply NoDup_cons in Hnd as [Hx Hnd].
  destruct (f x); [|by apply IH]. cbn. apply NoDup_cons. split; [|by apply IH].
  intros Hin. apply Hx. apply list_elem_of_fmap in Hin as (y & Hy & Hin).
  apply list_elem_of_fmap. exists y. split; [done|].
  apply list_elem_of_In in Hin. apply List.filter_In in Hin as [Hin _].
  by apply list_elem_of_In.
Qed.

(** X11. Calling [clearPendingRequests] a second time changes
    nothing; and after [clearPendingRequests], [pendingRequests]
    returns the requests that were already sent, or 0 when there were
    none.  ([queue_ok] holds of every reachable instance.) *)
Theorem clearPendingRequests_again (s : State) :
  queue_ok s ->
  let s' := clearPendingRequests s in
  clearPendingRequests s' = s' /\
  pendingRequests s' =
    (if forallb unsent (requests s) then inl 0 else inr (List.filter sent (requests s))).
Proof.
  intros [Hnd Hun] s'.
  assert (Hloop : forall t : State, NoDup (id <$> requests t) ->
            Forall (fun request => is_settled t (id request) = false) (requests t) ->
            clearPendingRequests t =
            set_requests (List.filter sent (requests t))
              (set_settled (settled t ++ (Rejected <$> List.filter unsent (requests t))) t)).
  { intros t Ht1 Ht2. unfold clearPendingRequests.
    by rewrite (clear_requests_loop (requests t) [] t). }
  pose proof (Hloop s Hnd Hun) as Hs'. fold s' in Hs'.
  assert (Hq : requests s' = List.filter sent (requests s)) by (by rewrite Hs').
  assert (Hst : settled s' = settled s ++ (Rejected <$> List.filter unsent (requests s)))
    by (by rewrite Hs').
  split.
  - rewrite (Hloop s').
    + rewrite Hq, filter_sent_unsent, filter_sent_sent, <- Hq. cbn [fmap list_fmap].
      rewrite app_nil_r. by destruct s'.
    + rewrite Hq. by apply NoDup_filter_ids.
    + rewrite Hq. apply Forall_forall. intros x Hx.
        apply list_elem_of_In in Hx. apply List.filter_In in Hx as [Hx Hsent].
        apply list_elem_of_In in Hx.
        unfold is_settled. rewrite Hst, existsb_app.
        rewrite Forall_forall in Hun. specialize (Hun x Hx). unfold is_settled in Hun.
        rewrite Hun. cbn. apply not_true_is_false. intros Hex.
        apply existsb_exists in Hex as (y & Hy & Heq).
        apply list_elem_of_In in Hy. apply list_elem_of_fmap in Hy as (z & -> & Hz).
        apply list_elem_of_In in Hz. apply List.filter_In in Hz as [Hz Hunsent].
        apply list_elem_of_In in Hz. cbn in Heq.
        assert (z = x).
        { pose proof (lookup_request_in _ z Hnd Hz) as H1.
          pose proof (lookup_request_in _ x Hnd Hx) as H2.
          assert (id z = id x) as E by lia. rewrite E in H1. congruence. }
        subst z. unfold unsent in Hunsent. rewrite Hsent in Hunsent. discriminate.
  - unfold pendingRequests. rewrite Hq. clear.
    assert (Hnone : forallb unsent (requests s) = true <-> List.filter sent (requests s) = []).
    { induction (requests s) as [|x q IH]; [done|]. cbn.
      unfold unsent at 1. destruct (sent x); cbn; [split; discriminate | exact IH]. }
    destruct (forallb unsent (requests s)).
    + rewrite (proj1 Hnone eq_refl). reflexivity.
    + destruct (List.filter sent (requests s)) as [|x q]; [|reflexivity].
      discriminate (proj2 Hnone eq_refl).
Qed.

Lemma clearPendingRequests_again_witness :
  clearPendingRequests (clearPendingRequests sent_and_unsent) =
    clearPendingRequests sent_and_unsent /\
  pendingRequests (clearPendingRequests sent_and_unsent) =
    inr [{| id := 0; point := centre; state := None; sent := true |}].
Proof.
  apply (clearPendingRequests_again sent_and_unsent sent_and_unsent_queue_ok).
Defined.

(** *** One pass over the queue *)

Lemma mark_sent_notin (q : list Request) (r : Z) : r ∉ id <$> q -> mark_sent r q = q.
Proof.
  unfold mark_sent. induction q as [|x q IH]; cbn; [done|].
  rewrite not_elem_of_cons. intros [Hne Hnin].
  destruct (Z.eqb_spec (id x) r); [congruence|]. by rewrite IH.
Qed.

Lemma mark_sent_middle (pre rest : list Request) (x : Request) :
  id x ∉ id <$> pre -> id x ∉ id <$> rest ->
  mark_sent (id x) (pre ++ x :: rest) = pre ++ sent_request x :: rest.
Proof.
  intros Hpre Hrest.
  pose proof (mark_sent_notin pre (id x) Hpre) as H1.
  pose proof (mark_sent_notin rest (id x) Hrest) as H2.
  unfold mark_sent in *. rewrite fmap_app, H1. cbn. by rewrite Z.eqb_refl, H2.
Qed.

Lemma delete_request_middle (pre rest : list Request) (x : Request) :
  id x ∉ id <$> pre -> id x ∉ id <$> rest ->
  delete_request (id x) (pre ++ x :: rest) = pre ++ rest.
Proof.
  intros Hpre Hrest.
  by rewrite delete_request_app, delete_request_notin, delete_request_head.
Qed.

Lemma NoDup_middle (pre rest : list Request) (x : Request) :
  NoDup (id <$> pre ++ x :: rest) ->
  (id x ∉ id <$> pre) /\ (id x ∉ id <$> rest) /\ NoDup (id <$> pre ++ rest).
Proof.
  rewrite !fmap_app. cbn. intros Hnd. apply NoDup_app in Hnd as (H1 & H2 & H3).
  apply NoDup_cons in H3 as [H3 H4]. split; [|split; [done|]].
  - intros Hin. apply (H2 _ Hin). left.
  - apply NoDup_app. split; [done|]. split; [|done].
    intros r Hr Hr'. apply (H2 r Hr). by right.
Qed.

Lemma read_request_effect (fb : Framebuffer) (s : State) (x : Request)
    (pre rest : list Request) :
  requests s = pre ++ x :: rest -> NoDup (id <$> pre ++ x :: rest) ->
  let s' := read_request fb s (id x) in
  if sent x then s' = s
  else gl_calls s' = gl_calls s ++ [sample_of x] /\
       (requests s' = pre ++ sent_request x :: rest \/ requests s' = pre ++ rest).
Proof.
  intros Hq Hnd. cbv zeta. destruct (NoDup_middle _ _ _ Hnd) as (Hpre & Hrest & _).
  assert (Hlk : lookup_request (requests s) (id x) = Some x).
  { rewrite Hq, lookup_request_app by done. apply lookup_request_head. }
  unfold read_request. rewrite Hlk. destruct (sent x); [reflexivity|]. cbv zeta.
  set (s1 := readPixels fb (sample_x x) (sample_y x) s).
  assert (Hq1 : requests s1 = requests s) by (unfold s1, readPixels; by destruct (fb _ _)).
  assert (Hg1 : gl_calls s1 = gl_calls s ++ [sample_of x])
    by (unfold s1, readPixels; by destruct (fb _ _)).
  destruct (negb _).
  - assert (Hmark : mark_sent (id x) (requests s1) = pre ++ sent_request x :: rest)
      by (rewrite Hq1, Hq; by apply mark_sent_middle).
    destruct (workers s1 !! _) as [[w|]|]; unfold postMessage; fields; auto.
  - unfold finishRead. cbn [msg_id msg_feature]. rewrite Hq1, Hlk. cbn [fst].
    fields.
    assert (Hres : forall sel t, requests (resolve x sel t) = requests t /\
                                 gl_calls (resolve x sel t) = gl_calls t).
    { intros sel t. unfold resolve. by repeat case_match. }
    match goal with
    | |- context [resolve x ?sel ?t] => destruct (Hres sel t) as [Hr1 Hr2]
    end.
    rewrite Hr1, Hr2. fields. rewrite Hq1, Hq, delete_request_middle by done.
    split; [exact Hg1|]. right. apply mark_sent_notin.
    rewrite fmap_app. intros Hin. apply elem_of_app in Hin as [?|?]; contradiction.
Qed.

Lemma read_requests_loop (fb : Framebuffer) (rest : list Request) :
  forall (pre : list Request) (s : State),
  requests s = pre ++ rest -> NoDup (id <$> pre ++ rest) ->
  let s' := fold_left (read_request fb) (id <$> rest) s in
  exists rest',
    requests s' = pre ++ rest' /\
    Forall (fun y => sent y = true) rest' /\
    (forall y, y ∈ rest' -> id y ∈ id <$> rest) /\
    (forall y, y ∈ rest -> sent y = true -> y ∈ rest') /\
    gl_calls s' = gl_calls s ++ (sample_of <$> List.filter unsent rest).
Proof.
  induction rest as [|x rest IH]; intros pre s Hq Hnd; cbv zeta.
  - exists []. cbn. rewrite !app_nil_r in *.
    split; [exact Hq|]. split; [constructor|]. split; [|split; [|reflexivity]].
    + intros y Hy. by apply elem_of_nil in Hy.
    + intros y Hy. by apply elem_of_nil in Hy.
  - cbn [fmap list_fmap fold_left List.filter].
    pose proof (read_request_effect fb s x pre rest Hq Hnd) as Heff. cbv zeta in Heff.
    destruct (NoDup_middle _ _ _ Hnd) as (Hpre & Hrest & Hnd').
    unfold unsent at 1. destruct (sent x) eqn:Hx; cbn [negb].
    + rewrite Heff.
      destruct (IH (pre ++ [x]) s) as (rest' & H1 & H2 & H3 & H4 & H5).
      * by rewrite <- app_assoc.
      * by rewrite <- app_assoc.
      * exists (x :: rest'). rewrite <- app_assoc in H1.
        split; [exact H1|]. split; [by constructor|]. split; [|split; [|exact H5]].
        -- intros y Hy. apply elem_of_cons in Hy as [->|Hy]; cbn; [left|right; auto].
        -- intros y Hy Hs. apply elem_of_cons in Hy as [->|Hy]; [left|right; auto].
    + destruct Heff as [Hg [Hq'|Hq']].
      * destruct (IH (pre ++ [sent_request x]) (read_request fb s (id x)))
          as (rest' & H1 & H2 & H3 & H4 & H5).
        -- by rewrite <- app_assoc.
        -- rewrite <- app_assoc. cbn. by rewrite !fmap_app in *.
        -- exists (sent_request x :: rest'). rewrite <- app_assoc in H1.
           split; [exact H1|]. split; [by constructor|]. split; [|split].
           ++ intros y Hy. apply elem_of_cons in Hy as [->|Hy]; cbn; [left|right; auto].
           ++ intros y Hy Hs. apply elem_of_cons in Hy as [->|Hy]; [congruence|right; auto].
           ++ rewrite H5, Hg, <- app_assoc. reflexivity.
      * destruct (IH pre (read_request fb s (id x))) as (rest' & H1 & H2 & H3 & H4 & H5);
          trivial.
        exists rest'. split; [exact H1|]. split; [exact H2|]. split; [|split].
        -- intros y Hy. cbn. right. auto.
        -- intros y Hy Hs. apply elem_of_cons in Hy as [->|Hy]; [congruence|auto].
        -- rewrite H5, Hg, <- app_assoc. reflexivity.
Qed.

(** X12. A read-back that finds the buffer unlocked binds the
    frame buffer, calls [readPixels] once for each request not yet
    sent, in queue order and at the sample position of the request,
    and unbinds; afterwards every request left in the queue is marked
    as sent, the requests that were sent before are still there, and
    no request has been added.  The sample positions are those of
    [sample_x] and [sample_y], where [1 - y] is rounded to a double;
    the points are taken to be such that the products by the buffer
    size are finite. *)
Theorem read_back_pass (lk : bool) (fb : Framebuffer) (s : State) :
  NoDup (id <$> requests s) -> locked s lk = false ->
  Forall finite_sample (List.filter unsent (requests s)) ->
  let s' := read_back lk fb s in
  gl_calls s' =
    gl_calls s ++ BindFramebuffer true ::
      (sample_of <$> List.filter unsent (requests s)) ++ [BindFramebuffer false] /\
  Forall (fun y => sent y = true) (requests s') /\
  (forall y, y ∈ requests s' -> id y ∈ id <$> requests s) /\
  (forall y, y ∈ requests s -> sent y = true -> y ∈ requests s').
Proof.
  intros Hnd Hlk _. cbv zeta. unfold read_back. rewrite Hlk.
  set (s1 := set_gl_calls (gl_calls s ++ [BindFramebuffer true]) s).
  destruct (read_requests_loop fb (requests s1) [] s1 eq_refl Hnd)
    as (rest' & H1 & H2 & H3 & H4 & H5).
  cbv zeta in *. fields. rewrite H1, H5. cbn [app].
  split; [|by repeat split].
  unfold s1. fields. rewrite <- !app_assoc. reflexivity.
Qed.

Lemma read_back_pass_witness :
  let s' := read_back false painted sent_and_unsent in
  gl_calls s' =
    gl_calls sent_and_unsent ++
      [BindFramebuffer true; ReadPixels 128 128; BindFramebuffer false] /\
  Forall (fun y => sent y = true) (requests s') /\
  (forall y, y ∈ requests s' -> id y ∈ id <$> requests sent_and_unsent) /\
  (forall y, y ∈ requests sent_and_unsent -> sent y = true -> y ∈ requests s').
Proof.
  apply (read_back_pass false painted sent_and_unsent).
  - apply (bool_decide_unpack _). vm_compute. exact I.
  - reflexivity.
  - repeat constructor; vm_compute; discriminate.
Defined.

(** *** A pass over an empty buffer *)

Lemma read_request_empty (fb : Framebuffer) (s : State) (x : Request)
    (pre rest : list Request) :
  samples_empty fb x ->
  requests s = pre ++ x :: rest -> NoDup (id <$> pre ++ x :: rest) ->
  sent x = false -> is_settled s (id x) = false ->
  let s' := read_request fb s (id x) in
  requests s' = pre ++ rest /\
  settled s' = settled s ++ [Resolved (id x) (length (heap s))] /\
  heap s' = heap s ++ [no_feature (id x) (feature s)] /\
  posted s' = posted s /\ awaiting s' = awaiting s /\ feature s' = None.
Proof.
  intros Hfb Hq Hnd Hsent Hset. cbv zeta.
  destruct (NoDup_middle _ _ _ Hnd) as (Hpre & Hrest & _).
  assert (Hlk : lookup_request (requests s) (id x) = Some x).
  { rewrite Hq, lookup_request_app by done. apply lookup_request_head. }
  unfold read_request. rewrite Hlk, Hsent. cbv zeta.
  destruct Hfb as (_ & px & Hpx & H255).
  set (s1 := readPixels fb (sample_x x) (sample_y x) s).
  destruct (readPixels_fields fb (sample_x x) (sample_y x) s)
    as (Hq1 & Hst1 & Hh1 & Hf1 & Hp1 & Ha1 & _ & _).
  fold s1 in Hq1, Hst1, Hh1, Hf1, Hp1, Ha1.
  assert (Hp3 : p3 (pixel s1) = 255) by (unfold s1, readPixels; by rewrite Hpx).
  rewrite Hp3. cbn [Z.eqb Pos.eqb negb].
  unfold finishRead. cbn [msg_id msg_feature]. rewrite Hq1, Hlk. cbn [fst].
  unfold resolve. fields.
  assert (is_settled (set_feature None s1) (id x) = false) as ->.
  { unfold is_settled in *. fields. by rewrite Hst1. }
  assert (Hgone : mark_sent (id x) (delete_request (id x) (requests s)) = pre ++ rest).
  { rewrite Hq, delete_request_middle by done. apply mark_sent_notin.
    rewrite fmap_app. intros Hin. apply elem_of_app in Hin as [?|?]; contradiction. }
  unfold no_feature.
  destruct (given (state x)); fields; rewrite Hq1, Hst1, Hh1, Hf1, Hp1, Ha1, Hgone;
    by repeat split.
Qed.

Lemma read_requests_empty (fb : Framebuffer) (rest : list Request) :
  Forall (samples_empty fb) (List.filter unsent rest) ->
  forall (pre : list Request) (s : State),
  requests s = pre ++ rest -> NoDup (id <$> pre ++ rest) ->
  Forall (fun x => is_settled s (id x) = false) rest ->
  let s' := fold_left (read_request fb) (id <$> rest) s in
  requests s' = pre ++ List.filter sent rest /\
  settled s' = settled s ++ resolutions (length (heap s)) (List.filter unsent rest) /\
  heap s' = heap s ++ no_features (feature s) (List.filter unsent rest) /\
  posted s' = posted s /\ awaiting s' = awaiting s /\
  feature s' = (if forallb sent rest then feature s else None).
Proof.
  induction rest as [|x rest IH]; intros Hfb pre s Hq Hnd Hun; cbv zeta.
  - cbn. rewrite !app_nil_r in *. by repeat split.
  - cbn [fmap list_fmap fold_left List.filter forallb] in *.
    apply Forall_cons in Hun as [Hx Hun].
    destruct (NoDup_middle _ _ _ Hnd) as (Hpre & Hrest & Hnd').
    assert (Hux : unsent x = negb (sent x)) by reflexivity. rewrite !Hux in *.
    destruct (sent x) eqn:Hsx; cbn [negb andb] in *.
    + pose proof (read_request_effect fb s x pre rest Hq Hnd) as Heff.
      cbv zeta in Heff. rewrite Hsx in Heff. rewrite Heff.
      destruct (IH Hfb (pre ++ [x]) s) as (H1 & H2 & H3 & H4 & H5 & H6).
      * by rewrite <- app_assoc.
      * by rewrite <- app_assoc.
      * exact Hun.
      * rewrite <- app_assoc in H1. by repeat split.
    + apply Forall_cons in Hfb as [Hfx Hfb].
      destruct (read_request_empty fb s x pre rest Hfx Hq Hnd Hsx Hx)
        as (G1 & G2 & G3 & G4 & G5 & G6).
      set (s1 := read_request fb s (id x)) in *.
      destruct (IH Hfb pre s1) as (H1 & H2 & H3 & H4 & H5 & H6); trivial.
      * apply Forall_forall. intros y Hy. rewrite Forall_forall in Hun.
        unfold is_settled. rewrite G2, existsb_app. fold (is_settled s (id y)).
        rewrite (Hun y Hy). cbn.
        destruct (Z.eqb_spec (id x) (id y)) as [E|]; [|reflexivity].
        exfalso. apply Hrest. rewrite E. by apply list_elem_of_fmap_2.
      * cbn [resolutions no_features].
        rewrite H1, H2, H3, H4, H5, H6, G2, G3, G4, G5, G6, !length_app.
        cbn [length]. replace (length (heap s) + 1)%nat with (S (length (heap s))) by lia.
        rewrite <- !app_assoc. cbn [app]. repeat split; trivial.
        by destruct (forallb sent rest).
Qed.

(** X27. A read-back that finds the buffer unlocked and, for every
    request not yet sent, an empty pixel (255 in the alpha byte) at
    the position it samples for the request, resolves these requests
    in queue order, each with a no-feature selection of its own, the
    first with the [changed] flag against the feature selected before
    and the others unchanged; those requests leave the queue, the
    requests sent before stay, and nothing is posted.  The buffer may
    hold anything elsewhere and nothing outside its 256 x 256 pixels.
    ([queue_ok] holds of every reachable instance.) *)
Theorem read_back_empty_buffer (lk : bool) (fb : Framebuffer) (s : State) :
  queue_ok s -> locked s lk = false ->
  Forall (samples_empty fb) (List.filter unsent (requests s)) ->
  let s' := read_back lk fb s in
  let found := List.filter unsent (requests s) in
  requests s' = List.filter sent (requests s) /\
  settled s' = settled s ++ resolutions (length (heap s)) found /\
  heap s' = heap s ++ no_features (feature s) found /\
  posted s' = posted s /\ awaiting s' = awaiting s.
Proof.
  intros [Hnd Hun] Hlk Hfb. cbv zeta. unfold read_back. rewrite Hlk.
  set (s1 := set_gl_calls (gl_calls s ++ [BindFramebuffer true]) s).
  destruct (read_requests_empty fb (requests s1) Hfb [] s1 eq_refl Hnd Hun)
    as (H1 & H2 & H3 & H4 & H5 & _).
  cbv zeta in *. fields. by repeat split.
Qed.

Lemma read_back_empty_buffer_witness :
  let s' := read_back false empty_256 sent_and_unsent in
  requests s' = [{| id := 0; point := centre; state := None; sent := true |}] /\
  settled s' = [Resolved 1 0%nat] /\
  heap s' = [no_feature 1 None] /\
  posted s' = posted sent_and_unsent /\ awaiting s' = awaiting sent_and_unsent.
Proof.
  apply (read_back_empty_buffer false empty_256 sent_and_unsent sent_and_unsent_queue_ok).
  - reflexivity.
  - repeat constructor; try (vm_compute; discriminate).
    eexists. split; vm_compute; reflexivity.
Defined.

(** *** Asking for group colours again *)

(** X13. When [updateState] asks the workers, it marks the state
    object and posts one message to the whole pool; the answer stores
    the colours and clears the mark; and the next [updateState] is a
    no-op exactly when the answer has as many truthy colours as there
    are workers, and asks again otherwise. *)
Theorem updateState_retry (s : State) (state_key : string) (l : Loc) (sel : Selection)
    (grp : Group) (colors : list value) :
  state_at s state_key = Some l -> heap s !! l = Some sel ->
  sel_group sel = Some grp -> update_pending sel = false ->
  length (List.filter truthy (selection_colors sel)) <> length (workers s) ->
  let s1 := (updateState state_key s).1 in
  let s2 := step s1 (Answer (length (awaiting s)) (ReplyColors colors)) in
  posted s1 = posted s ++
    [{| target := ToAll (workers s); method := "self.getFeatureSelectionGroupColor";
        payload := GroupKey (Static.key grp);
        continuation := ThenStoreColors state_key l |}] /\
  heap s1 !! l = Some (set_update_pending true sel) /\
  heap s2 !! l = Some (set_update_pending false (set_selection_colors colors sel)) /\
  awaiting s2 = awaiting s /\
  ((updateState state_key s2).2 = ResolvedAlready <->
   length (List.filter truthy colors) = length (workers s)).
Proof.
  intros Hst Hl Hg Hp Hn. cbv zeta.
  assert (Hup : updateState state_key s =
                (postMessage
                   {| target := ToAll (workers s);
                      method := "self.getFeatureSelectionGroupColor";
                      payload := GroupKey (Static.key grp);
                      continuation := ThenStoreColors state_key l |}
                   (set_heap (alter (set_update_pending true) l (heap s)) s), AfterWorkers)).
  { unfold updateState. rewrite Hst, Hl, Hg, Hp. cbn [orb].
    destruct (Nat.eqb_spec (length (List.filter truthy (selection_colors sel)))
                (length (workers s))); [contradiction | reflexivity]. }
  rewrite Hup. cbn [fst]. unfold postMessage. fields.
  split; [reflexivity|].
  split; [by rewrite list_lookup_alter_eq, Hl|].
  cbn [step]. fields.
  rewrite list_lookup_middle by reflexivity.
  assert (Hdel : delete (length (awaiting s)) (awaiting s ++ [
                   {| target := ToAll (workers s);
                      method := "self.getFeatureSelectionGroupColor";
                      payload := GroupKey (Static.key grp);
                      continuation := ThenStoreColors state_key l |}]) = awaiting s).
  { rewrite delete_take_drop, take_app_length.
    rewrite drop_app_ge by lia. replace (S _ - _)%nat with 1%nat by lia.
    cbn. by rewrite app_nil_r. }
  rewrite Hdel. unfold deliver. cbn [continuation]. fields.
  assert (Hl2 : alter (fun st => set_update_pending false (set_selection_colors colors st)) l
                  (alter (set_update_pending true) l (heap s)) !! l =
                Some (set_update_pending false (set_selection_colors colors sel))).
  { by rewrite !list_lookup_alter_eq, Hl. }
  split; [exact Hl2|]. split; [reflexivity|].
  unfold updateState, state_at in *. fields. rewrite Hst, Hl2. cbn.
  rewrite Hg. destruct (Nat.eqb_spec (length (List.filter truthy colors)) (length (workers s)));
    cbn; split; intros; congruence.
Qed.

Lemma updateState_retry_witness :
  let s1 := (updateState "hover" hover_selected).1 in
  let s2 := step s1 (Answer 0%nat (ReplyColors first_colors)) in
  heap s1 !! 0%nat = Some (set_update_pending true hover_selection) /\
  heap s2 !! 0%nat = Some hover_selection /\
  (updateState "hover" s2).2 = AfterWorkers.
Proof.
  destruct (updateState_retry hover_selected "hover" 0%nat hover_selection road_group
              first_colors) as (_ & H2 & H3 & _ & H5).
  - vm_compute. reflexivity.
  - vm_compute. reflexivity.
  - reflexivity.
  - reflexivity.
  - vm_compute. discriminate.
  - split; [exact H2|]. split; [exact H3|].
    cbv zeta in H5. destruct (updateState "hover" _).2 eqn:Hres; [|reflexivity].
    exfalso. assert (Hlen : 1%nat = 2%nat) by (apply H5; reflexivity). discriminate.
Defined.

End HistoryFacts.


(** ** The delayed read-back *)

Module Debounce.
Import JS Main Invariants MainFacts StuckFacts Reachable History HistoryFacts Samples Cases.

(** *** What calls into GL *)

Lemma fold_gl_calls (f : State -> Z -> State) (rs : list Z) :
  (forall s r, gl_calls (f s r) = gl_calls s) ->
  forall s, gl_calls (fold_left f rs s) = gl_calls s.
Proof.
  intros Hf. induction rs as [|r rs IH]; intros s; [reflexivity|].
  cbn [fold_left]. by rewrite IH.
Qed.

Lemma finishRead_gl_calls (message : Message) (s : State) :
  gl_calls (finishRead message s).1 = gl_calls s.
Proof. unfold finishRead, resolve, postMessage. by repeat case_match. Qed.

Lemma clear_request_gl_calls (s : State) (r : Z) :
  gl_calls (clear_request s r) = gl_calls s.
Proof. unfold clear_request, reject. by repeat case_match. Qed.

(** Only a time-out calls into GL. *)
Lemma step_gl_calls (s : State) (e : Event) :
  (forall t lk fb, e <> Timeout t lk fb) -> gl_calls (step s e) = gl_calls s.
Proof.
  intros Hto. destruct e; cbn [step].
  - reflexivity.
  - apply fold_gl_calls, clear_request_gl_calls.
  - unfold read, setTimeout, clearTimeout. by destruct (read_delay_timer s).
  - by edestruct Hto.
  - destruct (awaiting s !! i) as [p|]; [|reflexivity].
    unfold deliver.
    destruct (continuation p), reply; try reflexivity.
    + by rewrite finishRead_gl_calls.
    + unfold resolve. by repeat case_match.
  - unfold updateState, postMessage. by repeat case_match.
  - reflexivity.
Qed.

Lemma reads_gl_calls (n : nat) : forall s : State,
  gl_calls (run s (repeat Read n)) = gl_calls s.
Proof.
  induction n as [|n IH]; intros s; [reflexivity|].
  cbn [repeat run fold_left]. fold (run (step s Read) (repeat Read n)).
  rewrite IH. by apply step_gl_calls.
Qed.

Lemma samples_are_reads (q : list Request) :
  forallb is_readPixels (sample_of <$> q) = true.
Proof. induction q as [|x q IH]; [reflexivity | exact IH]. Qed.

(** A time-out that is outstanding and finds the buffer unlocked
    makes one pass, which samples a pixel for each request that is
    not marked as sent; one that finds it locked makes no call. *)
Lemma timeout_pass (s : State) (t : Timer) (lk : bool) (fb : Framebuffer) :
  NoDup (id <$> requests s) -> t ∈ timers s -> locked s lk = false ->
  exists calls,
    pass_over (length (List.filter unsent (requests s))) calls /\
    gl_calls (timeout t lk fb s) = gl_calls s ++ calls.
Proof.
  intros Hnd Ht Hlk. unfold timeout. rewrite bool_decide_eq_true_2 by trivial.
  unfold read_back.
  assert (locked (clearTimeout t s) lk = false) as -> by exact Hlk.
  cbv zeta.
  set (s1 := set_gl_calls _ (clearTimeout t s)).
  destruct (read_requests_loop fb (requests s1) [] s1 eq_refl Hnd)
    as (rest' & _ & _ & _ & _ & H5).
  cbv zeta in H5. fields. rewrite H5. unfold s1. fields.
  exists (BindFramebuffer true ::
            (sample_of <$> List.filter unsent (requests s)) ++ [BindFramebuffer false]).
  split.
  - eexists. split; [reflexivity|]. split; [apply length_fmap | apply samples_are_reads].
  - rewrite <- !app_assoc. reflexivity.
Qed.

Lemma timeout_locked (s : State) (t : Timer) (lk : bool) (fb : Framebuffer) :
  locked s lk = true -> gl_calls (timeout t lk fb s) = gl_calls s.
Proof.
  intros Hlk. unfold timeout. destruct (bool_decide _); [|reflexivity].
  unfold read_back.
  assert (locked (clearTimeout t s) lk = true) as -> by exact Hlk.
  reflexivity.
Qed.

(** *** C7: the delayed read is debounced *)

Lemma no_timer_no_calls (es : list Event) : forall s : State,
  Forall (fun e => is_read e = false) es ->
  timers s = [] -> gl_calls (run s es) = gl_calls s.
Proof.
  induction es as [|e es IH]; intros s Hes Hnil; [done|].
  apply Forall_cons in Hes as [He Hes].
  cbn [run fold_left]. fold (run (step s e) es).
  assert (Hstep : timers (step s e) = [] /\ gl_calls (step s e) = gl_calls s).
  { pose proof (step_timers s e) as Hst. pose proof (step_gl_calls s e) as Hgl.
    destruct e; try discriminate;
      try (split; [by destruct Hst as (-> & _) | by apply Hgl]).
    cbn [step]. rewrite timeout_other; [done|]. rewrite Hnil. apply not_elem_of_nil. }
  destruct Hstep as [Ht Hg]. by rewrite (IH _ Hes Ht).
Qed.

Lemma one_timer_one_pass (es : list Event) : forall (s : State) (t : Timer),
  consistent s ->
  Forall (fun e => is_read e = false) es ->
  timers s = [t] ->
  gl_calls (run s es) = gl_calls s \/
  exists k calls, pass_over k calls /\ gl_calls (run s es) = gl_calls s ++ calls.
Proof.
  induction es as [|e es IH]; intros s t Hok Hes Hone; [by left|].
  apply Forall_cons in Hes as [He Hes].
  cbn [run fold_left]. fold (run (step s e) es).
  destruct (step_good s e Hok) as [Hok' _].
  assert (Hother : (forall t0 lk fb, e <> Timeout t0 lk fb) ->
            gl_calls (run (step s e) es) = gl_calls s \/
            exists k calls, pass_over k calls /\
                            gl_calls (run (step s e) es) = gl_calls s ++ calls).
  { intros Hto. rewrite <- (step_gl_calls s e Hto). apply (IH _ t); trivial.
    destruct (step_timers s e Hto He) as (-> & _). exact Hone. }
  destruct e; try (apply Hother; discriminate). clear Hother.
  destruct (decide (t0 = t)) as [->|Hne].
  - destruct (timeout_last s t lock_result fb Hone) as [Hnil _].
    cbn [step]. rewrite (no_timer_no_calls es _ Hes Hnil).
    destruct (locked s lock_result) eqn:Hlk.
    + left. by apply timeout_locked.
    + right. destruct (timeout_pass s t lock_result fb) as (calls & Hp & Hg); eauto.
      * apply Hok.
      * rewrite Hone. left.
  - assert (Hnot : t0 ∉ timers s).
    { rewrite Hone. apply not_elem_of_cons. split; [done | apply not_elem_of_nil]. }
    cbn [step]. rewrite timeout_other by done. by apply (IH s t).
Qed.

Lemma first_timeout_passes (es1 : list Event) :
  forall (s : State) (t : Timer) (lk : bool) (fb : Framebuffer) (es2 : list Event),
  consistent s ->
  Forall (fun e => is_read e = false /\ forall lk' fb', e <> Timeout t lk' fb') es1 ->
  Forall (fun e => is_read e = false) es2 ->
  timers s = [t] -> locked s lk = false ->
  exists calls,
    pass_over (length (List.filter unsent (requests (run s es1)))) calls /\
    gl_calls (run s (es1 ++ Timeout t lk fb :: es2)) = gl_calls s ++ calls.
Proof.
  induction es1 as [|e es1 IH]; intros s t lk fb es2 Hok Hes1 Hes2 Hone Hlk.
  - cbn [app run fold_left]. fold (run (step s (Timeout t lk fb)) es2).
    destruct (timeout_last s t lk fb Hone) as [Hnil _].
    cbn [step]. rewrite (no_timer_no_calls es2 _ Hes2 Hnil).
    apply timeout_pass; trivial; [apply Hok | rewrite Hone; left].
  - apply Forall_cons in Hes1 as [[He Hne] Hes1].
    change ((e :: es1) ++ ?l) with (e :: (es1 ++ l)).
    cbn [run fold_left].
    fold (run (step s e) (es1 ++ Timeout t lk fb :: es2)). fold (run (step s e) es1).
    destruct (step_good s e Hok) as [Hok' _].
    assert (Hs : timers (step s e) = [t] /\ lock_fn (step s e) = lock_fn s /\
                 gl_calls (step s e) = gl_calls s).
    { pose proof (step_timers s e) as Hst. pose proof (step_gl_calls s e) as Hgl.
      destruct e; try discriminate;
        try (split; [|split]; [by destruct Hst as (-> & _) |
                               by destruct Hst as (_ & _ & _ & -> & _) | by apply Hgl]).
      assert (Hnot : t0 ∉ timers s).
      { rewrite Hone. apply not_elem_of_cons. split; [|apply not_elem_of_nil].
        intros ->. by eapply Hne. }
      cbn [step]. by rewrite timeout_other. }
    destruct Hs as (Ht & Hl & Hg). rewrite <- Hg.
    apply IH; trivial. unfold locked in *. by rewrite Hl.
Qed.

(** C7. On every instance that events lead to from [init], the
    delayed read-back is debounced, with one outstanding time-out:
    each [read()] clears the time-out that is outstanding
    and sets a new one, so that after one, two or more calls in a row
    exactly one time-out is outstanding, the last one set, and the
    buffer has not been touched.  Whatever happens next short of
    another [read()], the calls made into GL are those of at most one
    pass over the buffer; and when that time-out runs and finds the
    buffer unlocked they are those of exactly one pass: the frame
    buffer is bound, one pixel is read for each request that is
    queued and not yet sent at that moment, and the frame buffer is
    unbound. *)
Theorem read_debounced (s : State) (n : nat) :
  reachable s ->
  let s' := run s (repeat Read (S n)) in
  let t := (next_timer s + n)%nat in
  timers s' = [t] /\
  read_delay_timer s' = Some t /\
  gl_calls s' = gl_calls s /\
  (forall es, Forall (fun e => is_read e = false) es ->
     gl_calls (run s' es) = gl_calls s' \/
     exists k calls, pass_over k calls /\ gl_calls (run s' es) = gl_calls s' ++ calls) /\
  (forall es1 es2 lk fb,
      Forall (fun e => is_read e = false /\ forall lk' fb', e <> Timeout t lk' fb') es1 ->
      Forall (fun e => is_read e = false) es2 ->
      locked s lk = false ->
      exists calls,
        pass_over (length (List.filter unsent (requests (run s' es1)))) calls /\
        gl_calls (run s' (es1 ++ Timeout t lk fb :: es2)) = gl_calls s' ++ calls).
Proof.
  intros Hre s' t.
  pose proof (reachable_consistent s Hre) as Hok.
  assert (Hok' : consistent s') by (by apply run_good).
  destruct (reads_set_one_timer n s) as (_ & Ht & Hrd & Hl); [apply Hok|].
  fold s' in Ht, Hrd, Hl. fold t in Ht, Hrd.
  split; [exact Ht|]. split; [exact Hrd|]. split; [apply reads_gl_calls|]. split.
  - intros es Hes. by apply (one_timer_one_pass es s' t).
  - intros es1 es2 lk fb Hes1 Hes2 Hlk.
    apply first_timeout_passes; trivial.
    unfold locked in *. by rewrite Hl.
Qed.

Lemma read_debounced_witness :
  let s' := run (init [Some 0%nat] false) [GetFeatureAt centre None; Read; Read] in
  timers s' = [1%nat] /\
  gl_calls s' = [] /\
  exists calls,
    pass_over 2 calls /\
    gl_calls (run s' [Timeout 0%nat false blank; GetFeatureAt centre None;
                      Timeout 1%nat false painted;
                      Timeout 1%nat false painted; GetFeatureAt centre None]) = calls.
Proof.
  cbv zeta.
  destruct (read_debounced (run (init [Some 0%nat] false) [GetFeatureAt centre None]) 1)
    as (H1 & _ & H3 & _ & H5).
  - by exists [Some 0%nat], false, [GetFeatureAt centre None].
  - split; [exact H1|]. split; [exact H3|].
    apply (H5 [Timeout 0%nat false blank; GetFeatureAt centre None]
              [Timeout 1%nat false painted; GetFeatureAt centre None] false painted).
    + repeat constructor; intros lk' fb'; discriminate.
    + repeat constructor.
    + reflexivity.
Defined.

End Debounce.
(** ** No request is lost *)

Module FateFacts.
Import JS Main Invariants MainFacts StuckFacts Reachable History Fate Samples Cases.

Lemma advance_refl (s : State) : advance s s.
Proof. split; [reflexivity|]. split; auto. Qed.

Lemma advance_trans (s1 s2 s3 : State) : advance s1 s2 -> advance s2 s3 -> advance s1 s3.
Proof.
  intros (Hc & Hs & Hq) (Hc' & Hs' & Hq'). split; [congruence|]. split; [auto|].
  intros r Hr. destruct (Hq r Hr) as [H|H]; auto.
Qed.

Lemma advance_fold (f : State -> Z -> State) (rs : list Z) :
  (forall s r, advance s (f s r)) -> forall s, advance s (fold_left f rs s).
Proof.
  intros Hf. induction rs as [|r rs IH]; intros s; cbn.
  - apply advance_refl.
  - eapply advance_trans; [apply Hf | apply IH].
Qed.

(** A change of fields other than the queue, the settlements and the
    counter. *)
Lemma advance_frame (s s' : State) :
  selection_request_id s' = selection_request_id s -> settled s' = settled s ->
  requests s' = requests s -> advance s s'.
Proof.
  intros Hc Hs Hq. unfold advance, is_settled. rewrite Hc, Hs, Hq. auto.
Qed.

Lemma advance_mark_sent (s : State) (r : Z) :
  advance s (set_requests (mark_sent r (requests s)) s).
Proof.
  split; [reflexivity|]. split; [auto|]. fields. rewrite mark_sent_ids. auto.
Qed.

Lemma is_settled_app (s s' : State) (xs : list Settlement) (r : Z) :
  settled s' = settled s ++ xs ->
  is_settled s' r = is_settled s r || existsb (fun x => settlement_id x =? r) xs.
Proof. unfold is_settled. intros ->. apply existsb_app. Qed.

(** Settling the promise of a request and taking the request out of
    the queue. *)
Lemma advance_settle (s s1 : State) (r : Z) :
  selection_request_id s1 = selection_request_id s -> requests s1 = requests s ->
  (forall r', is_settled s r' = true -> is_settled s1 r' = true) ->
  is_settled s1 r = true ->
  advance s (set_requests (delete_request r (requests s1)) s1).
Proof.
  intros Hc Hq Hmono Hset. split; [exact Hc|]. split; [exact Hmono|].
  fields. rewrite Hq. intros r' Hr'.
  destruct (decide (r' = r)) as [->|Hne]; [by right|]. left.
  apply list_elem_of_fmap in Hr' as (x & -> & Hx). apply list_elem_of_fmap.
  exists x. split; [reflexivity|]. by apply elem_of_delete_request.
Qed.

Lemma resolve_settles (request : Request) (sel : Selection) (s : State) :
  selection_request_id (resolve request sel s) = selection_request_id s /\
  requests (resolve request sel s) = requests s /\
  (forall r, is_settled s r = true -> is_settled (resolve request sel s) r = true) /\
  is_settled (resolve request sel s) (id request) = true.
Proof.
  unfold resolve. destruct (is_settled s (id request)) eqn:Hs; [by repeat split|].
  assert (Hst : forall t, settled t = settled s ++ [Resolved (id request) (length (heap s))] ->
                 (forall r, is_settled s r = true -> is_settled t r = true) /\
                 is_settled t (id request) = true).
  { intros t Ht. split.
    - intros r Hr. by rewrite (is_settled_app s t _ r Ht), Hr.
    - rewrite (is_settled_app s t _ _ Ht). cbn. rewrite Z.eqb_refl.
      by destruct (is_settled s (id request)). }
  destruct (given (state request)); fields; (split; [reflexivity|]);
    (split; [reflexivity|]); by apply Hst.
Qed.

Lemma reject_settles (request : Request) (s : State) :
  selection_request_id (reject request s) = selection_request_id s /\
  requests (reject request s) = requests s /\
  (forall r, is_settled s r = true -> is_settled (reject request s) r = true) /\
  is_settled (reject request s) (id request) = true.
Proof.
  unfold reject. destruct (is_settled s (id request)) eqn:Hs; [by repeat split|].
  split; [reflexivity|]. split; [reflexivity|]. split.
  - intros r Hr. erewrite is_settled_app by reflexivity. by rewrite Hr.
  - erewrite is_settled_app by reflexivity. cbn. rewrite Z.eqb_refl.
    by destruct (is_settled s (id request)).
Qed.

Lemma clear_request_advance (s : State) (r : Z) : advance s (clear_request s r).
Proof.
  unfold clear_request.
  destruct (lookup_request _ _) as [request|] eqn:Hlk; [|apply advance_refl].
  destruct (sent request); [apply advance_refl|]. cbv zeta.
  destruct (reject_settles request s) as (H1 & H2 & H3 & H4).
  rewrite <- (lookup_request_id _ _ _ Hlk) at 1. by apply advance_settle.
Qed.

Lemma finishRead_advance (message : Message) (s : State) :
  advance s (finishRead message s).1.
Proof.
  unfold finishRead.
  destruct (lookup_request _ _) as [request|] eqn:Hlk; [|by apply advance_frame].
  destruct (msg_feature message) as [f|].
  - destruct (msg_group message); by apply advance_frame.
  - cbn [fst].
    match goal with
    | |- context [resolve request ?sel ?t] =>
        destruct (resolve_settles request sel t) as (H1 & H2 & H3 & H4)
    end.
    rewrite <- (lookup_request_id _ _ _ Hlk) at 1.
    apply (advance_trans s (set_feature None s)); [by apply advance_frame|].
    by apply advance_settle.
Qed.

Lemma read_request_advance (fb : Framebuffer) (s : State) (r : Z) :
  advance s (read_request fb s r).
Proof.
  unfold read_request. destruct (lookup_request _ _) as [request|]; [|apply advance_refl].
  destruct (sent request); [apply advance_refl|]. cbv zeta.
  set (s1 := readPixels _ _ _ _).
  assert (H1 : advance s s1) by (apply advance_frame; unfold s1, readPixels; by destruct (fb _ _)).
  eapply advance_trans; [exact H1|].
  eapply advance_trans; [|apply advance_mark_sent].
  destruct (negb _).
  - destruct (workers s1 !! _) as [[w|]|]; try apply advance_refl.
    by apply advance_frame.
  - apply finishRead_advance.
Qed.

Lemma read_back_advance (lk : bool) (fb : Framebuffer) (s : State) :
  advance s (read_back lk fb s).
Proof.
  unfold read_back. destruct (locked s lk); [apply advance_refl|]. cbv zeta.
  set (s1 := set_gl_calls _ s).
  apply (advance_trans s s1); [by apply advance_frame|].
  eapply advance_trans; [apply advance_fold, read_request_advance|].
  by apply advance_frame.
Qed.

Lemma deliver_advance (p : Post) (reply : Reply) (s : State) :
  advance s (deliver p reply s).
Proof.
  unfold deliver. destruct (continuation p), reply; try apply advance_refl.
  - apply finishRead_advance.
  - match goal with
    | |- context [resolve request ?sel ?t] =>
        destruct (resolve_settles request sel t) as (H1 & H2 & H3 & H4)
    end.
    by apply advance_settle.
  - by apply advance_frame.
Qed.

Lemma step_advance (s : State) (e : Event) :
  is_getFeatureAt e = false -> advance s (step s e).
Proof.
  intros He. destruct e; cbn [step]; try discriminate.
  - apply advance_fold, clear_request_advance.
  - apply advance_frame; unfold read, setTimeout, clearTimeout;
      by destruct (read_delay_timer s).
  - unfold timeout. destruct (bool_decide _); [|apply advance_refl].
    eapply advance_trans; [|apply read_back_advance]. by apply advance_frame.
  - destruct (awaiting s !! i); [|apply advance_refl].
    eapply advance_trans; [|apply deliver_advance]. by apply advance_frame.
  - unfold updateState, postMessage. apply advance_frame; by repeat case_match.
  - by apply advance_frame.
Qed.

Lemma accounted_advance (s s' : State) : accounted s -> advance s s' -> accounted s'.
Proof.
  intros Hacc (Hc & Hs & Hq) r Hr.
  destruct (Hacc r) as [H|H]; [by apply (id_given_same s' s)|auto..].
Qed.

Lemma accounted_step (s : State) (e : Event) :
  consistent s -> accounted s -> accounted (step s e).
Proof.
  intros Hok Hacc. destruct (is_getFeatureAt e) eqn:He.
  - destruct e; try discriminate. cbn [step].
    destruct (getFeatureAt_fields pt st s Hok) as (Hn & Hq & Hs & _). cbv zeta in *.
    intros r (n & Hn' & Hr). rewrite Hn in Hn'. injection Hn' as <-.
    rewrite Hq, fmap_app. cbn [fmap list_fmap id].
    destruct (decide (r = next_id s)) as [->|Hne].
    + left. apply elem_of_app. right. left.
    + destruct (Hacc r) as [H|H].
      * destruct Hok as (Hc & _). unfold id_given, next_id, counter_ok in *.
        destruct (selection_request_id s) as [m|]; [|lia].
        specialize (Hc m eq_refl). exists m. split; [reflexivity|].
        destruct (Z.eqb_spec (m + 1) 0); lia.
      * left. apply elem_of_app. by left.
      * right. unfold is_settled in *. by rewrite Hs.
  - eapply accounted_advance; [exact Hacc|]. by apply step_advance.
Qed.

Lemma accounted_run (es : list Event) : forall s : State,
  consistent s -> accounted s -> accounted (run s es).
Proof.
  induction es as [|e es IH]; intros s Hok Hacc; [exact Hacc|].
  cbn [run fold_left]. apply IH.
  - apply (step_good s e Hok).
  - by apply accounted_step.
Qed.

(** X14. On a reachable instance the ids given out by
    [getFeatureAt] are exactly those of the queued requests and of
    the settled promises, and no request is both: a request leaves
    the queue only with its promise resolved or rejected. *)
Theorem request_queued_or_settled (s : State) (r : Z) :
  reachable s ->
  (id_given s r <-> r ∈ id <$> requests s \/ is_settled s r = true) /\
  ~ (r ∈ id <$> requests s /\ is_settled s r = true).
Proof.
  intros (ws & lk & es & ->).
  destruct (init_consistent ws lk) as [Hok0 _].
  pose proof (proj1 (run_good es _ Hok0)) as Hok.
  assert (Hacc : accounted (run (init ws lk) es)).
  { apply accounted_run; [exact Hok0|]. intros r' (n & Hn & _). discriminate. }
  destruct Hok as (_ & _ & H3 & H4 & _).
  rewrite Forall_forall in H3. rewrite Forall_forall in H4.
  split; [split|].
  - apply Hacc.
  - intros [Hin|Hset].
    + apply list_elem_of_fmap in Hin as (x & -> & Hx). apply (H3 x Hx).
    + unfold is_settled in Hset. apply existsb_exists in Hset as (x & Hx & Heq).
      apply list_elem_of_In in Hx. replace r with (settlement_id x) by lia. by apply H4.
  - intros [Hin Hset]. apply list_elem_of_fmap in Hin as (x & -> & Hx).
    destruct (H3 x Hx) as [_ Hun]. congruence.
Qed.

Lemma request_queued_or_settled_witness :
  (id_given second_request_sent 0 <->
   0 ∈ id <$> requests second_request_sent \/ is_settled second_request_sent 0 = true) /\
  ~ (0 ∈ id <$> requests second_request_sent /\ is_settled second_request_sent 0 = true).
Proof.
  apply (request_queued_or_settled second_request_sent 0).
  eexists _, _, _. reflexivity.
Defined.

End FateFacts.

(** ** Answers find their request *)

Module RoutingFacts.
Import JS Main Invariants MainFacts StuckFacts Reachable Routing Samples Cases.

Lemma lookup_request_app_l (q1 q2 : list Request) (r : Z) (x : Request) :
  lookup_request q1 r = Some x -> lookup_request (q1 ++ q2) r = Some x.
Proof.
  unfold lookup_request. induction q1 as [|y q1 IH]; cbn; [done|].
  destruct (id y =? r); [done | exact IH].
Qed.

Lemma awaits_unsent (q : list Request) (aw : list Post) (r : Z) (request : Request) :
  awaits q aw -> lookup_request q r = Some request -> sent request = false ->
  r ∉ omap about aw.
Proof.
  intros [_ Hq] Hlk Hs Hin. rewrite Forall_forall in Hq.
  destruct (Hq r Hin) as (x & Hx & Hsx). congruence.
Qed.

Lemma awaits_delete (q : list Request) (aw : list Post) (r : Z) :
  awaits q aw -> r ∉ omap about aw -> awaits (delete_request r q) aw.
Proof.
  intros [Hnd Hq] Hr. split; [exact Hnd|].
  rewrite Forall_forall in *. intros r' Hr'. destruct (Hq r' Hr') as (x & Hx & Hsx).
  exists x. split; [|exact Hsx]. rewrite lookup_delete_request.
  destruct (Z.eqb_spec r' r); [congruence | exact Hx].
Qed.

Lemma awaits_mark (q : list Request) (aw : list Post) (r : Z) :
  awaits q aw -> awaits (mark_sent r q) aw.
Proof.
  intros [Hnd Hq]. split; [exact Hnd|].
  rewrite Forall_forall in *. intros r' Hr'. destruct (Hq r' Hr') as (x & Hx & Hsx).
  destruct (decide (r = r')) as [->|Hne].
  - exists (sent_request x). split; [by apply lookup_mark_sent_eq | reflexivity].
  - exists x. split; [|exact Hsx]. by rewrite lookup_mark_sent_ne.
Qed.

Lemma awaits_post (q : list Request) (aw : list Post) (p : Post) (r : Z) (request : Request) :
  awaits q aw -> about p = Some r -> r ∉ omap about aw ->
  lookup_request q r = Some request -> sent request = true ->
  awaits q (aw ++ [p]).
Proof.
  intros [Hnd Hq] Hp Hr Hlk Hs. unfold awaits. rewrite omap_app. cbn. rewrite Hp.
  split.
  - apply NoDup_app. split; [exact Hnd|]. split; [|apply NoDup_singleton].
    intros r' Hr' Hin. apply list_elem_of_singleton in Hin. congruence.
  - apply Forall_app. split; [exact Hq|]. apply Forall_singleton. eauto.
Qed.

Lemma awaits_post_none (q : list Request) (aw : list Post) (p : Post) :
  about p = None -> awaits q aw -> awaits q (aw ++ [p]).
Proof.
  intros Hp [Hnd Hq]. unfold awaits. rewrite omap_app. cbn. rewrite Hp, app_nil_r. done.
Qed.

Lemma awaits_store (q : list Request) (aw : list Post) (x : Request) :
  awaits q aw -> awaits (q ++ [x]) aw.
Proof.
  intros [Hnd Hq]. split; [exact Hnd|].
  eapply Forall_impl; [exact Hq|]. intros r (y & Hy & Hs). exists y.
  split; [by apply lookup_request_app_l | exact Hs].
Qed.

Lemma awaits_answer (q : list Request) (aw : list Post) (i : nat) (p : Post) :
  awaits q aw -> aw !! i = Some p ->
  awaits q (delete i aw) /\
  forall r, about p = Some r ->
    (r ∉ omap about (delete i aw)) /\
    exists request, lookup_request q r = Some request /\ sent request = true.
Proof.
  intros [Hnd Hq] Hi.
  assert (Haw : aw = take i aw ++ p :: drop (S i) aw) by (by rewrite take_drop_middle).
  assert (Hdel : delete i aw = take i aw ++ drop (S i) aw) by apply delete_take_drop.
  assert (Hcons : omap about (p :: drop (S i) aw) =
                  match about p with
                  | Some r => r :: omap about (drop (S i) aw)
                  | None => omap about (drop (S i) aw)
                  end) by reflexivity.
  rewrite Hdel. unfold awaits. rewrite Haw in Hnd, Hq. rewrite omap_app in *.
  rewrite Hcons in Hnd, Hq.
  apply NoDup_app in Hnd as (H1 & H2 & H3). apply Forall_app in Hq as [Hq1 Hq2].
  destruct (about p) as [r|].
  - apply NoDup_cons in H3 as [H3 H4]. apply Forall_cons in Hq2 as [Hr Hq2].
    split; [split|].
    + apply NoDup_app. split; [exact H1|]. split; [|exact H4].
      intros r' Hr' Hin. apply (H2 r' Hr'). by right.
    + by apply Forall_app.
    + intros r' [= <-]. split; [|exact Hr].
      intros Hin. apply elem_of_app in Hin as [Hin|Hin]; [|contradiction].
      apply (H2 r Hin). left.
  - split; [split|].
    + by apply NoDup_app.
    + by apply Forall_app.
    + intros r [=].
Qed.

(** *** The methods *)

Lemma resolve_expected (request : Request) (sel : Selection) (s : State) :
  requests (resolve request sel s) = requests s /\
  awaiting (resolve request sel s) = awaiting s /\
  logged (resolve request sel s) = logged s.
Proof. unfold resolve. by repeat case_match. Qed.

Lemma finishRead_expected (message : Message) (s : State) (request : Request) :
  expected s ->
  lookup_request (requests s) (msg_id message) = Some request ->
  msg_id message ∉ omap about (awaiting s) ->
  msg_feature message = None \/ sent request = true ->
  expected (finishRead message s).1 /\ logged (finishRead message s).1 = logged s.
Proof.
  intros Hex Hlk Hnew Hcase. unfold finishRead. rewrite Hlk.
  pose proof (lookup_request_id _ _ _ Hlk) as Hid.
  destruct (msg_feature message) as [f|].
  - destruct Hcase as [?|Hsent]; [discriminate|].
    destruct (msg_group message) as [grp|]; [|by split].
    split; [|reflexivity]. unfold expected, postMessage. cbn [fst]. fields.
    eapply awaits_post; [exact Hex | | exact Hnew | exact Hlk | exact Hsent].
    unfold about. cbn. by rewrite Hid.
  - cbn [fst]. fields.
    match goal with
    | |- context [resolve request ?sel ?t] =>
        destruct (resolve_expected request sel t) as (H1 & H2 & H3)
    end.
    unfold expected. fields. rewrite H1, H2, H3. fields. split; [|reflexivity].
    by apply awaits_delete.
Qed.

Lemma clear_request_expected (s : State) (r : Z) :
  expected s -> expected (clear_request s r) /\ logged (clear_request s r) = logged s.
Proof.
  intros Hex. unfold clear_request.
  destruct (lookup_request _ _) as [request|] eqn:Hlk; [|by split].
  destruct (sent request) eqn:Hs; [by split|]. cbv zeta.
  assert (Hrej : requests (reject request s) = requests s /\
                 awaiting (reject request s) = awaiting s /\
                 logged (reject request s) = logged s).
  { unfold reject. by repeat case_match. }
  destruct Hrej as (H1 & H2 & H3). unfold expected. fields. rewrite H1, H2, H3.
  split; [|reflexivity]. apply awaits_delete; [exact Hex|].
  by eapply awaits_unsent.
Qed.

Lemma read_request_expected (fb : Framebuffer) (s : State) (r : Z) :
  expected s ->
  expected (read_request fb s r) /\ logged (read_request fb s r) = logged s.
Proof.
  intros Hex. unfold read_request.
  destruct (lookup_request _ _) as [request|] eqn:Hlk; [|by split].
  destruct (sent request) eqn:Hs; [by split|]. cbv zeta.
  pose proof (lookup_request_id _ _ _ Hlk) as Hid.
  pose proof (awaits_unsent _ _ _ _ Hex Hlk Hs) as Hnew.
  set (s1 := readPixels _ _ _ _).
  assert (H1 : requests s1 = requests s /\ awaiting s1 = awaiting s /\ logged s1 = logged s)
    by (unfold s1, readPixels; by destruct (fb _ _)).
  destruct H1 as (Hq1 & Ha1 & Hl1).
  assert (Hex1 : expected s1) by (unfold expected; by rewrite Hq1, Ha1).
  destruct (negb _).
  - destruct (workers s1 !! _) as [[w|]|]; unfold expected, postMessage; fields;
      try (split; [by apply awaits_mark | exact Hl1]).
    split; [|exact Hl1].
    eapply awaits_post.
    + by apply awaits_mark.
    + unfold about. cbn. by rewrite Hid.
    + by rewrite Ha1.
    + rewrite Hq1. by apply lookup_mark_sent_eq.
    + reflexivity.
  - destruct (finishRead_expected {| msg_id := id request; msg_feature := None;
                                     msg_group := None |} s1 request) as [H2 H3]; trivial.
    + cbn. by rewrite Hq1, Hid.
    + cbn. by rewrite Ha1, Hid.
    + by left.
    + unfold expected. fields. split; [by apply awaits_mark | congruence].
Qed.

Lemma fold_expected (f : State -> Z -> State) (rs : list Z) :
  (forall s r, expected s -> expected (f s r) /\ logged (f s r) = logged s) ->
  forall s, expected s ->
            expected (fold_left f rs s) /\ logged (fold_left f rs s) = logged s.
Proof.
  intros Hf. induction rs as [|r rs IH]; intros s Hex; [by split|]. cbn [fold_left].
  destruct (Hf s r Hex) as [H1 H2]. destruct (IH _ H1) as [H3 H4].
  split; [exact H3 | congruence].
Qed.

Lemma deliver_expected (p : Post) (reply : Reply) (i : nat) (s : State) :
  consistent s -> expected s -> quiet s ->
  awaiting s !! i = Some p -> faithful_reply p reply = true ->
  let s' := deliver p reply (set_awaiting (delete i (awaiting s)) s) in
  expected s' /\ quiet s'.
Proof.
  intros Hok Hex Hquiet Hi Hf. cbv zeta.
  destruct (awaits_answer _ _ i p Hex Hi) as [Hex0 Hp].
  set (s0 := set_awaiting (delete i (awaiting s)) s).
  assert (Hpok : post_ok s p).
  { destruct Hok as (_ & _ & _ & _ & _ & H6 & _). exact (Forall_lookup_1 _ _ _ _ H6 Hi). }
  unfold deliver, faithful_reply, post_ok, about in *.
  destruct (continuation p) as [|request f chg grp|k l] eqn:Hc, reply as [message|colors];
    try (split; [exact Hex0 | exact Hquiet]).
  - destruct Hpok as (r & Hab & _). unfold post_about in Hab. rewrite Hc in Hab.
    destruct Hab as [key Hpay]. rewrite Hpay in *.
    destruct (Hp r eq_refl) as (Hnew & request & Hlk & Hsent).
    assert (Hid : msg_id message = r) by lia.
    destruct (finishRead_expected message s0 request) as [H1 H2]; trivial.
    + by rewrite Hid.
    + by rewrite Hid.
    + by right.
    + split; [exact H1|]. unfold quiet. by rewrite H2.
  - destruct (Hp (id request) eq_refl) as (Hnew & request' & Hlk & Hsent).
    match goal with
    | |- context [resolve request ?sel ?t] =>
        destruct (resolve_expected request sel t) as (H1 & H2 & H3)
    end.
    unfold expected, quiet. fields. rewrite H1, H2, H3. split; [|exact Hquiet].
    by apply awaits_delete.
  - unfold expected, quiet. fields. split; [exact Hex0|].
    apply Forall_app. split; [exact Hquiet|]. by apply Forall_singleton.
Qed.

Lemma expected_step (s : State) (e : Event) :
  consistent s -> expected s -> quiet s -> faithful s e = true ->
  expected (step s e) /\ quiet (step s e).
Proof.
  intros Hok Hex Hquiet Hf. destruct e; cbn [step faithful] in *.
  - destruct (getFeatureAt_fields pt st s Hok) as (_ & Hq & _ & _ & Ha & _).
    cbv zeta in *. unfold expected, quiet. rewrite Hq, Ha. split; [by apply awaits_store|].
    exact Hquiet.
  - destruct (fold_expected clear_request (id <$> requests s) clear_request_expected s Hex)
      as [H1 H2].
    split; [exact H1|]. unfold quiet. unfold clearPendingRequests. by rewrite H2.
  - unfold read, setTimeout, clearTimeout. by destruct (read_delay_timer s).
  - unfold timeout. destruct (bool_decide _); [|by split].
    unfold read_back. destruct (locked _ _); [by split|]. cbv zeta.
    set (s1 := set_gl_calls _ (clearTimeout t s)).
    assert (Hex1 : expected s1) by exact Hex.
    destruct (fold_expected (read_request fb) (id <$> requests s1)
                (read_request_expected fb) s1 Hex1) as [H1 H2].
    split; [exact H1|]. unfold quiet. fields. by rewrite H2.
  - destruct (awaiting s !! i) as [p|] eqn:Hi; [|by split].
    by apply (deliver_expected p reply i s).
  - unfold updateState. repeat case_match; try (by split). cbn [fst].
    unfold expected, quiet, postMessage. fields. split; [|exact Hquiet].
    by apply awaits_post_none.
  - by split.
Qed.

Lemma expected_run (es : list Event) : forall s : State,
  consistent s -> expected s -> quiet s -> faithful_events s es = true ->
  expected (run s es) /\ quiet (run s es).
Proof.
  induction es as [|e es IH]; intros s Hok Hex Hquiet Hf; [by split|].
  cbn [faithful_events] in Hf. apply andb_true_iff in Hf as [He Hes].
  destruct (expected_step s e Hok Hex Hquiet He) as [H1 H2].
  cbn [run fold_left]. apply IH; trivial. apply (step_good s e Hok).
Qed.



Lemma query_awaited_faithfully : reachable_faithfully query_awaited.
Proof. eexists _, _, _. split; [|reflexivity]. vm_compute. reflexivity. Defined.


End RoutingFacts.

(** ** Requests that stay for ever *)

Module ParkedFacts.
Import JS Main Invariants MainFacts StuckFacts Reachable Routing RoutingFacts Parked.
Import Samples Cases.

Lemma keeps_refl (r : Z) (s : State) : keeps r s s.
Proof. by repeat split. Qed.

Lemma keeps_trans (r : Z) (s1 s2 s3 : State) :
  keeps r s1 s2 -> keeps r s2 s3 -> keeps r s1 s3.
Proof.
  intros (H1 & H2 & H3) (H1' & H2' & H3'). split; [congruence|]. split; [congruence|auto].
Qed.

Lemma keeps_frame (r : Z) (s s' : State) :
  requests s' = requests s -> settled s' = settled s -> awaiting s' = awaiting s ->
  keeps r s s'.
Proof. intros Hq Hs Ha. unfold keeps, is_settled. by rewrite Hq, Hs, Ha. Qed.

Lemma parked_keeps (r : Z) (s s' : State) : parked r s -> keeps r s s' -> parked r s'.
Proof.
  intros (Hq & Hs & Ha) (H1 & H2 & H3). split; [by rewrite H1|]. split; [congruence|auto].
Qed.

(** Settling the promise of another request and taking that request
    out of the queue. *)
Lemma keeps_settle (r r' : Z) (x : Settlement) (s s1 : State) :
  r' <> r -> settlement_id x = r' ->
  requests s1 = requests s -> awaiting s1 = awaiting s ->
  settled s1 = settled s \/ settled s1 = settled s ++ [x] ->
  keeps r s (set_requests (delete_request r' (requests s1)) s1).
Proof.
  intros Hne Hx Hq Ha Hs. split; [|split].
  - fields. rewrite Hq, lookup_delete_request.
    destruct (Z.eqb_spec r r'); [congruence | reflexivity].
  - unfold is_settled. fields. destruct Hs as [->| ->]; [reflexivity|].
    rewrite existsb_app. cbn. rewrite Hx.
    destruct (Z.eqb_spec r' r); [congruence|]. by rewrite !orb_false_r.
  - fields. by rewrite Ha.
Qed.

Lemma resolve_cases (request : Request) (sel : Selection) (s : State) :
  requests (resolve request sel s) = requests s /\
  awaiting (resolve request sel s) = awaiting s /\
  (settled (resolve request sel s) = settled s \/
   settled (resolve request sel s) =
     settled s ++ [Resolved (id request) (length (heap s))]).
Proof. unfold resolve. repeat case_match; auto. Qed.

Lemma keeps_post (r : Z) (p : Post) (s : State) :
  about p <> Some r -> keeps r s (postMessage p s).
Proof.
  intros Hp. split; [reflexivity|]. split; [reflexivity|].
  unfold postMessage. fields. rewrite omap_app. intros Hnot Hin.
  apply elem_of_app in Hin as [Hin|Hin]; [contradiction|].
  cbn in Hin. destruct (about p) as [r'|]; [|by apply elem_of_nil in Hin].
  apply list_elem_of_singleton in Hin. congruence.
Qed.

Lemma finishRead_keeps (r : Z) (message : Message) (s : State) :
  msg_id message <> r -> keeps r s (finishRead message s).1.
Proof.
  intros Hne. unfold finishRead.
  destruct (lookup_request _ _) as [request|] eqn:Hlk; [|by apply keeps_frame].
  pose proof (lookup_request_id _ _ _ Hlk) as Hid.
  destruct (msg_feature message) as [f|].
  - destruct (msg_group message) as [grp|]; [|by apply keeps_frame].
    cbn [fst]. apply (keeps_trans r s (set_feature (Some f) s)); [by apply keeps_frame|].
    apply keeps_post. unfold about. cbn. congruence.
  - cbn [fst]. apply (keeps_trans r s (set_feature None s)); [by apply keeps_frame|].
    match goal with
    | |- context [resolve request ?sel ?t] =>
        destruct (resolve_cases request sel t) as (H1 & H2 & H3)
    end.
    eapply keeps_settle; [exact Hne | | exact H1 | exact H2 | exact H3]. cbn. exact Hid.
Qed.

Lemma clear_request_keeps (r r' : Z) (s : State) :
  (forall request, lookup_request (requests s) r = Some request -> sent request = true) ->
  keeps r s (clear_request s r').
Proof.
  intros Hsent. unfold clear_request.
  destruct (lookup_request (requests s) r') as [request|] eqn:Hlk; [|apply keeps_refl].
  destruct (sent request) eqn:Hs; [apply keeps_refl|]. cbv zeta.
  pose proof (lookup_request_id _ _ _ Hlk) as Hid.
  assert (Hne : r' <> r).
  { intros ->. specialize (Hsent _ Hlk). congruence. }
  assert (Hrej : requests (reject request s) = requests s /\
                 awaiting (reject request s) = awaiting s /\
                 (settled (reject request s) = settled s \/
                  settled (reject request s) = settled s ++ [Rejected request])).
  { unfold reject. repeat case_match; auto. }
  destruct Hrej as (H1 & H2 & H3).
  eapply keeps_settle; [exact Hne | | exact H1 | exact H2 | exact H3]. cbn. exact Hid.
Qed.

Lemma read_request_keeps (r r' : Z) (fb : Framebuffer) (s : State) :
  (forall request, lookup_request (requests s) r = Some request -> sent request = true) ->
  keeps r s (read_request fb s r').
Proof.
  intros Hsent. unfold read_request.
  destruct (lookup_request (requests s) r') as [request|] eqn:Hlk; [|apply keeps_refl].
  destruct (sent request) eqn:Hs; [apply keeps_refl|]. cbv zeta.
  pose proof (lookup_request_id _ _ _ Hlk) as Hid.
  assert (Hne : r' <> r).
  { intros ->. specialize (Hsent _ Hlk). congruence. }
  set (s1 := readPixels fb (sample_x request) (sample_y request) s).
  apply (keeps_trans r s s1).
  { apply keeps_frame; unfold s1, readPixels; by destruct (fb _ _). }
  match goal with
  | |- keeps r s1 (set_requests ?q ?t) => apply (keeps_trans r s1 t)
  end.
  - destruct (negb _).
    + destruct (workers s1 !! _) as [[w|]|]; try apply keeps_refl.
      apply keeps_post. unfold about. cbn. congruence.
    + apply finishRead_keeps. cbn. congruence.
  - split; [|by split]. fields. by apply lookup_mark_sent_ne.
Qed.

Lemma fold_keeps (r : Z) (f : State -> Z -> State) (rs : list Z) :
  (forall s r',
     (forall request, lookup_request (requests s) r = Some request -> sent request = true) ->
     keeps r s (f s r')) ->
  forall s,
    (forall request, lookup_request (requests s) r = Some request -> sent request = true) ->
    keeps r s (fold_left f rs s).
Proof.
  intros Hf. induction rs as [|r' rs IH]; intros s Hsent; [apply keeps_refl|].
  cbn [fold_left]. pose proof (Hf s r' Hsent) as Hk.
  eapply keeps_trans; [exact Hk|]. apply IH.
  destruct Hk as (Hlk & _). by rewrite Hlk.
Qed.

Lemma not_about_delete (r : Z) (i : nat) (aw : list Post) :
  r ∉ omap about aw -> r ∉ omap about (delete i aw).
Proof.
  intros Hnot Hin. apply Hnot. apply list_elem_of_omap in Hin as (p & Hp & Hr).
  apply list_elem_of_omap. exists p. split; [|exact Hr]. by eapply list_elem_of_delete_inv.
Qed.

Lemma step_keeps (r : Z) (s : State) (e : Event) :
  consistent s -> parked r s -> faithful s e = true -> keeps r s (step s e).
Proof.
  intros Hok ((request & Hlk & Hsent) & Hset & Hnot) Hf.
  assert (Hs : forall x, lookup_request (requests s) r = Some x -> sent x = true)
    by (intros x Hx; congruence).
  destruct e; cbn [step faithful] in *.
  - destruct (getFeatureAt_fields pt st s Hok) as (_ & Hq & Hst & _ & Ha & _).
    cbv zeta in *. unfold keeps, is_settled. rewrite Hq, Hst, Ha.
    split; [|by split]. rewrite Hlk. by apply lookup_request_app_l.
  - by apply fold_keeps; [intros s0 r'; apply clear_request_keeps|].
  - apply keeps_frame; unfold read, setTimeout, clearTimeout;
      by destruct (read_delay_timer s).
  - unfold timeout. destruct (bool_decide _); [|apply keeps_refl].
    unfold read_back. destruct (locked _ _); [by apply keeps_frame|]. cbv zeta.
    set (s1 := set_gl_calls _ (clearTimeout t s)).
    apply (keeps_trans r s s1); [by apply keeps_frame|].
    match goal with
    | |- keeps r s1 (set_gl_calls ?q ?t) =>
        apply (keeps_trans r s1 t); [|by apply keeps_frame]
    end.
    by apply fold_keeps; [intros s0 r'; apply read_request_keeps|].
  - destruct (awaiting s !! i) as [p|] eqn:Hi; [|apply keeps_refl].
    set (s0 := set_awaiting (delete i (awaiting s)) s).
    assert (H0 : keeps r s s0).
    { split; [reflexivity|]. split; [reflexivity|]. intros _. by apply not_about_delete. }
    apply (keeps_trans r s s0); [exact H0|].
    assert (Hp : about p <> Some r).
    { intros Hab. apply Hnot. apply list_elem_of_omap. exists p.
      split; [by eapply list_elem_of_lookup_2 | exact Hab]. }
    assert (Hpok : post_ok s p).
    { destruct Hok as (_ & _ & _ & _ & _ & H6 & _). exact (Forall_lookup_1 _ _ _ _ H6 Hi). }
    unfold deliver, faithful_reply, post_ok, about in *.
    destruct (continuation p) as [|request' f chg grp|k l] eqn:Hc, reply as [message|colors];
      try apply keeps_refl.
    + destruct Hpok as (r' & Hab & _). unfold post_about in Hab. rewrite Hc in Hab.
      destruct Hab as [key Hpay]. rewrite Hpay in *.
      apply finishRead_keeps. intros Heq. apply Hp. f_equal. lia.
    + match goal with
      | |- context [resolve request' ?sel ?t] =>
          destruct (resolve_cases request' sel t) as (H1 & H2 & H3)
      end.
      eapply keeps_settle; [| | exact H1 | exact H2 | exact H3]; [congruence | reflexivity].
    + by apply keeps_frame.
  - unfold updateState. repeat case_match; try apply keeps_refl. cbn [fst].
    match goal with
    | |- keeps r s (postMessage ?p ?t) => apply (keeps_trans r s t); [by apply keeps_frame|]
    end.
    apply keeps_post. discriminate.
  - by apply keeps_frame.
Qed.

Lemma run_parked (r : Z) (es : list Event) : forall s : State,
  consistent s -> parked r s -> faithful_events s es = true -> parked r (run s es).
Proof.
  induction es as [|e es IH]; intros s Hok Hp Hf; [exact Hp|].
  cbn [faithful_events] in Hf. apply andb_true_iff in Hf as [He Hes].
  cbn [run fold_left]. apply IH; [apply (step_good s e Hok) | | exact Hes].
  eapply parked_keeps; [exact Hp|]. by apply step_keeps.
Qed.

(** X16. On a reachable instance, a request that is queued and
    marked as sent, whose promise is pending and for which no answer
    is awaited, stays so whatever happens (workers answering a query
    with the id of the query): it is never resolved, never rejected
    and never leaves the queue. *)
Theorem sent_request_without_answer_stays (s : State) (r : Z) (es : list Event) :
  reachable s ->
  parked r s ->
  faithful_events s es = true ->
  parked r (run s es).
Proof.
  intros Hre Hp Hf. apply run_parked; trivial. by apply reachable_consistent.
Qed.

Lemma sent_request_without_answer_stays_witness :
  parked 0 (run (step hover_requested (Timeout 0%nat false painted_by_stranger))
              [Read; Timeout 1%nat false blank; ClearPendingRequests]).
Proof.
  apply (sent_request_without_answer_stays
           (step hover_requested (Timeout 0%nat false painted_by_stranger)) 0
           [Read; Timeout 1%nat false blank; ClearPendingRequests]).
  - exists [Some 0%nat], false,
      [GetFeatureAt centre (Some "hover"); Read; Timeout 0%nat false painted_by_stranger].
    vm_compute. reflexivity.
  - split; [|split].
    + eexists. split; vm_compute; reflexivity.
    + vm_compute. reflexivity.
    + vm_compute. apply not_elem_of_nil.
  - vm_compute. reflexivity.
Defined.

(** X17. When a worker answers a query with a feature but without
    a group, [finishRead] throws on reading [group.key], after it has
    stored the feature as the selected one: nothing is posted, no
    promise is settled, and the request stays queued and marked as
    sent with no answer awaited for it. *)
Theorem answer_without_group_parks (s : State) (i : nat) (p : Post) (r key : Z)
    (f : Feature) :
  reachable_faithfully s ->
  awaiting s !! i = Some p ->
  payload p = SelectionQuery r key -> continuation p = ThenFinishRead ->
  let message := {| msg_id := r; msg_feature := Some f; msg_group := None |} in
  let s' := step s (Answer i (ReplyMessage message)) in
  (finishRead message (set_awaiting (delete i (awaiting s)) s)).2 = ThrewTypeError /\
  feature s' = Some f /\
  posted s' = posted s /\ settled s' = settled s /\ requests s' = requests s /\
  parked r s'.
Proof.
  intros (ws & lk & es & Hf & ->) Hi Hpay Hc message s'.
  set (s := run (init ws lk) es) in *.
  destruct (init_consistent ws lk) as [Hok0 _].
  pose proof (proj1 (run_good es _ Hok0)) as Hok. fold s in Hok.
  destruct (expected_run es (init ws lk) Hok0) as [Hex _]; trivial.
  { split; constructor. }
  { constructor. }
  fold s in Hex.
  assert (Hab : about p = Some r) by (unfold about; by rewrite Hc, Hpay).
  destruct (awaits_answer _ _ i p Hex Hi) as [Hex0 Hp].
  destruct (Hp r Hab) as (Hnew & request & Hlk & Hsent).
  assert (Hfin : finishRead message (set_awaiting (delete i (awaiting s)) s) =
                 (set_feature (Some f) (set_awaiting (delete i (awaiting s)) s),
                  ThrewTypeError)).
  { unfold finishRead. cbn [msg_id msg_feature msg_group message]. fields. by rewrite Hlk. }
  subst s'. cbn [step]. rewrite Hi. unfold deliver. rewrite Hc, Hfin. cbn [fst snd]. fields.
  repeat split; trivial.
  - eauto.
  - destruct Hok as (_ & _ & H3 & _). rewrite Forall_forall in H3.
    pose proof (lookup_request_id _ _ _ Hlk) as Hid. rewrite <- Hid.
    apply (H3 request). by eapply lookup_request_elem.
Qed.

Lemma answer_without_group_parks_witness :
  let message := {| msg_id := 0; msg_feature := Some feature_no_name; msg_group := None |} in
  let s' := step query_awaited (Answer 0%nat (ReplyMessage message)) in
  (finishRead message (set_awaiting (delete 0%nat (awaiting query_awaited)) query_awaited)).2 =
    ThrewTypeError /\
  feature s' = Some feature_no_name /\
  posted s' = posted query_awaited /\ settled s' = settled query_awaited /\
  requests s' = requests query_awaited /\
  parked 0 s'.
Proof.
  apply (answer_without_group_parks query_awaited 0%nat first_query 0 1 feature_no_name
           query_awaited_faithfully).
  - vm_compute. reflexivity.
  - reflexivity.
  - reflexivity.
Defined.

End ParkedFacts.

(** ** Messages go to the right worker *)

Module AddressingFacts.
Import JS Static Main Invariants StaticFacts MainFacts StuckFacts Reachable Addressing.
Import Samples Cases.

Lemma posts_well_refl (s : State) : posts_well s s.
Proof.
  split; [reflexivity|]. split; [auto|]. exists []. rewrite app_nil_r. split; [reflexivity|].
  intros _. constructor.
Qed.

Lemma posts_well_trans (s1 s2 s3 : State) :
  posts_well s1 s2 -> posts_well s2 s3 -> posts_well s1 s3.
Proof.
  intros (Hw & Hpx & ps & Hp & Hps) (Hw' & Hpx' & ps' & Hp' & Hps').
  split; [congruence|]. split; [auto|]. exists (ps ++ ps'). split.
  - rewrite Hp', Hp. by rewrite app_assoc.
  - intros H1. apply Forall_app. split; [auto|]. rewrite <- Hw. auto.
Qed.

Lemma posts_well_fold (f : State -> Z -> State) (rs : list Z) :
  (forall s r, posts_well s (f s r)) -> forall s, posts_well s (fold_left f rs s).
Proof.
  intros Hf. induction rs as [|r rs IH]; intros s; cbn.
  - apply posts_well_refl.
  - eapply posts_well_trans; [apply Hf | apply IH].
Qed.

Lemma posts_well_frame (s s' : State) :
  workers s' = workers s -> pixel s' = pixel s -> posted s' = posted s -> posts_well s s'.
Proof.
  intros Hw Hpx Hp. split; [exact Hw|]. rewrite Hpx. split; [auto|].
  exists []. rewrite app_nil_r. split; [exact Hp|]. intros _. constructor.
Qed.

Lemma to_uint8_range (x : Z) : 0 <= to_uint8 x < 256.
Proof. unfold to_uint8. apply Z.mod_pos_bound. lia. Qed.

Lemma readPixels_posts (fb : Framebuffer) (x y : Z) (s : State) :
  posts_well s (readPixels fb x y s).
Proof.
  unfold readPixels. split; [by destruct (fb x y)|]. split.
  - destruct (fb x y) as [px|]; [|auto]. intros _. fields.
    repeat split; apply to_uint8_range.
  - exists []. rewrite app_nil_r. split; [by destruct (fb x y)|]. intros _. constructor.
Qed.

Lemma feature_key_of_bytes (px : Pixel) :
  pixel_ok px ->
  feature_key_of px = p0 px + p1 px * 256 + p2 px * 65536 + p3 px * 16777216.
Proof.
  intros (H0 & H1 & H2 & H3).
  change (feature_key_of px) with (color_key (p0 px) (p1 px) (p2 px) (p3 px)).
  rewrite color_key_spec by lia. rewrite (Z.mod_small (p3 px)) by lia. reflexivity.
Qed.

Lemma resolve_posts (request : Request) (sel : Selection) (s : State) :
  posts_well s (resolve request sel s).
Proof. apply posts_well_frame; unfold resolve; by repeat case_match. Qed.

Lemma finishRead_posts (message : Message) (s : State) :
  posts_well s (finishRead message s).1.
Proof.
  unfold finishRead.
  destruct (lookup_request _ _) as [request|]; [|by apply posts_well_frame].
  destruct (msg_feature message) as [f|].
  - destruct (msg_group message) as [grp|]; [|by apply posts_well_frame].
    cbn [fst]. unfold postMessage. split; [reflexivity|]. split; [auto|].
    eexists [_]. split; [reflexivity|]. intros _. apply Forall_singleton. reflexivity.
  - cbn [fst].
    match goal with
    | |- posts_well s (set_requests ?q ?t) =>
        apply (posts_well_trans s t); [|by apply posts_well_frame]
    end.
    apply (posts_well_trans s (set_feature None s)); [by apply posts_well_frame|].
    apply resolve_posts.
Qed.

Lemma clear_request_posts (s : State) (r : Z) : posts_well s (clear_request s r).
Proof.
  apply posts_well_frame; unfold clear_request, reject; by repeat case_match.
Qed.

Lemma read_request_posts (fb : Framebuffer) (s : State) (r : Z) :
  posts_well s (read_request fb s r).
Proof.
  unfold read_request. destruct (lookup_request _ _) as [request|]; [|apply posts_well_refl].
  destruct (sent request); [apply posts_well_refl|]. cbv zeta.
  set (s1 := readPixels fb (sample_x request) (sample_y request) s).
  apply (posts_well_trans s s1); [apply readPixels_posts|].
  match goal with
  | |- posts_well s1 (set_requests ?q ?t) =>
      apply (posts_well_trans s1 t); [|by apply posts_well_frame]
  end.
  destruct (Z.eqb_spec (p3 (pixel s1)) 255) as [E|Hne]; cbn [negb].
  - apply finishRead_posts.
  - destruct (workers s1 !! _) as [[w|]|] eqn:Hw; try apply posts_well_refl.
    unfold postMessage. split; [reflexivity|]. split; [auto|].
    eexists [_]. split; [reflexivity|]. intros Hpx. apply Forall_singleton.
    unfold well_addressed. cbn [payload target].
    rewrite (feature_key_of_bytes _ Hpx). destruct Hpx as (H0 & H1 & H2 & H3).
    change (2 ^ 32) with 4294967296. change (2 ^ 24) with 16777216.
    assert (Hdiv : (p0 (pixel s1) + p1 (pixel s1) * 256 + p2 (pixel s1) * 65536 +
                    p3 (pixel s1) * 16777216) / 16777216 = p3 (pixel s1)).
    { Z.div_mod_to_equations. lia. }
    rewrite Hdiv. split; [lia|]. split; [exact Hne|]. eauto.
Qed.

Lemma read_back_posts (lk : bool) (fb : Framebuffer) (s : State) :
  posts_well s (read_back lk fb s).
Proof.
  unfold read_back. destruct (locked s lk); [apply posts_well_refl|]. cbv zeta.
  set (s1 := set_gl_calls _ s).
  apply (posts_well_trans s s1); [by apply posts_well_frame|].
  eapply posts_well_trans; [apply posts_well_fold, read_request_posts|].
  by apply posts_well_frame.
Qed.

Lemma deliver_posts (p : Post) (reply : Reply) (s : State) :
  posts_well s (deliver p reply s).
Proof.
  unfold deliver. destruct (continuation p), reply; try apply posts_well_refl.
  - apply finishRead_posts.
  - eapply posts_well_trans; [apply resolve_posts|]. by apply posts_well_frame.
  - by apply posts_well_frame.
Qed.

Lemma updateState_posts (k : string) (s : State) : posts_well s (updateState k s).1.
Proof.
  unfold updateState. repeat case_match; try apply posts_well_refl.
  cbn [fst]. unfold postMessage. split; [reflexivity|]. split; [auto|].
  eexists [_]. split; [reflexivity|]. intros _. apply Forall_singleton. reflexivity.
Qed.

Lemma step_posts (s : State) (e : Event) : posts_well s (step s e).
Proof.
  destruct e; cbn [step].
  - by apply posts_well_frame.
  - apply posts_well_fold, clear_request_posts.
  - apply posts_well_frame; unfold read, setTimeout, clearTimeout;
      by destruct (read_delay_timer s).
  - unfold timeout. destruct (bool_decide _); [|apply posts_well_refl].
    eapply posts_well_trans; [|apply read_back_posts]. by apply posts_well_frame.
  - destruct (awaiting s !! i); [|apply posts_well_refl].
    eapply posts_well_trans; [|apply deliver_posts]. by apply posts_well_frame.
  - apply updateState_posts.
  - by apply posts_well_frame.
Qed.

Lemma run_posts (es : list Event) : forall s : State, posts_well s (run s es).
Proof.
  induction es as [|e es IH]; intros s; [apply posts_well_refl|].
  cbn [run fold_left]. eapply posts_well_trans; [apply step_posts | apply IH].
Qed.

(** X18. Every message an instance has posted is well addressed: a
    selection query carries an unsigned 32-bit key whose top byte is
    not 255 and went to the one worker registered in the pool under
    that byte; a group colour request went to the whole pool. *)
Theorem posts_reach_the_right_worker (s : State) (p : Post) :
  reachable s -> p ∈ posted s ->
  match payload p with
  | SelectionQuery r key =>
      0 <= key < 2 ^ 32 /\ key / 2 ^ 24 <> 255 /\
      exists w, target p = ToWorker w /\
                workers s !! Z.to_nat (key / 2 ^ 24) = Some (Some w)
  | GroupKey k => target p = ToAll (workers s)
  end.
Proof.
  intros (ws & lk & es & ->) Hp.
  destruct (run_posts es (init ws lk)) as (Hw & _ & ps & Hposted & Hps).
  rewrite Hposted in Hp. cbn [init posted app] in Hp.
  assert (Hpx : pixel_ok (pixel (init ws lk))) by (cbn; unfold pixel_ok; cbn; lia).
  specialize (Hps Hpx). rewrite Forall_forall in Hps. specialize (Hps p Hp).
  rewrite Hw. exact Hps.
Qed.

Lemma posts_reach_the_right_worker_witness :
  0 <= 1 < 2 ^ 32 /\ 1 / 2 ^ 24 <> 255 /\
  exists w, ToWorker 0%nat = ToWorker w /\
            workers query_awaited !! Z.to_nat (1 / 2 ^ 24) = Some (Some w).
Proof.
  apply (posts_reach_the_right_worker query_awaited first_query).
  - eexists _, _, _. reflexivity.
  - vm_compute. left.
Defined.

End AddressingFacts.

(** ** The selections handed out and cached *)

Module ObjectsFacts.
Import JS Main Invariants MainFacts StuckFacts Reachable Objects Samples Cases.

Lemma held_same (s s' : State) : same_objects s s' -> held s -> held s'.
Proof.
  intros (Hh & Hs & Hst & Hu). unfold held, state_at. by rewrite Hh, Hs, Hst, Hu.
Qed.

Lemma held_resolve (request : Request) (sel : Selection) (s : State) :
  shaped sel -> sel_request sel = id request ->
  held s -> held (resolve request sel s).
Proof.
  intros Hshape Hreq (H1 & H2 & H3 & H4). unfold resolve.
  destruct (is_settled s (id request)); [by repeat split|].
  set (l := length (heap s)).
  assert (Hnew : (heap s ++ [sel]) !! l = Some sel) by (by apply list_lookup_middle).
  assert (Hheld : forall sts,
            (forall k l', mjoin (sts !! k) = Some l' ->
                          state_at s k = Some l' \/ l' = l) ->
            held (set_states sts
                    (set_settled (settled s ++ [Resolved (id request) l])
                       (set_heap (heap s ++ [sel]) s)))).
  { intros sts Hsts. unfold held, state_at, update_posts. fields.
    split; [|split; [|split]].
    - intros r l' Hin. apply elem_of_app in Hin as [Hin|Hin].
      + destruct (H1 r l' Hin) as (sel' & Hl' & Hr'). exists sel'.
        split; [by apply lookup_app_l_Some | exact Hr'].
      + apply list_elem_of_singleton in Hin. injection Hin as -> ->. eauto.
    - intros k l' Hk. destruct (Hsts k l' Hk) as [Hold| ->].
      + destruct (H2 k l' Hold) as (sel' & Hl' & Hr'). exists sel'.
        split; [by apply lookup_app_l_Some|]. apply elem_of_app. by left.
      + exists sel. split; [exact Hnew|]. apply elem_of_app. right.
        rewrite Hreq. by apply list_elem_of_singleton.
    - eapply Forall_impl; [exact H3|]. intros kl (sel' & Hl' & Hg). exists sel'.
      split; [by apply lookup_app_l_Some | exact Hg].
    - apply Forall_app. split; [exact H4|]. by apply Forall_singleton. }
  destruct (given (state request)) as [k|].
  - apply (held_same (set_states (<[k := Some l]> (states s))
                        (set_settled (settled s ++ [Resolved (id request) l])
                           (set_heap (heap s ++ [sel]) s)))); [by repeat split|].
    apply Hheld. intros k' l' Hk'.
    destruct (decide (k' = k)) as [->|Hne].
    + rewrite lookup_insert_eq in Hk'. cbn in Hk'. injection Hk' as <-. by right.
    + rewrite lookup_insert_ne in Hk' by congruence. by left.
  - apply (held_same (set_states (states s)
                        (set_settled (settled s ++ [Resolved (id request) l])
                           (set_heap (heap s ++ [sel]) s)))); [by repeat split|].
    apply Hheld. intros k' l' Hk'. by left.
Qed.

Lemma shaped_no_feature (r : Z) (chg : bool) :
  shaped {| sel_feature := None; changed := chg; sel_request := r;
            selection_colors := []; sel_group := None; update_pending := false |}.
Proof. split; cbn; [|done]. split; intros [x Hx]; discriminate. Qed.

Lemma shaped_feature (r : Z) (f : Feature) (chg : bool) (colors : list value) (grp : Group) :
  shaped {| sel_feature := Some f; changed := chg; sel_request := r;
            selection_colors := colors; sel_group := Some grp; update_pending := false |}.
Proof. split; cbn; [|discriminate]. split; eauto. Qed.

Lemma held_post (p : Post) (s : State) :
  update_of p = None -> held s -> held (postMessage p s).
Proof.
  intros Hp. apply held_same. unfold same_objects, update_posts, postMessage. fields.
  rewrite omap_app. cbn. rewrite Hp. by rewrite app_nil_r.
Qed.

Lemma finishRead_held (message : Message) (s : State) :
  held s -> held (finishRead message s).1.
Proof.
  intros Hheld. unfold finishRead.
  destruct (lookup_request _ _) as [request|]; [|by apply (held_same s)].
  destruct (msg_feature message) as [f|].
  - destruct (msg_group message) as [grp|]; [|by apply (held_same s)].
    cbn [fst]. apply held_post; [reflexivity|]. by apply (held_same s).
  - cbn [fst].
    match goal with
    | |- held (set_requests ?q ?t) => apply (held_same t); [by repeat split|]
    end.
    apply held_resolve; [apply shaped_no_feature | reflexivity|].
    by apply (held_same s).
Qed.

Lemma held_reject (request : Request) (s : State) : held s -> held (reject request s).
Proof.
  intros (H1 & H2 & H3 & H4). unfold reject.
  destruct (is_settled s (id request)); [by repeat split|].
  unfold held, state_at, update_posts. fields. split; [|split; [|by split]].
  - intros r l Hin. apply elem_of_app in Hin as [Hin|Hin]; [by apply H1|].
    apply list_elem_of_singleton in Hin. discriminate.
  - intros k l Hk. destruct (H2 k l Hk) as (sel & Hl & Hin). exists sel.
    split; [exact Hl|]. apply elem_of_app. by left.
Qed.

Lemma clear_request_held (s : State) (r : Z) : held s -> held (clear_request s r).
Proof.
  intros Hheld. unfold clear_request.
  destruct (lookup_request _ _) as [request|]; [|exact Hheld].
  destruct (sent request); [exact Hheld|]. cbv zeta.
  match goal with
  | |- held (set_requests ?q ?t) => apply (held_same t); [by repeat split|]
  end.
  by apply held_reject.
Qed.

Lemma read_request_held (fb : Framebuffer) (s : State) (r : Z) :
  held s -> held (read_request fb s r).
Proof.
  intros Hheld. unfold read_request.
  destruct (lookup_request _ _) as [request|]; [|exact Hheld].
  destruct (sent request); [exact Hheld|]. cbv zeta.
  set (s1 := readPixels fb (sample_x request) (sample_y request) s).
  assert (H1 : held s1).
  { apply (held_same s); [|exact Hheld]. unfold s1, readPixels. by destruct (fb _ _). }
  match goal with
  | |- held (set_requests ?q ?t) => apply (held_same t); [by repeat split|]
  end.
  destruct (negb _).
  - destruct (workers s1 !! _) as [[w|]|]; try exact H1.
    by apply held_post.
  - by apply finishRead_held.
Qed.

Lemma fold_held (f : State -> Z -> State) (rs : list Z) :
  (forall s r, held s -> held (f s r)) -> forall s, held s -> held (fold_left f rs s).
Proof.
  intros Hf. induction rs as [|r rs IH]; intros s Hheld; [exact Hheld|].
  cbn [fold_left]. apply IH, Hf, Hheld.
Qed.

Lemma read_back_held (lk : bool) (fb : Framebuffer) (s : State) :
  held s -> held (read_back lk fb s).
Proof.
  intros Hheld. unfold read_back. destruct (locked s lk); [exact Hheld|]. cbv zeta.
  match goal with
  | |- held (set_gl_calls ?q ?t) => apply (held_same t); [by repeat split|]
  end.
  apply fold_held; [apply read_request_held|]. by apply (held_same s).
Qed.

Lemma alter_lookup (f : Selection -> Selection) (h : list Selection) (l l' : nat)
    (sel : Selection) :
  h !! l' = Some sel ->
  alter f l h !! l' = Some (if decide (l = l') then f sel else sel).
Proof.
  intros Hl'. destruct (decide (l = l')) as [->|Hne].
  - by rewrite list_lookup_alter_eq, Hl'.
  - by rewrite list_lookup_alter_ne.
Qed.

(** A change of [selection_colors] or [update_pending] of an object
    that has a group. *)
Lemma held_alter (f : Selection -> Selection) (l : nat) (s : State) :
  (forall sel, sel_request (f sel) = sel_request sel /\
               sel_feature (f sel) = sel_feature sel /\
               sel_group (f sel) = sel_group sel) ->
  (forall sel, heap s !! l = Some sel -> is_Some (sel_group sel)) ->
  held s -> held (set_heap (alter f l (heap s)) s).
Proof.
  intros Hf Hgrp (H1 & H2 & H3 & H4). unfold held, state_at, update_posts. fields.
  split; [|split; [|split]].
  - intros r l' Hin. destruct (H1 r l' Hin) as (sel & Hl' & Hr).
    eexists. split; [by apply alter_lookup|].
    destruct (decide _); [|exact Hr]. by rewrite (proj1 (Hf sel)).
  - intros k l' Hk. destruct (H2 k l' Hk) as (sel & Hl' & Hr).
    eexists. split; [by apply alter_lookup|].
    destruct (decide _); [|exact Hr]. by rewrite (proj1 (Hf sel)).
  - eapply Forall_impl; [exact H3|]. intros kl (sel & Hl' & Hg).
    eexists. split; [by apply alter_lookup|].
    destruct (decide _); [|exact Hg]. by rewrite (proj2 (proj2 (Hf sel))).
  - apply Forall_alter; [exact H4|]. intros sel Hl [Hs1 Hs2].
    destruct (Hf sel) as (_ & Hfe & Hgr). unfold shaped. rewrite Hfe, Hgr.
    split; [exact Hs1|]. intros Hnone.
    destruct (proj2 Hs1 (Hgrp sel Hl)) as [x Hx]. congruence.
Qed.

Lemma updateState_held (k : string) (s : State) : held s -> held (updateState k s).1.
Proof.
  intros Hheld. unfold updateState.
  destruct (state_at s k) as [l|]; [|exact Hheld].
  destruct (heap s !! l) as [st|] eqn:Hst; [|exact Hheld].
  destruct (sel_group st) as [grp|] eqn:Hg; [|exact Hheld].
  destruct (_ || _); [exact Hheld|]. cbn [fst].
  pose proof (held_alter (set_update_pending true) l s) as Halt.
  assert (H1 : held (set_heap (alter (set_update_pending true) l (heap s)) s)).
  { apply Halt; [by intros sel | | exact Hheld].
    intros sel Hsel. rewrite Hst in Hsel. injection Hsel as <-. rewrite Hg. eauto. }
  destruct H1 as (H1 & H2 & H3 & H4). unfold held, state_at, update_posts, postMessage in *.
  fields. fields in H1. fields in H2. fields in H3. fields in H4.
  split; [exact H1|]. split; [exact H2|]. split; [|exact H4].
  rewrite omap_app. apply Forall_app. split; [exact H3|]. cbn.
  apply Forall_singleton. cbn. rewrite list_lookup_alter_eq, Hst. cbn.
  eexists. split; [reflexivity|]. cbn. rewrite Hg. eauto.
Qed.

Lemma held_answer (s : State) (i : nat) (p : Post) :
  held s -> awaiting s !! i = Some p ->
  held (set_awaiting (delete i (awaiting s)) s) /\
  forall k l, continuation p = ThenStoreColors k l ->
    exists sel, heap s !! l = Some sel /\ is_Some (sel_group sel).
Proof.
  intros (H1 & H2 & H3 & H4) Hi. rewrite Forall_forall in H3. split.
  - unfold held, state_at, update_posts. fields. split; [exact H1|]. split; [exact H2|].
    split; [|exact H4]. apply Forall_forall. intros kl Hin. apply H3.
    apply list_elem_of_omap in Hin as (p' & Hp' & Hkl). apply list_elem_of_omap.
    exists p'. split; [|exact Hkl]. by eapply list_elem_of_delete_inv.
  - intros k l Hc. apply (H3 (k, l)). apply list_elem_of_omap. exists p.
    split; [by eapply list_elem_of_lookup_2|]. unfold update_of. by rewrite Hc.
Qed.

Lemma deliver_held (p : Post) (reply : Reply) (i : nat) (s : State) :
  held s -> awaiting s !! i = Some p ->
  held (deliver p reply (set_awaiting (delete i (awaiting s)) s)).
Proof.
  intros Hheld Hi. destruct (held_answer s i p Hheld Hi) as [H0 Hup].
  set (s0 := set_awaiting (delete i (awaiting s)) s) in *.
  unfold deliver.
  destruct (continuation p) as [|request f chg grp|k l], reply as [message|colors];
    try exact H0.
  - by apply finishRead_held.
  - match goal with
    | |- held (set_requests ?q ?t) => apply (held_same t); [by repeat split|]
    end.
    apply held_resolve; [apply shaped_feature | reflexivity | exact H0].
  - cbv zeta. fields.
    set (s1 := set_logged _ s0).
    apply (held_alter _ l s1); [by intros sel | | by apply (held_same s0)].
    intros sel Hsel. destruct (Hup k l eq_refl) as (sel' & Hsel' & Hg).
    change (heap s1) with (heap s) in Hsel. congruence.
Qed.

Lemma step_held (s : State) (e : Event) : held s -> held (step s e).
Proof.
  intros Hheld. destruct e; cbn [step].
  - by apply (held_same s).
  - apply fold_held; [apply clear_request_held | exact Hheld].
  - apply (held_same s); [|exact Hheld].
    unfold read, setTimeout, clearTimeout. by destruct (read_delay_timer s).
  - unfold timeout. destruct (bool_decide _); [|exact Hheld].
    apply read_back_held. by apply (held_same s).
  - destruct (awaiting s !! i) as [p|] eqn:Hi; [|exact Hheld]. by apply deliver_held.
  - by apply updateState_held.
  - destruct Hheld as (H1 & H2 & H3 & H4). unfold held, clearState, state_at. fields.
    split; [exact H1|]. split; [|by split].
    intros k l. destruct (decide (k = state_key)) as [->|Hne].
    + by rewrite lookup_insert_eq.
    + rewrite lookup_insert_ne by congruence. apply H2.
Qed.

Lemma run_held (es : list Event) : forall s : State, held s -> held (run s es).
Proof.
  induction es as [|e es IH]; intros s Hheld; [exact Hheld|].
  cbn [run fold_left]. apply IH, step_held, Hheld.
Qed.

Lemma reachable_held (s : State) : reachable s -> held s.
Proof.
  intros (ws & lk & es & ->). apply run_held.
  split; [|split; [|split]]; try constructor.
  - intros r l Hin. by apply elem_of_nil in Hin.
  - intros k l. unfold state_at. cbn. by rewrite lookup_empty.
Qed.

(** X19. What [this.states] holds under a state name is always an
    existing selection object, the very one that the promise of a
    request was resolved with, and of that request only. *)
Theorem cached_state_is_resolved_selection (s : State) (state_key : string) (l : Loc) :
  reachable s -> state_at s state_key = Some l ->
  exists sel, heap s !! l = Some sel /\
              Resolved (sel_request sel) l ∈ settled s /\
              forall r, Resolved r l ∈ settled s -> r = sel_request sel.
Proof.
  intros Hre Hst. destruct (reachable_held s Hre) as (H1 & H2 & _).
  destruct (H2 _ _ Hst) as (sel & Hl & Hin). exists sel.
  split; [exact Hl|]. split; [exact Hin|].
  intros r Hr. destruct (H1 r l Hr) as (sel' & Hl' & <-). congruence.
Qed.

Lemma cached_state_is_resolved_selection_witness :
  exists sel, heap hover_selected !! 0%nat = Some sel /\
              Resolved (sel_request sel) 0%nat ∈ settled hover_selected /\
              forall r, Resolved r 0%nat ∈ settled hover_selected -> r = sel_request sel.
Proof.
  apply (cached_state_is_resolved_selection hover_selected "hover" 0%nat).
  - eexists _, _, _. reflexivity.
  - vm_compute. reflexivity.
Defined.

(** X20. A selection that a promise was resolved with names the
    request of that promise; it has a group exactly when it has a
    feature; and one without a feature has no selection colours and
    no update pending, whatever happened since. *)
Theorem selections_shaped (s : State) (r : Z) (l : Loc) :
  reachable s -> Resolved r l ∈ settled s ->
  exists sel, heap s !! l = Some sel /\ sel_request sel = r /\
              (is_Some (sel_feature sel) <-> is_Some (sel_group sel)) /\
              (sel_feature sel = None ->
               selection_colors sel = [] /\ update_pending sel = false).
Proof.
  intros Hre Hin. destruct (reachable_held s Hre) as (H1 & _ & _ & H4).
  destruct (H1 r l Hin) as (sel & Hl & Hr). exists sel.
  split; [exact Hl|]. split; [exact Hr|].
  rewrite Forall_forall in H4. apply H4. by eapply list_elem_of_lookup_2.
Qed.

Lemma selections_shaped_witness :
  exists sel, heap nothing_hovered !! 0%nat = Some sel /\ sel_request sel = 0 /\
              (is_Some (sel_feature sel) <-> is_Some (sel_group sel)) /\
              (sel_feature sel = None ->
               selection_colors sel = [] /\ update_pending sel = false).
Proof.
  apply (selections_shaped nothing_hovered 0 0%nat).
  - eexists _, _, _. reflexivity.
  - vm_compute. left.
Defined.

End ObjectsFacts.

(** ** From the answer of a worker to the promise *)

Module AnswerFacts.
Import JS Main Invariants MainFacts StuckFacts Reachable.
Import Routing RoutingFacts Addressing AddressingFacts Objects ObjectsFacts.
Import Samples Cases.

(** What is known of a query that a reachable instance awaits the
    answer to. *)
Lemma awaited_query (s : State) (i : nat) (p : Post) (r key : Z) :
  reachable_faithfully s ->
  awaiting s !! i = Some p ->
  payload p = SelectionQuery r key -> continuation p = ThenFinishRead ->
  exists request,
    lookup_request (requests s) r = Some request /\ sent request = true /\
    id request = r /\ is_settled s r = false /\
    r ∉ omap about (delete i (awaiting s)).
Proof.
  intros (ws & lk & es & Hf & ->) Hi Hpay Hc.
  set (s := run (init ws lk) es) in *.
  destruct (init_consistent ws lk) as [Hok0 _].
  pose proof (proj1 (run_good es _ Hok0)) as Hok. fold s in Hok.
  destruct (expected_run es (init ws lk) Hok0) as [Hex _]; trivial.
  { split; constructor. }
  { constructor. }
  fold s in Hex.
  assert (Hab : about p = Some r) by (unfold about; by rewrite Hc, Hpay).
  destruct (awaits_answer _ _ i p Hex Hi) as [_ Hp].
  destruct (Hp r Hab) as (Hnew & request & Hlk & Hsent).
  pose proof (lookup_request_id _ _ _ Hlk) as Hid.
  exists request. repeat split; trivial.
  destruct Hok as (_ & _ & H3 & _). rewrite Forall_forall in H3.
  rewrite <- Hid. apply (H3 request). by eapply lookup_request_elem.
Qed.

(** X21. When the worker answers an awaited query with no feature,
    the promise of the request is resolved at once with the
    no-feature selection, the request leaves the queue, the selected
    feature becomes null and nothing is posted. *)
Theorem answer_without_feature_resolves (s : State) (i : nat) (p : Post) (r key : Z)
    (grp : option Group) :
  reachable_faithfully s ->
  awaiting s !! i = Some p ->
  payload p = SelectionQuery r key -> continuation p = ThenFinishRead ->
  let s' := step s (Answer i (ReplyMessage
                     {| msg_id := r; msg_feature := None; msg_group := grp |})) in
  settled s' = settled s ++ [Resolved r (length (heap s))] /\
  heap s' = heap s ++ [no_feature r (feature s)] /\
  lookup_request (requests s') r = None /\
  posted s' = posted s /\
  awaiting s' = delete i (awaiting s) /\
  feature s' = None.
Proof.
  intros Hre Hi Hpay Hc s'.
  destruct (awaited_query s i p r key Hre Hi Hpay Hc)
    as (request & Hlk & Hsent & Hid & Hset & _).
  subst s'. cbn [step]. rewrite Hi. unfold deliver. rewrite Hc.
  unfold finishRead. cbn [msg_id msg_feature msg_group]. fields. rewrite Hlk.
  cbn [fst]. unfold resolve. fields.
  assert (is_settled (set_feature None (set_awaiting (delete i (awaiting s)) s))
            (id request) = false) as -> by (rewrite Hid; exact Hset).
  assert (Hgone : lookup_request (delete_request r (requests s)) r = None).
  { rewrite lookup_delete_request. by rewrite Z.eqb_refl. }
  unfold no_feature. rewrite Hid.
  destruct (given (state request)); fields; by repeat split.
Qed.

Lemma answer_without_feature_resolves_witness :
  let s' := step query_awaited (Answer 0%nat (ReplyMessage
                     {| msg_id := 0; msg_feature := None; msg_group := None |})) in
  settled s' = settled query_awaited ++ [Resolved 0 (length (heap query_awaited))] /\
  heap s' = heap query_awaited ++ [no_feature 0 (feature query_awaited)] /\
  lookup_request (requests s') 0 = None /\
  posted s' = posted query_awaited /\
  awaiting s' = delete 0%nat (awaiting query_awaited) /\
  feature s' = None.
Proof.
  apply (answer_without_feature_resolves query_awaited 0%nat first_query 0 1 None
           query_awaited_faithfully).
  - vm_compute. reflexivity.
  - reflexivity.
  - reflexivity.
Defined.

(** X22. When the worker answers an awaited query with a feature
    and its group, one group colour request goes to the whole pool
    and no promise is settled yet; when the colours arrive, the
    promise of the request is resolved with a new selection that
    holds the feature, the [changed] flag computed when the feature
    arrived, the colours and the group; the request leaves the queue
    and the selection is cached under the state name of the request,
    if it has one. *)
Theorem answer_with_feature_resolves (s : State) (i : nat) (p : Post) (r key : Z)
    (f : Feature) (grp : Group) (colors : list value) :
  reachable_faithfully s ->
  awaiting s !! i = Some p ->
  payload p = SelectionQuery r key -> continuation p = ThenFinishRead ->
  let chg := feature_changed (Some f) (feature s) in
  let sel := {| sel_feature := Some f; changed := chg; sel_request := r;
                selection_colors := colors; sel_group := Some grp;
                update_pending := false |} in
  let s1 := step s (Answer i (ReplyMessage
                     {| msg_id := r; msg_feature := Some f; msg_group := Some grp |})) in
  let s2 := step s1 (Answer (length (awaiting s) - 1) (ReplyColors colors)) in
  exists request,
    lookup_request (requests s) r = Some request /\
    posted s1 = posted s ++
      [{| target := ToAll (workers s); method := "self.getFeatureSelectionGroupColor";
          payload := GroupKey (Static.key grp);
          continuation := ThenResolve request f chg grp |}] /\
    settled s1 = settled s /\
    settled s2 = settled s ++ [Resolved r (length (heap s))] /\
    heap s2 = heap s ++ [sel] /\
    lookup_request (requests s2) r = None /\
    awaiting s2 = delete i (awaiting s) /\
    (forall k, given (state request) = Some k -> state_at s2 k = Some (length (heap s))).
Proof.
  intros Hre Hi Hpay Hc chg sel s1 s2.
  destruct (awaited_query s i p r key Hre Hi Hpay Hc)
    as (request & Hlk & Hsent & Hid & Hset & _).
  exists request. split; [exact Hlk|].
  set (post := {| target := ToAll (workers s); method := "self.getFeatureSelectionGroupColor";
                  payload := GroupKey (Static.key grp);
                  continuation := ThenResolve request f chg grp |}).
  assert (H1 : s1 = postMessage post
                 (set_feature (Some f) (set_awaiting (delete i (awaiting s)) s))).
  { subst s1. cbn [step]. rewrite Hi. unfold deliver. rewrite Hc.
    unfold finishRead. cbn [msg_id msg_feature msg_group]. fields. by rewrite Hlk. }
  assert (Hlen : length (delete i (awaiting s)) = (length (awaiting s) - 1)%nat).
  { pose proof (lookup_lt_Some _ _ _ Hi) as Hlt.
    rewrite delete_take_drop, length_app, length_take, length_drop. lia. }
  assert (Ha1 : awaiting s1 = delete i (awaiting s) ++ [post]) by (by rewrite H1).
  assert (Hj : awaiting s1 !! (length (awaiting s) - 1)%nat = Some post).
  { rewrite Ha1, <- Hlen. by apply list_lookup_middle. }
  assert (Hdel : delete (length (awaiting s) - 1)%nat (awaiting s1) = delete i (awaiting s)).
  { rewrite Ha1, <- Hlen, delete_take_drop, take_app_length.
    rewrite drop_app_ge by lia. replace (S _ - _)%nat with 1%nat by lia.
    cbn. by rewrite app_nil_r. }
  split; [by rewrite H1|]. split; [by rewrite H1|].
  subst s2. cbn [step]. rewrite Hj, Hdel. unfold deliver. cbn [continuation post].
  unfold resolve. fields.
  assert (is_settled (set_awaiting (delete i (awaiting s)) s1) (id request) = false) as ->.
  { rewrite Hid. unfold is_settled. fields. by rewrite H1. }
  assert (Hgone : lookup_request (delete_request r (requests s1)) r = None).
  { rewrite lookup_delete_request. by rewrite Z.eqb_refl. }
  assert (Hh : heap s1 = heap s) by (by rewrite H1).
  assert (Hst : settled s1 = settled s) by (by rewrite H1).
  subst sel. rewrite Hid.
  destruct (given (state request)) as [k0|] eqn:Hgiven; fields;
    rewrite ?Hh, ?Hst; (split; [reflexivity|]); (split; [reflexivity|]);
    (split; [exact Hgone|]); (split; [reflexivity|]).
  - intros k [= <-]. unfold state_at. fields. by rewrite lookup_insert_eq.
  - discriminate.
Qed.

Lemma answer_with_feature_resolves_witness :
  let s1 := step query_awaited (Answer 0%nat (ReplyMessage
                     {| msg_id := 0; msg_feature := Some feature_no_name;
                        msg_group := Some road_group |})) in
  let s2 := step s1 (Answer 0%nat (ReplyColors first_colors)) in
  settled s2 = [Resolved 0 0%nat] /\
  heap s2 = [hover_selection] /\
  lookup_request (requests s2) 0 = None.
Proof.
  destruct (answer_with_feature_resolves query_awaited 0%nat first_query 0 1 feature_no_name
              road_group first_colors query_awaited_faithfully)
    as (request & _ & _ & _ & H4 & H5 & H6 & _).
  - vm_compute. reflexivity.
  - reflexivity.
  - reflexivity.
  - split; [exact H4|]. split; [exact H5|exact H6].
Defined.

(** X23. For a state name under which a selection without a
    feature is cached, [updateState] does nothing and posts
    nothing. *)
Theorem updateState_without_feature (s : State) (state_key : string) (l : Loc)
    (sel : Selection) :
  reachable s ->
  state_at s state_key = Some l -> heap s !! l = Some sel -> sel_feature sel = None ->
  updateState state_key s = (s, ResolvedAlready).
Proof.
  intros Hre Hst Hl Hnone. destruct (reachable_held s Hre) as (_ & _ & _ & H4).
  rewrite Forall_forall in H4. destruct (H4 sel (list_elem_of_lookup_2 _ _ _ Hl)) as [H1 _].
  unfold updateState. rewrite Hst, Hl.
  destruct (sel_group sel) as [grp|] eqn:Hg; [|reflexivity].
  destruct (proj2 H1 ltac:(eauto)) as [x Hx]. congruence.
Qed.

Lemma updateState_without_feature_witness :
  updateState "hover" nothing_hovered = (nothing_hovered, ResolvedAlready).
Proof.
  apply (updateState_without_feature nothing_hovered "hover" 0%nat
           (no_feature 0 None)).
  - eexists _, _, _. reflexivity.
  - vm_compute. reflexivity.
  - vm_compute. reflexivity.
  - reflexivity.
Defined.

Lemma reachable_pixel_ok (s : State) : reachable s -> pixel_ok (pixel s).
Proof.
  intros (ws & lk & es & ->). destruct (run_posts es (init ws lk)) as (_ & Hpx & _).
  apply Hpx. unfold pixel_ok. cbn. lia.
Qed.

(** X24. When the sample position of a request lies outside the
    buffer, so that [readPixels] leaves [this.pixel] as it is, the
    request is dealt with as if the buffer held, at that position,
    the bytes left by the sample before.  (The pixel of a reachable
    instance holds bytes: [reachable_pixel_ok].) *)
Theorem sample_outside_buffer (fb : Framebuffer) (s : State) (r : Z) (request : Request) :
  pixel_ok (pixel s) ->
  lookup_request (requests s) r = Some request -> sent request = false ->
  fb (sample_x request) (sample_y request) = None ->
  read_request fb s r = read_request (fun _ _ => Some (pixel s)) s r.
Proof.
  intros (H0 & H1 & H2 & H3) Hlk Hsent Hfb. unfold read_request. rewrite Hlk, Hsent.
  cbv zeta.
  assert (Hsame : readPixels (fun _ _ => Some (pixel s)) (sample_x request) (sample_y request) s =
                  readPixels fb (sample_x request) (sample_y request) s).
  { unfold readPixels. rewrite Hfb. unfold to_uint8. rewrite !Z.mod_small by lia.
    destruct s as [? ? ? ? ? ? ? px]. by destruct px. }
  by rewrite Hsame.
Qed.

Lemma sample_outside_buffer_witness :
  read_request outside hover_requested 0 =
  read_request (fun _ _ => Some (pixel hover_requested)) hover_requested 0.
Proof.
  apply (sample_outside_buffer outside hover_requested 0
           {| id := 0; point := centre; state := Some "hover"; sent := false |}).
  - unfold pixel_ok. vm_compute. repeat split; discriminate.
  - vm_compute. reflexivity.
  - reflexivity.
  - reflexivity.
Defined.

End AnswerFacts.

(** ** The frame buffer is deleted once *)

Module BufferFacts.
Import Buffer.

Lemma deleted_once_app (cs cs' : list Call) :
  deleted_once cs = true -> forallb spares cs' = true ->
  existsb deletes cs = true ->
  deleted_once (cs ++ cs') = true.
Proof.
  induction cs as [|c cs IH]; cbn; [discriminate|].
  intros Hcs Hcs' Hex. destruct c; cbn in *; try (by apply IH).
  rewrite forallb_app. by rewrite Hcs, Hcs'.
Qed.

Lemma deleted_once_fresh (cs cs' : list Call) :
  existsb deletes cs = false -> deleted_once cs' = true ->
  deleted_once (cs ++ cs') = true.
Proof.
  induction cs as [|c cs IH]; cbn; [done|].
  intros Hex Hcs'. destruct c; cbn in *; try discriminate; by apply IH.
Qed.

Lemma use_safe (b : Instance) (u : Use) :
  deleted_once (calls b) = true ->
  (is_Some (fbo b) -> existsb deletes (calls b) = false) ->
  deleted_once (calls (use b u)) = true /\
  (is_Some (fbo (use b u)) -> existsb deletes (calls (use b u)) = false).
Proof.
  intros Hsafe Hlive. destruct u; cbn [use].
  - unfold bind, call. cbn [calls fbo]. split.
    + destruct (fbo b) as [h|] eqn:Hf.
      * apply deleted_once_fresh; [apply Hlive; eauto | reflexivity].
      * destruct (existsb deletes (calls b)) eqn:Hex.
        -- by apply deleted_once_app.
        -- by apply deleted_once_fresh.
    + intros Hs. rewrite existsb_app, (Hlive Hs). reflexivity.
  - unfold destroy. destruct (fbo b) as [h|] eqn:Hf; cbn [calls fbo].
    + split; [|by intros [x Hx]].
      apply deleted_once_fresh; [apply Hlive; eauto | reflexivity].
    + split; [exact Hsafe|]. rewrite Hf. by intros [x Hx].
Qed.

Lemma uses_without_destroy (us : list Use) : forall b : Instance,
  ~ In Destroy us -> fbo (uses b us) = fbo b.
Proof.
  induction us as [|u us IH]; intros b Hno; [reflexivity|].
  cbn [uses fold_left]. fold (uses (use b u) us).
  rewrite IH by (intros Hin; apply Hno; by right).
  destruct u; [reflexivity|]. exfalso. apply Hno. by left.
Qed.

Lemma uses_destroyed (us : list Use) : forall b : Instance,
  fbo b = None -> fbo (uses b us) = None.
Proof.
  induction us as [|u us IH]; intros b Hb; [exact Hb|].
  cbn [uses fold_left]. apply IH. destruct u; cbn [use]; [exact Hb|].
  unfold destroy. by rewrite Hb.
Qed.

Lemma uses_after_destroy (us : list Use) : forall b : Instance,
  In Destroy us -> fbo (uses b us) = None.
Proof.
  induction us as [|u us IH]; intros b Hin; [destruct Hin|].
  cbn [uses fold_left]. fold (uses (use b u) us).
  destruct Hin as [->|Hin]; [|by apply IH].
  apply uses_destroyed. cbn [use]. unfold destroy. by destruct (fbo b) eqn:Hf.
Qed.

Lemma uses_safe (us : list Use) : forall b : Instance,
  deleted_once (calls b) = true ->
  (is_Some (fbo b) -> existsb deletes (calls b) = false) ->
  deleted_once (calls (uses b us)) = true.
Proof.
  induction us as [|u us IH]; intros b H1 H2; [exact H1|].
  cbn [uses fold_left]. fold (uses (use b u) us).
  destruct (use_safe b u H1 H2) as [H1' H2']. by apply IH.
Qed.

(** X25. Whatever sequence of [bind()] and [destroy()] calls
    follows [init()], the frame buffer is deleted at most once and is
    not bound after it was deleted ([bind()] then binds [null]); once
    [destroy()] has been called [this.fbo] is [null], and until then
    it is the frame buffer that [init()] created. *)
Theorem framebuffer_deleted_once (made : Created) (us : list Use) :
  let b := uses (init made) us in
  deleted_once (calls b) = true /\
  (In Destroy us -> fbo b = None) /\
  (~ In Destroy us -> fbo b = new_framebuffer made).
Proof.
  cbv zeta. split; [|split].
  - by apply uses_safe.
  - apply uses_after_destroy.
  - intros Hno. by rewrite uses_without_destroy.
Qed.

End BufferFacts.

(** ** Where the buffer is sampled *)

Module SamplingFacts.
Import JS Main Invariants MainFacts.

Lemma Qfloor_range (q : Q) (a b : Z) :
  a <= Qfloor q < b <-> (inject_Z a <= q /\ q < inject_Z b)%Q.
Proof.
  pose proof (Qfloor_le q) as Hlo. pose proof (Qlt_floor q) as Hhi.
  split.
  - intros [Ha Hb]. split.
    + eapply Qle_trans; [|exact Hlo]. by rewrite <- Zle_Qle.
    + eapply Qlt_le_trans; [exact Hhi|]. rewrite <- Zle_Qle. lia.
  - intros [Ha Hb]. split.
    + rewrite <- (Qfloor_Z a). by apply Qfloor_resp_le.
    + apply Z.lt_nge. intros Hge. apply (Qlt_not_le _ _ Hb).
      eapply Qle_trans; [|exact Hlo]. by rewrite <- Zle_Qle.
Qed.

Lemma two_gt_1 : (1 < 2)%Q.
Proof. reflexivity. Qed.

Lemma two_ne_0 : ~ (2 == 0)%Q.
Proof. discriminate. Qed.

Lemma pow2_pos (e : Z) : (0 < 2 ^ e)%Q.
Proof. by apply Qpower_0_lt. Qed.

Lemma pow2_log2 (n : Z) :
  0 < n -> (2 ^ Z.log2 n <= inject_Z n /\ inject_Z n < 2 ^ (Z.log2 n + 1))%Q.
Proof.
  intros Hn. destruct (Z.log2_spec n Hn) as [Hlo Hhi].
  pose proof (Z.log2_nonneg n) as H0.
  split.
  - rewrite <- (Zpower_Qpower 2) by trivial. by rewrite <- Zle_Qle.
  - rewrite <- (Zpower_Qpower 2) by lia. rewrite <- Zlt_Qlt.
    by replace (Z.log2 n + 1) with (Z.succ (Z.log2 n)) by lia.
Qed.

(** [binade q] is the exponent of the power of two at or below [q]. *)
Lemma binade_spec (q : Q) :
  (0 < q)%Q -> (2 ^ binade q <= q /\ q < 2 ^ (binade q + 1))%Q.
Proof.
  intros Hq. destruct q as [n d].
  assert (Hn : 0 < n) by (unfold Qlt in Hq; cbn in Hq; lia).
  destruct (pow2_log2 n Hn) as [Hn1 Hn2].
  destruct (pow2_log2 (Zpos d) eq_refl) as [Hd1 Hd2].
  set (ln := Z.log2 n) in *. set (ld := Z.log2 (Zpos d)) in *.
  assert (Hdpos : (0 < inject_Z (Zpos d))%Q) by reflexivity.
  assert (Hlo : (2 ^ (ln - ld - 1) < n # d)%Q).
  { rewrite (Qmake_Qdiv n d). apply Qlt_shift_div_l; [exact Hdpos|].
    eapply Qlt_le_trans; [|exact Hn1].
    eapply Qlt_le_trans; [apply Qmult_lt_l; [apply pow2_pos | exact Hd2]|].
    rewrite <- Qpower_plus by apply two_ne_0.
    replace (ln - ld - 1 + (ld + 1)) with ln by lia. apply Qle_refl. }
  assert (Hhi : (n # d < 2 ^ (ln - ld + 1))%Q).
  { rewrite (Qmake_Qdiv n d). apply Qlt_shift_div_r; [exact Hdpos|].
    eapply Qlt_le_trans; [exact Hn2|].
    replace (ln + 1) with (ln - ld + 1 + ld) by lia.
    rewrite Qpower_plus by apply two_ne_0.
    apply Qmult_le_l; [apply pow2_pos | exact Hd1]. }
  unfold binade. cbn [Qnum Qden]. fold ln ld.
  destruct (Qle_bool (2 ^ (ln - ld)) (n # d)) eqn:Hb.
  - apply Qle_bool_iff in Hb. split; [exact Hb | exact Hhi].
  - assert (Hlt : (n # d < 2 ^ (ln - ld))%Q).
    { apply Qnot_le_lt. intros Hle. apply Qle_bool_iff in Hle. congruence. }
    replace (ln - ld - 1 + 1) with (ln - ld) by lia.
    split; [by apply Qlt_le_weak | exact Hlt].
Qed.


(** What [round_half_even] does next to an integer [k]. *)
Lemma round_half_even_cases (q : Q) :
  let f := Qfloor q in
  (inject_Z f <= q)%Q /\ (q < inject_Z (f + 1))%Q /\
  ((q - inject_Z f < 1 # 2)%Q /\ round_half_even q = f \/
   (1 # 2 < q - inject_Z f)%Q /\ round_half_even q = f + 1 \/
   (q - inject_Z f == 1 # 2)%Q /\
     round_half_even q = (if Z.even f then f else f + 1)).
Proof.
  cbv zeta. split; [apply Qfloor_le|]. split; [apply Qlt_floor|].
  unfold round_half_even.
  destruct (q - inject_Z (Qfloor q) ?= 1 # 2)%Q eqn:Hc.
  - right. right. split; [by apply Qeq_alt | reflexivity].
  - left. split; [by apply Qlt_alt | reflexivity].
  - right. left. split; [by apply Qgt_alt | reflexivity].
Qed.

Ltac to_Z :=
  unfold Qle, Qlt, Qeq, Qminus, Qplus, Qopp, inject_Z in *; cbn [Qnum Qden] in *.

Lemma round_half_even_le (q : Q) (k : Z) :
  (q <= inject_Z k)%Q -> round_half_even q <= k.
Proof.
  intros Hk. destruct (round_half_even_cases q) as (Hlo & Hhi & Hc). cbv zeta in *.
  set (f := Qfloor q) in *. clearbody f. destruct q as [n d].
  destruct Hc as [[H ->]|[[H ->]|[H ->]]]; [| |destruct (Z.even f)]; to_Z; nia.
Qed.

Lemma round_half_even_ge (q : Q) (k : Z) :
  (inject_Z k <= q)%Q -> k <= round_half_even q.
Proof.
  intros Hk. destruct (round_half_even_cases q) as (Hlo & Hhi & Hc). cbv zeta in *.
  set (f := Qfloor q) in *. clearbody f. destruct q as [n d].
  destruct Hc as [[H ->]|[[H ->]|[H ->]]]; [| |destruct (Z.even f)]; to_Z; nia.
Qed.

Lemma round_half_even_below (q : Q) (k : Z) :
  (q < inject_Z k - (1 # 2))%Q -> round_half_even q <= k - 1.
Proof.
  intros Hk. destruct (round_half_even_cases q) as (Hlo & Hhi & Hc). cbv zeta in *.
  set (f := Qfloor q) in *. clearbody f. destruct q as [n d].
  destruct Hc as [[H ->]|[[H ->]|[H ->]]]; [| |destruct (Z.even f)]; to_Z; nia.
Qed.

Lemma round_half_even_above (q : Q) (k : Z) :
  Z.even k = true -> (inject_Z k - (1 # 2) <= q)%Q -> k <= round_half_even q.
Proof.
  intros Hev Hk. destruct (round_half_even_cases q) as (Hlo & Hhi & Hc). cbv zeta in *.
  set (f := Qfloor q) in *. clearbody f.
  destruct Hc as [[H ->]|[[H ->]|[H ->]]].
  - destruct q as [n d]. to_Z. nia.
  - destruct q as [n d]. to_Z. nia.
  - destruct (Z.even f) eqn:Hf; [|destruct q as [n d]; to_Z; nia].
    assert (f <> k - 1).
    { intros ->. rewrite Z.even_sub, Hev in Hf. discriminate. }
    destruct q as [n d]. to_Z. nia.
Qed.


(** The significand before rounding has 53 bits. *)
Lemma scaled_binade (q : Q) :
  (0 < q)%Q ->
  (2 ^ 52 <= q * 2 ^ (- (binade q - 52)) /\ q * 2 ^ (- (binade q - 52)) < 2 ^ 53)%Q.
Proof.
  intros Hq. destruct (binade_spec q Hq) as [Hlo Hhi].
  set (b := binade q) in *. clearbody b. split.
  - replace 52 with (b + - (b - 52)) at 1 by lia.
    rewrite Qpower_plus by apply two_ne_0.
    apply Qmult_le_compat_r; [exact Hlo | apply Qlt_le_weak, pow2_pos].
  - replace 53 with (b + 1 + - (b - 52)) by lia.
    rewrite (Qpower_plus 2 (b + 1)) by apply two_ne_0.
    apply Qmult_lt_compat_r; [apply pow2_pos | exact Hhi].
Qed.

Lemma round_double_positive (q : Q) :
  (0 < q)%Q ->
  round_double q =
    (inject_Z (round_half_even (q * 2 ^ (- (binade q - 52)))) * 2 ^ (binade q - 52))%Q.
Proof.
  intros Hq. destruct q as [[|p|p] d]; try (by exfalso; revert Hq; to_Z; lia).
  reflexivity.
Qed.

Lemma round_double_negative (q : Q) :
  (q < 0)%Q ->
  round_double q =
    (inject_Z (round_half_even (q * 2 ^ (- (binade (- q) - 52)))) * 2 ^ (binade (- q) - 52))%Q.
Proof.
  intros Hq. destruct q as [[|p|p] d]; try (by exfalso; revert Hq; to_Z; lia).
  reflexivity.
Qed.

Lemma round_double_0 (q : Q) : (q == 0)%Q -> round_double q = 0%Q.
Proof. intros Hq. unfold round_double. apply Qeq_bool_iff in Hq. by rewrite Hq. Qed.

Lemma round_double_gt_0 (q : Q) : (0 < q)%Q -> (0 < round_double q)%Q.
Proof.
  intros Hq. rewrite round_double_positive by trivial.
  destruct (scaled_binade q Hq) as [Hlo _].
  apply (round_half_even_ge _ (2 ^ 52)) in Hlo.
  apply Qmult_lt_0_compat; [|apply pow2_pos].
  change 0%Q with (inject_Z 0). rewrite <- Zlt_Qlt. lia.
Qed.

Lemma round_double_lt_0 (q : Q) : (q < 0)%Q -> (round_double q < 0)%Q.
Proof.
  intros Hq. rewrite round_double_negative by trivial.
  assert (Hpos : (0 < - q)%Q).
  { apply (Qplus_lt_l _ _ q). ring_simplify. exact Hq. }
  destruct (scaled_binade (- q) Hpos) as [Hlo _].
  set (e := binade (- q) - 52) in *. clearbody e.
  assert (Hle : (q * 2 ^ (- e) <= inject_Z (- 2 ^ 52))%Q).
  { apply Qopp_le_compat in Hlo.
    assert (Heq : (- (- q * 2 ^ (- e)) == q * 2 ^ (- e))%Q) by ring.
    rewrite Heq in Hlo. exact Hlo. }
  apply round_half_even_le in Hle.
  set (m := round_half_even _) in *. clearbody m.
  apply (Qplus_lt_l _ _ (- (inject_Z m * 2 ^ e))). ring_simplify.
  assert (Hm : (0 < inject_Z (- m))%Q).
  { change 0%Q with (inject_Z 0). rewrite <- Zlt_Qlt. lia. }
  pose proof (Qmult_lt_0_compat _ _ Hm (pow2_pos e)) as H.
  rewrite inject_Z_opp in H.
  assert (Heq : (- inject_Z m * 2 ^ e == (-1 # 1) * inject_Z m * 2 ^ e)%Q) by ring.
  rewrite <- Heq. exact H.
Qed.

(** Below the midpoint of the last two doubles up to 1 the result is
    below 1, from the midpoint on it is at least 1. *)
Lemma round_double_lt_1 (q : Q) :
  (0 < q)%Q -> (q < 1 - (1 # 2 ^ 54))%Q -> (round_double q < 1)%Q.
Proof.
  intros Hq Hlt. rewrite round_double_positive by trivial.
  destruct (binade_spec q Hq) as [Hlo Hhi].
  destruct (scaled_binade q Hq) as [Hlo' Hhi'].
  set (b := binade q) in *. clearbody b.
  assert (Hb : b < 0).
  { apply (Qpower_lt_compat_l_inv 2); [|apply two_gt_1].
    eapply Qle_lt_trans; [exact Hlo|]. eapply Qlt_trans; [exact Hlt|]. reflexivity. }
  destruct (Z.eq_dec b (-1)) as [->|Hne].
  - change (- (-1 - 52)) with 53 in *. change (-1 - 52) with (-53).
    assert (Ha : (q * 2 ^ 53 < inject_Z (2 ^ 53) - (1 # 2))%Q).
    { eapply Qlt_le_trans;
        [apply Qmult_lt_compat_r; [apply pow2_pos | exact Hlt]|].
      apply Qle_lteq. right. reflexivity. }
    apply round_half_even_below in Ha.
    set (m := round_half_even _) in *. clearbody m.
    eapply Qle_lt_trans;
      [apply Qmult_le_compat_r; [|apply Qlt_le_weak, pow2_pos]|].
    + rewrite <- Zle_Qle. exact Ha.
    + reflexivity.
  - assert (Ha : (q * 2 ^ (- (b - 52)) <= inject_Z (2 ^ 53))%Q).
    { eapply Qle_trans; [apply Qlt_le_weak, Hhi'|]. apply Qle_lteq. right. reflexivity. }
    apply round_half_even_le in Ha.
    set (m := round_half_even _) in *. clearbody m.
    eapply Qle_lt_trans;
      [apply Qmult_le_compat_r; [|apply Qlt_le_weak, pow2_pos]|].
    + rewrite <- Zle_Qle. exact Ha.
    + assert (Heq : (inject_Z (2 ^ 53) * 2 ^ (b - 52) == 2 ^ (b + 1))%Q).
      { replace (b + 1) with (53 + (b - 52)) by lia.
        rewrite Qpower_plus by apply two_ne_0. reflexivity. }
      rewrite Heq.
      eapply Qle_lt_trans; [apply (Qpower_le_compat_l 2 (b + 1) (-1)); [lia|]|].
      * apply Qlt_le_weak, two_gt_1.
      * reflexivity.
Qed.

Lemma round_double_ge_1 (q : Q) :
  (1 - (1 # 2 ^ 54) <= q)%Q -> (1 <= round_double q)%Q.
Proof.
  intros Hge.
  assert (Hq : (0 < q)%Q) by (eapply Qlt_le_trans; [|exact Hge]; reflexivity).
  rewrite round_double_positive by trivial.
  destruct (binade_spec q Hq) as [Hlo Hhi].
  destruct (scaled_binade q Hq) as [Hlo' Hhi'].
  set (b := binade q) in *. clearbody b.
  assert (Hb : -1 <= b).
  { assert (H : -1 < b + 1); [|lia].
    apply (Qpower_lt_compat_l_inv 2); [|apply two_gt_1].
    eapply Qle_lt_trans; [|exact Hhi]. eapply Qle_trans; [|exact Hge]. discriminate. }
  destruct (Z.eq_dec b (-1)) as [->|Hne].
  - change (- (-1 - 52)) with 53 in *. change (-1 - 52) with (-53).
    assert (Ha : (inject_Z (2 ^ 53) - (1 # 2) <= q * 2 ^ 53)%Q).
    { eapply Qle_trans;
        [|apply Qmult_le_compat_r; [exact Hge | apply Qlt_le_weak, pow2_pos]].
      apply Qle_lteq. right. reflexivity. }
    apply round_half_even_above in Ha; [|reflexivity].
    set (m := round_half_even _) in *. clearbody m.
    apply (Qle_trans _ (inject_Z (2 ^ 53) * 2 ^ (-53))); [discriminate|].
    apply Qmult_le_compat_r; [|apply Qlt_le_weak, pow2_pos].
    rewrite <- Zle_Qle. exact Ha.
  - assert (Ha : (inject_Z (2 ^ 52) <= q * 2 ^ (- (b - 52)))%Q).
    { eapply Qle_trans; [|exact Hlo']. apply Qle_lteq. right. reflexivity. }
    apply round_half_even_ge in Ha.
    set (m := round_half_even _) in *. clearbody m.
    apply (Qle_trans _ (2 ^ b)).
    { apply (Qpower_1_le 2 b); [apply Qlt_le_weak, two_gt_1 | lia]. }
    apply (Qle_trans _ (inject_Z (2 ^ 52) * 2 ^ (b - 52))).
    { replace b with (52 + (b - 52)) at 1 by lia.
      rewrite Qpower_plus by apply two_ne_0. apply Qle_lteq. right. reflexivity. }
    apply Qmult_le_compat_r; [|apply Qlt_le_weak, pow2_pos].
    rewrite <- Zle_Qle. exact Ha.
Qed.


Lemma round_double_le_1 (q : Q) : (0 < q)%Q -> (q <= 1)%Q -> (round_double q <= 1)%Q.
Proof.
  intros Hq Hle. rewrite round_double_positive by trivial.
  destruct (binade_spec q Hq) as [Hlo Hhi].
  destruct (scaled_binade q Hq) as [Hlo' Hhi'].
  set (b := binade q) in *. clearbody b.
  assert (Hb : b <= 0).
  { apply (Qpower_le_compat_l_inv 2); [|apply two_gt_1].
    eapply Qle_trans; [exact Hlo|]. exact Hle. }
  destruct (Z.eq_dec b 0) as [->|Hne].
  - change (- (0 - 52)) with 52 in *. change (0 - 52) with (-52).
    assert (Ha : (q * 2 ^ 52 <= inject_Z (2 ^ 52))%Q).
    { apply (Qle_trans _ (1 * 2 ^ 52)); [|discriminate].
      apply Qmult_le_compat_r; [exact Hle | apply Qlt_le_weak, pow2_pos]. }
    apply round_half_even_le in Ha.
    set (m := round_half_even _) in *. clearbody m.
    apply (Qle_trans _ (inject_Z (2 ^ 52) * 2 ^ (-52))); [|discriminate].
    apply Qmult_le_compat_r; [|apply Qlt_le_weak, pow2_pos].
    rewrite <- Zle_Qle. exact Ha.
  - assert (Ha : (q * 2 ^ (- (b - 52)) <= inject_Z (2 ^ 53))%Q).
    { eapply Qle_trans; [apply Qlt_le_weak, Hhi'|]. apply Qle_lteq. right. reflexivity. }
    apply round_half_even_le in Ha.
    set (m := round_half_even _) in *. clearbody m.
    apply (Qle_trans _ (inject_Z (2 ^ 53) * 2 ^ (b - 52))).
    { apply Qmult_le_compat_r; [|apply Qlt_le_weak, pow2_pos].
      rewrite <- Zle_Qle. exact Ha. }
    assert (Heq : (inject_Z (2 ^ 53) * 2 ^ (b - 52) == 2 ^ (b + 1))%Q).
    { replace (b + 1) with (53 + (b - 52)) by lia.
      rewrite Qpower_plus by apply two_ne_0. reflexivity. }
    rewrite Heq.
    apply (Qle_trans _ (2 ^ 0)); [|discriminate].
    apply Qpower_le_compat_l; [lia | apply Qlt_le_weak, two_gt_1].
Qed.

Lemma sample_lower_edge (request : Request) :
  (0 <= point_y (point request) /\ point_y (point request) <= 1 # 2 ^ 54)%Q ->
  sample_y request = 256.
Proof.
  unfold sample_y, fbo_size_height.
  set (y := point_y (point request)). clearbody y.
  pose proof round_double_ge_1 as Hge.
  change (2 ^ 54)%positive with 18014398509481984%positive in *.
  intros [Hlo Hhi].
  assert (H1 : (1 <= round_double (1 - y))%Q).
  { apply Hge. destruct y as [n d]. revert Hhi. to_Z. lia. }
  assert (H2 : (round_double (1 - y) <= 1)%Q).
  { apply round_double_le_1; destruct y as [n d]; revert Hlo Hhi; to_Z; lia. }
  set (r := round_double (1 - y)) in *. clearbody r.
  assert (H : 256 <= Qfloor (r * inject_Z 256) < 257); [|lia].
  apply Qfloor_range. destruct r as [n d]. revert H1 H2.
  unfold Qle, Qlt, Qmult, inject_Z. cbn. lia.
Qed.

(** X26. The position at which the read-back samples the buffer
    for a request lies inside the 256 x 256 buffer exactly when the
    point of the request has 0 <= x < 1 and 2^-54 < y <= 1: the
    difference 1 - y is rounded, and from 1 - 2^-54 on it is rounded
    to 1, so that the points up to 2^-54 above the lower edge are
    sampled in row 256, outside the buffer, as the points of the
    lower edge are. *)
Theorem sample_inside (request : Request) :
  (0 <= sample_x request < fbo_size_width <->
   (0 <= point_x (point request) /\ point_x (point request) < 1)%Q) /\
  (0 <= sample_y request < fbo_size_height <->
   (1 # 2 ^ 54 < point_y (point request) /\ point_y (point request) <= 1)%Q) /\
  ((0 <= point_y (point request) /\ point_y (point request) <= 1 # 2 ^ 54)%Q ->
   sample_y request = 256).
Proof.
  refine ((fun H => conj (proj1 H) (conj (proj2 H) (sample_lower_edge request))) _).
  unfold sample_x, sample_y, fbo_size_width, fbo_size_height.
  assert (Hr : forall r : Q,
             (inject_Z 0 <= r * inject_Z 256 /\ r * inject_Z 256 < inject_Z 256)%Q <->
             (0 <= r /\ r < 1)%Q).
  { intros [n d]. unfold Qle, Qlt, Qmult, inject_Z. cbn. lia. }
  rewrite !Qfloor_range, !Hr. split; [reflexivity|].
  set (y := point_y (point request)). clearbody y.
  pose proof round_double_ge_1 as Hge. pose proof round_double_lt_1 as Hlt.
  change (2 ^ 54)%positive with 18014398509481984%positive in *.
  split.
  - intros [H0 H1]. split.
    + apply Qnot_le_lt. intros Hy.
      apply (Qlt_not_le _ _ H1). apply Hge.
      destruct y as [n d]. revert Hy. to_Z. lia.
    + apply Qnot_lt_le. intros Hy.
      apply (Qlt_not_le (round_double (1 - y)) 0); [|exact H0].
      apply round_double_lt_0. destruct y as [n d]. revert Hy. to_Z. lia.
  - intros [Hlo Hhi].
    destruct (Qeq_dec (1 - y) 0) as [Hz|Hnz].
    + rewrite (round_double_0 _ Hz). split; [apply Qle_refl | reflexivity].
    + assert (Hpos : (0 < 1 - y)%Q).
      { destruct y as [n d]. revert Hhi Hnz. to_Z. lia. }
      split.
      * apply Qlt_le_weak, round_double_gt_0, Hpos.
      * apply Hlt; [exact Hpos|].
        destruct y as [n d]. revert Hlo. to_Z. lia.
Qed.

End SamplingFacts.
